(** * SharedProcessWorkerService: a shallow embedding

    Model of [src/vs/platform/sharedProcess/electron-browser/sharedProcessWorkerService.ts].

    The service is asynchronous JavaScript.  Every [async] function is split
    at its [await]s: the synchronous prefix is a state transformer, and each
    resumption is a continuation ([Cont]) that the job queue runs later.
    Promises live in a store, the job (microtask) queue is first-in
    first-out, and everything the service does to the outside world (log
    calls, [new Worker], [postMessage], port closing) is appended to a trace. *)

From stdpp Require Import gmap strings list fin_maps pretty.

(** ** Data exchanged with the outside *)

(** [ISharedProcessWorkerProcess], [ISharedProcessWorkerConfiguration]: the
    fields the service reads. *)
Record ISharedProcessWorkerProcess := {
  moduleId : string;
  type : string
}.

Record ISharedProcessWorkerReply := {
  windowId : nat
}.

Record ISharedProcessWorkerConfiguration := {
  process : ISharedProcessWorkerProcess;
  reply : ISharedProcessWorkerReply
}.

(** [SharedProcessWorkerMessages]; [OtherMessage] stands for any identifier
    the [switch] of [onmessage] does not list. *)
Inductive SharedProcessWorkerMessages :=
| WorkerSpawn
| WorkerTerminate
| WorkerReady
| WorkerAck
| WorkerTrace
| WorkerInfo
| WorkerWarn
| WorkerError
| OtherMessage (tag : string).

#[global] Instance SharedProcessWorkerMessages_eq_dec : EqDecision SharedProcessWorkerMessages.
Proof. solve_decision. Defined.

Record ISharedProcessWorkerEnvironment := {
  bootstrapPath : string
}.

Module ToWorker.
(** [ISharedProcessToWorkerMessage] *)
Record t := {
  id : SharedProcessWorkerMessages;
  configuration : ISharedProcessWorkerConfiguration;
  environment : option ISharedProcessWorkerEnvironment;
  nonce : option string
}.
End ToWorker.

Module FromWorker.
(** [IWorkerToSharedProcessMessage] *)
Record t := {
  id : SharedProcessWorkerMessages;
  message : option string;
  nonce : option string
}.
End FromWorker.

(** JavaScript truthiness of a [string | undefined]. *)
Definition truthy (o : option string) : bool :=
  match o with
  | Some (String _ _) => true
  | _ => false
  end.

(** ** The trace of outside effects *)

Inductive LogLevel := LTrace | LInfo | LWarn | LError.

Inductive LogArg :=
| ArgString (text : string)
| ArgOptString (text : option string)
| ArgMessageEvent (data : FromWorker.t)
| ArgErrorEvent.

Inductive PostData :=
| PostModule (path : string)
| PostMessage (msg : ToWorker.t).

Inductive Event :=
| EvLog (level : LogLevel) (args : list LogArg)
| EvNewWorker (w : nat) (name : string)
| EvPostMessage (w : nat) (data : PostData) (transfer : list nat)
| EvNewMessageChannel (port1 port2 : nat)
| EvPortClose (port : nat)
| EvIpcPostMessage (channel : string) (cfg : ISharedProcessWorkerConfiguration)
    (transfer : list nat)
| EvMessageAwaiter (resolver : nat).

(** ** Promises, continuations, jobs *)

(** Modelled from the spec: [CancellationToken] and [CancellationTokenSource]
    come from [vs/base/common/cancellation], which is not part of the
    sources at hand.  A source is triggered at most once and its token can be
    polled; [CancellationToken.None] is a token that is never cancelled.
    A token is either [None] or the token of the source created by one
    activation of [createWorker]. *)
Inductive CancellationToken :=
| TokenNone
| TokenOf (frame : nat).

(** Resumption points of the [async] functions, and the two jobs the
    language runs when an [async] function returns a promise. *)
Inductive Cont :=
| KInit (this : nat) (ret : nat)
| KSend (this : nat) (message : ToWorker.t) (token : CancellationToken)
    (port : option nat) (ret : nat)
| KCreateWorker1 (frame : nat)
| KCreateWorker2 (frame : nat)
| KResolveThenable (outer inner : nat)
| KFulfill (outer : nat).

(** A promise value: [None] is [undefined], [Some w] is the object [w]
    (a [SharedProcessWebWorker] and the [Worker] it owns share their number). *)
Definition Value := option nat.

Definition Job := (Cont * Value)%type.

Inductive Promise :=
| Pending (reactions : list Cont)
| Fulfilled (value : Value).

(** [workerReady : Promise<Worker>], owned by one [SharedProcessWebWorker]
    and resolved, with that object's [Worker], by [readyResolve]. *)
Inductive ReadyPromise :=
| ReadyPending (reactions : list Cont)
| ReadyResolved.

Record SharedProcessWebWorker := {
  wtype : string;
  workerReady : ReadyPromise;
  mapMessageNonceToMessageResolve : gmap string nat
}.

(** The variables of one activation of [createWorker].  They are shared by
    the body of the function and by the disposable it registers, so they live
    in a store of their own.  [cts] is the state of the activation's
    cancellation source, [returned] that of the promise of the call. *)
Record Frame := {
  configuration : ISharedProcessWorkerConfiguration;
  cts : bool;
  worker : option nat;
  windowPort : option nat;
  workerPort : option nat;
  returned : bool
}.

Record State := {
  workers : gmap string nat;
  processes : gmap Z nat;
  webWorkers : list SharedProcessWebWorker;
  frames : list Frame;
  promises : list Promise;
  microtasks : list Job;
  uuids : nat;
  ports : nat;
  trace : list Event
}.

Definition initial : State := {|
  workers := ∅;
  processes := ∅;
  webWorkers := [];
  frames := [];
  promises := [];
  microtasks := [];
  uuids := 0;
  ports := 0;
  trace := []
|}.

(** *** Field updates *)

Definition set_workers (m : gmap string nat) (s : State) : State :=
  {| workers := m; processes := processes s; webWorkers := webWorkers s;
     frames := frames s; promises := promises s; microtasks := microtasks s;
     uuids := uuids s; ports := ports s; trace := trace s |}.

Definition set_processes (m : gmap Z nat) (s : State) : State :=
  {| workers := workers s; processes := m; webWorkers := webWorkers s;
     frames := frames s; promises := promises s; microtasks := microtasks s;
     uuids := uuids s; ports := ports s; trace := trace s |}.

Definition set_webWorkers (l : list SharedProcessWebWorker) (s : State) : State :=
  {| workers := workers s; processes := processes s; webWorkers := l;
     frames := frames s; promises := promises s; microtasks := microtasks s;
     uuids := uuids s; ports := ports s; trace := trace s |}.

Definition set_frames (l : list Frame) (s : State) : State :=
  {| workers := workers s; processes := processes s; webWorkers := webWorkers s;
     frames := l; promises := promises s; microtasks := microtasks s;
     uuids := uuids s; ports := ports s; trace := trace s |}.

Definition set_promises (l : list Promise) (s : State) : State :=
  {| workers := workers s; processes := processes s; webWorkers := webWorkers s;
     frames := frames s; promises := l; microtasks := microtasks s;
     uuids := uuids s; ports := ports s; trace := trace s |}.

Definition set_microtasks (l : list Job) (s : State) : State :=
  {| workers := workers s; processes := processes s; webWorkers := webWorkers s;
     frames := frames s; promises := promises s; microtasks := l;
     uuids := uuids s; ports := ports s; trace := trace s |}.

Definition set_uuids (n : nat) (s : State) : State :=
  {| workers := workers s; processes := processes s; webWorkers := webWorkers s;
     frames := frames s; promises := promises s; microtasks := microtasks s;
     uuids := n; ports := ports s; trace := trace s |}.

Definition set_ports (n : nat) (s : State) : State :=
  {| workers := workers s; processes := processes s; webWorkers := webWorkers s;
     frames := frames s; promises := promises s; microtasks := microtasks s;
     uuids := uuids s; ports := n; trace := trace s |}.

Definition emit (e : Event) (s : State) : State :=
  {| workers := workers s; processes := processes s; webWorkers := webWorkers s;
     frames := frames s; promises := promises s; microtasks := microtasks s;
     uuids := uuids s; ports := ports s; trace := trace s ++ [e] |}.

Definition enqueue (js : list Job) (s : State) : State :=
  set_microtasks (microtasks s ++ js) s.

Definition set_workerReady (r : ReadyPromise) (ww : SharedProcessWebWorker) :=
  {| wtype := wtype ww; workerReady := r;
     mapMessageNonceToMessageResolve := mapMessageNonceToMessageResolve ww |}.

Definition set_map (m : gmap string nat) (ww : SharedProcessWebWorker) :=
  {| wtype := wtype ww; workerReady := workerReady ww;
     mapMessageNonceToMessageResolve := m |}.

Definition set_cts (b : bool) (fr : Frame) : Frame :=
  {| configuration := configuration fr; cts := b; worker := worker fr;
     windowPort := windowPort fr; workerPort := workerPort fr;
     returned := returned fr |}.

Definition set_worker (w : option nat) (fr : Frame) : Frame :=
  {| configuration := configuration fr; cts := cts fr; worker := w;
     windowPort := windowPort fr; workerPort := workerPort fr;
     returned := returned fr |}.

Definition set_channel (p1 p2 : nat) (fr : Frame) : Frame :=
  {| configuration := configuration fr; cts := cts fr; worker := worker fr;
     windowPort := Some p1; workerPort := Some p2;
     returned := returned fr |}.

Definition set_returned (fr : Frame) : Frame :=
  {| configuration := configuration fr; cts := cts fr; worker := worker fr;
     windowPort := windowPort fr; workerPort := workerPort fr;
     returned := true |}.

Definition update_frame (f : nat) (g : Frame → Frame) (s : State) : State :=
  set_frames (alter g f (frames s)) s.

Definition update_webWorker (w : nat)
    (g : SharedProcessWebWorker → SharedProcessWebWorker) (s : State) : State :=
  set_webWorkers (alter g w (webWorkers s)) s.

(** *** Promise primitives *)

(** [new Promise(...)], and the promise of an [async] call. *)
Definition newPromise (s : State) : nat * State :=
  (length (promises s), set_promises (promises s ++ [Pending []]) s).

(** Calling the [resolve] function of promise [p] with a plain value: the
    first call settles the promise and queues its reactions, later calls do
    nothing. *)
Definition resolvePromise (p : nat) (v : Value) (s : State) : State :=
  match promises s !! p with
  | Some (Pending ks) =>
      enqueue (map (λ k, (k, v)) ks) (set_promises (<[p := Fulfilled v]> (promises s)) s)
  | _ => s
  end.

(** [await p] with continuation [k]. *)
Definition await (p : nat) (k : Cont) (s : State) : State :=
  match promises s !! p with
  | Some (Pending ks) => set_promises (<[p := Pending (ks ++ [k])]> (promises s)) s
  | Some (Fulfilled v) => enqueue [(k, v)] s
  | None => s
  end.

(** [await this.workerReady] inside a method of web worker [w]. *)
Definition awaitReady (w : nat) (k : Cont) (s : State) : State :=
  match webWorkers s !! w with
  | Some ww =>
      match workerReady ww with
      | ReadyPending ks => update_webWorker w (set_workerReady (ReadyPending (ks ++ [k]))) s
      | ReadyResolved => enqueue [(k, Some w)] s
      end
  | None => s
  end.

(** [readyResolve(worker)] *)
Definition readyResolve (w : nat) (s : State) : State :=
  match webWorkers s !! w with
  | Some ww =>
      match workerReady ww with
      | ReadyPending ks =>
          enqueue (map (λ k, (k, Some w)) ks)
            (update_webWorker w (set_workerReady ReadyResolved) s)
      | ReadyResolved => s
      end
  | None => s
  end.

(** Modelled from the spec: [generateUuid] comes from [vs/base/common/uuid],
    which is not part of the sources at hand.  It yields a fresh, globally
    unique correlation id: the [n]-th call returns a non-empty string that
    no other call returns. *)
Definition generateUuid (n : nat) : string := "uuid-" +:+ pretty n.

(** Modelled from the spec: [token.isCancellationRequested].  The token of
    [CancellationToken.None] is never cancelled; the token of a source is
    cancelled once the source was triggered by [cts.dispose(true)], and
    stays so. *)
Definition isCancellationRequested (token : CancellationToken) (s : State) : bool :=
  match token with
  | TokenNone => false
  | TokenOf f =>
      match frames s !! f with
      | Some fr => cts fr
      | None => false
      end
  end.

Definition logService (level : LogLevel) (args : list LogArg) (s : State) : State :=
  emit (EvLog level args) s.

(** ** The service *)

Section Service.

(** Two values the service gets from modules that are not among the sources
    at hand are parameters.  [hash], from
    [vs/platform/sharedProcess/common/sharedProcessWorkerService], maps a
    configuration to its identity number; the service only uses its results
    as keys.  [bootstrapForkPath] is the value of
    [FileAccess.asFileUri('bootstrap-fork', require).fsPath]. *)
Variable hash : ISharedProcessWorkerConfiguration → Z.
Variable bootstrapForkPath : string.

(** *** SharedProcessWebWorker *)

(** [doInit], run by the field initialiser of [workerReady] when the object
    is constructed: creates the [Worker], installs the handlers and posts the
    first message.  The handlers are [onerror], [onmessageerror] and
    [onmessage] below. *)
Definition doInit (this : nat) (type : string) (s : State) : State :=
  let s := emit (EvNewWorker this ("Shared Process Worker (" +:+ type +:+ ")")) s in
  emit (EvPostMessage this
          (PostModule "vs/platform/sharedProcess/electron-browser/sharedProcessWorkerMain") []) s.

(** [new SharedProcessWebWorker(type, logService)] *)
Definition newSharedProcessWebWorker (type : string) (s : State) : nat * State :=
  let this := length (webWorkers s) in
  let s := set_webWorkers (webWorkers s ++
             [{| wtype := type; workerReady := ReadyPending [];
                 mapMessageNonceToMessageResolve := ∅ |}]) s in
  (this, doInit this type s).

(** [init]: up to [await this.workerReady]. *)
Definition init (this : nat) (s : State) : nat * State :=
  let '(ret, s) := newPromise s in
  (ret, awaitReady this (KInit this ret) s).

(** [init]: [return this]. *)
Definition init_resume (this ret : nat) (s : State) : State :=
  resolvePromise ret (Some this) s.

(** [send]: up to [await this.workerReady]. *)
Definition send (this : nat) (message : ToWorker.t) (token : CancellationToken)
    (port : option nat) (s : State) : nat * State :=
  let '(ret, s) := newPromise s in
  (ret, awaitReady this (KSend this message token port ret) s).

Definition withNonce (message : ToWorker.t) (nonce : string) : ToWorker.t :=
  {| ToWorker.id := ToWorker.id message;
     ToWorker.configuration := ToWorker.configuration message;
     ToWorker.environment := ToWorker.environment message;
     ToWorker.nonce := Some nonce |}.

(** [send]: from [const worker = await this.workerReady] to the end.  The
    [worker] is the awaited value; [workerReady] is a [Promise<Worker>], so
    the value is never [undefined] and that case is left without effect. *)
Definition send_resume (this : nat) (message : ToWorker.t) (token : CancellationToken)
    (port : option nat) (ret : nat) (worker : Value) (s : State) : State :=
  if isCancellationRequested token s then resolvePromise ret None s
  else
    let '(inner, s) := newPromise s in
    let nonce := generateUuid (uuids s) in
    let s := set_uuids (S (uuids s)) s in
    let s := update_webWorker this
               (λ ww, set_map (<[nonce := inner]> (mapMessageNonceToMessageResolve ww)) ww) s in
    let workerMessage := withNonce message nonce in
    let s := match worker with
             | Some w =>
                 emit (EvPostMessage w (PostMessage workerMessage)
                         (match port with Some p => [p] | None => [] end)) s
             | None => s
             end in
    enqueue [(KResolveThenable ret inner, None)] s.

Definition spawn (this : nat) (configuration : ISharedProcessWorkerConfiguration)
    (port : nat) (token : CancellationToken) (s : State) : nat * State :=
  let workerMessage :=
    {| ToWorker.id := WorkerSpawn;
       ToWorker.configuration := configuration;
       ToWorker.environment := Some {| bootstrapPath := bootstrapForkPath |};
       ToWorker.nonce := None |} in
  send this workerMessage token (Some port) s.

Definition terminate (this : nat) (configuration : ISharedProcessWorkerConfiguration)
    (token : CancellationToken) (s : State) : nat * State :=
  let workerMessage :=
    {| ToWorker.id := WorkerTerminate;
       ToWorker.configuration := configuration;
       ToWorker.environment := None;
       ToWorker.nonce := None |} in
  send this workerMessage token None s.

(** The [WorkerAck] case of [onmessage]. *)
Definition onAck (this : nat) (nonce : option string) (s : State) : State :=
  if truthy nonce then
    match nonce, webWorkers s !! this with
    | Some n, Some ww =>
        match mapMessageNonceToMessageResolve ww !! n with
        | Some messageAwaiter =>
            let s := update_webWorker this
                       (λ ww, set_map (delete n (mapMessageNonceToMessageResolve ww)) ww) s in
            resolvePromise messageAwaiter None (emit (EvMessageAwaiter messageAwaiter) s)
        | None => s
        end
    | _, _ => s
    end
  else s.

(** [worker.onmessage] of web worker [this]. *)
Definition onmessage (this : nat) (data : FromWorker.t) (s : State) : State :=
  match webWorkers s !! this with
  | None => s
  | Some ww =>
      let prefix := "SharedProcess (" +:+ wtype ww +:+ ") [worker]:" in
      match FromWorker.id data with
      | WorkerReady => readyResolve this s
      | WorkerAck => onAck this (FromWorker.nonce data) s
      | WorkerTrace =>
          logService LTrace [ArgString prefix; ArgOptString (FromWorker.message data)] s
      | WorkerInfo =>
          if truthy (FromWorker.message data)
          then logService LInfo [ArgOptString (FromWorker.message data)] s
          else s
      | WorkerWarn =>
          logService LWarn [ArgString prefix; ArgOptString (FromWorker.message data)] s
      | WorkerError =>
          logService LError [ArgString prefix; ArgOptString (FromWorker.message data)] s
      | _ =>
          logService LWarn
            [ArgString ("SharedProcess: unexpected worker message (" +:+ wtype ww +:+ ")");
             ArgMessageEvent data] s
      end
  end.

(** [worker.onerror] and [worker.onmessageerror]. *)
Definition onerror (this : nat) (message : string) (s : State) : State :=
  match webWorkers s !! this with
  | None => s
  | Some ww =>
      logService LError
        [ArgString ("SharedProcess: worker error (" +:+ wtype ww +:+ ")"); ArgString message] s
  end.

Definition onmessageerror (this : nat) (s : State) : State :=
  match webWorkers s !! this with
  | None => s
  | Some ww =>
      logService LError
        [ArgString ("SharedProcess: worker message error (" +:+ wtype ww +:+ ")");
         ArgErrorEvent] s
  end.

(** *** SharedProcessWorkerService *)

Definition workerLogId (configuration : ISharedProcessWorkerConfiguration) : string :=
  "window: " +:+ pretty (windowId (reply configuration)) +:+
  ", moduleId: " +:+ moduleId (process configuration).

Definition getOrCreateWebWorker (configuration : ISharedProcessWorkerConfiguration)
    (s : State) : nat * State :=
  match workers s !! moduleId (process configuration) with
  | Some webWorkerPromise => (webWorkerPromise, s)
  | None =>
      let s := logService LTrace
                 [ArgString ("SharedProcess: creating new web worker (" +:+
                             moduleId (process configuration) +:+ ")")] s in
      let '(sharedProcessWorker, s) :=
        newSharedProcessWebWorker (type (process configuration)) s in
      let '(webWorkerPromise, s) := init sharedProcessWorker s in
      (webWorkerPromise,
       set_workers (<[moduleId (process configuration) := webWorkerPromise]> (workers s)) s)
  end.

(** The function handed to [toDisposable] by the activation [f] of
    [createWorker]; the disposable stored in [processes] is identified with
    the frame it closes over, and its [dispose()] runs this function. *)
Definition dispose (f : nat) (s : State) : State :=
  match frames s !! f with
  | None => s
  | Some fr =>
      (* cts.dispose(true) *)
      let s := update_frame f (set_cts true) s in
      (* worker?.terminate(configuration, CancellationToken.None) *)
      let s := match worker fr with
               | Some w => snd (terminate w (configuration fr) TokenNone s)
               | None => s
               end in
      (* windowPort?.close(); workerPort?.close() *)
      let s := match windowPort fr with Some p => emit (EvPortClose p) s | None => s end in
      let s := match workerPort fr with Some p => emit (EvPortClose p) s | None => s end in
      set_processes (delete (hash (configuration fr)) (processes s)) s
  end.

(** [disposeWorker] has no [await]: the whole body runs in the call. *)
Definition disposeWorker (configuration : ISharedProcessWorkerConfiguration)
    (s : State) : State :=
  match processes s !! hash configuration with
  | Some processDisposable =>
      let s := logService LTrace
                 [ArgString ("SharedProcess: disposeWorker (" +:+
                             workerLogId configuration +:+ ")")] s in
      dispose processDisposable s
  | None => s
  end.

(** [createWorker]: up to [await this.getOrCreateWebWorker(configuration)]. *)
Definition createWorker (configuration : ISharedProcessWorkerConfiguration)
    (s : State) : State :=
  let s := logService LTrace
             [ArgString ("SharedProcess: createWorker (" +:+
                         workerLogId configuration +:+ ")")] s in
  let s := disposeWorker configuration s in
  let f := length (frames s) in
  let s := set_frames (frames s ++
             [{| configuration := configuration; cts := false; worker := None;
                 windowPort := None; workerPort := None; returned := false |}]) s in
  let s := set_processes (<[hash configuration := f]> (processes s)) s in
  let '(webWorkerPromise, s) := getOrCreateWebWorker configuration s in
  await webWorkerPromise (KCreateWorker1 f) s.

(** [return] of activation [f]: the promise of the call is fulfilled. *)
Definition createWorker_return (f : nat) (s : State) : State :=
  update_frame f set_returned s.

(** [createWorker]: from [worker = await ...] to [await worker.spawn(...)].
    The awaited promise is a [Promise<SharedProcessWebWorker>], so the case of
    an [undefined] value is left without effect. *)
Definition createWorker_resume1 (f : nat) (v : Value) (s : State) : State :=
  let s := update_frame f (set_worker v) s in
  if isCancellationRequested (TokenOf f) s then createWorker_return f s
  else
    match frames s !! f, v with
    | Some fr, Some w =>
        let port1 := ports s in
        let port2 := S (ports s) in
        let s := emit (EvNewMessageChannel port1 port2) (set_ports (S (S (ports s))) s) in
        let s := update_frame f (set_channel port1 port2) s in
        let '(acked, s) := spawn w (configuration fr) port2 (TokenOf f) s in
        await acked (KCreateWorker2 f) s
    | _, _ => s
    end.

(** [createWorker]: after [await worker.spawn(...)]. *)
Definition createWorker_resume2 (f : nat) (s : State) : State :=
  if isCancellationRequested (TokenOf f) s then createWorker_return f s
  else
    match frames s !! f with
    | Some fr =>
        let s := logService LTrace
                   [ArgString ("SharedProcess: createWorker sending message port back to window ("
                               +:+ workerLogId (configuration fr) +:+ ")")] s in
        let s := emit (EvIpcPostMessage "vscode:relaySharedProcessWorkerMessageChannel"
                         (configuration fr)
                         (match windowPort fr with Some p => [p] | None => [] end)) s in
        createWorker_return f s
    | None => s
    end.

(** *** The event loop *)

Definition runJob (j : Job) (s : State) : State :=
  match j with
  | (KInit this ret, _) => init_resume this ret s
  | (KSend this message token port ret, v) => send_resume this message token port ret v s
  | (KCreateWorker1 f, v) => createWorker_resume1 f v s
  | (KCreateWorker2 f, _) => createWorker_resume2 f s
  | (KResolveThenable outer inner, _) => await inner (KFulfill outer) s
  | (KFulfill outer, v) => resolvePromise outer v s
  end.

(** What can happen to the service: a call of one of its two methods, an
    event on one of its web workers, or the next job of the queue. *)
Inductive Input :=
| CallCreateWorker (configuration : ISharedProcessWorkerConfiguration)
| CallDisposeWorker (configuration : ISharedProcessWorkerConfiguration)
| OnMessage (w : nat) (data : FromWorker.t)
| OnError (w : nat) (message : string)
| OnMessageError (w : nat)
| Microtask.

Definition step (s : State) (i : Input) : State :=
  match i with
  | CallCreateWorker configuration => createWorker configuration s
  | CallDisposeWorker configuration => disposeWorker configuration s
  | OnMessage w data => onmessage w data s
  | OnError w message => onerror w message s
  | OnMessageError w => onmessageerror w s
  | Microtask =>
      match microtasks s with
      | [] => s
      | j :: rest => runJob j (set_microtasks rest s)
      end
  end.

Definition run (s : State) (inputs : list Input) : State := foldl step s inputs.

End Service.

(** ** Observations on states and traces *)

(** The pending-correlation tables of all web workers. *)
Definition tables (s : State) : list (gmap string nat) :=
  map mapMessageNonceToMessageResolve (webWorkers s).

(** [new Worker] calls recorded in a trace. *)
Definition isNewWorker (e : Event) : bool :=
  match e with EvNewWorker _ _ => true | _ => false end.

Definition newWorkerCount (t : list Event) : nat := length (filter isNewWorker t).

(** The keys of the [createWorker] calls among some inputs. *)
Definition requestedKey (i : Input) : list string :=
  match i with
  | CallCreateWorker configuration => [moduleId (process configuration)]
  | _ => []
  end.

Definition requestedKeys (inputs : list Input) : gset string :=
  list_to_set (inputs ≫= requestedKey).

(** ** Concrete configurations and states used by the examples *)

Definition exampleHash (c : ISharedProcessWorkerConfiguration) : Z :=
  Z.of_nat (windowId (reply c)).

Definition exampleConfiguration : ISharedProcessWorkerConfiguration :=
  {| process := {| moduleId := "m1"; type := "A" |}; reply := {| windowId := 1 |} |}.

Definition readyMessage : FromWorker.t :=
  {| FromWorker.id := WorkerReady; FromWorker.message := None; FromWorker.nonce := None |}.

Definition ackMessage (nonce : option string) : FromWorker.t :=
  {| FromWorker.id := WorkerAck; FromWorker.message := None; FromWorker.nonce := nonce |}.

Definition exampleRun : list Input → State := run exampleHash "bootstrap-fork" initial.

(** A web worker whose table holds an entry under the empty string. *)
Definition emptyKeyState : State :=
  set_webWorkers
    [{| wtype := "A"; workerReady := ReadyResolved;
        mapMessageNonceToMessageResolve := {[ "" := 0 ]} |}]
    (set_promises [Pending []] initial).

(** ** Relations between a state and a later one *)

(** The [Worker] of web worker [w] has signalled that it is ready. *)
Definition isReady (s : State) (w : nat) : Prop :=
  ∃ ww, webWorkers s !! w = Some ww ∧ workerReady ww = ReadyResolved.

(** What an activation of [createWorker] never undoes: the configuration of
    a frame is fixed, a triggered cancellation source stays triggered and a
    fulfilled call stays fulfilled. *)
Definition frame_le (fr fr' : Frame) : Prop :=
  configuration fr' = configuration fr ∧
  (cts fr = true → cts fr' = true) ∧
  (returned fr = true → returned fr' = true).

(** An update [g] of web worker [w] that does not undo its readiness. *)
Definition keeps_ready (s : State) (w : nat)
    (g : SharedProcessWebWorker → SharedProcessWebWorker) : Prop :=
  ∀ ww, webWorkers s !! w = Some ww → workerReady ww = ReadyResolved →
        workerReady (g ww) = ReadyResolved.

(** [later s s']: [s'] extends [s]; stores and counters only grow, the
    trace and the registry of web workers are only added to. *)
Record later (s s' : State) : Prop := {
  later_trace : trace s `prefix_of` trace s';
  later_frames : ∀ f fr, frames s !! f = Some fr →
                   ∃ fr', frames s' !! f = Some fr' ∧ frame_le fr fr';
  later_promises : length (promises s) ≤ length (promises s');
  later_webWorkers : length (webWorkers s) ≤ length (webWorkers s');
  later_ports : ports s ≤ ports s';
  later_uuids : uuids s ≤ uuids s';
  later_workers : workers s ⊆ workers s';
  later_ready : ∀ w, isReady s w → isReady s' w
}.

(** [queued s s']: moreover the job queue of [s] is a prefix of that of
    [s'], which holds of everything but the removal of the first job. *)
Definition queued (s s' : State) : Prop :=
  later s s' ∧ microtasks s `prefix_of` microtasks s'.

(** ** Invariants of the reachable states *)

(** The registered handles are exactly the activations whose cancellation
    source has not been triggered, each under the hash of its configuration. *)
Definition handles_ok (hash : ISharedProcessWorkerConfiguration → Z) (s : State) : Prop :=
  ∀ h f, processes s !! h = Some f ↔
         ∃ fr, frames s !! f = Some fr ∧ hash (configuration fr) = h ∧ cts fr = false.

(** ** Views of a state, and what leaves them alone *)

(** [resolve] calls made by the Ack handler, in order. *)
Definition awaiterCall (e : Event) : list nat :=
  match e with EvMessageAwaiter r => [r] | _ => [] end.

Definition awaiterCalls (t : list Event) : list nat := t ≫= awaiterCall.

(** The registry of process handles: the map, and per activation the
    configuration and the state of the cancellation source. *)
Definition handles (s : State) : gmap Z nat * list (ISharedProcessWorkerConfiguration * bool) :=
  (processes s, (λ fr, (configuration fr, cts fr)) <$> frames s).

(** The registry of web workers: the map, the number of
    [SharedProcessWebWorker] objects and the number of [Worker]s created. *)
Definition registry (s : State) : gmap string nat * nat * nat :=
  (workers s, length (webWorkers s), newWorkerCount (trace s)).

(** The correlation bookkeeping: the entry of web worker [w] under [nonce],
    and the resolver calls. *)
Definition pendingEntry (s : State) (w : nat) (nonce : string) : option nat :=
  webWorkers s !! w ≫= λ ww, mapMessageNonceToMessageResolve ww !! nonce.

Definition same_correlations (s s' : State) : Prop :=
  (∀ w nonce, pendingEntry s' w nonce = pendingEntry s w nonce) ∧
  awaiterCalls (trace s') = awaiterCalls (trace s).

(** [unchanged hs rg cr s s']: from [s] to [s'] the views selected by the
    three flags are the same. *)
Record unchanged (hs rg cr : bool) (s s' : State) : Prop := {
  unchanged_handles : hs = true → handles s' = handles s;
  unchanged_registry : rg = true → registry s' = registry s;
  unchanged_correlations : cr = true → same_correlations s s'
}.

(** One [Worker] was created per [SharedProcessWebWorker] object, and one
    such object per key of the [workers] map. *)
Definition registry_ok (s : State) : Prop :=
  newWorkerCount (trace s) = length (webWorkers s) ∧
  size (workers s) = length (webWorkers s).

(** The correlation bookkeeping is consistent: every pending entry sits
    under a generated nonce, its resolver is a promise of the store, has not
    been called and belongs to no other entry; no resolver was called twice. *)
Definition correlations_ok (s : State) : Prop :=
  (∀ w n r, pendingEntry s w n = Some r →
     (∃ i, i < uuids s ∧ n = generateUuid i) ∧
     r < length (promises s) ∧
     (r ∉ awaiterCalls (trace s)) ∧
     (∀ w' n', pendingEntry s w' n' = Some r → w' = w ∧ n' = n)) ∧
  NoDup (awaiterCalls (trace s)) ∧
  (∀ r, r ∈ awaiterCalls (trace s) → r < length (promises s)).

Definition spawnMessage : ToWorker.t :=
  {| ToWorker.id := WorkerSpawn;
     ToWorker.configuration := exampleConfiguration;
     ToWorker.environment := Some {| bootstrapPath := "bootstrap-fork" |};
     ToWorker.nonce := None |}.

(** The web worker is ready and [createWorker] is about to resume. *)
Definition workerAcquired : State :=
  exampleRun [CallCreateWorker exampleConfiguration; OnMessage 0 readyMessage; Microtask].

(** [createWorker] has called [spawn], then the handle was disposed. *)
Definition disposedWhileSpawning : State :=
  exampleRun [CallCreateWorker exampleConfiguration; OnMessage 0 readyMessage;
              Microtask; Microtask; CallDisposeWorker exampleConfiguration].

(** The handle was disposed while [createWorker] awaited the web worker. *)
Definition disposedWhileAcquiring : State :=
  exampleRun [CallCreateWorker exampleConfiguration;
              CallDisposeWorker exampleConfiguration;
              OnMessage 0 readyMessage; Microtask].

(** ** Well-formed states *)

(** A value handed to a continuation is [undefined] or a ready web worker. *)
Definition value_ok (s : State) (v : Value) : Prop :=
  ∀ w, v = Some w → isReady s w.

(** The frames and ports a continuation refers to exist. *)
Definition cont_ok (s : State) (k : Cont) : Prop :=
  match k with
  | KCreateWorker1 f | KCreateWorker2 f => f < length (frames s)
  | KSend _ _ _ port _ => ∀ p, port = Some p → p < ports s
  | _ => True
  end.

Definition isInit (k : Cont) : bool :=
  match k with KInit _ _ => true | _ => false end.

Definition thisOf (k : Cont) : option nat :=
  match k with
  | KInit this _ | KSend this _ _ _ _ => Some this
  | _ => None
  end.

(** A queued job: [init] resumes only once its web worker is ready. *)
Definition job_ok (s : State) (j : Job) : Prop :=
  cont_ok s j.1 ∧ value_ok s j.2 ∧
  (isInit j.1 = true → ∀ w, thisOf j.1 = Some w → isReady s w).

(** A reaction of a promise of the store: never the resumption of [init]. *)
Definition reaction_ok (s : State) (k : Cont) : Prop :=
  cont_ok s k ∧ isInit k = false.

(** A reaction of [workerReady] of web worker [w]: [init] waits on the
    promise of its own object. *)
Definition waiter_ok (s : State) (w : nat) (k : Cont) : Prop :=
  cont_ok s k ∧ (isInit k = true → thisOf k = Some w).

(** Ports sent to a worker exist. *)
Definition event_ok (s : State) (e : Event) : Prop :=
  match e with
  | EvPostMessage _ _ transfer => ∀ p, p ∈ transfer → p < ports s
  | _ => True
  end.

Record wf (s : State) : Prop := {
  wf_jobs : Forall (job_ok s) (microtasks s);
  wf_reactions : ∀ p ks, promises s !! p = Some (Pending ks) → Forall (reaction_ok s) ks;
  wf_values : ∀ p v, promises s !! p = Some (Fulfilled v) → value_ok s v;
  wf_waiters : ∀ w ww ks, webWorkers s !! w = Some ww →
                 workerReady ww = ReadyPending ks → Forall (waiter_ok s w) ks;
  wf_frames : ∀ f fr w, frames s !! f = Some fr → worker fr = Some w → isReady s w;
  wf_trace : Forall (event_ok s) (trace s)
}.

(** What the well-formedness of continuations, values and events depends
    on only grows. *)
Definition grows (s s' : State) : Prop :=
  length (frames s) ≤ length (frames s') ∧ ports s ≤ ports s' ∧
  ∀ w, isReady s w → isReady s' w.

(** ** Messages in the trace *)

Definition terminateMessage (cfg : ISharedProcessWorkerConfiguration)
    (nonce : option string) : ToWorker.t :=
  {| ToWorker.id := WorkerTerminate;
     ToWorker.configuration := cfg;
     ToWorker.environment := None;
     ToWorker.nonce := nonce |}.

(** The job that [terminate] leaves in the queue when the web worker is
    ready: the rest of [send], with [CancellationToken.None]. *)
Definition terminateJob (w : nat) (cfg : ISharedProcessWorkerConfiguration)
    (ret : nat) : Job :=
  (KSend w (terminateMessage cfg None) TokenNone None ret, Some w).

(** The terminate message of [cfg] is the [i]-th event of the trace. *)
Definition terminatePostedAt (s : State) (cfg : ISharedProcessWorkerConfiguration)
    (i : nat) : Prop :=
  ∃ w nonce, trace s !! i =
             Some (EvPostMessage w (PostMessage (terminateMessage cfg (Some nonce))) []).

Definition terminatePosted (s : State) (cfg : ISharedProcessWorkerConfiguration) : Prop :=
  ∃ i, terminatePostedAt s cfg i.

(** The [j]-th event of the trace posts the spawn message of activation [f]:
    a spawn message that carries the worker port of the frame. *)
Definition spawnPostedAt (s : State) (f : nat) (j : nat) : Prop :=
  ∃ w msg p, trace s !! j = Some (EvPostMessage w (PostMessage msg) [p]) ∧
             ToWorker.id msg = WorkerSpawn ∧
             workerPort <$> frames s !! f = Some (Some p).

Definition terminate_precedes_spawn (s : State)
    (cfg : ISharedProcessWorkerConfiguration) (f : nat) : Prop :=
  ∀ j, spawnPostedAt s f j → ∃ i, i < j ∧ terminatePostedAt s cfg i.

(** ** A handle disposed before its web worker is ready *)

Definition postsTerminate (e : Event) : bool :=
  match e with
  | EvPostMessage _ (PostMessage m) _ =>
      match ToWorker.id m with WorkerTerminate => true | _ => false end
  | _ => false
  end.

(** The inputs that come from the workers and from the job queue, as
    opposed to calls of the service. *)
Definition workerTurn (i : Input) : bool :=
  match i with
  | CallCreateWorker _ | CallDisposeWorker _ => false
  | _ => true
  end.

(** What is left of [createWorker exampleConfiguration] followed at once by
    [disposeWorker exampleConfiguration]: the [Worker] loads, then [init]
    resumes, then [createWorker] resumes and returns. *)
Inductive Phase := Loading | Loaded | Acquired | Returned.

Definition phaseState (ph : Phase) (t : list Event) : State :=
  {| workers := {[ "m1" := 0 ]};
     processes := ∅;
     webWorkers :=
       [{| wtype := "A";
           workerReady := match ph with
                          | Loading => ReadyPending [KInit 0 0]
                          | _ => ReadyResolved
                          end;
           mapMessageNonceToMessageResolve := ∅ |}];
     frames :=
       [{| configuration := exampleConfiguration; cts := true;
           worker := match ph with Returned => Some 0 | _ => None end;
           windowPort := None; workerPort := None;
           returned := match ph with Returned => true | _ => false end |}];
     promises :=
       [match ph with
        | Loading | Loaded => Pending [KCreateWorker1 0]
        | _ => Fulfilled (Some 0)
        end];
     microtasks :=
       match ph with
       | Loaded => [(KInit 0 0, Some 0)]
       | Acquired => [(KCreateWorker1 0, Some 0)]
       | _ => []
       end;
     uuids := 0;
     ports := 0;
     trace := t |}.

(** ** Two statements of the specification that the code does not satisfy *)

(** C4 as stated: whenever a registered handle is disposed, the terminate
    message of its configuration is transmitted, for some course of the
    workers and of the job queue. *)
Definition terminate_always_transmitted
    (hash : ISharedProcessWorkerConfiguration → Z) (bootstrapForkPath : string) : Prop :=
  ∀ inputs cfg f fr,
    let s := run hash bootstrapForkPath initial inputs in
    processes s !! hash cfg = Some f → frames s !! f = Some fr →
    ∃ more, forallb workerTurn more = true ∧
            terminatePosted
              (run hash bootstrapForkPath (disposeWorker hash cfg s) more)
              (configuration fr).

(** C2 as stated: when [createWorker] replaces a registered handle, the
    terminate message of the replaced process is transmitted before the spawn
    message of the new one. *)
Definition replacement_terminates_first
    (hash : ISharedProcessWorkerConfiguration → Z) (bootstrapForkPath : string) : Prop :=
  ∀ inputs cfg f fr more,
    let s := run hash bootstrapForkPath initial inputs in
    processes s !! hash cfg = Some f → frames s !! f = Some fr →
    terminate_precedes_spawn
      (run hash bootstrapForkPath (createWorker hash cfg s) more)
      (configuration fr) (length (frames s)).

(** ** Channels *)

(** The activation whose channel a job may create. *)
Definition channelOwner (j : Job) : option nat :=
  match j.1 with KCreateWorker1 f => Some f | _ => None end.

(** From [s] to [s'] every frame but [except] keeps its worker port. *)
Definition channels_kept (except : option nat) (s s' : State) : Prop :=
  ∀ f fr, except ≠ Some f → frames s !! f = Some fr →
          ∃ fr', frames s' !! f = Some fr' ∧ workerPort fr' = workerPort fr.

(** ** The terminate job of a disposal *)

(** From [s1], where the terminate job of a disposal is behind [n] jobs of
    the queue: after [n] turns of the queue that job is the first one, the
    trace still continues that of [s1], and the next turn posts the
    terminate message, under a fresh nonce, as the next event. *)
Definition terminate_job_transmits
    (hash : ISharedProcessWorkerConfiguration → Z) (path : string)
    (s1 : State) (n w : nat) (cfg : ISharedProcessWorkerConfiguration) (ret : nat) : Prop :=
  let s2 := run hash path s1 (replicate n Microtask) in
  ∃ rest t,
    microtasks s2 = terminateJob w cfg ret :: rest ∧
    trace s2 = trace s1 ++ t ∧
    trace (run hash path s1 (replicate (S n) Microtask)) =
      trace s2 ++
      [EvPostMessage w
         (PostMessage (terminateMessage cfg (Some (generateUuid (uuids s2))))) []].

(** Among the inputs [more] that follow [s1] is the turn of the queue that
    runs the terminate job: the job is the first of the queue before that
    turn, and the turn posts the terminate message as the [i]-th event. *)
Definition terminate_job_ran
    (hash : ISharedProcessWorkerConfiguration → Z) (path : string)
    (s1 : State) (more : list Input)
    (w : nat) (cfg : ISharedProcessWorkerConfiguration) (ret i : nat) : Prop :=
  ∃ more1 more2 rest,
    more = more1 ++ Microtask :: more2 ∧
    microtasks (run hash path s1 more1) = terminateJob w cfg ret :: rest ∧
    i = length (trace (run hash path s1 more1)) ∧
    trace (run hash path s1 more) !! i =
      Some (EvPostMessage w
              (PostMessage (terminateMessage cfg
                              (Some (generateUuid (uuids (run hash path s1 more1)))))) []).

(** Every spawn message of activation [f2] comes after the message that the
    terminate job posted. *)
Definition terminate_job_precedes_spawn
    (hash : ISharedProcessWorkerConfiguration → Z) (path : string)
    (s1 : State) (more : list Input)
    (w : nat) (cfg : ISharedProcessWorkerConfiguration) (ret f2 : nat) : Prop :=
  ∀ j, spawnPostedAt (run hash path s1 more) f2 j →
       ∃ i, i < j ∧ terminate_job_ran hash path s1 more w cfg ret i.

(** ** Replacing a handle whose activation holds its web worker *)

(** The terminate job of the replaced process is in the queue, and the
    resumption of the new activation [f2] is not ahead of it. *)
Definition awaiting_terminate (w : nat) (cfg : ISharedProcessWorkerConfiguration)
    (ret f2 : nat) (s : State) : Prop :=
  ∃ q1 q2,
    microtasks s = q1 ++ terminateJob w cfg ret :: q2 ∧
    (∀ j, j ∈ q1 → channelOwner j ≠ Some f2) ∧
    workerPort <$> frames s !! f2 = Some None.

(** The terminate job ran, and before any spawn message of [f2]. *)
Definition terminated_first
    (hash : ISharedProcessWorkerConfiguration → Z) (path : string)
    (s1 : State) (more : list Input)
    (w : nat) (cfg : ISharedProcessWorkerConfiguration) (ret f2 : nat) : Prop :=
  ∃ i, terminate_job_ran hash path s1 more w cfg ret i ∧
       ∀ j, spawnPostedAt (run hash path s1 more) f2 j → i < j.

Definition replacing
    (hash : ISharedProcessWorkerConfiguration → Z) (path : string)
    (s1 : State) (more : list Input)
    (w : nat) (cfg : ISharedProcessWorkerConfiguration) (ret f2 : nat) : Prop :=
  let s := run hash path s1 more in
  wf s ∧ is_Some (frames s !! f2) ∧
  (awaiting_terminate w cfg ret f2 s ∨ terminated_first hash path s1 more w cfg ret f2).

(** The frame of an activation that still awaits its web worker. *)
Definition awaitingFrame : Frame :=
  {| configuration := exampleConfiguration; cts := false; worker := None;
     windowPort := None; workerPort := None; returned := false |}.

(** The frame of an activation that has acquired its web worker and whose
    spawn message is with the worker, not yet acknowledged. *)
Definition spawningFrame : Frame :=
  {| configuration := exampleConfiguration; cts := false; worker := Some 0;
     windowPort := Some 0; workerPort := Some 1; returned := false |}.

Definition spawningInputs : list Input :=
  [CallCreateWorker exampleConfiguration; OnMessage 0 readyMessage;
   Microtask; Microtask; Microtask; Microtask].

(** What follows a second [createWorker]: the worker becomes ready and the
    job queue runs. *)
Definition readyThenDrain : list Input :=
  [OnMessage 0 readyMessage; Microtask; Microtask; Microtask; Microtask; Microtask].

(** Another window asks for the same module; another module of the same
    type. *)
Definition sameModuleConfiguration : ISharedProcessWorkerConfiguration :=
  {| process := {| moduleId := "m1"; type := "A" |}; reply := {| windowId := 2 |} |}.

Definition otherModuleConfiguration : ISharedProcessWorkerConfiguration :=
  {| process := {| moduleId := "m2"; type := "A" |}; reply := {| windowId := 2 |} |}.

(** ** Log entries *)

Definition isLog (e : Event) : bool :=
  match e with EvLog _ _ => true | _ => false end.

(** [logged s s']: [s'] is [s] with at most one entry added to the log;
    nothing else of the state differs. *)
Definition logged (s s' : State) : Prop :=
  ∃ entries, forallb isLog entries = true ∧ length entries ≤ 1 ∧
    s' = {| workers := workers s; processes := processes s; webWorkers := webWorkers s;
            frames := frames s; promises := promises s; microtasks := microtasks s;
            uuids := uuids s; ports := ports s; trace := trace s ++ entries |}.

(** ** Continuations held by a state *)

Definition reactionsOf (pr : Promise) : list Cont :=
  match pr with Pending ks => ks | Fulfilled _ => [] end.

Definition waitersOf (ww : SharedProcessWebWorker) : list Cont :=
  match workerReady ww with ReadyPending ks => ks | ReadyResolved => [] end.

(** Every continuation that can still run: those of the queued jobs, the
    reactions of the pending promises and what waits for a [Worker]. *)
Definition conts (s : State) : list Cont :=
  (fst <$> microtasks s) ++ (promises s ≫= reactionsOf) ++ (webWorkers s ≫= waitersOf).

(** The continuations that belong to no activation of [createWorker]: the
    resumptions of [init] and of a [terminate] call, and the two jobs of a
    returned promise. *)
Definition plain (k : Cont) : Prop :=
  match k with
  | KInit _ _ | KResolveThenable _ _ | KFulfill _ => True
  | KSend _ m TokenNone port _ => port = None ∧ ∃ cfg, m = terminateMessage cfg None
  | _ => False
  end.

(** ** Kinds of outside effects *)

Inductive Kind :=
| KindLog | KindNewWorker | KindLoad | KindPost | KindChannel | KindClose | KindRelay
| KindAwaiter.

Definition kindOf (e : Event) : Kind :=
  match e with
  | EvLog _ _ => KindLog
  | EvNewWorker _ _ => KindNewWorker
  | EvPostMessage _ (PostModule _) [] => KindLoad
  | EvPostMessage _ _ _ => KindPost
  | EvNewMessageChannel _ _ => KindChannel
  | EvPortClose _ => KindClose
  | EvIpcPostMessage _ _ _ => KindRelay
  | EvMessageAwaiter _ => KindAwaiter
  end.

(** ** What leaves the channels alone *)

(** A frame and a later state of it with the same two ports. *)
Definition same_channel (fr fr' : Frame) : Prop :=
  frame_le fr fr' ∧ windowPort fr' = windowPort fr ∧ workerPort fr' = workerPort fr.

(** [quiet K s s']: from [s] to [s'] the effects are of the kinds [K], the
    continuations added are [plain], every frame keeps its ports, the frames
    added have no ports and the port counter is the same. *)
Record quiet (K : Kind → bool) (s s' : State) : Prop := {
  quiet_trace : ∃ evs, trace s' = trace s ++ evs ∧ Forall (λ e, K (kindOf e) = true) evs;
  quiet_conts : ∃ news, conts s' ⊆+ news ++ conts s ∧ Forall plain news;
  quiet_frames : ∀ f fr, frames s !! f = Some fr →
                   ∃ fr', frames s' !! f = Some fr' ∧ same_channel fr fr';
  quiet_new : ∀ f fr', frames s' !! f = Some fr' → length (frames s) ≤ f →
                windowPort fr' = None ∧ workerPort fr' = None;
  quiet_ports : ports s' = ports s
}.

(** ** Message ports *)

(** The ports an effect hands over: the transfer list of a [postMessage],
    to a [Worker] or to the main process. *)
Definition transferred (e : Event) : list nat :=
  match e with
  | EvPostMessage _ _ transfer | EvIpcPostMessage _ _ transfer => transfer
  | _ => []
  end.

Definition transfers (t : list Event) : list nat := t ≫= transferred.

(** In a trace no port is handed over after it was closed. *)
Definition closed_stay (t : list Event) : Prop :=
  ∀ i j p e, t !! i = Some (EvPortClose p) → t !! j = Some e → p ∈ transferred e → j < i.

(** The message [spawn] builds for a configuration. *)
Definition spawnMessageOf (path : string) (cfg : ISharedProcessWorkerConfiguration) : ToWorker.t :=
  {| ToWorker.id := WorkerSpawn;
     ToWorker.configuration := cfg;
     ToWorker.environment := Some {| bootstrapPath := path |};
     ToWorker.nonce := None |}.

(** The continuations of activation [f] that come before its spawn message
    is posted, and those that come before its port is relayed. *)
Definition spawning (f : nat) (k : Cont) : bool :=
  match k with
  | KCreateWorker1 f' | KSend _ _ (TokenOf f') _ _ => bool_decide (f' = f)
  | _ => false
  end.

Definition relaying (f : nat) (k : Cont) : bool :=
  match k with
  | KCreateWorker1 f' | KCreateWorker2 f' => bool_decide (f' = f)
  | _ => false
  end.

Definition cnt (P : Cont → bool) (l : list Cont) : nat :=
  length (filter (λ k, P k = true) l).

(** The two ports of a frame come from one [MessageChannel]. *)
Definition chan_ok (s : State) (fr : Frame) : Prop :=
  match windowPort fr, workerPort fr with
  | None, None => True
  | Some p, Some q => Nat.Even p ∧ q = S p ∧ q < ports s
  | _, _ => False
  end.

(** What a continuation holds agrees with the frame of its activation: the
    rest of a [spawn] call holds the worker port of the frame and the spawn
    message of its configuration, the rest of a [terminate] call holds no
    port, and [createWorker] awaits the acknowledgment with its channel open. *)
Definition cont_chan (path : string) (s : State) (k : Cont) : Prop :=
  match k with
  | KCreateWorker1 f => is_Some (frames s !! f)
  | KCreateWorker2 f => ∃ fr p, frames s !! f = Some fr ∧ windowPort fr = Some p
  | KSend _ m (TokenOf f) port _ =>
      ∃ fr p, frames s !! f = Some fr ∧ workerPort fr = Some p ∧ port = Some p ∧
              m = spawnMessageOf path (configuration fr)
  | KSend _ m TokenNone port _ => port = None ∧ ∃ cfg, m = terminateMessage cfg None
  | _ => True
  end.

(** What an effect of the trace says about ports. *)
Definition event_chan (path : string) (s : State) (e : Event) : Prop :=
  match e with
  | EvPostMessage _ (PostModule _) transfer => transfer = []
  | EvPostMessage _ (PostMessage m) transfer =>
      (∃ cfg nonce, m = terminateMessage cfg (Some nonce) ∧ transfer = []) ∨
      (∃ f fr p nonce, frames s !! f = Some fr ∧ workerPort fr = Some p ∧ transfer = [p] ∧
                       m = withNonce (spawnMessageOf path (configuration fr)) nonce)
  | EvIpcPostMessage channel cfg transfer =>
      channel = "vscode:relaySharedProcessWorkerMessageChannel" ∧
      ∃ f fr p, frames s !! f = Some fr ∧ configuration fr = cfg ∧ returned fr = true ∧
                windowPort fr = Some p ∧ transfer = [p]
  | EvPortClose p =>
      ∃ f fr, frames s !! f = Some fr ∧ cts fr = true ∧
              (windowPort fr = Some p ∨ workerPort fr = Some p)
  | EvNewMessageChannel p q => q = S p ∧ q < ports s
  | _ => True
  end.

(** The invariant of the channels. *)
Record channels_ok (path : string) (s : State) : Prop := {
  ch_even : Nat.Even (ports s);
  ch_frames : ∀ f fr, frames s !! f = Some fr → chan_ok s fr;
  ch_unique : ∀ f f' fr fr' p, frames s !! f = Some fr → frames s !! f' = Some fr' →
                windowPort fr = Some p → windowPort fr' = Some p → f = f';
  ch_conts : Forall (cont_chan path s) (conts s);
  ch_events : Forall (event_chan path s) (trace s);
  ch_nodup : NoDup (transfers (trace s));
  ch_spawning : ∀ f, cnt (spawning f) (conts s) ≤ 1;
  ch_relaying : ∀ f, cnt (relaying f) (conts s) ≤ 1;
  ch_pending_worker : ∀ k f fr p, k ∈ conts s → spawning f k = true →
      frames s !! f = Some fr → workerPort fr = Some p → p ∉ transfers (trace s);
  ch_pending_window : ∀ k f fr p, k ∈ conts s → relaying f k = true →
      frames s !! f = Some fr → windowPort fr = Some p → p ∉ transfers (trace s);
  ch_closed : closed_stay (trace s)
}.

(** The kinds of effects that concern no port. *)
Definition portless (k : Kind) : bool :=
  match k with
  | KindLog | KindNewWorker | KindLoad | KindAwaiter => true
  | _ => false
  end.

(** ** What an input can do to the outside *)

(** The kinds of effects of one input: a call of [createWorker] logs, may
    create a [Worker] and post its first message, and may close the ports of
    the handle it replaces; [disposeWorker] logs and closes ports; an event
    of a [Worker] logs or calls a resolver; of the jobs, only the rest of
    [send] posts a message, only the middle of [createWorker] opens a channel
    and only its end reaches the relay. *)
Definition effectsOf (s : State) (i : Input) (k : Kind) : bool :=
  match i, k with
  | CallCreateWorker _, (KindLog | KindNewWorker | KindLoad | KindClose) => true
  | CallDisposeWorker _, (KindLog | KindClose) => true
  | OnMessage _ _, (KindLog | KindAwaiter) => true
  | (OnError _ _ | OnMessageError _), KindLog => true
  | Microtask, _ =>
      match microtasks s, k with
      | (KSend _ _ _ _ _, _) :: _, KindPost => true
      | (KCreateWorker1 _, _) :: _, KindChannel => true
      | (KCreateWorker2 _, _) :: _, (KindLog | KindRelay) => true
      | _, _ => false
      end
  | _, _ => false
  end.

(** The nonces of the messages posted to the workers, in order. *)
Definition postedNonce (e : Event) : list (option string) :=
  match e with
  | EvPostMessage _ (PostMessage m) _ => [ToWorker.nonce m]
  | _ => []
  end.

Definition postedNonces (t : list Event) : list (option string) := t ≫= postedNonce.

(** A message is posted to a [Worker] that is ready, with a generated nonce. *)
Definition post_ok (s : State) (e : Event) : Prop :=
  match e with
  | EvPostMessage w (PostMessage m) _ =>
      isReady s w ∧ ∃ i, i < uuids s ∧ ToWorker.nonce m = Some (generateUuid i)
  | EvPostMessage _ (PostModule _) transfer => transfer = []
  | _ => True
  end.

Definition posts_ok (s : State) : Prop :=
  Forall (post_ok s) (trace s) ∧ NoDup (postedNonces (trace s)).

(** A process is created, the [Worker] reports ready and acknowledges the
    spawn message, and the job queue runs until it is empty. *)
Definition relayInputs : list Input :=
  [CallCreateWorker exampleConfiguration; OnMessage 0 readyMessage;
   Microtask; Microtask; Microtask; Microtask;
   OnMessage 0 (ackMessage (Some (generateUuid 0))); Microtask; Microtask; Microtask].

(** The [Worker] is ready and [createWorker] has called [spawn]: the rest of
    [send] is the next job. *)
Definition sendingInputs : list Input :=
  [CallCreateWorker exampleConfiguration; OnMessage 0 readyMessage; Microtask; Microtask].

(** ** The promise of a [send] call *)

(** The promise a continuation settles, for those that settle one. *)
Definition target (k : Cont) : option nat :=
  match k with
  | KInit _ r | KSend _ _ _ _ r | KResolveThenable r _ | KFulfill r => Some r
  | _ => None
  end.

(** Activation [f] awaits promise [r] before it relays its port: [r] is the
    promise of its [spawn] call. *)
Definition ackOf (s : State) (f r : nat) : Prop :=
  ∃ ks, promises s !! r = Some (Pending ks) ∧ KCreateWorker2 f ∈ ks.

(** The spawn message of activation [f] was posted, with the worker port of
    its frame. *)
Definition spawned (path : string) (s : State) (f : nat) : Prop :=
  ∃ fr p w nonce,
    frames s !! f = Some fr ∧ workerPort fr = Some p ∧
    EvPostMessage w
      (PostMessage (withNonce (spawnMessageOf path (configuration fr)) nonce)) [p]
    ∈ trace s.

(** What allows the promise of the [spawn] call of [f] to be settled. *)
Definition excused (path : string) (s : State) (f : nat) : Prop :=
  isCancellationRequested (TokenOf f) s = true ∨ spawned path s f.

(** [m] is, up to its nonce, the terminate message of an activation whose
    cancellation source was triggered. *)
Definition disposedMessage (s : State) (m : ToWorker.t) (nonce : option string) : Prop :=
  ∃ f fr, frames s !! f = Some fr ∧ cts fr = true ∧
          m = terminateMessage (configuration fr) nonce.

(** What a continuation may do to the promise it settles: the promise of an
    activation's [spawn] call is settled by the rest of that call only, and
    the two jobs that forward its result come after the message was posted
    or the activation cancelled. *)
Definition cont_sent (path : string) (s : State) (k : Cont) : Prop :=
  match k with
  | KInit _ r => r < length (promises s) ∧ ∀ f, ¬ ackOf s f r
  | KSend _ m token _ r =>
      r < length (promises s) ∧
      match token with
      | TokenNone => (∀ f, ¬ ackOf s f r) ∧ disposedMessage s m None
      | TokenOf f' => ∀ f, ackOf s f r → f = f'
      end
  | KResolveThenable r _ | KFulfill r =>
      r < length (promises s) ∧ ∀ f, ackOf s f r → excused path s f
  | KCreateWorker1 _ | KCreateWorker2 _ => True
  end.

(** A queued job: the rest of a [send] call resumes with the [Worker], and
    the end of [createWorker] only once its [spawn] call is excused. *)
Definition job_sent (path : string) (s : State) (j : Job) : Prop :=
  cont_sent path s j.1 ∧
  match j.1 with
  | KCreateWorker2 f => excused path s f
  | KSend _ _ _ _ _ => is_Some j.2
  | _ => True
  end.

(** Promises are awaited by [createWorker] and by the forwarding job. *)
Definition reaction_sent (path : string) (s : State) (k : Cont) : Prop :=
  cont_sent path s k ∧
  match k with
  | KCreateWorker1 _ | KCreateWorker2 _ | KFulfill _ => True
  | _ => False
  end.

(** [workerReady] is awaited by [init] and by [send]. *)
Definition waiter_sent (path : string) (s : State) (k : Cont) : Prop :=
  cont_sent path s k ∧
  match k with
  | KInit _ _ | KSend _ _ _ _ _ => True
  | _ => False
  end.

(** A terminate message in the trace is that of a disposed activation. *)
Definition event_sent (s : State) (e : Event) : Prop :=
  match e with
  | EvPostMessage _ (PostMessage m) _ =>
      ToWorker.id m = WorkerTerminate → ∃ nonce, disposedMessage s m (Some nonce)
  | _ => True
  end.

Record sends_ok (path : string) (s : State) : Prop := {
  sent_jobs : Forall (job_sent path s) (microtasks s);
  sent_reactions : ∀ p ks, promises s !! p = Some (Pending ks) →
                     Forall (reaction_sent path s) ks;
  sent_waiters : ∀ w ww ks, webWorkers s !! w = Some ww →
                   workerReady ww = ReadyPending ks → Forall (waiter_sent path s) ks;
  sent_entries : ∀ w n r, pendingEntry s w n = Some r →
                   r < length (promises s) ∧ ∀ f, ¬ ackOf s f r;
  sent_trace : Forall (event_sent s) (trace s)
}.

(** What the properties of continuations depend on, from a state to a later
    one: no activation starts to await an existing promise, and what excuses
    a [spawn] call stays. *)
Definition grows_sent (path : string) (s s' : State) : Prop :=
  length (promises s) ≤ length (promises s') ∧
  (∀ f r, ackOf s' f r → ackOf s f r) ∧
  (∀ f, KCreateWorker2 f ∈ conts s → excused path s f → excused path s' f) ∧
  (∀ f fr, frames s !! f = Some fr → ∃ fr', frames s' !! f = Some fr' ∧ frame_le fr fr').

(** In a trace the relay of a window port comes after the spawn message
    that carries the other port of its channel, for the same configuration. *)
Definition relay_follows_spawn (path : string) (t : list Event) : Prop :=
  ∀ i channel cfg p,
    t !! i = Some (EvIpcPostMessage channel cfg [p]) →
    ∃ j w nonce,
      j < i ∧
      t !! j = Some (EvPostMessage w
                       (PostMessage (withNonce (spawnMessageOf path cfg) nonce)) [S p]).

(** The handle is disposed while [createWorker] awaits the acknowledgment
    of its spawn message, and the rest of the [terminate] call runs. *)
Definition disposingInputs : list Input :=
  spawningInputs ++ [CallDisposeWorker exampleConfiguration; Microtask].

(** The configuration is created again after that disposal, and the new
    activation acquires the web worker and calls [spawn]: the terminate
    message of the first disposal is in the trace. *)
Definition recreatedInputs : list Input :=
  disposingInputs ++ [CallCreateWorker exampleConfiguration; Microtask; Microtask; Microtask].

(** The frame of that second activation: its web worker is acquired and its
    channel open. *)
Definition recreatedFrame : Frame :=
  {| configuration := exampleConfiguration; cts := false; worker := Some 0;
     windowPort := Some 2; workerPort := Some 3; returned := false |}.

(** ** The acknowledgment of a spawn message *)

(** The spawn message of [cfg], posted to web worker [w] under [nonce] with
    port [q]. *)
Definition spawnPost (path : string) (w : nat) (cfg : ISharedProcessWorkerConfiguration)
    (nonce : string) (q : nat) : Event :=
  EvPostMessage w (PostMessage (withNonce (spawnMessageOf path cfg) nonce)) [q].

(** Among [inputs] there is an Ack message of a web worker that carries the
    nonce of a spawn message of [cfg] with port [q], posted to that web
    worker before the Ack came. *)
Definition ackedPort (hash : ISharedProcessWorkerConfiguration → Z) (path : string)
    (inputs : list Input) (cfg : ISharedProcessWorkerConfiguration) (q : nat) : Prop :=
  ∃ pre w data post nonce,
    inputs = pre ++ OnMessage w data :: post ∧
    FromWorker.id data = WorkerAck ∧ FromWorker.nonce data = Some nonce ∧
    spawnPost path w cfg nonce q ∈ trace (run hash path initial pre).

(** The spawn message of activation [f] was acknowledged, where [A] tells
    which spawn messages were. *)
Definition acked (A : ISharedProcessWorkerConfiguration → nat → Prop)
    (s : State) (f : nat) : Prop :=
  ∃ fr q, frames s !! f = Some fr ∧ workerPort fr = Some q ∧ A (configuration fr) q.

(** What allows [createWorker] to go on after [await worker.spawn(...)]. *)
Definition settled (A : ISharedProcessWorkerConfiguration → nat → Prop)
    (s : State) (f : nat) : Prop :=
  isCancellationRequested (TokenOf f) s = true ∨ acked A s f.

(** The spawn message of activation [f] was posted and promise [i] is the
    one that the Ack handler will resolve for it. *)
Definition awaitingAck (path : string) (s : State) (f i : nat) : Prop :=
  ∃ fr q w nonce,
    frames s !! f = Some fr ∧ workerPort fr = Some q ∧
    spawnPost path w (configuration fr) nonce q ∈ trace s ∧
    pendingEntry s w nonce = Some i.

(** A queued job: the rest of [send] resumes with the [Worker] of its own
    object; the result of a [spawn] call is forwarded to [createWorker] once
    the message is acknowledged, or while it is awaited through the promise
    of its nonce. *)
Definition job_acked (path : string) (A : ISharedProcessWorkerConfiguration → nat → Prop)
    (s : State) (j : Job) : Prop :=
  match j with
  | (KCreateWorker2 f, _) => settled A s f
  | (KFulfill r, _) => ∀ f, ackOf s f r → settled A s f
  | (KResolveThenable r i, _) => ∀ f, ackOf s f r → settled A s f ∨ awaitingAck path s f i
  | (KSend this _ _ _ _, v) => v = Some this
  | _ => True
  end.

(** A reaction of promise [i]. *)
Definition reaction_acked (path : string)
    (A : ISharedProcessWorkerConfiguration → nat → Prop) (s : State) (i : nat)
    (k : Cont) : Prop :=
  match k with
  | KFulfill r => ∀ f, ackOf s f r → settled A s f ∨ awaitingAck path s f i
  | _ => True
  end.

(** A reaction of [workerReady] of web worker [w]. *)
Definition waiter_acked (w : nat) (k : Cont) : Prop :=
  match k with
  | KSend this _ _ _ _ => this = w
  | _ => True
  end.

(** No pending entry holds the promise that [k] settles. *)
Definition untargeted (s : State) (k : Cont) : Prop :=
  ∀ w n r, pendingEntry s w n = Some r → target k ≠ Some r.

(** The promise of a pending entry is pending, and only the Ack handler
    settles it. *)
Definition entry_acked (s : State) (r : nat) : Prop :=
  (∃ ks, promises s !! r = Some (Pending ks)) ∧ ∀ k, k ∈ conts s → target k ≠ Some r.

Record acks_ok (path : string) (A : ISharedProcessWorkerConfiguration → nat → Prop)
    (s : State) : Prop := {
  acked_jobs : Forall (job_acked path A s) (microtasks s);
  acked_reactions : ∀ i ks, promises s !! i = Some (Pending ks) →
                      Forall (reaction_acked path A s i) ks;
  acked_waiters : ∀ w ww ks, webWorkers s !! w = Some ww →
                    workerReady ww = ReadyPending ks → Forall (waiter_acked w) ks;
  acked_entries : ∀ w n r, pendingEntry s w n = Some r → entry_acked s r
}.

(** What the properties of the held continuations depend on, from a state
    to a later one. *)
Definition grows_acked (path : string)
    (A : ISharedProcessWorkerConfiguration → nat → Prop) (s s' : State) : Prop :=
  (∀ f r, ackOf s' f r → ackOf s f r) ∧
  (∀ f, KCreateWorker2 f ∈ conts s → settled A s f → settled A s' f) ∧
  (∀ f i, KCreateWorker2 f ∈ conts s → awaitingAck path s f i →
          awaitingAck path s' f i ∨ settled A s' f).

(** In the trace of the run of [inputs], every relay of a window port comes
    after an Ack message for the spawn message that carried the other port
    of its channel. *)
Definition relay_follows_ack (hash : ISharedProcessWorkerConfiguration → Z) (path : string)
    (inputs : list Input) (t : list Event) : Prop :=
  ∀ i channel cfg p,
    t !! i = Some (EvIpcPostMessage channel cfg [p]) →
    ∃ pre w data post nonce,
      inputs = pre ++ OnMessage w data :: post ∧
      FromWorker.id data = WorkerAck ∧ FromWorker.nonce data = Some nonce ∧
      spawnPost path w cfg nonce (S p) ∈ trace (run hash path initial pre) ∧
      length (trace (run hash path initial (pre ++ [OnMessage w data]))) ≤ i.

(** * Properties *)

Section Properties.

Variable hash : ISharedProcessWorkerConfiguration → Z.
Variable bootstrapForkPath : string.

(** C8: for a configuration whose identity hash has no registered handle,
    [disposeWorker] changes nothing at all: no terminate message, no port
    closed, both registries as before; the call completes normally. *)
Theorem disposeWorker_unregistered configuration s :
  processes s !! hash configuration = None →
  disposeWorker hash configuration s = s ∧
  step hash bootstrapForkPath s (CallDisposeWorker configuration) = s.
Proof.
  intros Hnone. unfold step, disposeWorker. by rewrite Hnone.
Qed.

(** C10: an Ack whose nonce is absent or the empty string leaves the whole
    state as it is, whatever the table of the web worker holds. *)
Theorem ack_without_nonce this data s :
  FromWorker.id data = WorkerAck →
  FromWorker.nonce data = None ∨ FromWorker.nonce data = Some "" →
  onmessage this data s = s.
Proof.
  intros Hid Hnonce. unfold onmessage, onAck.
  destruct (webWorkers s !! this); [|done].
  rewrite Hid. by destruct Hnonce as [-> | ->].
Qed.

(** ** Cancellation checks *)

(** C5: the call of [send] posts nothing and records nothing before its
    first suspension, and when the token is cancelled at the check that
    follows, [send] posts no message, leaves every table as it is and
    returns (its promise is fulfilled). *)
Theorem send_cancelled this message token port worker s s2 :
  isCancellationRequested token s2 = true →
  is_Some (promises s2 !! fst (send this message token port s)) →
  let ret := fst (send this message token port s) in
  let s1 := snd (send this message token port s) in
  let s3 := send_resume this message token port ret worker s2 in
  (trace s1 = trace s ∧ tables s1 = tables s) ∧
  (trace s3 = trace s2 ∧ webWorkers s3 = webWorkers s2 ∧ uuids s3 = uuids s2) ∧
  (∃ v, promises s3 !! ret = Some (Fulfilled v)).
Proof.
  intros Hc [pr Hpr]. cbn zeta.
  change (fst (send this message token port s)) with (length (promises s)) in *.
  split; [|split].
  - unfold send, newPromise, awaitReady, tables. simpl.
    destruct (webWorkers s !! this) as [ww|] eqn:Hw; simpl; [|done].
    destruct (workerReady ww) eqn:Hr; simpl; [|done].
    split; [done|].
    apply list_eq. intros i. rewrite !list_lookup_fmap.
    destruct (decide (i = this)) as [->|Hne].
    + rewrite list_lookup_alter_eq, Hw. done.
    + by rewrite list_lookup_alter_ne.
  - unfold send_resume. rewrite Hc. unfold resolvePromise.
    destruct (promises s2 !! _) as [[ks|v]|]; done.
  - unfold send_resume. rewrite Hc. unfold resolvePromise.
    rewrite Hpr. destruct pr as [ks|v].
    + exists None. simpl. apply list_lookup_insert_eq. by eapply lookup_lt_Some.
    + by exists v.
Qed.

(** C7: when the token is cancelled at the check that follows the [await] of
    the web worker, the activation returns: no channel is created, nothing is
    posted or queued, no promise is touched and the promise of the call is
    fulfilled.  When it is cancelled at the check that follows the [await] of
    the spawn acknowledgment, the activation returns without touching the
    relay: the trace is unchanged and the promise of the call is fulfilled. *)
Theorem createWorker_cancelled f v s :
  isCancellationRequested (TokenOf f) s = true →
  (let s' := createWorker_resume1 bootstrapForkPath f v s in
   trace s' = trace s ∧ ports s' = ports s ∧ microtasks s' = microtasks s ∧
   promises s' = promises s ∧ webWorkers s' = webWorkers s ∧
   returned <$> frames s' !! f = Some true) ∧
  (let s' := createWorker_resume2 f s in
   trace s' = trace s ∧ ports s' = ports s ∧ microtasks s' = microtasks s ∧
   promises s' = promises s ∧ webWorkers s' = webWorkers s ∧
   returned <$> frames s' !! f = Some true).
Proof.
  intros Hc. simpl in Hc.
  destruct (frames s !! f) as [fr|] eqn:Hf; [|done].
  split; cbn zeta.
  - unfold createWorker_resume1. simpl.
    rewrite list_lookup_alter_eq, Hf. simpl. rewrite Hc.
    unfold createWorker_return, update_frame. simpl.
    repeat split; try done.
    by rewrite !list_lookup_alter_eq, Hf.
  - unfold createWorker_resume2. simpl. rewrite Hf, Hc.
    unfold createWorker_return, update_frame. simpl.
    repeat split; try done.
    by rewrite !list_lookup_alter_eq, Hf.
Qed.

(** ** States only grow *)

Lemma frame_le_refl fr : frame_le fr fr.
Proof. done. Qed.

Lemma frame_le_trans fr1 fr2 fr3 : frame_le fr1 fr2 → frame_le fr2 fr3 → frame_le fr1 fr3.
Proof. intros (?&?&?) (?&?&?). split; [congruence|]. split; auto. Qed.

Lemma later_refl s : later s s.
Proof. split; try done. intros f fr Hf. exists fr. split; [done|apply frame_le_refl]. Qed.

Lemma later_trans s1 s2 s3 : later s1 s2 → later s2 s3 → later s1 s3.
Proof.
  intros [] []. split; try (etrans; eassumption); [|by auto].
  intros f fr Hf.
  edestruct later_frames0 as (fr2 & Hf2 & Hle2); [done|].
  edestruct later_frames1 as (fr3 & Hf3 & Hle3); [done|].
  exists fr3. split; [done|]. by eapply frame_le_trans.
Qed.

Lemma queued_refl s : queued s s.
Proof. split; [apply later_refl|done]. Qed.

(** One lemma per way of updating a state. *)
Section Queued.
Variables s s0 : State.
Hypothesis H : queued s s0.

Lemma queued_emit e : queued s (emit e s0).
Proof.
  destruct H as [[] ?]. split; [split|]; try done.
  simpl. etrans; [done|]. by apply prefix_app_r.
Qed.

Lemma queued_enqueue js : queued s (enqueue js s0).
Proof.
  destruct H as [[] ?]. split; [split|]; try done.
  simpl. etrans; [done|]. by apply prefix_app_r.
Qed.

Lemma queued_set_uuids n : uuids s0 ≤ n → queued s (set_uuids n s0).
Proof. intros. destruct H as [[] ?]. split; [split|]; try done. simpl. lia. Qed.

Lemma queued_set_ports n : ports s0 ≤ n → queued s (set_ports n s0).
Proof. intros. destruct H as [[] ?]. split; [split|]; try done. simpl. lia. Qed.

Lemma queued_set_processes m : queued s (set_processes m s0).
Proof. destruct H as [[] ?]. split; [split|]; done. Qed.

Lemma queued_set_workers k v :
  workers s0 !! k = None → queued s (set_workers (<[k := v]> (workers s0)) s0).
Proof.
  intros Hk. destruct H as [[] ?]. split; [split|]; try done.
  simpl. etrans; [done|]. by apply insert_subseteq.
Qed.

Lemma queued_push_frame fr : queued s (set_frames (frames s0 ++ [fr]) s0).
Proof.
  destruct H as [[] ?]. split; [split|]; try done; simpl.
  intros f fr0 Hf. destruct (later_frames0 f fr0 Hf) as (fr' & Hf' & Hle).
  exists fr'. split; [|done]. by apply lookup_app_l_Some.
Qed.

Lemma queued_update_frame f g :
  (∀ fr, frame_le fr (g fr)) → queued s (update_frame f g s0).
Proof.
  intros Hg. destruct H as [[] ?]. split; [split|]; try done; simpl.
  intros f0 fr0 Hf. destruct (later_frames0 f0 fr0 Hf) as (fr' & Hf' & Hle).
  destruct (decide (f = f0)) as [->|Hne].
  - exists (g fr'). rewrite list_lookup_alter_eq, Hf'. split; [done|].
    eapply frame_le_trans; [done|apply Hg].
  - exists fr'. by rewrite list_lookup_alter_ne.
Qed.

Lemma queued_push_promise pr : queued s (set_promises (promises s0 ++ [pr]) s0).
Proof.
  destruct H as [[] ?]. split; [split|]; try done; simpl.
  rewrite length_app. lia.
Qed.

Lemma queued_insert_promise p pr : queued s (set_promises (<[p := pr]> (promises s0)) s0).
Proof.
  destruct H as [[] ?]. split; [split|]; try done; simpl.
  by rewrite length_insert.
Qed.

Lemma queued_push_webWorker ww : queued s (set_webWorkers (webWorkers s0 ++ [ww]) s0).
Proof.
  destruct H as [[] ?]. split; [split|]; try done; simpl.
  - rewrite length_app. lia.
  - intros w Hw. destruct (later_ready0 w Hw) as (ww' & Hw' & Hr).
    exists ww'. split; [|done]. simpl. by apply lookup_app_l_Some.
Qed.

Lemma queued_update_webWorker w g :
  keeps_ready s0 w g → queued s (update_webWorker w g s0).
Proof.
  intros Hg. destruct H as [[] ?]. split; [split|]; try done; simpl.
  - by rewrite length_alter.
  - intros w' Hw. destruct (later_ready0 w' Hw) as (ww' & Hw' & Hr).
    unfold isReady. simpl. destruct (decide (w = w')) as [->|Hne].
    + exists (g ww'). rewrite list_lookup_alter_eq, Hw'. split; [done|]. by apply Hg.
    + exists ww'. by rewrite list_lookup_alter_ne.
Qed.
End Queued.

Lemma frame_le_set_cts fr : frame_le fr (set_cts true fr).
Proof. done. Qed.
Lemma frame_le_set_worker v fr : frame_le fr (set_worker v fr).
Proof. done. Qed.
Lemma frame_le_set_channel p1 p2 fr : frame_le fr (set_channel p1 p2 fr).
Proof. done. Qed.
Lemma frame_le_set_returned fr : frame_le fr (set_returned fr).
Proof. done. Qed.

Create HintDb queued.
#[local] Hint Extern 1 (_ ≤ _) => simpl; lia : queued.
#[local] Hint Extern 1 (keeps_ready _ _ _) =>
  unfold keeps_ready; intros; simplify_eq; (done || congruence) : queued.
#[local] Hint Resolve queued_refl queued_emit queued_enqueue queued_set_uuids
  queued_set_ports queued_set_processes queued_set_workers queued_push_frame
  queued_update_frame queued_push_promise queued_insert_promise
  queued_push_webWorker queued_update_webWorker
  frame_le_set_cts frame_le_set_worker frame_le_set_channel frame_le_set_returned : queued.

(** Splits on what a method tests, one test at a time. *)
Ltac split_match :=
  match goal with
  | |- context [match ?x with _ => _ end] => destruct x eqn:?
  | H : context [match ?x with _ => _ end] |- _ => destruct x eqn:?
  end.

Ltac by_cases tac :=
  intros; repeat (cbn beta iota zeta in *; try split_match); simplify_eq; tac.

Ltac queued_auto := eauto 12 with queued.

Section QueuedMethods.
Variable s : State.

Lemma queued_newPromise s0 p s1 :
  newPromise s0 = (p, s1) → queued s s0 → queued s s1.
Proof. unfold newPromise. by_cases queued_auto. Qed.

Lemma queued_resolvePromise s0 p v :
  queued s s0 → queued s (resolvePromise p v s0).
Proof. unfold resolvePromise. by_cases queued_auto. Qed.

Lemma queued_await s0 p k : queued s s0 → queued s (await p k s0).
Proof. unfold await. by_cases queued_auto. Qed.

Lemma queued_awaitReady s0 w k : queued s s0 → queued s (awaitReady w k s0).
Proof. unfold awaitReady. by_cases queued_auto. Qed.

Lemma queued_readyResolve s0 w : queued s s0 → queued s (readyResolve w s0).
Proof. unfold readyResolve. by_cases queued_auto. Qed.

Hint Resolve queued_newPromise queued_resolvePromise queued_await
  queued_awaitReady queued_readyResolve : queued.

Lemma queued_send s0 this message token port ret s1 :
  send this message token port s0 = (ret, s1) → queued s s0 → queued s s1.
Proof. unfold send. by_cases queued_auto. Qed.

Hint Resolve queued_send : queued.

Lemma queued_send_resume s0 this message token port ret v :
  queued s s0 → queued s (send_resume this message token port ret v s0).
Proof. unfold send_resume. by_cases queued_auto. Qed.

Lemma queued_spawn s0 this configuration port token ret s1 :
  spawn bootstrapForkPath this configuration port token s0 = (ret, s1) →
  queued s s0 → queued s s1.
Proof. unfold spawn. by_cases queued_auto. Qed.

Lemma queued_terminate s0 this configuration token :
  queued s s0 → queued s (snd (terminate this configuration token s0)).
Proof.
  unfold terminate. intros. destruct (send _ _ _ _ _) eqn:?. eauto with queued.
Qed.

Lemma queued_init s0 this ret s1 :
  init this s0 = (ret, s1) → queued s s0 → queued s s1.
Proof. unfold init. by_cases queued_auto. Qed.

Lemma queued_newSharedProcessWebWorker s0 type this s1 :
  newSharedProcessWebWorker type s0 = (this, s1) → queued s s0 → queued s s1.
Proof. unfold newSharedProcessWebWorker, doInit. by_cases queued_auto. Qed.

Hint Resolve queued_send_resume queued_spawn queued_terminate queued_init
  queued_newSharedProcessWebWorker : queued.

Lemma queued_getOrCreateWebWorker s0 configuration p s1 :
  getOrCreateWebWorker configuration s0 = (p, s1) → queued s s0 → queued s s1.
Proof.
  unfold getOrCreateWebWorker, logService. intros Hg Hq.
  destruct (workers s0 !! _) eqn:Hw; [by simplify_eq|].
  destruct (newSharedProcessWebWorker _ _) as [this s2] eqn:Hn.
  destruct (init _ _) as [ret s3] eqn:Hi. simplify_eq.
  assert (workers s3 = workers s0) as Hsame.
  { unfold init, newPromise, awaitReady, newSharedProcessWebWorker, doInit in *.
    simplify_eq/=. by repeat (split_match; simpl). }
  apply queued_set_workers; [eauto 10 with queued|]. by rewrite Hsame.
Qed.

Lemma queued_onAck s0 this nonce : queued s s0 → queued s (onAck this nonce s0).
Proof. unfold onAck. by_cases queued_auto. Qed.

Hint Resolve queued_onAck queued_getOrCreateWebWorker : queued.

Lemma queued_onmessage s0 this data : queued s s0 → queued s (onmessage this data s0).
Proof. unfold onmessage, logService. by_cases queued_auto. Qed.

Lemma queued_onerror s0 this message : queued s s0 → queued s (onerror this message s0).
Proof. unfold onerror, logService. by_cases queued_auto. Qed.

Lemma queued_onmessageerror s0 this : queued s s0 → queued s (onmessageerror this s0).
Proof. unfold onmessageerror, logService. by_cases queued_auto. Qed.

Lemma queued_dispose s0 f : queued s s0 → queued s (dispose hash f s0).
Proof. unfold dispose. by_cases queued_auto. Qed.

Hint Resolve queued_dispose : queued.

Lemma queued_disposeWorker s0 configuration :
  queued s s0 → queued s (disposeWorker hash configuration s0).
Proof. unfold disposeWorker, logService. by_cases queued_auto. Qed.

Hint Resolve queued_disposeWorker : queued.

Lemma queued_createWorker s0 configuration :
  queued s s0 → queued s (createWorker hash configuration s0).
Proof. unfold createWorker, logService. by_cases queued_auto. Qed.

Lemma queued_createWorker_resume1 s0 f v :
  queued s s0 → queued s (createWorker_resume1 bootstrapForkPath f v s0).
Proof. unfold createWorker_resume1, createWorker_return. by_cases queued_auto. Qed.

Lemma queued_createWorker_resume2 s0 f :
  queued s s0 → queued s (createWorker_resume2 f s0).
Proof. unfold createWorker_resume2, createWorker_return, logService. by_cases queued_auto. Qed.

Hint Resolve queued_createWorker_resume1 queued_createWorker_resume2 : queued.

Lemma queued_runJob s0 j :
  queued s s0 → queued s (runJob bootstrapForkPath j s0).
Proof. unfold runJob, init_resume. by_cases queued_auto. Qed.
End QueuedMethods.

Lemma run_snoc s inputs i :
  run hash bootstrapForkPath s (inputs ++ [i]) =
  step hash bootstrapForkPath (run hash bootstrapForkPath s inputs) i.
Proof. unfold run. by rewrite foldl_app. Qed.

Lemma run_app s inputs1 inputs2 :
  run hash bootstrapForkPath s (inputs1 ++ inputs2) =
  run hash bootstrapForkPath (run hash bootstrapForkPath s inputs1) inputs2.
Proof. unfold run. by rewrite foldl_app. Qed.

Lemma queued_step s i :
  i ≠ Microtask → queued s (step hash bootstrapForkPath s i).
Proof.
  intros Hi. pose proof (queued_refl s).
  destruct i; simpl;
    auto using queued_createWorker, queued_disposeWorker, queued_onmessage,
      queued_onerror, queued_onmessageerror.
  done.
Qed.

Lemma later_pop s l : later s (set_microtasks l s).
Proof. pose proof (later_refl s) as []. by split. Qed.

Lemma later_step s i : later s (step hash bootstrapForkPath s i).
Proof.
  destruct i; try (by apply queued_step).
  simpl. destruct (microtasks s) as [|j rest]; [apply later_refl|].
  eapply later_trans; [apply (later_pop s rest)|].
  apply queued_runJob, queued_refl.
Qed.

Lemma later_run s inputs : later s (run hash bootstrapForkPath s inputs).
Proof.
  induction inputs as [|i inputs IH] using rev_ind; [apply later_refl|].
  rewrite run_snoc. eapply later_trans; [done|apply later_step].
Qed.

(** The job queue is first-in first-out: a job runs when it is first, and
    whatever it queues goes to the end. *)
Lemma microtask_pop s j rest :
  microtasks s = j :: rest →
  ∃ new, microtasks (step hash bootstrapForkPath s Microtask) = rest ++ new.
Proof.
  intros Hq. simpl. rewrite Hq.
  destruct (queued_runJob (set_microtasks rest s) (set_microtasks rest s) j
              (queued_refl _)) as [_ [new Hnew]].
  by exists new.
Qed.

Lemma later_frames_length s s' : later s s' → length (frames s) ≤ length (frames s').
Proof.
  intros [_ Hf _ _ _ _ _].
  destruct (decide (length (frames s) = 0)) as [->|Hne]; [lia|].
  destruct (lookup_lt_is_Some_2 (frames s) (pred (length (frames s)))) as [fr Hfr]; [lia|].
  destruct (Hf _ _ Hfr) as (fr' & Hfr' & _).
  apply lookup_lt_Some in Hfr'. lia.
Qed.

(** ** What each method leaves alone *)

Lemma unchanged_refl hs rg cr s : unchanged hs rg cr s s.
Proof. by split. Qed.

Lemma newWorkerCount_snoc t e :
  newWorkerCount (t ++ [e]) = newWorkerCount t + (if isNewWorker e then 1 else 0).
Proof.
  unfold newWorkerCount. rewrite filter_app, length_app.
  f_equal. by destruct e.
Qed.

Lemma awaiterCalls_snoc t e : awaiterCalls (t ++ [e]) = awaiterCalls t ++ awaiterCall e.
Proof. unfold awaiterCalls. rewrite bind_app. simpl. by rewrite app_nil_r. Qed.

Section Unchanged.
Variables (hs rg cr : bool) (s s0 : State).
Hypothesis H : unchanged hs rg cr s s0.

(** Updates of the promise store, the job queue and the counters. *)
Lemma unchanged_set_promises l : unchanged hs rg cr s (set_promises l s0).
Proof. by destruct H. Qed.

Lemma unchanged_set_microtasks l : unchanged hs rg cr s (set_microtasks l s0).
Proof. by destruct H. Qed.

Lemma unchanged_enqueue js : unchanged hs rg cr s (enqueue js s0).
Proof. by destruct H. Qed.

Lemma unchanged_set_uuids n : unchanged hs rg cr s (set_uuids n s0).
Proof. by destruct H. Qed.

Lemma unchanged_set_ports n : unchanged hs rg cr s (set_ports n s0).
Proof. by destruct H. Qed.

Lemma unchanged_emit e :
  isNewWorker e = false → awaiterCall e = [] → unchanged hs rg cr s (emit e s0).
Proof.
  intros Hn Ha. destruct H as [Hh Hr Hc]. split; [done| |].
  - intros Hrg. rewrite <- (Hr Hrg). unfold registry. simpl.
    rewrite newWorkerCount_snoc, Hn. by rewrite Nat.add_0_r.
  - intros Hcr. destruct (Hc Hcr) as [He Hcalls]. split; [done|]. simpl.
    rewrite awaiterCalls_snoc, Ha. by rewrite app_nil_r.
Qed.

Lemma unchanged_update_frame f g :
  (∀ fr, configuration (g fr) = configuration fr ∧ cts (g fr) = cts fr) →
  unchanged hs rg cr s (update_frame f g s0).
Proof.
  intros Hg. destruct H as [Hh Hr Hc]. split; [|done..].
  intros Hhs. rewrite <- (Hh Hhs). unfold handles. simpl. f_equal.
  apply list_eq. intros i. rewrite !list_lookup_fmap.
  destruct (decide (f = i)) as [->|Hne].
  - rewrite list_lookup_alter_eq. destruct (frames s0 !! i) as [fr|]; [|done].
    simpl. by destruct (Hg fr) as [-> ->].
  - by rewrite list_lookup_alter_ne.
Qed.

Lemma unchanged_update_webWorker w g :
  (∀ ww, mapMessageNonceToMessageResolve (g ww) = mapMessageNonceToMessageResolve ww) →
  unchanged hs rg cr s (update_webWorker w g s0).
Proof.
  intros Hg. destruct H as [Hh Hr Hc]. split; [done| |].
  - intros Hrg. rewrite <- (Hr Hrg). unfold registry. simpl. by rewrite length_alter.
  - intros Hcr. destruct (Hc Hcr) as [He Hcalls]. split; [|done].
    intros i n. rewrite <- He. unfold pendingEntry. simpl.
    destruct (decide (w = i)) as [->|Hne].
    + rewrite list_lookup_alter_eq. destruct (webWorkers s0 !! i) as [ww|]; [|done].
      simpl. by rewrite Hg.
    + by rewrite list_lookup_alter_ne.
Qed.
End Unchanged.

(** Updates that touch one view. *)
Lemma unchanged_set_processes rg cr s s0 m :
  unchanged false rg cr s s0 → unchanged false rg cr s (set_processes m s0).
Proof. intros []. by split. Qed.

Lemma unchanged_set_frames rg cr s s0 l :
  unchanged false rg cr s s0 → unchanged false rg cr s (set_frames l s0).
Proof. intros []. by split. Qed.

Lemma unchanged_set_workers hs cr s s0 m :
  unchanged hs false cr s s0 → unchanged hs false cr s (set_workers m s0).
Proof. intros []. by split. Qed.

Lemma unchanged_emit_newWorker hs cr s s0 w name :
  unchanged hs false cr s s0 → unchanged hs false cr s (emit (EvNewWorker w name) s0).
Proof.
  intros [Hh Hr Hc]. split; [done..|].
  intros Hcr. destruct (Hc Hcr) as [He Hcalls]. split; [done|]. simpl.
  by rewrite awaiterCalls_snoc, app_nil_r.
Qed.

Lemma unchanged_push_webWorker hs cr s s0 type r :
  unchanged hs false cr s s0 →
  unchanged hs false cr s
    (set_webWorkers (webWorkers s0 ++
       [{| wtype := type; workerReady := r; mapMessageNonceToMessageResolve := ∅ |}]) s0).
Proof.
  intros [Hh Hr Hc]. split; [done..|].
  intros Hcr. destruct (Hc Hcr) as [He Hcalls]. split; [|done].
  intros w n. rewrite <- He. unfold pendingEntry. simpl.
  destruct (decide (w < length (webWorkers s0))) as [Hlt|Hge].
  - by rewrite lookup_app_l.
  - rewrite (lookup_ge_None_2 (webWorkers s0)) by lia.
    destruct (decide (w = length (webWorkers s0))) as [->|Hne].
    + by rewrite lookup_app_r, Nat.sub_diag.
    + rewrite lookup_ge_None_2; [done|]. rewrite length_app. simpl. lia.
Qed.

Create HintDb unchanged.
#[local] Hint Resolve unchanged_refl unchanged_set_promises unchanged_set_microtasks
  unchanged_enqueue unchanged_set_uuids unchanged_set_ports unchanged_emit
  unchanged_update_frame unchanged_update_webWorker unchanged_set_processes
  unchanged_set_frames unchanged_set_workers unchanged_emit_newWorker
  unchanged_push_webWorker : unchanged.
#[local] Hint Extern 1 (_ ∧ _) => split; reflexivity : unchanged.
#[local] Hint Extern 1 (_ = _) => reflexivity : unchanged.

Ltac unchanged_auto := eauto 12 with unchanged.

Section UnchangedMethods.
Variables (hs rg cr : bool) (s : State).

Lemma unchanged_newPromise s0 p s1 :
  newPromise s0 = (p, s1) → unchanged hs rg cr s s0 → unchanged hs rg cr s s1.
Proof. unfold newPromise. by_cases unchanged_auto. Qed.

Lemma unchanged_resolvePromise s0 p v :
  unchanged hs rg cr s s0 → unchanged hs rg cr s (resolvePromise p v s0).
Proof. unfold resolvePromise. by_cases unchanged_auto. Qed.

Lemma unchanged_await s0 p k :
  unchanged hs rg cr s s0 → unchanged hs rg cr s (await p k s0).
Proof. unfold await. by_cases unchanged_auto. Qed.

Lemma unchanged_awaitReady s0 w k :
  unchanged hs rg cr s s0 → unchanged hs rg cr s (awaitReady w k s0).
Proof. unfold awaitReady. by_cases unchanged_auto. Qed.

Lemma unchanged_readyResolve s0 w :
  unchanged hs rg cr s s0 → unchanged hs rg cr s (readyResolve w s0).
Proof. unfold readyResolve. by_cases unchanged_auto. Qed.

Hint Resolve unchanged_newPromise unchanged_resolvePromise unchanged_await
  unchanged_awaitReady unchanged_readyResolve : unchanged.

Lemma unchanged_send s0 this message token port ret s1 :
  send this message token port s0 = (ret, s1) →
  unchanged hs rg cr s s0 → unchanged hs rg cr s s1.
Proof. unfold send. by_cases unchanged_auto. Qed.

Hint Resolve unchanged_send : unchanged.

Lemma unchanged_spawn s0 this configuration port token ret s1 :
  spawn bootstrapForkPath this configuration port token s0 = (ret, s1) →
  unchanged hs rg cr s s0 → unchanged hs rg cr s s1.
Proof. unfold spawn. by_cases unchanged_auto. Qed.

Lemma unchanged_terminate s0 this configuration token :
  unchanged hs rg cr s s0 →
  unchanged hs rg cr s (snd (terminate this configuration token s0)).
Proof.
  unfold terminate. intros. destruct (send _ _ _ _ _) eqn:?. unchanged_auto.
Qed.

Lemma unchanged_init s0 this ret s1 :
  init this s0 = (ret, s1) → unchanged hs rg cr s s0 → unchanged hs rg cr s s1.
Proof. unfold init. by_cases unchanged_auto. Qed.

Hint Resolve unchanged_spawn unchanged_terminate unchanged_init : unchanged.

Lemma unchanged_onerror s0 this message :
  unchanged hs rg cr s s0 → unchanged hs rg cr s (onerror this message s0).
Proof. unfold onerror, logService. by_cases unchanged_auto. Qed.

Lemma unchanged_onmessageerror s0 this :
  unchanged hs rg cr s s0 → unchanged hs rg cr s (onmessageerror this s0).
Proof. unfold onmessageerror, logService. by_cases unchanged_auto. Qed.

Lemma unchanged_createWorker_resume1 s0 f v :
  unchanged hs rg cr s s0 →
  unchanged hs rg cr s (createWorker_resume1 bootstrapForkPath f v s0).
Proof. unfold createWorker_resume1, createWorker_return. by_cases unchanged_auto. Qed.

Lemma unchanged_createWorker_resume2 s0 f :
  unchanged hs rg cr s s0 → unchanged hs rg cr s (createWorker_resume2 f s0).
Proof.
  unfold createWorker_resume2, createWorker_return, logService.
  by_cases unchanged_auto.
Qed.

End UnchangedMethods.

#[local] Hint Resolve unchanged_newPromise unchanged_resolvePromise unchanged_await
  unchanged_awaitReady unchanged_readyResolve unchanged_send unchanged_spawn
  unchanged_terminate unchanged_init unchanged_onerror unchanged_onmessageerror
  unchanged_createWorker_resume1 unchanged_createWorker_resume2 : unchanged.

(** The disposal of a handle leaves the registry of web workers and the
    correlation bookkeeping alone. *)
Lemma unchanged_dispose rg cr s s0 f :
  unchanged false rg cr s s0 → unchanged false rg cr s (dispose hash f s0).
Proof.
  unfold dispose. intros Hu.
  destruct (frames s0 !! f) as [fr|]; [|done].
  apply unchanged_set_processes.
  assert (∀ (o : option nat) s1, unchanged false rg cr s s1 →
    unchanged false rg cr s
      (match o with Some p => emit (EvPortClose p) s1 | None => s1 end)) as Hclose.
  { intros [p|] s1 Hs1; [|done]. by apply unchanged_emit. }
  do 2 apply Hclose.
  assert (unchanged false rg cr s (update_frame f (set_cts true) s0)) as Hu'.
  { destruct Hu. by split. }
  destruct (worker fr); [|done]. by apply unchanged_terminate.
Qed.

Lemma unchanged_disposeWorker rg cr s s0 configuration :
  unchanged false rg cr s s0 →
  unchanged false rg cr s (disposeWorker hash configuration s0).
Proof.
  unfold disposeWorker, logService. intros Hu.
  destruct (processes s0 !! _); [|done].
  apply unchanged_dispose. by apply unchanged_emit.
Qed.

#[local] Hint Resolve unchanged_dispose unchanged_disposeWorker : unchanged.

(** Creating a web worker changes the registry of web workers only. *)
Lemma unchanged_getOrCreateWebWorker hs cr s s0 configuration p s1 :
  getOrCreateWebWorker configuration s0 = (p, s1) →
  unchanged hs false cr s s0 → unchanged hs false cr s s1.
Proof.
  unfold getOrCreateWebWorker, newSharedProcessWebWorker, doInit, logService.
  by_cases unchanged_auto.
Qed.

#[local] Hint Resolve unchanged_getOrCreateWebWorker : unchanged.

Lemma unchanged_createWorker cr s s0 configuration :
  unchanged false false cr s s0 →
  unchanged false false cr s (createWorker hash configuration s0).
Proof. unfold createWorker, logService. by_cases unchanged_auto. Qed.

Lemma unchanged_table_update hs rg s s0 w g :
  unchanged hs rg false s s0 → unchanged hs rg false s (update_webWorker w g s0).
Proof.
  intros [Hh Hr Hc]. split; [done| |done].
  intros Hrg. rewrite <- (Hr Hrg). unfold registry. simpl. by rewrite length_alter.
Qed.

Lemma unchanged_emit_quiet hs rg s s0 e :
  isNewWorker e = false →
  unchanged hs rg false s s0 → unchanged hs rg false s (emit e s0).
Proof.
  intros Hn [Hh Hr Hc]. split; [done| |done].
  intros Hrg. rewrite <- (Hr Hrg). unfold registry. simpl.
  by rewrite newWorkerCount_snoc, Hn, Nat.add_0_r.
Qed.

#[local] Hint Resolve unchanged_table_update unchanged_emit_quiet : unchanged.

(** Sending a message and handling an Ack touch the correlation
    bookkeeping only. *)
Lemma unchanged_send_resume hs rg s s0 this message token port ret v :
  unchanged hs rg false s s0 →
  unchanged hs rg false s (send_resume this message token port ret v s0).
Proof. unfold send_resume. by_cases unchanged_auto. Qed.

Lemma unchanged_onAck hs rg s s0 this nonce :
  unchanged hs rg false s s0 → unchanged hs rg false s (onAck this nonce s0).
Proof. unfold onAck. by_cases unchanged_auto. Qed.

#[local] Hint Resolve unchanged_send_resume unchanged_onAck : unchanged.

Lemma unchanged_onmessage hs rg s s0 this data :
  unchanged hs rg false s s0 → unchanged hs rg false s (onmessage this data s0).
Proof. unfold onmessage, logService. by_cases unchanged_auto. Qed.

Lemma unchanged_onmessage_other hs rg cr s s0 this data :
  FromWorker.id data ≠ WorkerAck →
  unchanged hs rg cr s s0 → unchanged hs rg cr s (onmessage this data s0).
Proof. unfold onmessage, logService. by_cases unchanged_auto. Qed.

Lemma unchanged_runJob hs rg s s0 j :
  unchanged hs rg false s s0 →
  unchanged hs rg false s (runJob bootstrapForkPath j s0).
Proof. unfold runJob, init_resume. by_cases unchanged_auto. Qed.

(** ** The registry of process handles *)

Lemma handles_ok_view s :
  handles_ok hash s ↔
  ∀ h f, (handles s).1 !! h = Some f ↔
         ∃ c, (handles s).2 !! f = Some (c, false) ∧ hash c = h.
Proof.
  unfold handles_ok, handles. simpl.
  split; intros Hok h f; rewrite (Hok h f); rewrite list_lookup_fmap.
  - split.
    + intros (fr & -> & Hh & Hc). exists (configuration fr). simpl. by rewrite Hc.
    + intros (c & Hc & Hh). destruct (frames s !! f) as [fr|]; [|done].
      simplify_eq/=. by exists fr.
  - split.
    + intros (c & Hc & Hh). destruct (frames s !! f) as [fr|]; [|done].
      simplify_eq/=. by exists fr.
    + intros (fr & -> & Hh & Hc). exists (configuration fr). simpl. by rewrite Hc.
Qed.

Lemma handles_ok_unchanged rg cr s s' :
  unchanged true rg cr s s' → handles_ok hash s → handles_ok hash s'.
Proof.
  intros [Hh _ _]. rewrite !handles_ok_view. by rewrite (Hh eq_refl).
Qed.

Lemma handles_dispose s f fr :
  frames s !! f = Some fr →
  handles (dispose hash f s) =
  (delete (hash (configuration fr)) (processes s),
   <[f := (configuration fr, true)]> (handles s).2).
Proof.
  intros Hf. unfold dispose. rewrite Hf.
  set (U := update_frame f (set_cts true) s).
  assert (∀ (o : option nat) s1, handles (match o with
            | Some p => emit (EvPortClose p) s1 | None => s1 end) = handles s1) as Hclose.
  { by intros [p|] s1. }
  assert (handles (match worker fr with
            | Some w => (terminate w (configuration fr) TokenNone U).2
            | None => U end) = handles U) as Hterm.
  { destruct (worker fr) as [w|]; [|done].
    by apply (unchanged_terminate true true true U U w (configuration fr) TokenNone
                (unchanged_refl _ _ _ _)). }
  match goal with |- handles (set_processes _ ?X) = _ =>
    assert (handles X = handles U) as HX by (by rewrite !Hclose, Hterm)
  end.
  unfold handles in *. simpl in *. injection HX as HP HV.
  rewrite HP, HV. f_equal.
  apply list_eq. intros i. rewrite list_lookup_fmap.
  destruct (decide (f = i)) as [->|Hne].
  - rewrite list_lookup_alter_eq, Hf.
    rewrite list_lookup_insert_eq; [done|].
    rewrite length_fmap. by eapply lookup_lt_Some.
  - rewrite list_lookup_alter_ne, list_lookup_insert_ne by done.
    by rewrite list_lookup_fmap.
Qed.

(** Disposing the registered handle of a configuration keeps the registry
    consistent and leaves no handle under that hash. *)
Lemma handles_ok_disposeWorker s cfg :
  handles_ok hash s →
  handles_ok hash (disposeWorker hash cfg s) ∧
  processes (disposeWorker hash cfg s) !! hash cfg = None.
Proof.
  intros Hok. unfold disposeWorker.
  destruct (processes s !! hash cfg) as [f|] eqn:Hreg; [|done].
  destruct (proj1 (Hok _ _) Hreg) as (fr & Hf & Hh & Hc).
  pose proof (handles_dispose (logService LTrace
    [ArgString ("SharedProcess: disposeWorker (" +:+ workerLogId cfg +:+ ")")] s)
    f fr Hf) as Hd.
  set (s' := dispose hash f _) in *.
  assert (processes s' = delete (hash cfg) (processes s)) as HP.
  { change (processes s') with (handles s').1. rewrite Hd. simpl. by rewrite Hh. }
  split; [|by rewrite HP, lookup_delete_eq].
  apply handles_ok_view. rewrite Hd. simpl.
  pose proof (proj1 (handles_ok_view s) Hok) as Hv. clear Hok. rename Hv into Hok.
  simpl in Hok. rewrite Hh.
  assert ((handles s).2 !! f = Some (configuration fr, false)) as Hvf.
  { unfold handles. simpl. rewrite list_lookup_fmap, Hf. simpl. by rewrite Hc. }
  intros h f'. split.
  - intros Hl. apply lookup_delete_Some in Hl as [Hne Hl].
    apply Hok in Hl as (c & Hc' & Hh').
    exists c. split; [|done].
    rewrite list_lookup_insert_ne; [done|].
    intros ->. simpl in *. rewrite Hvf in Hc'. by simplify_eq.
  - intros (c & Hc' & Hh').
    destruct (decide (f = f')) as [->|Hne].
    { rewrite list_lookup_insert_eq in Hc'; [done|]. by eapply lookup_lt_Some. }
    rewrite list_lookup_insert_ne in Hc' by done.
    assert (processes s !! h = Some f') as Hl by (apply Hok; eauto).
    apply lookup_delete_Some. split; [|done].
    intros <-. by simplify_eq.
Qed.

Lemma handles_ok_createWorker s cfg :
  handles_ok hash s → handles_ok hash (createWorker hash cfg s).
Proof.
  intros Hok. unfold createWorker.
  set (s0 := logService _ _ s).
  assert (handles_ok hash s0) as Hok0 by done.
  destruct (handles_ok_disposeWorker s0 cfg Hok0) as [Hok1 Hnone].
  set (s1 := disposeWorker hash cfg s0) in *.
  cbn zeta.
  set (s2 := set_processes _ (set_frames _ s1)).
  destruct (getOrCreateWebWorker cfg s2) as [p s3] eqn:Hg.
  eapply handles_ok_unchanged.
  { apply (unchanged_await true false true s2).
    eapply unchanged_getOrCreateWebWorker; [done|apply unchanged_refl]. }
  clear Hg. intros h f. unfold s2. simpl.
  destruct (decide (hash cfg = h)) as [<-|Hne].
  - rewrite lookup_insert_eq. split.
    + intros [= <-]. eexists. split; [by rewrite lookup_app_r, Nat.sub_diag|done].
    + intros (fr & Hf & Hh & Hc).
      destruct (decide (f < length (frames s1))) as [Hlt|Hge].
      * rewrite lookup_app_l in Hf by done.
        assert (processes s1 !! hash cfg = Some f) as Hl by (apply Hok1; eauto).
        by rewrite Hnone in Hl.
      * apply lookup_lt_Some in Hf. rewrite length_app in Hf. simpl in Hf.
        f_equal. lia.
  - rewrite lookup_insert_ne by done. rewrite (Hok1 h f). split.
    + intros (fr & Hf & Hh & Hc). exists fr. split; [|done]. by apply lookup_app_l_Some.
    + intros (fr & Hf & Hh & Hc). exists fr. split; [|done].
      destruct (decide (f < length (frames s1))) as [Hlt|Hge].
      * by rewrite lookup_app_l in Hf.
      * assert (f = length (frames s1)) as ->.
        { apply lookup_lt_Some in Hf. rewrite length_app in Hf. simpl in Hf. lia. }
        rewrite lookup_app_r, Nat.sub_diag in Hf by done. by simplify_eq/=.
Qed.

Lemma handles_ok_step s i :
  handles_ok hash s → handles_ok hash (step hash bootstrapForkPath s i).
Proof.
  intros Hok. destruct i; simpl.
  - by apply handles_ok_createWorker.
  - by apply handles_ok_disposeWorker.
  - eapply handles_ok_unchanged; [|done].
    apply (unchanged_onmessage true true), unchanged_refl.
  - eapply handles_ok_unchanged; [|done].
    apply (unchanged_onerror true true true), unchanged_refl.
  - eapply handles_ok_unchanged; [|done].
    apply (unchanged_onmessageerror true true true), unchanged_refl.
  - destruct (microtasks s) as [|j rest]; [done|].
    eapply handles_ok_unchanged; [|done].
    apply (unchanged_runJob true true), unchanged_set_microtasks, unchanged_refl.
Qed.

Lemma handles_ok_initial : handles_ok hash initial.
Proof.
  intros h f. split; [done|]. by intros (fr & Hf & _).
Qed.

Lemma handles_ok_run s inputs :
  handles_ok hash s → handles_ok hash (run hash bootstrapForkPath s inputs).
Proof.
  intros Hok. induction inputs as [|i inputs IH] using rev_ind; [done|].
  rewrite run_snoc. by apply handles_ok_step.
Qed.

Lemma handles_lookup_inv s f c b :
  (handles s).2 !! f = Some (c, b) →
  ∃ fr, frames s !! f = Some fr ∧ configuration fr = c ∧ cts fr = b.
Proof.
  unfold handles. simpl. rewrite list_lookup_fmap.
  destruct (frames s !! f) as [fr|]; [|done]. intros [= <- <-]. by exists fr.
Qed.

Lemma handles_length s1 s2 :
  handles s1 = handles s2 → length (frames s1) = length (frames s2).
Proof. intros [= _ Hv]. apply (f_equal length) in Hv. by rewrite !length_fmap in Hv. Qed.

Lemma handles_disposeWorker_log s cfg e :
  isNewWorker e = false → awaiterCall e = [] →
  handles (disposeWorker hash cfg (emit e s)) = handles (disposeWorker hash cfg s).
Proof.
  intros. unfold disposeWorker. simpl.
  destruct (processes s !! hash cfg) as [f|]; [|done].
  destruct (frames s !! f) as [fr|] eqn:Hf.
  - by rewrite !(handles_dispose _ f fr).
  - unfold dispose. simpl. by rewrite Hf.
Qed.

Lemma frames_length_disposeWorker s cfg :
  length (frames (disposeWorker hash cfg s)) = length (frames s).
Proof.
  unfold disposeWorker. destruct (processes s !! hash cfg) as [f|]; [|done].
  destruct (frames s !! f) as [fr|] eqn:Hf.
  - pose proof (handles_dispose (logService LTrace
      [ArgString ("SharedProcess: disposeWorker (" +:+ workerLogId cfg +:+ ")")] s)
      f fr Hf) as Hd.
    apply (f_equal (λ v, length v.2)) in Hd. simpl in Hd.
    by rewrite length_insert, !length_fmap in Hd.
  - unfold dispose. simpl. by rewrite Hf.
Qed.

(** The registry after the synchronous part of [createWorker]: the handle
    found under the hash is disposed, then a fresh frame is registered. *)
Lemma handles_createWorker s cfg :
  handles (createWorker hash cfg s) =
  (<[hash cfg := length (frames s)]> (handles (disposeWorker hash cfg s)).1,
   (handles (disposeWorker hash cfg s)).2 ++ [(cfg, false)]).
Proof.
  unfold createWorker. cbn zeta.
  match goal with |- context [getOrCreateWebWorker cfg ?X] => set (s2 := X) end.
  destruct (getOrCreateWebWorker cfg s2) as [p s3] eqn:Hg.
  assert (unchanged true false true s2 (await p (KCreateWorker1
            (length (frames (disposeWorker hash cfg (logService LTrace
               [ArgString ("SharedProcess: createWorker (" +:+ workerLogId cfg +:+ ")")]
               s))))) s3)) as [Hh _ _].
  { apply unchanged_await. eapply unchanged_getOrCreateWebWorker; [done|].
    apply unchanged_refl. }
  rewrite (Hh eq_refl). unfold s2.
  set (sd := disposeWorker hash cfg (logService _ _ s)).
  assert (handles sd = handles (disposeWorker hash cfg s)) as Hlog
    by (by apply handles_disposeWorker_log).
  assert (length (frames sd) = length (frames s)) as Hlen.
  { rewrite (handles_length _ _ Hlog). apply frames_length_disposeWorker. }
  rewrite <- Hlog. unfold handles. simpl. by rewrite Hlen, fmap_app.
Qed.

Lemma createWorker_registers s cfg :
  let s1 := createWorker hash cfg s in
  let f := length (frames s) in
  processes s1 !! hash cfg = Some f ∧
  ∃ fr, frames s1 !! f = Some fr ∧ configuration fr = cfg ∧ cts fr = false.
Proof.
  cbn zeta. pose proof (handles_createWorker s cfg) as Hh. split.
  - change (processes (createWorker hash cfg s)) with (handles (createWorker hash cfg s)).1.
    rewrite Hh. simpl. by rewrite lookup_insert_eq.
  - apply handles_lookup_inv. rewrite Hh. simpl.
    rewrite lookup_app_r; rewrite length_fmap, frames_length_disposeWorker; [|done].
    by rewrite Nat.sub_diag.
Qed.

Lemma isCancellationRequested_frame s f fr :
  frames s !! f = Some fr → isCancellationRequested (TokenOf f) s = cts fr.
Proof. intros Hf. simpl. by rewrite Hf. Qed.

(** A triggered cancellation source stays triggered. *)
Lemma cancelled_later s s' f :
  later s s' →
  isCancellationRequested (TokenOf f) s = true →
  isCancellationRequested (TokenOf f) s' = true.
Proof.
  intros Hl Hc. simpl in *. destruct (frames s !! f) as [fr|] eqn:Hf; [|done].
  destruct (later_frames _ _ Hl f fr Hf) as (fr' & -> & _ & Hcts & _). auto.
Qed.

(** After [disposeWorker] for its configuration, an activation is cancelled,
    whatever happened since it started. *)
Lemma disposeWorker_cancels s f fr cfg :
  handles_ok hash s → frames s !! f = Some fr →
  hash cfg = hash (configuration fr) →
  isCancellationRequested (TokenOf f) (disposeWorker hash cfg s) = true.
Proof.
  intros Hok Hf Hh.
  destruct (cts fr) eqn:Hc.
  { eapply cancelled_later; [|by rewrite (isCancellationRequested_frame s f fr)].
    apply queued_disposeWorker, queued_refl. }
  assert (processes s !! hash cfg = Some f) as Hreg by (apply Hok; eauto).
  unfold disposeWorker. rewrite Hreg.
  pose proof (handles_dispose (logService LTrace [ArgString ("SharedProcess: disposeWorker (" +:+
    workerLogId cfg +:+ ")")] s) f fr Hf) as Hd.
  apply (f_equal (λ v, v.2 !! f)) in Hd. simpl in Hd.
  rewrite list_lookup_insert_eq in Hd
    by (rewrite length_fmap; by eapply lookup_lt_Some).
  apply handles_lookup_inv in Hd as (fr' & Hf' & _ & Hc').
  by rewrite (isCancellationRequested_frame _ f fr').
Qed.

(** C3: the synchronous part of [createWorker] creates the frame with its
    cancellation source and registers the handle under the hash of the
    configuration; from then on the activation is either cancelled already or
    still registered under that hash, and [disposeWorker] for the
    configuration leaves it cancelled. *)
Theorem createWorker_registers_before_suspending inputs cfg more :
  let s := run hash bootstrapForkPath initial inputs in
  let f := length (frames s) in
  let s1 := createWorker hash cfg s in
  let s2 := run hash bootstrapForkPath s1 more in
  (processes s1 !! hash cfg = Some f ∧
   ∃ fr, frames s1 !! f = Some fr ∧ configuration fr = cfg ∧ cts fr = false) ∧
  (isCancellationRequested (TokenOf f) s2 = true ∨ processes s2 !! hash cfg = Some f) ∧
  isCancellationRequested (TokenOf f) (disposeWorker hash cfg s2) = true.
Proof.
  cbn zeta. set (s := run hash bootstrapForkPath initial inputs).
  set (s1 := createWorker hash cfg s).
  set (s2 := run hash bootstrapForkPath s1 more).
  destruct (createWorker_registers s cfg) as [Hreg (fr & Hf & Hcfg & Hc)].
  fold s1 in Hreg, Hf.
  split; [by eauto|].
  assert (handles_ok hash s2) as Hok.
  { apply handles_ok_run, handles_ok_createWorker, handles_ok_run, handles_ok_initial. }
  destruct (later_frames _ _ (later_run s1 more) _ _ Hf) as (fr2 & Hf2 & Hcfg2 & _).
  fold s2 in Hf2. split.
  - rewrite (isCancellationRequested_frame s2 _ fr2 Hf2).
    destruct (cts fr2) eqn:Hc2; [by left|right].
    apply Hok. exists fr2. by rewrite Hcfg2, Hcfg.
  - eapply disposeWorker_cancels; [done..|]. by rewrite Hcfg2, Hcfg.
Qed.

(** ** The registry of web workers *)

Lemma registry_ok_unchanged hs cr s s' :
  unchanged hs true cr s s' → registry_ok s → registry_ok s'.
Proof.
  intros [_ Hr _]. specialize (Hr eq_refl). unfold registry in Hr.
  injection Hr as Hw Hl Hc. unfold registry_ok. by rewrite Hw, Hl, Hc.
Qed.

Lemma unchanged_workers hs cr s s' :
  unchanged hs true cr s s' → workers s' = workers s.
Proof. intros [_ Hr _]. specialize (Hr eq_refl). by injection Hr. Qed.

(** [getOrCreateWebWorker] either finds the stored promise and does nothing,
    or creates one web worker with one [Worker] and stores its pending
    [init] promise under the key. *)
Lemma getOrCreateWebWorker_cases cfg s :
  let key := moduleId (process cfg) in
  let p := (getOrCreateWebWorker cfg s).1 in
  let s1 := (getOrCreateWebWorker cfg s).2 in
  (workers s !! key = Some p ∧ s1 = s) ∨
  (workers s !! key = None ∧ p = length (promises s) ∧
   workers s1 = <[key := p]> (workers s) ∧
   length (webWorkers s1) = S (length (webWorkers s)) ∧
   newWorkerCount (trace s1) = S (newWorkerCount (trace s)) ∧
   promises s1 !! p = Some (Pending [])).
Proof.
  cbn zeta. unfold getOrCreateWebWorker.
  destruct (workers s !! moduleId (process cfg)) as [p|] eqn:Hk; [by left|right].
  unfold newSharedProcessWebWorker, doInit, init, newPromise, awaitReady, logService.
  simpl. rewrite lookup_app_r, Nat.sub_diag by done. simpl.
  rewrite length_alter, length_app, !newWorkerCount_snoc. simpl.
  repeat split; try done; try lia.
  by rewrite lookup_app_r, Nat.sub_diag.
Qed.

Lemma registry_ok_getOrCreateWebWorker cfg s :
  registry_ok s → registry_ok (getOrCreateWebWorker cfg s).2.
Proof.
  intros [Hn Hs].
  destruct (getOrCreateWebWorker_cases cfg s) as [[_ ->]|(Hk & _ & Hw & Hl & Hc & _)];
    [done|].
  split; [congruence|].
  rewrite Hw, Hl, map_size_insert_None by done. congruence.
Qed.

(** The synchronous part of [createWorker], cut at the call of
    [getOrCreateWebWorker]. *)
Lemma createWorker_split s cfg :
  ∃ s2, unchanged false true true s s2 ∧ queued s s2 ∧
        createWorker hash cfg s =
        await (getOrCreateWebWorker cfg s2).1 (KCreateWorker1 (length (frames s)))
          (getOrCreateWebWorker cfg s2).2.
Proof.
  unfold createWorker. cbn zeta.
  match goal with |- context [getOrCreateWebWorker cfg ?X] => exists X end.
  split; [|split].
  - apply unchanged_set_processes, unchanged_set_frames, unchanged_disposeWorker.
    by apply unchanged_emit; [apply unchanged_refl|..].
  - apply queued_set_processes, queued_push_frame, queued_disposeWorker,
      queued_emit, queued_refl.
  - destruct (getOrCreateWebWorker cfg _) as [p s3]. simpl.
    pose proof (handles_disposeWorker_log s cfg (EvLog LTrace
      [ArgString ("SharedProcess: createWorker (" +:+ workerLogId cfg +:+ ")")])
      eq_refl eq_refl) as Hlog.
    apply handles_length in Hlog. unfold logService.
    by rewrite Hlog, frames_length_disposeWorker.
Qed.

Lemma registry_ok_createWorker s cfg :
  registry_ok s → registry_ok (createWorker hash cfg s).
Proof.
  intros Hok. destruct (createWorker_split s cfg) as (s2 & Hu & _ & ->).
  eapply (registry_ok_unchanged true true); [apply unchanged_await, unchanged_refl|].
  apply registry_ok_getOrCreateWebWorker. by eapply registry_ok_unchanged.
Qed.

Lemma registry_ok_step s i :
  registry_ok s → registry_ok (step hash bootstrapForkPath s i).
Proof.
  intros Hok. destruct i; simpl.
  - by apply registry_ok_createWorker.
  - eapply registry_ok_unchanged; [|done].
    apply (unchanged_disposeWorker true true), unchanged_refl.
  - eapply registry_ok_unchanged; [|done].
    apply (unchanged_onmessage true true), unchanged_refl.
  - eapply registry_ok_unchanged; [|done].
    apply (unchanged_onerror true true true), unchanged_refl.
  - eapply registry_ok_unchanged; [|done].
    apply (unchanged_onmessageerror true true true), unchanged_refl.
  - destruct (microtasks s) as [|j rest]; [done|].
    eapply registry_ok_unchanged; [|done].
    apply (unchanged_runJob true true), unchanged_set_microtasks, unchanged_refl.
Qed.

Lemma registry_ok_run inputs :
  registry_ok (run hash bootstrapForkPath initial inputs).
Proof.
  induction inputs as [|i inputs IH] using rev_ind; [done|].
  rewrite run_snoc. by apply registry_ok_step.
Qed.

(** The keys of the [workers] map are the keys asked for so far. *)
Lemma workers_dom_step s i :
  dom (workers (step hash bootstrapForkPath s i)) =
  dom (workers s) ∪ list_to_set (requestedKey i).
Proof.
  assert (∀ hs cr s', unchanged hs true cr s s' →
            dom (workers s') = dom (workers s) ∪ list_to_set []) as Hsame.
  { intros hs cr s' Hu. rewrite (unchanged_workers _ _ _ _ Hu). simpl.
    by rewrite union_empty_r_L. }
  destruct i as [cfg|cfg|w data|w message|w|]; simpl requestedKey.
  - simpl. destruct (createWorker_split s cfg) as (s2 & Hu & _ & ->).
    pose proof (unchanged_workers _ _ _ _ Hu) as Hw2.
    rewrite (unchanged_workers true true (getOrCreateWebWorker cfg s2).2)
      by apply unchanged_await, unchanged_refl.
    destruct (getOrCreateWebWorker_cases cfg s2)
      as [[Hk ->]|(Hk & _ & -> & _)]; rewrite Hw2 in *.
    + apply elem_of_dom_2 in Hk. simpl. rewrite union_empty_r_L.
      apply set_eq. intros x. rewrite elem_of_union, elem_of_singleton.
      split; [by left|]. intros [?| ->]; done.
    + rewrite dom_insert_L. simpl. rewrite union_empty_r_L. apply union_comm_L.
  - apply (Hsame false true), unchanged_disposeWorker, unchanged_refl.
  - apply (Hsame true false), unchanged_onmessage, unchanged_refl.
  - apply (Hsame true true), unchanged_onerror, unchanged_refl.
  - apply (Hsame true true), unchanged_onmessageerror, unchanged_refl.
  - simpl. destruct (microtasks s) as [|j rest]; [by rewrite union_empty_r_L|].
    apply (Hsame true false), unchanged_runJob, unchanged_set_microtasks, unchanged_refl.
Qed.

Lemma workers_dom_run inputs :
  dom (workers (run hash bootstrapForkPath initial inputs)) = requestedKeys inputs.
Proof.
  unfold requestedKeys.
  induction inputs as [|i inputs IH] using rev_ind; [done|].
  rewrite run_snoc, workers_dom_step, IH, bind_app, list_to_set_app_L. simpl.
  by rewrite app_nil_r.
Qed.

(** C1: one [Worker] is created per distinct key.  After any inputs, the
    keys of the [workers] map are the keys that [createWorker] was called
    with, and as many [Worker]s were created as there are such keys.  The
    first [getOrCreateWebWorker] for a key creates one [Worker] and stores a
    pending promise; with a promise stored, settled or not,
    [getOrCreateWebWorker] returns it and changes nothing; a stored promise
    is never replaced. *)
Theorem one_worker_per_key inputs :
  let s := run hash bootstrapForkPath initial inputs in
  dom (workers s) = requestedKeys inputs ∧
  newWorkerCount (trace s) = size (requestedKeys inputs) ∧
  (∀ cfg, workers s !! moduleId (process cfg) = None →
     let p := (getOrCreateWebWorker cfg s).1 in
     let s1 := (getOrCreateWebWorker cfg s).2 in
     newWorkerCount (trace s1) = S (newWorkerCount (trace s)) ∧
     workers s1 = <[moduleId (process cfg) := p]> (workers s) ∧
     promises s1 !! p = Some (Pending [])) ∧
  (∀ cfg p, workers s !! moduleId (process cfg) = Some p →
     getOrCreateWebWorker cfg s = (p, s)) ∧
  (∀ more key p, workers s !! key = Some p →
     workers (run hash bootstrapForkPath s more) !! key = Some p).
Proof.
  cbn zeta. set (s := run hash bootstrapForkPath initial inputs).
  pose proof (workers_dom_run inputs) as Hdom. fold s in Hdom.
  destruct (registry_ok_run inputs) as [Hn Hs]. fold s in Hn, Hs.
  split; [done|]. split; [|split; [|split]].
  - rewrite <- Hdom, size_dom. congruence.
  - intros cfg Hk.
    destruct (getOrCreateWebWorker_cases cfg s)
      as [[Hk' _]|(_ & _ & Hw & _ & Hc & Hp)]; [congruence|done].
  - intros cfg p Hk. unfold getOrCreateWebWorker. by rewrite Hk.
  - intros more key p Hk.
    eapply lookup_weaken; [done|]. apply later_workers, later_run.
Qed.

(** ** Disposal *)

Lemma terminate_footprint this cfg token s :
  let s' := (terminate this cfg token s).2 in
  frames s' = frames s ∧ processes s' = processes s ∧ workers s' = workers s ∧
  uuids s' = uuids s ∧ ports s' = ports s ∧ trace s' = trace s.
Proof.
  cbn zeta. unfold terminate, send, newPromise, awaitReady. simpl.
  destruct (webWorkers s !! this) as [ww|]; simpl; [|done].
  by destruct (workerReady ww).
Qed.

Lemma dispose_footprint f s :
  let s' := dispose hash f s in
  frames s' = alter (set_cts true) f (frames s) ∧
  processes s' = match frames s !! f with
                 | Some fr => delete (hash (configuration fr)) (processes s)
                 | None => processes s
                 end ∧
  uuids s' = uuids s ∧ ports s' = ports s.
Proof.
  cbn zeta. unfold dispose.
  destruct (frames s !! f) as [fr|] eqn:Hf.
  - set (U := update_frame f (set_cts true) s).
    assert (∃ T, (T = U ∨ ∃ w, T = (terminate w (configuration fr) TokenNone U).2) ∧
              match worker fr with
              | Some w => (terminate w (configuration fr) TokenNone U).2
              | None => U
              end = T) as (T & HT & ->).
    { destruct (worker fr) as [w|]; eauto. }
    assert (frames T = frames U ∧ processes T = processes U ∧
            uuids T = uuids U ∧ ports T = ports U) as (HF & HP & HU & HO).
    { destruct HT as [->|[w ->]]; [done|].
      by destruct (terminate_footprint w (configuration fr) TokenNone U)
        as (? & ? & ? & ? & ? & ?). }
    destruct (windowPort fr), (workerPort fr); simpl; rewrite ?HF, ?HP, ?HU, ?HO; done.
  - repeat split; try done. symmetry. apply list_eq. intros i.
    destruct (decide (f = i)) as [->|Hne].
    + by rewrite list_lookup_alter_eq, Hf.
    + by rewrite list_lookup_alter_ne.
Qed.

(** C9: disposing a handle never touches the web workers.  The [workers]
    map, the number of web worker objects and the number of [Worker]s
    created are the same after [disposeWorker], after the disposal of any
    handle, and after the later transmission of the terminate message; the
    disposal changes the cancellation flag of its own frame and no other
    part of any frame, removes one entry of the [processes] map, and leaves
    the correlation tables and the counters as they are.  A replacement by
    [createWorker] keeps every stored web worker. *)
Theorem disposal_keeps_web_workers s cfg f this message token port ret v :
  (registry (disposeWorker hash cfg s) = registry s ∧
   same_correlations s (disposeWorker hash cfg s)) ∧
  (registry (dispose hash f s) = registry s ∧
   same_correlations s (dispose hash f s) ∧
   frames (dispose hash f s) = alter (set_cts true) f (frames s) ∧
   processes (dispose hash f s) =
     match frames s !! f with
     | Some fr => delete (hash (configuration fr)) (processes s)
     | None => processes s
     end ∧
   uuids (dispose hash f s) = uuids s ∧ ports (dispose hash f s) = ports s) ∧
  registry (send_resume this message token port ret v s) = registry s ∧
  (workers s ⊆ workers (createWorker hash cfg s) ∧
   length (webWorkers s) ≤ length (webWorkers (createWorker hash cfg s))).
Proof.
  split; [|split; [|split]].
  - destruct (unchanged_disposeWorker true true s s cfg (unchanged_refl _ _ _ _))
      as [_ Hr Hc]. auto.
  - destruct (unchanged_dispose true true s s f (unchanged_refl _ _ _ _))
      as [_ Hr Hc].
    destruct (dispose_footprint f s) as (? & ? & ? & ?). auto 10.
  - destruct (unchanged_send_resume true true s s this message token port ret v
                (unchanged_refl _ _ _ _)) as [_ Hr _]. auto.
  - destruct (queued_createWorker s s cfg (queued_refl _)) as [[] _]. auto.
Qed.

(** ** The correlation bookkeeping *)

Lemma generateUuid_inj i j : generateUuid i = generateUuid j → i = j.
Proof.
  unfold generateUuid. intros Heq.
  apply (inj (String.app "uuid-")) in Heq. by apply (inj pretty) in Heq.
Qed.

Lemma generateUuid_truthy i : truthy (Some (generateUuid i)) = true.
Proof. done. Qed.

Lemma correlations_ok_quiet s s' :
  unchanged false false true s s' → later s s' →
  correlations_ok s → correlations_ok s'.
Proof.
  intros [_ _ Hc] Hl (He & Hnd & Hlt). destruct (Hc eq_refl) as [Hent Hcalls].
  pose proof (later_promises _ _ Hl). pose proof (later_uuids _ _ Hl).
  split; [|split].
  - intros w n r Hr. rewrite Hent in Hr.
    destruct (He w n r Hr) as ((i & Hi & ->) & Hr1 & Hr2 & Hr3).
    split; [exists i; split; [lia|done]|]. split; [lia|]. split; [by rewrite Hcalls|].
    intros w' n' Hr'. rewrite Hent in Hr'. by apply Hr3.
  - by rewrite Hcalls.
  - intros r Hr. rewrite Hcalls in Hr. apply Hlt in Hr. lia.
Qed.

Lemma pendingEntry_update s w g w' n :
  pendingEntry (update_webWorker w g s) w' n =
  webWorkers s !! w' ≫= λ ww,
    mapMessageNonceToMessageResolve (if decide (w = w') then g ww else ww) !! n.
Proof.
  unfold pendingEntry. simpl. destruct (decide (w = w')) as [->|Hne].
  - rewrite list_lookup_alter_eq. by destruct (webWorkers s !! w').
  - by rewrite list_lookup_alter_ne.
Qed.

Lemma correlations_ok_send_resume s this message token port ret v :
  correlations_ok s → correlations_ok (send_resume this message token port ret v s).
Proof.
  intros Hok. unfold send_resume.
  destruct (isCancellationRequested token s).
  { eapply correlations_ok_quiet; [| |done].
    - apply unchanged_resolvePromise, unchanged_refl.
    - apply queued_resolvePromise, queued_refl. }
  destruct Hok as (He & Hnd & Hlt). unfold newPromise. cbn beta iota zeta.
  set (s1 := set_uuids _ (set_promises _ s)).
  set (g := λ ww, set_map (<[generateUuid (uuids s) := length (promises s)]>
                      (mapMessageNonceToMessageResolve ww)) ww).
  change (uuids (set_promises (promises s ++ [Pending []]) s)) with (uuids s).
  fold g.
  assert (∀ w n r, pendingEntry (update_webWorker this g s1) w n = Some r →
            (w = this ∧ n = generateUuid (uuids s) ∧ r = length (promises s)) ∨
            (n ≠ generateUuid (uuids s) ∨ w ≠ this) ∧ pendingEntry s w n = Some r) as Hcases.
  { intros w n r. rewrite pendingEntry_update. unfold pendingEntry.
    change (webWorkers s1) with (webWorkers s).
    destruct (webWorkers s !! w) as [ww|]; [|done]. simpl.
    destruct (decide (this = w)) as [->|Hne]; [|by right; auto].
    simpl. destruct (decide (n = generateUuid (uuids s))) as [->|Hn].
    - rewrite lookup_insert_eq. intros [= <-]. by left.
    - rewrite lookup_insert_ne by done. right. auto. }
  assert (trace_calls : ∀ s2, awaiterCalls (trace s2) = awaiterCalls (trace (update_webWorker this g s1)) →
            length (promises s2) = S (length (promises s)) →
            uuids s2 = S (uuids s) →
            (∀ w n, pendingEntry s2 w n = pendingEntry (update_webWorker this g s1) w n) →
            correlations_ok s2).
  { intros s2 Hcalls Hlen Hu Hent. split; [|split].
    - intros w n r Hr. rewrite Hent in Hr.
      destruct (Hcases w n r Hr) as [(-> & -> & ->)|[Hne Hr0]].
      + split; [exists (uuids s); split; [lia|done]|]. split; [lia|].
        split.
        { rewrite Hcalls. intros Hin. apply Hlt in Hin. lia. }
        intros w' n' Hr'. rewrite Hent in Hr'.
        destruct (Hcases w' n' _ Hr') as [(-> & -> & _)|[_ Hr0]]; [done|].
        destruct (He _ _ _ Hr0) as (_ & Hbad & _). lia.
      + destruct (He w n r Hr0) as ((i & Hi & ->) & Hr1 & Hr2 & Hr3).
        split; [exists i; split; [lia|done]|]. split; [lia|].
        split; [by rewrite Hcalls|].
        intros w' n' Hr'. rewrite Hent in Hr'.
        destruct (Hcases w' n' _ Hr') as [(-> & -> & ->)|[_ Hr0']]; [lia|].
        by apply Hr3.
    - by rewrite Hcalls.
    - intros r Hr. rewrite Hcalls in Hr. apply Hlt in Hr. lia. }
  apply trace_calls.
  - destruct v as [w|]; simpl; [|done].
    by rewrite awaiterCalls_snoc, app_nil_r.
  - destruct v as [w|]; simpl; rewrite length_app; simpl; lia.
  - by destruct v.
  - intros w n. by destruct v.
Qed.

Lemma correlations_ok_onAck s this nonce :
  correlations_ok s → correlations_ok (onAck this nonce s).
Proof.
  intros Hok. unfold onAck.
  destruct (truthy nonce); [|done].
  destruct nonce as [n|]; [|done].
  destruct (webWorkers s !! this) as [ww|] eqn:Hw; [|done].
  destruct (mapMessageNonceToMessageResolve ww !! n) as [r|] eqn:Hr; [|done].
  assert (pendingEntry s this n = Some r) as Hent.
  { unfold pendingEntry. by rewrite Hw. }
  destruct Hok as (He & Hnd & Hlt).
  destruct (He _ _ _ Hent) as (_ & Hr1 & Hr2 & Hr3).
  set (g := λ ww, set_map (delete n (mapMessageNonceToMessageResolve ww)) ww).
  set (s1 := emit (EvMessageAwaiter r) (update_webWorker this g s)).
  assert (∀ w n' r', pendingEntry s1 w n' = Some r' →
            pendingEntry s w n' = Some r' ∧ r' ≠ r) as Hcases.
  { intros w n' r'. unfold s1.
    change (pendingEntry (emit _ ?x) w n') with (pendingEntry x w n').
    rewrite pendingEntry_update. intros Hr'.
    assert (pendingEntry s w n' = Some r' ∧ (w, n') ≠ (this, n)) as [Hold Hne].
    { unfold pendingEntry. destruct (webWorkers s !! w) as [ww'|]; [|done]. simpl in *.
      destruct (decide (this = w)) as [->|Hne]; [|split; [done|congruence]].
      simpl in Hr'. apply lookup_delete_Some in Hr' as [Hne Hr']. split; [done|congruence]. }
    split; [done|]. intros ->. destruct (Hr3 _ _ Hold) as [-> ->]. done. }
  assert (correlations_ok s1) as Hok1.
  { split; [|split].
    - intros w n' r' Hr'. destruct (Hcases _ _ _ Hr') as [Hold Hne].
      destruct (He _ _ _ Hold) as (Hu & Hl & Hc & Hi).
      split; [done|]. split; [done|]. split.
      + unfold s1. simpl. rewrite awaiterCalls_snoc. simpl.
        rewrite elem_of_app, list_elem_of_singleton. by intros [?|?].
      + intros w' n'' Hr''. destruct (Hcases _ _ _ Hr'') as [Hold' _]. by apply Hi.
    - unfold s1. simpl. rewrite awaiterCalls_snoc. simpl.
      apply NoDup_app. split; [done|]. split; [|apply NoDup_singleton].
      intros x Hx. rewrite list_elem_of_singleton. by intros ->.
    - intros x. unfold s1. simpl. rewrite awaiterCalls_snoc. simpl.
      rewrite elem_of_app, list_elem_of_singleton. intros [Hx| ->]; auto. }
  eapply correlations_ok_quiet; [| |exact Hok1].
  - apply unchanged_resolvePromise, unchanged_refl.
  - apply queued_resolvePromise, queued_refl.
Qed.

Lemma correlations_ok_step s i :
  correlations_ok s → correlations_ok (step hash bootstrapForkPath s i).
Proof.
  intros Hok.
  assert (∀ s', unchanged false false true s s' → later s s' → correlations_ok s') as Hq.
  { intros s' Hu Hl. by eapply correlations_ok_quiet. }
  destruct i as [cfg|cfg|w data|w message|w|]; simpl.
  - apply Hq; [apply unchanged_createWorker, unchanged_refl|].
    apply queued_createWorker, queued_refl.
  - apply Hq; [apply unchanged_disposeWorker, unchanged_refl|].
    apply queued_disposeWorker, queued_refl.
  - destruct (decide (FromWorker.id data = WorkerAck)) as [Hack|Hother].
    + unfold onmessage. destruct (webWorkers s !! w) as [ww|]; [|done].
      rewrite Hack. by apply correlations_ok_onAck.
    + apply Hq; [by apply unchanged_onmessage_other, unchanged_refl|].
      apply queued_onmessage, queued_refl.
  - apply Hq; [apply unchanged_onerror, unchanged_refl|].
    apply queued_onerror, queued_refl.
  - apply Hq; [apply unchanged_onmessageerror, unchanged_refl|].
    apply queued_onmessageerror, queued_refl.
  - destruct (microtasks s) as [|[k v] rest]; [done|].
    assert (correlations_ok (set_microtasks rest s)) as Hok' by done.
    assert (∀ s', unchanged false false true (set_microtasks rest s) s' →
              later (set_microtasks rest s) s' → correlations_ok s') as Hq'.
    { intros s' Hu Hl. by eapply correlations_ok_quiet. }
    destruct k; simpl.
    + apply Hq'; [apply unchanged_resolvePromise, unchanged_refl|].
      apply queued_resolvePromise, queued_refl.
    + by apply correlations_ok_send_resume.
    + apply Hq'; [apply unchanged_createWorker_resume1, unchanged_refl|].
      apply queued_createWorker_resume1, queued_refl.
    + apply Hq'; [apply unchanged_createWorker_resume2, unchanged_refl|].
      apply queued_createWorker_resume2, queued_refl.
    + apply Hq'; [apply unchanged_await, unchanged_refl|].
      apply queued_await, queued_refl.
    + apply Hq'; [apply unchanged_resolvePromise, unchanged_refl|].
      apply queued_resolvePromise, queued_refl.
Qed.

Lemma correlations_ok_run inputs :
  correlations_ok (run hash bootstrapForkPath initial inputs).
Proof.
  induction inputs as [|i inputs IH] using rev_ind.
  - split; [done|]. split; [apply NoDup_nil_2|]. intros r Hr. by apply elem_of_nil in Hr.
  - rewrite run_snoc. by apply correlations_ok_step.
Qed.

Lemma resolvePromise_footprint p v s :
  let s' := resolvePromise p v s in
  trace s' = trace s ∧ webWorkers s' = webWorkers s ∧ frames s' = frames s ∧
  length (promises s') = length (promises s) ∧
  (p < length (promises s) → ∃ v', promises s' !! p = Some (Fulfilled v')).
Proof.
  cbn zeta. unfold resolvePromise.
  destruct (promises s !! p) as [[ks|v']|] eqn:Hp; simpl.
  - repeat split; try done; [by rewrite length_insert|].
    intros Hlt. exists v. by apply list_lookup_insert_eq.
  - repeat split; try done. eauto.
  - repeat split; try done. intros Hlt. apply lookup_ge_None in Hp. lia.
Qed.

(** C6: for every state, an Ack whose nonce is non-empty and matches a
    pending entry of the web worker removes that entry and no other, calls
    its resolver (one call is added to the trace and the promise of the
    resolver, if it is one of the store, is fulfilled), and the same Ack
    delivered again changes nothing; an Ack that matches no entry changes
    nothing.  In the reachable states every entry sits under a non-empty
    nonce, its resolver is a promise of the store that has not been called
    before, and no resolver is ever called twice. *)
Theorem ack_resolves_once s this message nonce :
  let data := {| FromWorker.id := WorkerAck; FromWorker.message := message;
                 FromWorker.nonce := nonce |} in
  let s' := onmessage this data s in
  match (if truthy nonce then nonce ≫= pendingEntry s this else None) with
  | Some r =>
      trace s' = trace s ++ [EvMessageAwaiter r] ∧
      (r < length (promises s) → ∃ v, promises s' !! r = Some (Fulfilled v)) ∧
      (∀ w n, pendingEntry s' w n =
              if decide (w = this ∧ Some n = nonce) then None else pendingEntry s w n) ∧
      onmessage this data s' = s'
  | None => s' = s
  end ∧
  (∀ inputs, s = run hash bootstrapForkPath initial inputs →
     NoDup (awaiterCalls (trace s')) ∧
     ∀ r, nonce ≫= pendingEntry s this = Some r →
          truthy nonce = true ∧ r < length (promises s) ∧ r ∉ awaiterCalls (trace s)).
Proof.
  cbn zeta.
  set (data := {| FromWorker.id := WorkerAck; FromWorker.message := message;
                  FromWorker.nonce := nonce |}).
  split.
  - destruct (truthy nonce) eqn:Htr.
    2: { unfold onmessage, onAck. simpl. rewrite Htr.
         by destruct (webWorkers s !! this). }
    destruct nonce as [n|]; [simpl|done].
    destruct (pendingEntry s this n) as [r|] eqn:Hent.
    2: { unfold onmessage, onAck, pendingEntry, data in *.
         cbn [FromWorker.nonce FromWorker.id]. rewrite Htr.
         destruct (webWorkers s !! this) as [ww|]; [|done].
         cbn [mbind option_bind] in Hent. by rewrite Hent. }
    assert (∃ ww, webWorkers s !! this = Some ww ∧
              mapMessageNonceToMessageResolve ww !! n = Some r) as (ww & Hw & Hr).
    { unfold pendingEntry in Hent. destruct (webWorkers s !! this) as [ww|]; [|done]. eauto. }
    set (g := λ ww, set_map (delete n (mapMessageNonceToMessageResolve ww)) ww).
    assert (onmessage this data s =
            resolvePromise r None (emit (EvMessageAwaiter r) (update_webWorker this g s)))
      as Hs'.
    { unfold onmessage, onAck, data. cbn [FromWorker.nonce FromWorker.id].
      by rewrite Hw, Htr, Hr. }
    rewrite Hs'.
    destruct (resolvePromise_footprint r None
                (emit (EvMessageAwaiter r) (update_webWorker this g s)))
      as (Ht & Hww & _ & _ & Hful).
    split; [done|]. split; [by apply Hful|].
    assert (∀ w n', pendingEntry (resolvePromise r None
              (emit (EvMessageAwaiter r) (update_webWorker this g s))) w n' =
            if decide (w = this ∧ Some n' = Some n) then None
            else pendingEntry s w n') as Hnew.
    { intros w n'. unfold pendingEntry at 1. rewrite Hww.
      change (webWorkers (emit ?e ?x)) with (webWorkers x).
      fold (pendingEntry (update_webWorker this g s) w n').
      rewrite pendingEntry_update. unfold pendingEntry.
      destruct (decide (w = this ∧ Some n' = Some n)) as [[-> [= ->]]|Hne].
      - rewrite Hw. simpl. rewrite decide_True by done. simpl. apply lookup_delete_eq.
      - destruct (webWorkers s !! w) as [ww'|]; [|done]. simpl.
        destruct (decide (this = w)) as [->|Hw']; [|done]. simpl.
        rewrite lookup_delete_ne; [done|]. intros <-. by apply Hne. }
    split; [done|].
    specialize (Hnew this n). rewrite decide_True in Hnew by done.
    set (s' := resolvePromise r None _) in *.
    unfold onmessage, onAck, data. cbn [FromWorker.nonce FromWorker.id].
    rewrite Htr. unfold pendingEntry in Hnew.
    destruct (webWorkers s' !! this) as [ww'|]; [|done].
    cbn [mbind option_bind] in Hnew. by rewrite Hnew.
  - intros inputs ->. split.
    + pose proof (correlations_ok_run (inputs ++ [OnMessage this data])) as (_ & Hnd & _).
      by rewrite run_snoc in Hnd.
    + intros r Hr. destruct nonce as [n|]; [simpl in Hr|done].
      destruct (correlations_ok_run inputs) as (He & _).
      destruct (He _ _ _ Hr) as ((i & Hi & ->) & Hr1 & Hr2 & _). done.
Qed.

(** ** Well-formedness is invariant *)

Section Grows.
Variables s s' : State.
Hypothesis G : grows s s'.

Lemma value_ok_grows v : value_ok s v → value_ok s' v.
Proof. destruct G as (_ & _ & Hr). intros Hv w Hw. apply Hr, Hv, Hw. Qed.

Lemma cont_ok_grows k : cont_ok s k → cont_ok s' k.
Proof.
  destruct G as (Hf & Hp & _). destruct k; simpl; try done; try lia.
  intros Hk p Hport. specialize (Hk p Hport). lia.
Qed.

Lemma job_ok_grows j : job_ok s j → job_ok s' j.
Proof.
  intros (Hc & Hv & Hi). split; [by apply cont_ok_grows|].
  split; [by apply value_ok_grows|].
  intros Hinit w Hw. destruct G as (_ & _ & Hr). by apply Hr, Hi.
Qed.

Lemma reaction_ok_grows k : reaction_ok s k → reaction_ok s' k.
Proof. intros [Hc Hi]. split; [by apply cont_ok_grows|done]. Qed.

Lemma waiter_ok_grows w k : waiter_ok s w k → waiter_ok s' w k.
Proof. intros [Hc Hi]. split; [by apply cont_ok_grows|done]. Qed.

Lemma event_ok_grows e : event_ok s e → event_ok s' e.
Proof.
  destruct G as (_ & Hp & _). destruct e; simpl; try done.
  intros He p Hin. specialize (He p Hin). lia.
Qed.
End Grows.

(** If the stores are those of a well-formed state, up to the listed
    changes, the state is well formed. *)
Lemma wf_intro s s' :
  wf s → grows s s' →
  (∀ j, j ∈ microtasks s' → job_ok s' j ∨ j ∈ microtasks s) →
  (∀ p ks, promises s' !! p = Some (Pending ks) →
     Forall (reaction_ok s') ks ∨ promises s !! p = Some (Pending ks)) →
  (∀ p v, promises s' !! p = Some (Fulfilled v) →
     value_ok s' v ∨ promises s !! p = Some (Fulfilled v)) →
  (∀ w ww ks, webWorkers s' !! w = Some ww → workerReady ww = ReadyPending ks →
     Forall (waiter_ok s' w) ks ∨
     ∃ ww0, webWorkers s !! w = Some ww0 ∧ workerReady ww0 = ReadyPending ks) →
  (∀ f fr w, frames s' !! f = Some fr → worker fr = Some w →
     isReady s' w ∨ ∃ fr0, frames s !! f = Some fr0 ∧ worker fr0 = Some w) →
  (∃ t, trace s' = trace s ++ t ∧ Forall (event_ok s') t) →
  wf s'.
Proof.
  intros [Hj Hr Hv Hw Hf Ht] G Hj' Hr' Hv' Hw' Hf' (t & Htr & Ht').
  split.
  - apply Forall_forall. intros j Hin. destruct (Hj' j Hin) as [?|Hin0]; [done|].
    eapply job_ok_grows; [done|]. by eapply (proj1 (Forall_forall _ _) Hj).
  - intros p ks Hp. destruct (Hr' p ks Hp) as [?|Hp0]; [done|].
    eapply Forall_impl; [by eapply Hr|]. intros k. by apply reaction_ok_grows.
  - intros p v Hp. destruct (Hv' p v Hp) as [?|Hp0]; [done|].
    eapply value_ok_grows; [done|]. by eapply Hv.
  - intros w ww ks Hww Hks. destruct (Hw' w ww ks Hww Hks) as [?|(ww0 & Hww0 & Hks0)]; [done|].
    eapply Forall_impl; [by eapply Hw|]. intros k. by apply waiter_ok_grows.
  - intros f fr w Hfr Hwk. destruct (Hf' f fr w Hfr Hwk) as [?|(fr0 & Hfr0 & Hwk0)]; [done|].
    destruct G as (_ & _ & G). eapply G, Hf; eauto.
  - rewrite Htr. apply Forall_app. split; [|done].
    eapply Forall_impl; [done|]. intros e. by apply event_ok_grows.
Qed.

(** One lemma per way of updating a state. *)
Ltac wf_old := intros; right; by eauto.
Ltac wf_same := exists []; split; [by rewrite app_nil_r|by apply Forall_nil].
Ltac wf_grows :=
  split; [simpl; rewrite ?length_app, ?length_alter; simpl; lia|];
  split; [simpl; lia|try done].

Section WfUpdates.
Variable s0 : State.
Hypothesis H : wf s0.

Lemma wf_emit e : event_ok s0 e → wf (emit e s0).
Proof.
  intros He.
  apply (wf_intro s0); [done|wf_grows|wf_old|wf_old|wf_old|wf_old|wf_old|].
  exists [e]. split; [done|]. by apply Forall_singleton.
Qed.

Lemma wf_set_microtasks l : Forall (job_ok s0) l → wf (set_microtasks l s0).
Proof.
  intros Hl.
  apply (wf_intro s0); [done|wf_grows| |wf_old|wf_old|wf_old|wf_old|wf_same].
  intros j Hj. left. by eapply (proj1 (Forall_forall _ _) Hl).
Qed.

Lemma wf_enqueue js : Forall (job_ok s0) js → wf (enqueue js s0).
Proof.
  intros Hl. apply wf_set_microtasks, Forall_app. split; [apply H|done].
Qed.

Lemma wf_set_uuids n : wf (set_uuids n s0).
Proof.
  apply (wf_intro s0); [done|wf_grows|wf_old|wf_old|wf_old|wf_old|wf_old|wf_same].
Qed.

Lemma wf_set_ports n : ports s0 ≤ n → wf (set_ports n s0).
Proof.
  intros Hn.
  apply (wf_intro s0); [done|wf_grows|wf_old|wf_old|wf_old|wf_old|wf_old|wf_same].
Qed.

Lemma wf_set_processes m : wf (set_processes m s0).
Proof.
  apply (wf_intro s0); [done|wf_grows|wf_old|wf_old|wf_old|wf_old|wf_old|wf_same].
Qed.

Lemma wf_set_workers m : wf (set_workers m s0).
Proof.
  apply (wf_intro s0); [done|wf_grows|wf_old|wf_old|wf_old|wf_old|wf_old|wf_same].
Qed.

Lemma wf_push_frame fr : worker fr = None → wf (set_frames (frames s0 ++ [fr]) s0).
Proof.
  intros Hfr.
  apply (wf_intro s0); [done|wf_grows|wf_old|wf_old|wf_old|wf_old| |wf_same].
  intros f fr' w. simpl. intros Hf Hw.
  apply lookup_snoc_Some in Hf as [[_ Hf]|[_ <-]]; [right; eauto|congruence].
Qed.

Lemma wf_update_frame f g :
  (∀ fr w, worker (g fr) = Some w → worker fr = Some w ∨ isReady s0 w) →
  wf (update_frame f g s0).
Proof.
  intros Hg.
  apply (wf_intro s0); [done|wf_grows|wf_old|wf_old|wf_old|wf_old| |wf_same].
  intros f' fr' w. simpl. intros Hf Hw.
  destruct (decide (f = f')) as [->|Hne].
  - rewrite list_lookup_alter_eq in Hf.
    destruct (frames s0 !! f') as [fr|] eqn:Hfr; simplify_eq/=.
    destruct (Hg _ _ Hw) as [?|?]; [right; eauto|by left].
  - rewrite list_lookup_alter_ne in Hf by done. right. eauto.
Qed.

Lemma wf_push_promise : wf (set_promises (promises s0 ++ [Pending []]) s0).
Proof.
  apply (wf_intro s0); [done|wf_grows|wf_old| | |wf_old|wf_old|wf_same].
  - intros p ks. simpl. intros Hp.
    apply lookup_snoc_Some in Hp as [[_ Hp]|[_ [= <-]]]; [by right|].
    left. by apply Forall_nil.
  - intros p v. simpl. intros Hp.
    apply lookup_snoc_Some in Hp as [[_ Hp]|[_ [=]]]. by right.
Qed.

Lemma wf_insert_pending p ks k :
  promises s0 !! p = Some (Pending ks) → reaction_ok s0 k →
  wf (set_promises (<[p := Pending (ks ++ [k])]> (promises s0)) s0).
Proof.
  intros Hp Hk.
  apply (wf_intro s0); [done|wf_grows|wf_old| | |wf_old|wf_old|wf_same].
  - intros p' ks'. simpl. intros Hp'.
    destruct (decide (p = p')) as [->|Hne].
    + rewrite list_lookup_insert_eq in Hp' by (by eapply lookup_lt_Some).
      simplify_eq. left. apply Forall_app. split; [by eapply H|].
      by apply Forall_singleton.
    + rewrite list_lookup_insert_ne in Hp' by done. by right.
  - intros p' v. simpl. intros Hp'.
    destruct (decide (p = p')) as [->|Hne].
    + rewrite list_lookup_insert_eq in Hp' by (by eapply lookup_lt_Some). done.
    + rewrite list_lookup_insert_ne in Hp' by done. by right.
Qed.

Lemma wf_insert_fulfilled p v :
  value_ok s0 v → wf (set_promises (<[p := Fulfilled v]> (promises s0)) s0).
Proof.
  intros Hv.
  apply (wf_intro s0); [done|wf_grows|wf_old| | |wf_old|wf_old|wf_same].
  - intros p' ks'. simpl. intros Hp'.
    destruct (decide (p = p')) as [->|Hne].
    + destruct (decide (p' < length (promises s0))).
      * rewrite list_lookup_insert_eq in Hp' by done. done.
      * rewrite list_insert_ge in Hp' by lia. by right.
    + rewrite list_lookup_insert_ne in Hp' by done. by right.
  - intros p' v'. simpl. intros Hp'.
    destruct (decide (p = p')) as [->|Hne].
    + destruct (decide (p' < length (promises s0))).
      * rewrite list_lookup_insert_eq in Hp' by done. simplify_eq. by left.
      * rewrite list_insert_ge in Hp' by lia. by right.
    + rewrite list_lookup_insert_ne in Hp' by done. by right.
Qed.

Lemma isReady_push_webWorker ww w :
  isReady s0 w → isReady (set_webWorkers (webWorkers s0 ++ [ww]) s0) w.
Proof.
  intros (ww' & Hw & Hr). exists ww'. split; [|done]. simpl. by apply lookup_app_l_Some.
Qed.

Lemma wf_push_webWorker type m :
  wf (set_webWorkers (webWorkers s0 ++
        [{| wtype := type; workerReady := ReadyPending [];
            mapMessageNonceToMessageResolve := m |}]) s0).
Proof.
  apply (wf_intro s0); [done| |wf_old|wf_old|wf_old| |wf_old|wf_same].
  - wf_grows. intros w. apply isReady_push_webWorker.
  - intros w ww ks. simpl. intros Hw Hks.
    apply lookup_snoc_Some in Hw as [[_ Hw]|[_ <-]]; [right; eauto|].
    simpl in Hks. simplify_eq. left. by apply Forall_nil.
Qed.

Lemma isReady_update_webWorker w g w' :
  keeps_ready s0 w g → isReady s0 w' → isReady (update_webWorker w g s0) w'.
Proof.
  intros Hg (ww & Hw & Hr). unfold isReady. simpl.
  destruct (decide (w = w')) as [->|Hne].
  - exists (g ww). rewrite list_lookup_alter_eq, Hw. split; [done|]. by apply Hg.
  - exists ww. by rewrite list_lookup_alter_ne.
Qed.

Lemma wf_update_table w g :
  (∀ ww, workerReady (g ww) = workerReady ww) → wf (update_webWorker w g s0).
Proof.
  intros Hg.
  apply (wf_intro s0); [done| |wf_old|wf_old|wf_old| |wf_old|wf_same].
  - wf_grows. intros w'. apply isReady_update_webWorker.
    intros ww _ Hr. by rewrite Hg.
  - intros w' ww ks. simpl. intros Hw Hks. right.
    destruct (decide (w = w')) as [->|Hne].
    + rewrite list_lookup_alter_eq in Hw.
      destruct (webWorkers s0 !! w') as [ww0|]; simplify_eq/=.
      exists ww0. by rewrite <- Hg.
    + rewrite list_lookup_alter_ne in Hw by done. eauto.
Qed.

Lemma wf_add_waiter w ww ks k :
  webWorkers s0 !! w = Some ww → workerReady ww = ReadyPending ks →
  waiter_ok s0 w k →
  wf (update_webWorker w (set_workerReady (ReadyPending (ks ++ [k]))) s0).
Proof.
  intros Hw Hks Hk.
  assert (grows s0 (update_webWorker w (set_workerReady (ReadyPending (ks ++ [k]))) s0)) as G.
  { wf_grows. intros w'. apply isReady_update_webWorker.
    intros ww' Hw' Hr. simplify_eq. congruence. }
  apply (wf_intro s0); [done|done|wf_old|wf_old|wf_old| |wf_old|wf_same].
  intros w' ww' ks'. simpl. intros Hw' Hks'.
  destruct (decide (w = w')) as [->|Hne].
  - rewrite list_lookup_alter_eq, Hw in Hw'. simplify_eq/=. left.
    eapply Forall_impl; [|intros k'; by apply waiter_ok_grows].
    apply Forall_app. split; [by eapply H|]. by apply Forall_singleton.
  - rewrite list_lookup_alter_ne in Hw' by done. right. eauto.
Qed.

Lemma wf_set_ready w : wf (update_webWorker w (set_workerReady ReadyResolved) s0).
Proof.
  apply (wf_intro s0); [done| |wf_old|wf_old|wf_old| |wf_old|wf_same].
  - wf_grows. intros w'. by apply isReady_update_webWorker.
  - intros w' ww ks. simpl. intros Hw Hks.
    destruct (decide (w = w')) as [->|Hne].
    + rewrite list_lookup_alter_eq in Hw.
      destruct (webWorkers s0 !! w'); simplify_eq/=.
    + rewrite list_lookup_alter_ne in Hw by done. right. eauto.
Qed.
End WfUpdates.

(** One lemma per method. *)
Lemma wf_resolvePromise s p v : wf s → value_ok s v → wf (resolvePromise p v s).
Proof.
  intros Hwf Hv. unfold resolvePromise.
  destruct (promises s !! p) as [[ks|v']|] eqn:Hp; [|done..].
  apply wf_enqueue; [by apply wf_insert_fulfilled|].
  apply Forall_fmap. eapply Forall_impl; [by eapply wf_reactions|].
  intros k [Hc Hi]. split; [done|]. split; [done|]. simpl. congruence.
Qed.

Lemma wf_await s p k : wf s → reaction_ok s k → wf (await p k s).
Proof.
  intros Hwf Hk. unfold await.
  destruct (promises s !! p) as [[ks|v]|] eqn:Hp; [| |done].
  - by apply wf_insert_pending.
  - apply wf_enqueue; [done|]. apply Forall_singleton.
    destruct Hk as [Hc Hi]. split; [done|]. split; [by eapply wf_values|].
    simpl. congruence.
Qed.

Lemma wf_awaitReady s w k : wf s → waiter_ok s w k → wf (awaitReady w k s).
Proof.
  intros Hwf Hk. unfold awaitReady.
  destruct (webWorkers s !! w) as [ww|] eqn:Hw; [|done].
  destruct (workerReady ww) as [ks|] eqn:Hr.
  - by eapply wf_add_waiter.
  - assert (isReady s w) as Hready by (by exists ww).
    apply wf_enqueue; [done|]. apply Forall_singleton.
    destruct Hk as [Hc Hi]. split; [done|]. split; [by intros ? [= <-]|].
    simpl. intros Hinit w' Hthis. rewrite (Hi Hinit) in Hthis. by simplify_eq.
Qed.

Lemma wf_readyResolve s w : wf s → wf (readyResolve w s).
Proof.
  intros Hwf. unfold readyResolve.
  destruct (webWorkers s !! w) as [ww|] eqn:Hw; [|done].
  destruct (workerReady ww) as [ks|] eqn:Hr; [|done].
  set (s1 := update_webWorker w (set_workerReady ReadyResolved) s).
  assert (isReady s1 w) as Hready.
  { exists (set_workerReady ReadyResolved ww). split; [|done].
    unfold s1. simpl. by rewrite list_lookup_alter_eq, Hw. }
  apply wf_enqueue; [by apply wf_set_ready|].
  apply Forall_fmap. eapply Forall_impl; [by eapply wf_waiters|].
  intros k [Hc Hi]. split; [done|]. split; [by intros ? [= <-]|].
  simpl. intros Hinit w' Hthis. rewrite (Hi Hinit) in Hthis. by simplify_eq.
Qed.

Lemma wf_send s this message token port :
  wf s → (∀ p, port = Some p → p < ports s) →
  wf (send this message token port s).2.
Proof.
  intros Hwf Hport. unfold send, newPromise. simpl.
  apply wf_awaitReady; [apply wf_push_promise, Hwf|]. by split.
Qed.

Lemma wf_send_resume s this message token port ret v :
  wf s → job_ok s (KSend this message token port ret, v) →
  wf (send_resume this message token port ret v s).
Proof.
  intros Hwf (Hc & Hv & _). unfold send_resume.
  destruct (isCancellationRequested token s).
  { by apply wf_resolvePromise. }
  unfold newPromise. cbn beta iota zeta.
  apply wf_enqueue.
  2: { apply Forall_singleton. split; [done|]. split; [by intros ? [=]|done]. }
  assert (wf (update_webWorker this
      (λ ww, set_map (<[generateUuid (uuids (set_promises (promises s ++ [Pending []]) s))
                        := length (promises s)]> (mapMessageNonceToMessageResolve ww)) ww)
      (set_uuids (S (uuids (set_promises (promises s ++ [Pending []]) s)))
         (set_promises (promises s ++ [Pending []]) s)))) as Hwf'.
  { apply wf_update_table; [|done]. by apply wf_set_uuids, wf_push_promise. }
  destruct v as [w|]; [|done].
  apply wf_emit; [done|]. simpl in *.
  intros p Hp. apply Hc. destruct port; [|by apply elem_of_nil in Hp].
  by apply list_elem_of_singleton in Hp as ->.
Qed.

Lemma wf_spawn s this cfg port token :
  wf s → port < ports s → wf (spawn bootstrapForkPath this cfg port token s).2.
Proof. intros Hwf Hp. apply wf_send; [done|]. by intros ? [= <-]. Qed.

Lemma wf_terminate s this cfg token : wf s → wf (terminate this cfg token s).2.
Proof. intros Hwf. by apply wf_send. Qed.

Lemma wf_init s this : wf s → wf (init this s).2.
Proof.
  intros Hwf. unfold init, newPromise. simpl.
  apply wf_awaitReady; [apply wf_push_promise, Hwf|]. by split.
Qed.

Lemma wf_newSharedProcessWebWorker s type :
  wf s → wf (newSharedProcessWebWorker type s).2.
Proof.
  intros Hwf. unfold newSharedProcessWebWorker, doInit. simpl.
  apply wf_emit; [apply wf_emit; [by apply wf_push_webWorker|done]|].
  simpl. by intros p Hp%elem_of_nil.
Qed.

Lemma wf_getOrCreateWebWorker s cfg : wf s → wf (getOrCreateWebWorker cfg s).2.
Proof.
  intros Hwf. unfold getOrCreateWebWorker.
  destruct (workers s !! _); [done|].
  destruct (newSharedProcessWebWorker _ _) as [this s1] eqn:Hn.
  destruct (init this s1) as [p s2] eqn:Hi. simpl.
  apply wf_set_workers.
  change s2 with (p, s2).2. rewrite <- Hi. apply wf_init.
  change s1 with (this, s1).2. rewrite <- Hn. apply wf_newSharedProcessWebWorker.
  by apply wf_emit.
Qed.

Lemma wf_dispose s f : wf s → wf (dispose hash f s).
Proof.
  intros Hwf. unfold dispose.
  destruct (frames s !! f) as [fr|]; [|done].
  apply wf_set_processes.
  assert (∀ (o : option nat) s1, wf s1 →
            wf (match o with Some p => emit (EvPortClose p) s1 | None => s1 end)) as Hclose.
  { intros [p|] s1 Hs1; [|done]. by apply wf_emit. }
  do 2 apply Hclose.
  assert (wf (update_frame f (set_cts true) s)) as Hwf'.
  { apply wf_update_frame; [done|]. intros fr' w Hw. by left. }
  destruct (worker fr); [|done]. by apply wf_terminate.
Qed.

Lemma wf_disposeWorker s cfg : wf s → wf (disposeWorker hash cfg s).
Proof.
  intros Hwf. unfold disposeWorker. destruct (processes s !! _); [|done].
  apply wf_dispose. by apply wf_emit.
Qed.

Lemma createWorker_unfold s cfg :
  createWorker hash cfg s =
  let s1 := disposeWorker hash cfg (logService LTrace
              [ArgString ("SharedProcess: createWorker (" +:+ workerLogId cfg +:+ ")")] s) in
  let f := length (frames s) in
  let s2 := set_processes (<[hash cfg := f]> (processes s1))
              (set_frames (frames s1 ++
                 [{| configuration := cfg; cts := false; worker := None;
                     windowPort := None; workerPort := None; returned := false |}]) s1) in
  await (getOrCreateWebWorker cfg s2).1 (KCreateWorker1 f) (getOrCreateWebWorker cfg s2).2.
Proof.
  unfold createWorker. cbn zeta.
  rewrite frames_length_disposeWorker.
  change (frames (logService ?l ?a s)) with (frames s).
  by destruct (getOrCreateWebWorker cfg _).
Qed.

Lemma wf_createWorker s cfg : wf s → wf (createWorker hash cfg s).
Proof.
  intros Hwf. rewrite createWorker_unfold. cbn zeta.
  set (s1 := disposeWorker hash cfg _).
  set (s2 := set_processes _ _).
  assert (length (frames s2) = S (length (frames s))) as Hlen.
  { unfold s2, s1. simpl. rewrite length_app, frames_length_disposeWorker. simpl. lia. }
  apply wf_await.
  - apply wf_getOrCreateWebWorker, wf_set_processes, wf_push_frame; [|done].
    by apply wf_disposeWorker, wf_emit.
  - split; [|done]. simpl.
    destruct (getOrCreateWebWorker cfg s2) as [p s3] eqn:Hg. simpl.
    pose proof (later_frames_length s2 s3) as Hle.
    assert (later s2 s3) as Hl.
    { eapply queued_getOrCreateWebWorker; [done|apply queued_refl]. }
    specialize (Hle Hl). lia.
Qed.

Lemma wf_createWorker_resume1 s f v :
  wf s → job_ok s (KCreateWorker1 f, v) →
  wf (createWorker_resume1 bootstrapForkPath f v s).
Proof.
  intros Hwf (Hc & Hv & _). simpl in Hc, Hv. unfold createWorker_resume1.
  set (s1 := update_frame f (set_worker v) s).
  assert (wf s1) as Hwf1.
  { apply wf_update_frame; [done|]. intros fr w Hw. right. by apply Hv. }
  destruct (isCancellationRequested (TokenOf f) s1).
  { apply wf_update_frame; [done|]. intros fr w Hw. by left. }
  destruct (frames s1 !! f) as [fr|]; [|done].
  destruct v as [w|]; [|done].
  set (s2 := emit _ (set_ports _ s1)).
  set (s3 := update_frame f _ s2).
  assert (wf s3) as Hwf3.
  { apply wf_update_frame.
    - apply wf_emit; [|done]. apply wf_set_ports; [done|lia].
    - intros fr' w' Hw'. by left. }
  destruct (spawn _ _ _ _ _ s3) as [acked s4] eqn:Hs.
  assert (wf s4) as Hwf4.
  { change s4 with (acked, s4).2. rewrite <- Hs. apply wf_spawn; [done|].
    simpl. lia. }
  apply wf_await; [done|]. split; [|done]. simpl.
  assert (later s3 s4) as Hl.
  { eapply queued_spawn; [done|apply queued_refl]. }
  apply later_frames_length in Hl.
  assert (length (frames s3) = length (frames s)) as Hlen.
  { unfold s3, s2, s1. simpl. by rewrite !length_alter. }
  lia.
Qed.

Lemma wf_createWorker_resume2 s f : wf s → wf (createWorker_resume2 f s).
Proof.
  intros Hwf. unfold createWorker_resume2, createWorker_return.
  destruct (isCancellationRequested (TokenOf f) s).
  { apply wf_update_frame; [done|]. intros fr w Hw. by left. }
  destruct (frames s !! f) as [fr|]; [|done].
  apply wf_update_frame; [|intros fr' w Hw; by left].
  apply wf_emit; [|done]. by apply wf_emit.
Qed.

Lemma wf_runJob s j : wf s → job_ok s j → wf (runJob bootstrapForkPath j s).
Proof.
  intros Hwf Hj. destruct j as [k v]. destruct k; simpl.
  - unfold init_resume. apply wf_resolvePromise; [done|].
    destruct Hj as (_ & _ & Hi). intros w [= <-]. by apply Hi.
  - by apply wf_send_resume.
  - by apply wf_createWorker_resume1.
  - by apply wf_createWorker_resume2.
  - by apply wf_await.
  - apply wf_resolvePromise; [done|]. apply Hj.
Qed.

Lemma wf_onAck s this nonce : wf s → wf (onAck this nonce s).
Proof.
  intros Hwf. unfold onAck. destruct (truthy nonce); [|done].
  destruct nonce as [n|]; [|done].
  destruct (webWorkers s !! this) as [ww|]; [|done].
  destruct (mapMessageNonceToMessageResolve ww !! n) as [r|]; [|done].
  apply wf_resolvePromise; [|by intros ? [=]].
  apply wf_emit; [|done]. by apply wf_update_table.
Qed.

Lemma wf_onmessage s this data : wf s → wf (onmessage this data s).
Proof.
  intros Hwf. unfold onmessage, logService.
  destruct (webWorkers s !! this) as [ww|]; [|done].
  destruct (FromWorker.id data); try (by apply wf_emit).
  - by apply wf_readyResolve.
  - by apply wf_onAck.
  - destruct (truthy _); [by apply wf_emit|done].
Qed.

Lemma wf_step s i : wf s → wf (step hash bootstrapForkPath s i).
Proof.
  intros Hwf. destruct i as [cfg|cfg|w data|w message|w|]; simpl.
  - by apply wf_createWorker.
  - by apply wf_disposeWorker.
  - by apply wf_onmessage.
  - unfold onerror, logService. destruct (webWorkers s !! w); [by apply wf_emit|done].
  - unfold onmessageerror, logService. destruct (webWorkers s !! w); [by apply wf_emit|done].
  - destruct (microtasks s) as [|j rest] eqn:Hq; [done|].
    pose proof (wf_jobs _ Hwf) as Hjobs. rewrite Hq in Hjobs.
    apply Forall_cons in Hjobs as [Hj Hrest].
    apply wf_runJob; [by apply wf_set_microtasks|done].
Qed.

Lemma wf_initial : wf initial.
Proof. by split. Qed.

Lemma wf_run s inputs : wf s → wf (run hash bootstrapForkPath s inputs).
Proof.
  intros Hwf. induction inputs as [|i inputs IH] using rev_ind; [done|].
  rewrite run_snoc. by apply wf_step.
Qed.

(** ** The terminate message *)

Lemma run_cons s i inputs :
  run hash bootstrapForkPath s (i :: inputs) =
  run hash bootstrapForkPath (step hash bootstrapForkPath s i) inputs.
Proof. done. Qed.

Lemma step_microtask s j rest :
  microtasks s = j :: rest →
  step hash bootstrapForkPath s Microtask =
  runJob bootstrapForkPath j (set_microtasks rest s).
Proof. intros Hq. simpl. by rewrite Hq. Qed.

(** First in, first out: a job behind [length q] others is first after that
    many turns of the queue. *)
Lemma fifo q : ∀ s j rest,
  microtasks s = q ++ j :: rest →
  ∃ rest', microtasks (run hash bootstrapForkPath s (replicate (length q) Microtask))
           = j :: rest'.
Proof.
  induction q as [|j0 q IH]; intros s j rest Hq; [by exists rest|].
  simpl replicate. rewrite run_cons.
  destruct (microtask_pop s j0 (q ++ j :: rest) Hq) as [new Hnew].
  rewrite <- app_assoc in Hnew. simpl in Hnew. by eapply IH.
Qed.

Lemma run_idle s n :
  microtasks s = [] → run hash bootstrapForkPath s (replicate n Microtask) = s.
Proof.
  intros Hq. induction n as [|n IH]; [done|].
  simpl replicate. rewrite run_cons. simpl. by rewrite Hq.
Qed.

(** Disposing a handle whose activation holds its web worker queues the
    terminate job. *)
Lemma dispose_acquired s f fr w :
  wf s → frames s !! f = Some fr → worker fr = Some w →
  microtasks (dispose hash f s) =
  microtasks s ++ [terminateJob w (configuration fr) (length (promises s))].
Proof.
  intros Hwf Hf Hw. destruct (wf_frames _ Hwf f fr w Hf Hw) as (ww & Hww & Hr).
  unfold dispose. rewrite Hf, Hw.
  unfold terminate, send, newPromise, awaitReady. simpl. rewrite Hww, Hr.
  by destruct (windowPort fr), (workerPort fr).
Qed.

(** Disposing a handle whose activation still awaits its web worker sends
    nothing and queues nothing. *)
Lemma dispose_not_acquired s f fr :
  frames s !! f = Some fr → worker fr = None →
  microtasks (dispose hash f s) = microtasks s ∧
  webWorkers (dispose hash f s) = webWorkers s ∧
  promises (dispose hash f s) = promises s ∧
  ∀ cfg, terminatePosted (dispose hash f s) cfg → terminatePosted s cfg.
Proof.
  intros Hf Hw. unfold dispose. rewrite Hf, Hw.
  repeat split; try (by destruct (windowPort fr), (workerPort fr)).
  intros cfg (i & w & nonce & Hi). exists i, w, nonce.
  assert (∀ t p, (t ++ [EvPortClose p]) !! i =
            Some (EvPostMessage w (PostMessage (terminateMessage cfg (Some nonce))) []) →
            t !! i = Some (EvPostMessage w (PostMessage (terminateMessage cfg (Some nonce))) []))
    as Hclose.
  { intros t p Ht. by apply lookup_snoc_Some in Ht as [[_ Ht]|[_ [=]]]. }
  destruct (windowPort fr), (workerPort fr); simpl in Hi; eauto.
Qed.

Lemma send_resume_posts s this message port ret w :
  let s' := send_resume this message TokenNone port ret (Some w) s in
  trace s' = trace s ++
    [EvPostMessage w (PostMessage (withNonce message (generateUuid (uuids s))))
       (match port with Some p => [p] | None => [] end)].
Proof. done. Qed.

(** A queued terminate job posts its message when its turn comes. *)
Lemma terminateJob_transmits s q w cfg ret rest :
  microtasks s = q ++ terminateJob w cfg ret :: rest →
  terminate_job_transmits hash bootstrapForkPath s (length q) w cfg ret.
Proof.
  intros Hq. destruct (fifo _ _ _ _ Hq) as [rest' Hhead].
  unfold terminate_job_transmits. cbn zeta.
  replace (S (length q)) with (length q + 1) by lia.
  rewrite replicate_add, run_app. simpl replicate.
  set (s2 := run hash bootstrapForkPath s (replicate (length q) Microtask)) in *.
  destruct (later_trace _ _ (later_run s (replicate (length q) Microtask))) as [t Ht].
  fold s2 in Ht.
  exists rest', t. split; [done|]. split; [done|].
  change (run hash bootstrapForkPath s2 [Microtask])
    with (step hash bootstrapForkPath s2 Microtask).
  rewrite (step_microtask s2 _ _ Hhead). unfold terminateJob, runJob.
  by rewrite (send_resume_posts (set_microtasks rest' s2)).
Qed.

(** Replacing a handle whose activation holds its web worker queues the
    terminate job behind the jobs already queued. *)
Lemma createWorker_acquired s cfg f1 fr1 w :
  wf s → processes s !! hash cfg = Some f1 → frames s !! f1 = Some fr1 →
  worker fr1 = Some w →
  ∃ new, microtasks (createWorker hash cfg s) =
         microtasks s ++ terminateJob w (configuration fr1) (length (promises s)) :: new.
Proof.
  intros Hwf Hreg Hf1 Hw.
  rewrite createWorker_unfold. cbn zeta.
  set (s0 := logService _ _ s).
  set (s1 := disposeWorker hash cfg s0).
  set (s2 := set_processes _ _).
  assert (microtasks s2 =
          microtasks s ++ [terminateJob w (configuration fr1) (length (promises s))]) as Hq.
  { unfold s2, s1, disposeWorker.
    change (processes s0) with (processes s). rewrite Hreg.
    change (microtasks (set_processes ?m (set_frames ?l ?x))) with (microtasks x).
    rewrite (dispose_acquired _ f1 fr1 w); [done| |done..].
    do 2 (apply wf_emit; [|done]). done. }
  destruct (getOrCreateWebWorker cfg s2) as [p s3] eqn:Hg. simpl.
  assert (queued s2 (await p (KCreateWorker1 (length (frames s))) s3)) as [_ [new Hnew]].
  { apply queued_await. eapply queued_getOrCreateWebWorker; [done|apply queued_refl]. }
  exists new. rewrite Hnew, Hq. by rewrite <- app_assoc.
Qed.

(** C4, amended: when a registered handle is disposed, its cancellation
    source is triggered.  If its activation has acquired its web worker, the
    disposal queues the terminate job of its configuration behind the jobs
    that are queued, and once those have run that very job posts the
    terminate message, as a new event after the disposal, although the token
    of the handle is cancelled; this holds whether the handle is disposed by
    [disposeWorker] or replaced by [createWorker].  If the activation still
    awaits its web worker, the disposal sends and queues nothing. *)
Theorem terminate_transmitted_when_acquired inputs cfg f fr :
  let s := run hash bootstrapForkPath initial inputs in
  let s1 := disposeWorker hash cfg s in
  let s1' := createWorker hash cfg s in
  let n := length (microtasks s) in
  let ret := length (promises s) in
  processes s !! hash cfg = Some f → frames s !! f = Some fr →
  isCancellationRequested (TokenOf f) s1 = true ∧
  match worker fr with
  | Some w =>
      (microtasks s1 = microtasks s ++ [terminateJob w (configuration fr) ret] ∧
       terminate_job_transmits hash bootstrapForkPath s1 n w (configuration fr) ret) ∧
      ((∃ new, microtasks s1' =
               microtasks s ++ terminateJob w (configuration fr) ret :: new) ∧
       terminate_job_transmits hash bootstrapForkPath s1' n w (configuration fr) ret)
  | None =>
      microtasks s1 = microtasks s ∧ webWorkers s1 = webWorkers s ∧
      promises s1 = promises s ∧
      ∀ cfg', terminatePosted s1 cfg' → terminatePosted s cfg'
  end.
Proof.
  cbn zeta. set (s := run hash bootstrapForkPath initial inputs).
  intros Hreg Hf.
  assert (handles_ok hash s) as Hok by apply handles_ok_run, handles_ok_initial.
  assert (wf s) as Hwf by apply wf_run, wf_initial.
  destruct (proj1 (Hok _ _) Hreg) as (fr' & Hf' & Hh & Hc). simplify_eq.
  split.
  { by eapply disposeWorker_cancels. }
  destruct (worker fr) as [w|] eqn:Hw.
  - split.
    + assert (microtasks (disposeWorker hash cfg s) =
              microtasks s ++ [terminateJob w (configuration fr) (length (promises s))])
        as Hq.
      { unfold disposeWorker. rewrite Hreg.
        set (s0 := logService _ _ s).
        assert (wf s0) as Hwf0 by (by apply wf_emit).
        exact (dispose_acquired s0 f fr w Hwf0 Hf Hw). }
      split; [done|]. by eapply terminateJob_transmits.
    + destruct (createWorker_acquired s cfg f fr w Hwf Hreg Hf Hw) as [new Hq].
      split; [by exists new|]. by eapply terminateJob_transmits.
  - unfold disposeWorker. rewrite Hreg.
    set (s0 := logService _ _ s).
    destruct (dispose_not_acquired s0 f fr Hf Hw) as (Hm & Hww & Hp & Ht).
    repeat split; try done.
    intros cfg' Hposted. destruct (Ht cfg' Hposted) as (i & w & nonce & Hi).
    exists i, w, nonce. unfold s0 in Hi. simpl in Hi.
    by apply lookup_snoc_Some in Hi as [[_ Hi]|[_ [=]]].
Qed.

(** ** Channels are created by [createWorker] only, and from fresh ports *)

Lemma channels_kept_refl e s : channels_kept e s s.
Proof. intros f fr _ Hf. by exists fr. Qed.

Section ChannelsKept.
Variables (e : option nat) (s s0 : State).
Hypothesis H : channels_kept e s s0.

Lemma channels_kept_same s1 : frames s1 = frames s0 → channels_kept e s s1.
Proof. intros Heq f fr He Hf. rewrite Heq. by apply H. Qed.

Lemma channels_kept_push_frame fr : channels_kept e s (set_frames (frames s0 ++ [fr]) s0).
Proof.
  intros f fr0 He Hf. destruct (H f fr0 He Hf) as (fr' & Hf' & Hp).
  exists fr'. split; [|done]. by apply lookup_app_l_Some.
Qed.

Lemma channels_kept_update_frame f g :
  (∀ fr, workerPort (g fr) = workerPort fr) ∨ e = Some f →
  channels_kept e s (update_frame f g s0).
Proof.
  intros Hg f0 fr0 He Hf. destruct (H f0 fr0 He Hf) as (fr' & Hf' & Hp).
  simpl. destruct (decide (f = f0)) as [->|Hne].
  - destruct Hg as [Hg|Heq]; [|by rewrite Heq in He].
    exists (g fr'). rewrite list_lookup_alter_eq, Hf'. split; [done|].
    by rewrite Hg.
  - exists fr'. by rewrite list_lookup_alter_ne.
Qed.
End ChannelsKept.

Create HintDb channels.
#[local] Hint Resolve channels_kept_refl channels_kept_push_frame
  channels_kept_update_frame : channels.
#[local] Hint Extern 2 (channels_kept ?e ?s (_ ?s0)) =>
  apply (channels_kept_same e s s0); [|reflexivity] : channels.
#[local] Hint Extern 1 (_ ∨ _ = Some _) => (left; reflexivity) || (right; reflexivity) : channels.

Ltac channels_auto := eauto 14 with channels.

Section ChannelsKeptMethods.
Variables (e : option nat) (s : State).

Lemma channels_kept_newPromise s0 p s1 :
  newPromise s0 = (p, s1) → channels_kept e s s0 → channels_kept e s s1.
Proof. unfold newPromise. by_cases channels_auto. Qed.

Lemma channels_kept_resolvePromise s0 p v :
  channels_kept e s s0 → channels_kept e s (resolvePromise p v s0).
Proof. unfold resolvePromise. by_cases channels_auto. Qed.

Lemma channels_kept_await s0 p k :
  channels_kept e s s0 → channels_kept e s (await p k s0).
Proof. unfold await. by_cases channels_auto. Qed.

Lemma channels_kept_awaitReady s0 w k :
  channels_kept e s s0 → channels_kept e s (awaitReady w k s0).
Proof. unfold awaitReady. by_cases channels_auto. Qed.

Lemma channels_kept_readyResolve s0 w :
  channels_kept e s s0 → channels_kept e s (readyResolve w s0).
Proof. unfold readyResolve. by_cases channels_auto. Qed.

Hint Resolve channels_kept_newPromise channels_kept_resolvePromise channels_kept_await
  channels_kept_awaitReady channels_kept_readyResolve : channels.

Lemma channels_kept_send s0 this message token port ret s1 :
  send this message token port s0 = (ret, s1) →
  channels_kept e s s0 → channels_kept e s s1.
Proof. unfold send. by_cases channels_auto. Qed.

Hint Resolve channels_kept_send : channels.

Lemma channels_kept_send_resume s0 this message token port ret v :
  channels_kept e s s0 → channels_kept e s (send_resume this message token port ret v s0).
Proof. unfold send_resume. by_cases channels_auto. Qed.

Lemma channels_kept_spawn s0 this cfg port token ret s1 :
  spawn bootstrapForkPath this cfg port token s0 = (ret, s1) →
  channels_kept e s s0 → channels_kept e s s1.
Proof. unfold spawn. by_cases channels_auto. Qed.

Lemma channels_kept_terminate s0 this cfg token :
  channels_kept e s s0 → channels_kept e s (terminate this cfg token s0).2.
Proof.
  unfold terminate. intros. destruct (send _ _ _ _ _) eqn:?. channels_auto.
Qed.

Lemma channels_kept_init s0 this ret s1 :
  init this s0 = (ret, s1) → channels_kept e s s0 → channels_kept e s s1.
Proof. unfold init. by_cases channels_auto. Qed.

Lemma channels_kept_newSharedProcessWebWorker s0 type this s1 :
  newSharedProcessWebWorker type s0 = (this, s1) →
  channels_kept e s s0 → channels_kept e s s1.
Proof. unfold newSharedProcessWebWorker, doInit. by_cases channels_auto. Qed.

Hint Resolve channels_kept_send_resume channels_kept_spawn channels_kept_terminate
  channels_kept_init channels_kept_newSharedProcessWebWorker : channels.

Lemma channels_kept_getOrCreateWebWorker s0 cfg p s1 :
  getOrCreateWebWorker cfg s0 = (p, s1) →
  channels_kept e s s0 → channels_kept e s s1.
Proof. unfold getOrCreateWebWorker, logService. by_cases channels_auto. Qed.

Lemma channels_kept_onAck s0 this nonce :
  channels_kept e s s0 → channels_kept e s (onAck this nonce s0).
Proof. unfold onAck. by_cases channels_auto. Qed.

Hint Resolve channels_kept_getOrCreateWebWorker channels_kept_onAck : channels.

Lemma channels_kept_onmessage s0 this data :
  channels_kept e s s0 → channels_kept e s (onmessage this data s0).
Proof. unfold onmessage, logService. by_cases channels_auto. Qed.

Lemma channels_kept_onerror s0 this message :
  channels_kept e s s0 → channels_kept e s (onerror this message s0).
Proof. unfold onerror, logService. by_cases channels_auto. Qed.

Lemma channels_kept_onmessageerror s0 this :
  channels_kept e s s0 → channels_kept e s (onmessageerror this s0).
Proof. unfold onmessageerror, logService. by_cases channels_auto. Qed.

Lemma channels_kept_dispose s0 f :
  channels_kept e s s0 → channels_kept e s (dispose hash f s0).
Proof. unfold dispose. by_cases channels_auto. Qed.

Hint Resolve channels_kept_dispose : channels.

Lemma channels_kept_disposeWorker s0 cfg :
  channels_kept e s s0 → channels_kept e s (disposeWorker hash cfg s0).
Proof. unfold disposeWorker, logService. by_cases channels_auto. Qed.

Hint Resolve channels_kept_disposeWorker : channels.

Lemma channels_kept_createWorker s0 cfg :
  channels_kept e s s0 → channels_kept e s (createWorker hash cfg s0).
Proof. unfold createWorker, logService. by_cases channels_auto. Qed.

Lemma channels_kept_createWorker_resume2 s0 f :
  channels_kept e s s0 → channels_kept e s (createWorker_resume2 f s0).
Proof.
  unfold createWorker_resume2, createWorker_return, logService. by_cases channels_auto.
Qed.
End ChannelsKeptMethods.

Lemma channels_kept_createWorker_resume1 s s0 f v :
  channels_kept (Some f) s s0 →
  channels_kept (Some f) s (createWorker_resume1 bootstrapForkPath f v s0).
Proof.
  pose proof channels_kept_spawn. pose proof channels_kept_await.
  unfold createWorker_resume1, createWorker_return. by_cases channels_auto.
Qed.

Lemma channels_kept_runJob s j :
  channels_kept (channelOwner j) s (runJob bootstrapForkPath j s).
Proof.
  pose proof (channels_kept_refl (channelOwner j) s).
  destruct j as [[] v]; simpl.
  - by apply channels_kept_resolvePromise.
  - by apply channels_kept_send_resume.
  - by apply channels_kept_createWorker_resume1.
  - by apply channels_kept_createWorker_resume2.
  - by apply channels_kept_await.
  - by apply channels_kept_resolvePromise.
Qed.

Lemma channels_kept_step s i :
  i ≠ Microtask → channels_kept None s (step hash bootstrapForkPath s i).
Proof.
  intros Hi. pose proof (channels_kept_refl None s).
  destruct i; simpl;
    auto using channels_kept_createWorker, channels_kept_disposeWorker,
      channels_kept_onmessage, channels_kept_onerror, channels_kept_onmessageerror.
  done.
Qed.

Lemma update_frame_lookup s f g fr :
  frames s !! f = Some fr → frames (update_frame f g s) !! f = Some (g fr).
Proof. intros Hf. simpl. by rewrite list_lookup_alter_eq, Hf. Qed.

Lemma createWorker_resume1_channel s f v fr :
  frames s !! f = Some fr →
  ∃ fr', frames (createWorker_resume1 bootstrapForkPath f v s) !! f = Some fr' ∧
         (workerPort fr' = workerPort fr ∨ workerPort fr' = Some (S (ports s))).
Proof.
  intros Hf. unfold createWorker_resume1, createWorker_return.
  pose proof (update_frame_lookup s f (set_worker v) fr Hf) as Hf1.
  set (s1 := update_frame f (set_worker v) s) in *.
  destruct (isCancellationRequested (TokenOf f) s1).
  { exists (set_returned (set_worker v fr)). split; [|by left].
    by apply update_frame_lookup. }
  rewrite Hf1. destruct v as [w|]; [|by eauto].
  set (s2 := emit _ (set_ports _ s1)).
  pose proof (update_frame_lookup s2 f (set_channel (ports s1) (S (ports s1)))
                (set_worker (Some w) fr) Hf1) as Hf3.
  set (s3 := update_frame f _ s2) in *.
  destruct (spawn _ _ _ _ _ s3) as [acked s4] eqn:Hs.
  assert (channels_kept None s3 (await acked (KCreateWorker2 f) s4)) as Hk.
  { apply channels_kept_await. eapply channels_kept_spawn; [done|].
    apply channels_kept_refl. }
  destruct (Hk f _ ltac:(done) Hf3) as (fr' & Hf' & Hp).
  exists fr'. split; [done|]. by right.
Qed.

(** A channel, once created, is replaced by a fresh port at most. *)
Lemma channel_fresh_step s i f fr :
  frames s !! f = Some fr →
  ∃ fr', frames (step hash bootstrapForkPath s i) !! f = Some fr' ∧
         (workerPort fr' = workerPort fr ∨
          ∃ p, workerPort fr' = Some p ∧ ports s ≤ p).
Proof.
  intros Hf.
  assert (∀ s', channels_kept None s s' →
            ∃ fr', frames s' !! f = Some fr' ∧
                   (workerPort fr' = workerPort fr ∨
                    ∃ p, workerPort fr' = Some p ∧ ports s ≤ p)) as Hkept.
  { intros s' Hk. destruct (Hk f fr ltac:(done) Hf) as (fr' & Hf' & Hp). eauto. }
  destruct i as [cfg|cfg|w data|w message|w|];
    try (apply Hkept, channels_kept_step; done).
  simpl. destruct (microtasks s) as [|j rest]; [by eauto|].
  pose proof (channels_kept_runJob (set_microtasks rest s) j) as Hk.
  destruct (decide (channelOwner j = Some f)) as [Hown|Hown].
  - destruct j as [[] v]; unfold channelOwner in Hown; simplify_eq/=.
    destruct (createWorker_resume1_channel (set_microtasks rest s) f v fr Hf)
      as (fr' & Hf' & [Hp|Hp]); exists fr'; (split; [done|]); [by left|right].
    exists (S (ports s)). split; [done|lia].
  - destruct (Hk f fr Hown Hf) as (fr' & Hf' & Hp). eauto.
Qed.

(** ** The terminate message of a replaced process comes first *)

Lemma terminate_job_ran_snoc s1 more w cfg ret i x :
  terminate_job_ran hash bootstrapForkPath s1 more w cfg ret i →
  terminate_job_ran hash bootstrapForkPath s1 (more ++ [x]) w cfg ret i.
Proof.
  intros (more1 & more2 & rest & Hm & Hhead & Hi & Hmsg). subst more.
  exists more1, (more2 ++ [x]), rest. split; [by rewrite <- app_assoc|].
  split; [done|]. split; [done|].
  rewrite run_snoc.
  destruct (later_trace _ _ (later_step
              (run hash bootstrapForkPath s1 (more1 ++ Microtask :: more2)) x)) as [t ->].
  by apply lookup_app_l_Some.
Qed.

Lemma replacing_step s1 more w cfg ret f2 i :
  replacing hash bootstrapForkPath s1 more w cfg ret f2 →
  replacing hash bootstrapForkPath s1 (more ++ [i]) w cfg ret f2.
Proof.
  unfold replacing, terminated_first. cbn zeta. rewrite run_snoc.
  intros (Hwf & [fr2 Hf2] & Hphase).
  assert (∀ x, terminate_job_ran hash bootstrapForkPath s1 more w cfg ret x →
               terminate_job_ran hash bootstrapForkPath s1 (more ++ [i]) w cfg ret x)
    as Hran by (intros x; apply terminate_job_ran_snoc).
  assert (∀ x, terminate_job_ran hash bootstrapForkPath s1 more w cfg ret x →
               x < length (trace (run hash bootstrapForkPath s1 more))) as Hlt.
  { intros x (m1 & m2 & rest & _ & _ & _ & Hmsg). by apply lookup_lt_Some in Hmsg. }
  assert (∀ rest, i = Microtask →
            microtasks (run hash bootstrapForkPath s1 more)
              = terminateJob w cfg ret :: rest →
            trace (step hash bootstrapForkPath
                     (run hash bootstrapForkPath s1 more) Microtask)
              !! length (trace (run hash bootstrapForkPath s1 more)) =
            Some (EvPostMessage w
                    (PostMessage (terminateMessage cfg
                       (Some (generateUuid (uuids (run hash bootstrapForkPath s1 more))))))
                    []) →
            terminate_job_ran hash bootstrapForkPath s1 (more ++ [i]) w cfg ret
              (length (trace (run hash bootstrapForkPath s1 more)))) as Hnow.
  { intros rest -> Hhead Hmsg. exists more, [], rest. split; [done|]. split; [done|].
    split; [done|]. by rewrite run_snoc. }
  revert Hwf Hf2 Hphase Hran Hlt Hnow.
  generalize (terminate_job_ran hash bootstrapForkPath s1 more w cfg ret).
  generalize (terminate_job_ran hash bootstrapForkPath s1 (more ++ [i]) w cfg ret).
  generalize (run hash bootstrapForkPath s1 more).
  intros s ran' ran Hwf Hf2 Hphase Hran Hlt Hnow.
  pose proof (later_step s i) as Hl.
  destruct (later_frames _ _ Hl f2 fr2 Hf2) as (fr2' & Hf2' & _).
  split; [by apply wf_step|]. split; [by eauto|].
  destruct Hphase as [(q1 & q2 & Hq & Hq1 & Hport)|(i0 & Hposted & Hfirst)].
  - (* the terminate job is still queued *)
    assert (i = Microtask ∨ i ≠ Microtask) as [->|Hi]
      by (destruct i; (by left) || (by right)).
    + destruct q1 as [|j0 q1].
      * (* it runs now *)
        right. simpl in Hq.
        exists (length (trace s)). split.
        { apply (Hnow q2 eq_refl Hq). rewrite (step_microtask s _ _ Hq).
          unfold terminateJob, runJob.
          rewrite (send_resume_posts (set_microtasks q2 s)).
          by rewrite lookup_app_r, Nat.sub_diag. }
        intros j Hj. rewrite (step_microtask s _ _ Hq) in Hj.
        unfold terminateJob, runJob in Hj.
        set (s0 := set_microtasks q2 s) in *.
        destruct Hj as (w' & msg & p & _ & _ & Hp).
        destruct (channels_kept_send_resume None s0 s0 w (terminateMessage cfg None)
                    TokenNone None ret (Some w) (channels_kept_refl _ _) f2 fr2
                    ltac:(done) Hf2) as (fr' & Hfr' & Hsame).
        rewrite Hfr' in Hp. rewrite Hf2 in Hport. simplify_eq/=; congruence.
      * (* a job ahead of it runs *)
        left. simpl in Hq. rewrite (step_microtask s _ _ Hq).
        set (s0 := set_microtasks (q1 ++ terminateJob w cfg ret :: q2) s).
        destruct (queued_runJob s0 s0 j0 (queued_refl _)) as [_ [new Hnew]].
        exists q1, (q2 ++ new). split; [|split].
        -- rewrite Hnew. simpl. by rewrite <- app_assoc.
        -- intros j Hj. apply Hq1. by right.
        -- destruct (channels_kept_runJob s0 j0 f2 fr2) as (fr' & Hfr' & Hsame);
             [apply Hq1; by left|done|].
           rewrite Hfr'. rewrite Hf2 in Hport. simpl in *. congruence.
    + left. destruct (queued_step s i Hi) as [_ [new Hnew]].
      exists q1, (q2 ++ new). split; [|split; [done|]].
      * rewrite Hnew, Hq. by rewrite <- app_assoc.
      * destruct (channels_kept_step s i Hi f2 fr2) as (fr' & Hfr' & Hsame); [done..|].
        rewrite Hfr'. rewrite Hf2 in Hport. simpl in *. congruence.
  - (* the terminate message was posted *)
    right. exists i0. split; [by apply Hran|].
    intros j Hj. destruct Hj as (w' & msg & p & Hj & Hspawn & Hp).
    pose proof (Hlt _ Hposted) as Hlt0.
    destruct (decide (j < length (trace s))) as [Hold|Hnew]; [|lia].
    destruct (later_trace _ _ Hl) as [t Ht]. rewrite Ht in Hj.
    rewrite lookup_app_l in Hj by done.
    destruct (channel_fresh_step s i f2 fr2 Hf2) as (fr' & Hfr' & [Hsame|(p' & Hp' & Hfresh)]).
    + apply Hfirst. exists w', msg, p. split; [done|]. split; [done|].
      rewrite Hfr' in Hp. rewrite Hf2. simpl in *. congruence.
    + rewrite Hfr' in Hp. simpl in Hp. simplify_eq.
      pose proof (wf_trace _ Hwf) as Hev.
      apply list_elem_of_lookup_2 in Hj.
      apply (proj1 (Forall_forall _ _) Hev) in Hj. simpl in Hj.
      specialize (Hj p (proj2 (list_elem_of_singleton _ _) eq_refl)). lia.
Qed.

Lemma replacing_run s1 w cfg ret f2 more :
  replacing hash bootstrapForkPath s1 [] w cfg ret f2 →
  replacing hash bootstrapForkPath s1 more w cfg ret f2.
Proof.
  intros Hr. induction more as [|i more IH] using rev_ind; [done|].
  by apply replacing_step.
Qed.

Lemma replacing_precedes s1 more w cfg ret f2 :
  replacing hash bootstrapForkPath s1 more w cfg ret f2 →
  terminate_job_precedes_spawn hash bootstrapForkPath s1 more w cfg ret f2.
Proof.
  intros (_ & _ & [(q1 & q2 & _ & _ & Hport)|(i & Hposted & Hfirst)]) j Hj.
  - destruct Hj as (w' & msg & p & _ & _ & Hp). rewrite Hp in Hport. done.
  - exists i. split; [by apply Hfirst|done].
Qed.

Lemma replacing_createWorker s cfg f1 fr1 w :
  wf s → handles_ok hash s →
  processes s !! hash cfg = Some f1 → frames s !! f1 = Some fr1 → worker fr1 = Some w →
  replacing hash bootstrapForkPath (createWorker hash cfg s) []
    w (configuration fr1) (length (promises s)) (length (frames s)).
Proof.
  intros Hwf Hok Hreg Hf1 Hw. unfold replacing. cbn zeta.
  change (run hash bootstrapForkPath (createWorker hash cfg s) [])
    with (createWorker hash cfg s).
  split; [by apply wf_createWorker|].
  destruct (createWorker_registers s cfg) as [_ (fr2 & Hf2 & _)].
  split; [by eauto|]. left.
  destruct (createWorker_acquired s cfg f1 fr1 w Hwf Hreg Hf1 Hw) as [new Hq].
  exists (microtasks s), new. split; [done|]. split.
  - intros [k v] Hj Hown. unfold channelOwner in Hown. destruct k; simplify_eq/=.
    pose proof (proj1 (Forall_forall _ _) (wf_jobs _ Hwf) _ Hj) as (Hc & _).
    simpl in Hc. lia.
  - rewrite createWorker_unfold. cbn zeta.
    set (s1 := disposeWorker hash cfg _).
    set (s2 := set_processes _ _).
    destruct (getOrCreateWebWorker cfg s2) as [p s3] eqn:Hg. simpl.
    assert (channels_kept None s2 (await p (KCreateWorker1 (length (frames s))) s3)) as Hk.
    { apply channels_kept_await. eapply channels_kept_getOrCreateWebWorker; [done|].
      apply channels_kept_refl. }
    edestruct (Hk (length (frames s))) as (fr' & Hfr' & Hp); [done| |].
    { unfold s2. simpl. rewrite lookup_app_r; unfold s1;
        rewrite frames_length_disposeWorker; [|done].
      simpl. by rewrite Nat.sub_diag. }
    rewrite Hfr'. simpl. by rewrite Hp.
Qed.


(** ** Messages of the worker that only concern the log *)

Lemma logged_refl s : logged s s.
Proof.
  exists []. destruct s; simpl. rewrite app_nil_r. split; [done|]. split; [lia|done].
Qed.

Lemma logged_logService level args s : logged s (logService level args s).
Proof. exists [EvLog level args]. split; [done|]. split; [simpl; lia|done]. Qed.

(** A [WorkerInfo] message without text, or with the empty text, is dropped:
    the state, log included, stays as it is. *)
Theorem info_without_message this nonce s :
  onmessage this {| FromWorker.id := WorkerInfo; FromWorker.message := None;
                    FromWorker.nonce := nonce |} s = s ∧
  onmessage this {| FromWorker.id := WorkerInfo; FromWorker.message := Some "";
                    FromWorker.nonce := nonce |} s = s.
Proof. unfold onmessage. by destruct (webWorkers s !! this). Qed.

(** What the worker reports besides Ready and Ack (trace, info, warning and
    error messages, messages with an identifier the service does not know)
    and the error events of the [Worker] add at most one entry to the log and
    change nothing else: no registry, promise, job or table is touched. *)
Theorem worker_diagnostics_only_log this s :
  (∀ data, FromWorker.id data ≠ WorkerReady → FromWorker.id data ≠ WorkerAck →
           logged s (onmessage this data s)) ∧
  (∀ message, logged s (onerror this message s)) ∧
  logged s (onmessageerror this s).
Proof.
  split; [|split].
  - intros data Hr Ha. unfold onmessage.
    destruct (webWorkers s !! this); [|apply logged_refl].
    destruct (FromWorker.id data); try done; try apply logged_logService.
    destruct (truthy _); [apply logged_logService|apply logged_refl].
  - intros message. unfold onerror.
    destruct (webWorkers s !! this); [apply logged_logService|apply logged_refl].
  - unfold onmessageerror.
    destruct (webWorkers s !! this); [apply logged_logService|apply logged_refl].
Qed.

(** ** The Ready message *)

(** The first Ready message of a [Worker] resolves [workerReady] and queues
    what waited for it, in the order of waiting and with the [Worker] as
    value; a Ready message that comes again changes nothing. *)
Theorem ready_resolves_once w message nonce s :
  let data := {| FromWorker.id := WorkerReady; FromWorker.message := message;
                 FromWorker.nonce := nonce |} in
  let s1 := onmessage w data s in
  (∀ ww, webWorkers s !! w = Some ww →
     isReady s1 w ∧
     microtasks s1 = microtasks s ++
       match workerReady ww with
       | ReadyPending ks => (λ k, (k, Some w)) <$> ks
       | ReadyResolved => []
       end) ∧
  onmessage w data s1 = s1 ∧
  (isReady s w → s1 = s).
Proof.
  cbn zeta. unfold onmessage, readyResolve. simpl.
  destruct (webWorkers s !! w) as [ww|] eqn:Hw; simpl.
  - destruct (workerReady ww) as [ks|] eqn:Hr; simpl.
    + rewrite list_lookup_alter_eq, Hw. simpl. split; [|split].
      * intros ? [= <-]. split; [|by rewrite Hr].
        eexists. unfold update_webWorker. simpl.
        rewrite list_lookup_alter_eq, Hw. done.
      * done.
      * intros (ww' & Hw' & Hr'). congruence.
    + rewrite Hw, Hr. split; [|done].
      intros ? [= <-]. rewrite Hr, app_nil_r. split; [|done]. by exists ww.
  - rewrite Hw. split; [|done]. by intros.
Qed.

(** ** Disposing twice *)

(** In a reachable state [disposeWorker] removes the entry of the hash and
    no other entry, so that a second [disposeWorker] for the configuration
    finds nothing and changes nothing. *)
Theorem disposeWorker_idempotent inputs cfg :
  let s := run hash bootstrapForkPath initial inputs in
  let s1 := disposeWorker hash cfg s in
  processes s1 = delete (hash cfg) (processes s) ∧
  disposeWorker hash cfg s1 = s1.
Proof.
  cbn zeta. set (s := run hash bootstrapForkPath initial inputs).
  assert (handles_ok hash s) as Hok by apply handles_ok_run, handles_ok_initial.
  assert (processes (disposeWorker hash cfg s) = delete (hash cfg) (processes s)) as Hp.
  { unfold disposeWorker.
    destruct (processes s !! hash cfg) as [f|] eqn:Hreg.
    - destruct (proj1 (Hok _ _) Hreg) as (fr & Hf & Hh & Hc).
      destruct (dispose_footprint f (logService LTrace
        [ArgString ("SharedProcess: disposeWorker (" +:+ workerLogId cfg +:+ ")")] s))
        as (_ & Hpr & _).
      rewrite Hpr. simpl. rewrite Hf. by rewrite Hh.
    - by rewrite delete_id. }
  split; [done|].
  unfold disposeWorker at 1. by rewrite Hp, lookup_delete_eq.
Qed.

(** ** Continuations: how the primitives move them *)

Lemma bind_insert_middle {A B} (f : A → list B) l i x y :
  l !! i = Some y →
  ∃ a b, l ≫= f = a ++ f y ++ b ∧ <[i := x]> l ≫= f = a ++ f x ++ b.
Proof.
  intros Hi. exists (take i l ≫= f), (drop (S i) l ≫= f).
  rewrite insert_take_drop by (by eapply lookup_lt_Some).
  rewrite <- (take_drop_middle l i y Hi) at 1.
  by rewrite !bind_app, !bind_cons.
Qed.

Lemma alter_insert_Some {A} (g : A → A) (l : list A) i y :
  l !! i = Some y → alter g i l = <[i := g y]> l.
Proof.
  intros Hi. apply list_eq. intros j. destruct (decide (i = j)) as [<-|Hne].
  - rewrite list_lookup_alter_eq, Hi, list_lookup_insert_eq; [done|].
    by eapply lookup_lt_Some.
  - by rewrite list_lookup_alter_ne, list_lookup_insert_ne.
Qed.

Lemma bind_alter_middle {A B} (f : A → list B) (g : A → A) l i y :
  l !! i = Some y →
  ∃ a b, l ≫= f = a ++ f y ++ b ∧ alter g i l ≫= f = a ++ f (g y) ++ b.
Proof.
  intros Hi. rewrite (alter_insert_Some g l i y Hi).
  by apply bind_insert_middle.
Qed.

Lemma bind_alter_same {A B} (f : A → list B) (g : A → A) l i :
  (∀ y, f (g y) = f y) → alter g i l ≫= f = l ≫= f.
Proof.
  intros Hg. destruct (l !! i) as [y|] eqn:Hi.
  - destruct (bind_alter_middle f g l i y Hi) as (a & b & -> & ->). by rewrite Hg.
  - replace (alter g i l) with l; [done|].
    apply list_eq. intros j. destruct (decide (i = j)) as [<-|Hne].
    + by rewrite list_lookup_alter_eq, Hi.
    + by rewrite list_lookup_alter_ne.
Qed.

Lemma conts_newPromise s : conts (newPromise s).2 = conts s.
Proof. unfold conts. simpl. by rewrite bind_app, app_nil_r. Qed.

Lemma conts_resolvePromise p v s : conts (resolvePromise p v s) ≡ₚ conts s.
Proof.
  unfold resolvePromise.
  destruct (promises s !! p) as [[ks|?]|] eqn:Hp; [|done..].
  unfold conts. simpl.
  destruct (bind_insert_middle reactionsOf (promises s) p (Fulfilled v) _ Hp)
    as (a & b & -> & ->). simpl.
  rewrite fmap_app, <- list_fmap_compose.
  replace (fst ∘ (λ k : Cont, (k, v))) with (@id Cont) by done.
  rewrite list_fmap_id. solve_Permutation.
Qed.

Lemma conts_await p k s : conts (await p k s) ⊆+ k :: conts s.
Proof.
  unfold await.
  destruct (promises s !! p) as [[ks|v]|] eqn:Hp.
  - unfold conts. simpl.
    destruct (bind_insert_middle reactionsOf (promises s) p (Pending (ks ++ [k])) _ Hp)
      as (a & b & -> & ->). simpl. solve_submseteq.
  - unfold conts. simpl. rewrite fmap_app. simpl. solve_submseteq.
  - by apply submseteq_cons.
Qed.

Lemma conts_awaitReady w k s : conts (awaitReady w k s) ⊆+ k :: conts s.
Proof.
  unfold awaitReady.
  destruct (webWorkers s !! w) as [ww|] eqn:Hw; [|by apply submseteq_cons].
  destruct (workerReady ww) as [ks|] eqn:Hr.
  - unfold conts. simpl.
    destruct (bind_alter_middle waitersOf (set_workerReady (ReadyPending (ks ++ [k])))
                (webWorkers s) w ww Hw) as (a & b & -> & ->).
    assert (waitersOf ww = ks) as -> by (unfold waitersOf; by rewrite Hr).
    change (waitersOf (set_workerReady _ ww)) with (ks ++ [k]). solve_submseteq.
  - unfold conts. simpl. rewrite fmap_app. simpl. solve_submseteq.
Qed.

Lemma conts_readyResolve w s : conts (readyResolve w s) ≡ₚ conts s.
Proof.
  unfold readyResolve.
  destruct (webWorkers s !! w) as [ww|] eqn:Hw; [|done].
  destruct (workerReady ww) as [ks|] eqn:Hr; [|done].
  unfold conts. simpl.
  destruct (bind_alter_middle waitersOf (set_workerReady ReadyResolved)
              (webWorkers s) w ww Hw) as (a & b & -> & ->).
  assert (waitersOf ww = ks) as -> by (unfold waitersOf; by rewrite Hr).
  change (waitersOf (set_workerReady _ ww)) with (@nil Cont).
  rewrite fmap_app, <- list_fmap_compose.
  replace (fst ∘ (λ k : Cont, (k, Some w))) with (@id Cont) by done.
  rewrite list_fmap_id. solve_Permutation.
Qed.

Lemma conts_enqueue js s : conts (enqueue js s) ≡ₚ (fst <$> js) ++ conts s.
Proof. unfold conts. simpl. rewrite fmap_app. solve_Permutation. Qed.

Lemma conts_pop s j rest :
  microtasks s = j :: rest → conts s = j.1 :: conts (set_microtasks rest s).
Proof. intros Hq. unfold conts. simpl. by rewrite Hq. Qed.

(** ** Quiet updates and methods *)

Lemma same_channel_refl fr : same_channel fr fr.
Proof. done. Qed.

Lemma same_channel_trans fr1 fr2 fr3 :
  same_channel fr1 fr2 → same_channel fr2 fr3 → same_channel fr1 fr3.
Proof.
  intros (? & ? & ?) (? & ? & ?). split; [by eapply frame_le_trans|].
  split; congruence.
Qed.

Lemma same_channel_set_cts fr : same_channel fr (set_cts true fr).
Proof. done. Qed.
Lemma same_channel_set_worker v fr : same_channel fr (set_worker v fr).
Proof. done. Qed.
Lemma same_channel_set_returned fr : same_channel fr (set_returned fr).
Proof. done. Qed.

Lemma quiet_refl K s : quiet K s s.
Proof.
  split; try done.
  - exists []. by rewrite app_nil_r.
  - by exists [].
  - intros f fr Hf. by exists fr.
  - intros f fr Hf Hle. apply lookup_lt_Some in Hf. lia.
Qed.

Lemma quiet_frames_length K s s' :
  quiet K s s' → length (frames s) ≤ length (frames s').
Proof.
  intros [_ _ Hf _ _]. destruct (decide (length (frames s) ≤ length (frames s'))); [done|].
  destruct (lookup_lt_is_Some_2 (frames s) (length (frames s'))) as [fr Hfr]; [lia|].
  destruct (Hf _ _ Hfr) as (fr' & Hfr' & _). apply lookup_lt_Some in Hfr'. lia.
Qed.

Lemma quiet_frames_inv K s s' f fr' :
  quiet K s s' → frames s' !! f = Some fr' →
  (∃ fr, frames s !! f = Some fr ∧ same_channel fr fr') ∨
  (length (frames s) ≤ f ∧ windowPort fr' = None ∧ workerPort fr' = None).
Proof.
  intros [_ _ Hf Hn _] Hfr'.
  destruct (frames s !! f) as [fr|] eqn:Hfr.
  - left. exists fr. split; [done|].
    destruct (Hf _ _ Hfr) as (fr2 & Hfr2 & Hs). by simplify_eq.
  - right. apply lookup_ge_None in Hfr. split; [done|]. by eapply Hn.
Qed.

Lemma quiet_trans K s1 s2 s3 : quiet K s1 s2 → quiet K s2 s3 → quiet K s1 s3.
Proof.
  intros H12 H23.
  pose proof (quiet_frames_length _ _ _ H12) as Hlen.
  destruct H12 as [(e1 & Ht1 & He1) (n1 & Hc1 & Hn1) Hf1 Hl1 Hp1].
  destruct H23 as [(e2 & Ht2 & He2) (n2 & Hc2 & Hn2) Hf2 Hl2 Hp2].
  split; try congruence.
  - exists (e1 ++ e2). rewrite Ht2, Ht1, <- app_assoc. split; [done|].
    by apply Forall_app.
  - exists (n2 ++ n1). split; [|by apply Forall_app].
    etrans; [done|]. rewrite <- app_assoc. by apply submseteq_skips_l.
  - intros f fr Hf. destruct (Hf1 f fr Hf) as (fr2 & Hfr2 & Hs2).
    destruct (Hf2 f fr2 Hfr2) as (fr3 & Hfr3 & Hs3).
    exists fr3. split; [done|]. by eapply same_channel_trans.
  - intros f fr3 Hf3 Hle.
    destruct (frames s2 !! f) as [fr2|] eqn:Hfr2.
    + destruct (Hf2 _ _ Hfr2) as (fr3' & Hfr3' & _ & Hn & Hw). simplify_eq.
      rewrite Hn, Hw. by eapply Hl1.
    + apply lookup_ge_None in Hfr2. by eapply Hl2.
Qed.

Lemma quiet_mono (K K' : Kind → bool) s s' :
  (∀ k, K k = true → K' k = true) → quiet K s s' → quiet K' s s'.
Proof.
  intros HK [(e1 & Ht1 & He1) ? ? ? ?]. split; try done.
  exists e1. split; [done|]. eapply Forall_impl; [done|]. simpl. auto.
Qed.

(** A change that touches neither trace, continuations, frames nor port
    counter. *)
Lemma quiet_same K s s0 s1 :
  trace s1 = trace s0 → conts s1 = conts s0 → frames s1 = frames s0 →
  ports s1 = ports s0 → quiet K s s0 → quiet K s s1.
Proof.
  intros Ht Hc Hf Hp [? ? ? ? ?]. split; by rewrite ?Ht, ?Hc, ?Hf, ?Hp.
Qed.

Section Quiet.
Variable K : Kind → bool.
Variables s s0 : State.
Hypothesis H : quiet K s s0.

Lemma quiet_emit e : K (kindOf e) = true → quiet K s (emit e s0).
Proof.
  intros He. destruct H as [(evs & Ht & Hevs) ? ? ? ?]. split; try done.
  exists (evs ++ [e]). simpl. rewrite Ht, <- app_assoc. split; [done|].
  apply Forall_app. split; [done|]. by apply Forall_singleton.
Qed.

Lemma quiet_enqueue js : Forall plain (fst <$> js) → quiet K s (enqueue js s0).
Proof.
  intros Hjs. destruct H as [? (news & Hc & Hn) ? ? ?]. split; try done.
  exists ((fst <$> js) ++ news). split; [|by apply Forall_app].
  rewrite conts_enqueue, <- app_assoc. by apply submseteq_skips_l.
Qed.

Lemma quiet_update_frame f g :
  (∀ fr, same_channel fr (g fr)) → quiet K s (update_frame f g s0).
Proof.
  intros Hg. destruct H as [? ? Hf Hn ?]. split; try done.
  - intros f0 fr0 Hf0. destruct (Hf f0 fr0 Hf0) as (fr' & Hf' & Hs'). simpl.
    destruct (decide (f = f0)) as [->|Hne].
    + exists (g fr'). rewrite list_lookup_alter_eq, Hf'. split; [done|].
      by eapply same_channel_trans.
    + exists fr'. by rewrite list_lookup_alter_ne.
  - simpl. intros f0 fr0 Hf0 Hle. destruct (decide (f = f0)) as [->|Hne].
    + rewrite list_lookup_alter_eq in Hf0.
      destruct (frames s0 !! f0) as [fr1|] eqn:Hfr1; [|done]. simplify_eq/=.
      destruct (Hg fr1) as (_ & -> & ->). by eapply Hn.
    + rewrite list_lookup_alter_ne in Hf0 by done. by eapply Hn.
Qed.

Lemma quiet_push_frame cfg :
  quiet K s (set_frames (frames s0 ++
    [{| configuration := cfg; cts := false; worker := None;
        windowPort := None; workerPort := None; returned := false |}]) s0).
Proof.
  pose proof (quiet_frames_length _ _ _ H) as Hlen.
  destruct H as [? ? Hf Hn ?]. split; try done.
  - intros f fr Hfr. destruct (Hf f fr Hfr) as (fr' & Hf' & Hs'). simpl.
    exists fr'. split; [|done]. by apply lookup_app_l_Some.
  - simpl. intros f fr' Hfr' Hle.
    apply lookup_app_Some in Hfr' as [Hfr'|[_ Hfr']]; [by eapply Hn|].
    apply list_lookup_singleton_Some in Hfr' as [_ <-]. done.
Qed.

Lemma quiet_push_promise : quiet K s (set_promises (promises s0 ++ [Pending []]) s0).
Proof.
  apply (quiet_same K s s0); try done.
  apply (conts_newPromise s0).
Qed.

Lemma quiet_push_webWorker type m :
  quiet K s (set_webWorkers (webWorkers s0 ++
    [{| wtype := type; workerReady := ReadyPending [];
        mapMessageNonceToMessageResolve := m |}]) s0).
Proof.
  apply (quiet_same K s s0); try done.
  unfold conts. simpl. by rewrite bind_app, !app_nil_r.
Qed.

Lemma quiet_update_table w g :
  (∀ ww, waitersOf (g ww) = waitersOf ww) → quiet K s (update_webWorker w g s0).
Proof.
  intros Hg. apply (quiet_same K s s0); try done.
  unfold conts. simpl. by rewrite bind_alter_same.
Qed.

Lemma quiet_perm s1 :
  trace s1 = trace s0 → conts s1 ≡ₚ conts s0 → frames s1 = frames s0 →
  ports s1 = ports s0 → quiet K s s1.
Proof.
  intros Ht Hc Hf Hp. destruct H as [? (news & Hn & ?) ? ? ?].
  split; rewrite ?Ht, ?Hf, ?Hp; try done.
  exists news. split; [|done]. by rewrite Hc.
Qed.

Lemma quiet_add s1 k :
  trace s1 = trace s0 → conts s1 ⊆+ k :: conts s0 → frames s1 = frames s0 →
  ports s1 = ports s0 → plain k → quiet K s s1.
Proof.
  intros Ht Hc Hf Hp Hk. destruct H as [? (news & Hn & ?) ? ? ?].
  split; rewrite ?Ht, ?Hf, ?Hp; try done.
  exists (k :: news). split; [|by apply Forall_cons].
  etrans; [done|]. simpl. by apply submseteq_skip.
Qed.
End Quiet.

Create HintDb quiet.
#[local] Hint Resolve quiet_refl quiet_emit quiet_enqueue quiet_update_frame
  quiet_push_frame quiet_push_promise quiet_push_webWorker quiet_update_table
  same_channel_set_cts same_channel_set_worker same_channel_set_returned : quiet.
#[local] Hint Extern 3 (quiet ?K ?s (_ ?s0)) =>
  apply (quiet_same K s s0); [reflexivity..|] : quiet.
#[local] Hint Extern 1 (_ = true) => simpl; assumption : quiet.
#[local] Hint Extern 1 (waitersOf _ = _) => reflexivity : quiet.
#[local] Hint Extern 1 (plain _) =>
  simpl; (done || (split; [done|eexists; reflexivity])) : quiet.
#[local] Hint Extern 1 (Forall plain _) => repeat constructor : quiet.

Ltac quiet_auto := eauto 14 with quiet.

Lemma resolvePromise_same p v s :
  trace (resolvePromise p v s) = trace s ∧ frames (resolvePromise p v s) = frames s ∧
  ports (resolvePromise p v s) = ports s ∧ uuids (resolvePromise p v s) = uuids s ∧
  webWorkers (resolvePromise p v s) = webWorkers s.
Proof. unfold resolvePromise. by repeat split_match. Qed.

Lemma await_same p k s :
  trace (await p k s) = trace s ∧ frames (await p k s) = frames s ∧
  ports (await p k s) = ports s ∧ uuids (await p k s) = uuids s ∧
  webWorkers (await p k s) = webWorkers s.
Proof. unfold await. by repeat split_match. Qed.

Lemma awaitReady_same w k s :
  trace (awaitReady w k s) = trace s ∧ frames (awaitReady w k s) = frames s ∧
  ports (awaitReady w k s) = ports s ∧ uuids (awaitReady w k s) = uuids s ∧
  promises (awaitReady w k s) = promises s.
Proof. unfold awaitReady. by repeat split_match. Qed.

Lemma readyResolve_same w s :
  trace (readyResolve w s) = trace s ∧ frames (readyResolve w s) = frames s ∧
  ports (readyResolve w s) = ports s ∧ uuids (readyResolve w s) = uuids s ∧
  promises (readyResolve w s) = promises s.
Proof. unfold readyResolve. by repeat split_match. Qed.

Section QuietMethods.
Variable K : Kind → bool.
Variable s : State.

Lemma quiet_newPromise s0 p s1 :
  newPromise s0 = (p, s1) → quiet K s s0 → quiet K s s1.
Proof. unfold newPromise. by_cases quiet_auto. Qed.

Lemma quiet_resolvePromise s0 p v :
  quiet K s s0 → quiet K s (resolvePromise p v s0).
Proof.
  intros. destruct (resolvePromise_same p v s0) as (? & ? & ? & _).
  eapply (quiet_perm K s s0); try done. apply conts_resolvePromise.
Qed.

Lemma quiet_await s0 p k : plain k → quiet K s s0 → quiet K s (await p k s0).
Proof.
  intros. destruct (await_same p k s0) as (? & ? & ? & _).
  eapply (quiet_add K s s0); try done. apply conts_await.
Qed.

Lemma quiet_awaitReady s0 w k : plain k → quiet K s s0 → quiet K s (awaitReady w k s0).
Proof.
  intros. destruct (awaitReady_same w k s0) as (? & ? & ? & _).
  eapply (quiet_add K s s0); try done. apply conts_awaitReady.
Qed.

Lemma quiet_readyResolve s0 w : quiet K s s0 → quiet K s (readyResolve w s0).
Proof.
  intros. destruct (readyResolve_same w s0) as (? & ? & ? & _).
  eapply (quiet_perm K s s0); try done. apply conts_readyResolve.
Qed.

Hint Resolve quiet_newPromise quiet_resolvePromise quiet_await
  quiet_awaitReady quiet_readyResolve : quiet.

Lemma quiet_terminate s0 this cfg :
  quiet K s s0 → quiet K s (terminate this cfg TokenNone s0).2.
Proof. unfold terminate, send. by_cases quiet_auto. Qed.

Lemma quiet_init s0 this ret s1 :
  init this s0 = (ret, s1) → quiet K s s0 → quiet K s s1.
Proof. unfold init. by_cases quiet_auto. Qed.

Lemma quiet_init_resume s0 this ret :
  quiet K s s0 → quiet K s (init_resume this ret s0).
Proof. unfold init_resume. quiet_auto. Qed.

Lemma quiet_newSharedProcessWebWorker s0 type this s1 :
  K KindNewWorker = true → K KindLoad = true →
  newSharedProcessWebWorker type s0 = (this, s1) → quiet K s s0 → quiet K s s1.
Proof. unfold newSharedProcessWebWorker, doInit. by_cases quiet_auto. Qed.

Hint Resolve quiet_terminate quiet_init quiet_init_resume
  quiet_newSharedProcessWebWorker : quiet.

Lemma quiet_getOrCreateWebWorker s0 cfg p s1 :
  K KindLog = true → K KindNewWorker = true → K KindLoad = true →
  getOrCreateWebWorker cfg s0 = (p, s1) → quiet K s s0 → quiet K s s1.
Proof. unfold getOrCreateWebWorker, logService. by_cases quiet_auto. Qed.

Lemma quiet_onAck s0 this nonce :
  K KindAwaiter = true → quiet K s s0 → quiet K s (onAck this nonce s0).
Proof. unfold onAck. by_cases quiet_auto. Qed.

Hint Resolve quiet_onAck : quiet.

Lemma quiet_onmessage s0 this data :
  K KindLog = true → K KindAwaiter = true →
  quiet K s s0 → quiet K s (onmessage this data s0).
Proof. unfold onmessage, logService. by_cases quiet_auto. Qed.

Lemma quiet_onerror s0 this message :
  K KindLog = true → quiet K s s0 → quiet K s (onerror this message s0).
Proof. unfold onerror, logService. by_cases quiet_auto. Qed.

Lemma quiet_onmessageerror s0 this :
  K KindLog = true → quiet K s s0 → quiet K s (onmessageerror this s0).
Proof. unfold onmessageerror, logService. by_cases quiet_auto. Qed.

Lemma quiet_dispose s0 f :
  K KindClose = true → quiet K s s0 → quiet K s (dispose hash f s0).
Proof. unfold dispose. by_cases quiet_auto. Qed.

Hint Resolve quiet_dispose : quiet.

Lemma quiet_disposeWorker s0 cfg :
  K KindLog = true → K KindClose = true →
  quiet K s s0 → quiet K s (disposeWorker hash cfg s0).
Proof. unfold disposeWorker, logService. by_cases quiet_auto. Qed.

Lemma quiet_send_resume s0 this message token port ret v :
  K KindPost = true →
  quiet K s s0 → quiet K s (send_resume this message token port ret v s0).
Proof. unfold send_resume. by_cases quiet_auto. Qed.

Lemma quiet_createWorker_return s0 f :
  quiet K s s0 → quiet K s (createWorker_return f s0).
Proof. unfold createWorker_return. quiet_auto. Qed.

Hint Resolve quiet_createWorker_return : quiet.

Lemma quiet_createWorker_resume2 s0 f :
  K KindLog = true → K KindRelay = true →
  quiet K s s0 → quiet K s (createWorker_resume2 f s0).
Proof. unfold createWorker_resume2, logService. by_cases quiet_auto. Qed.
End QuietMethods.

(** ** Counting continuations *)

Lemma cnt_cons P k l : cnt P (k :: l) = (if P k then 1 else 0) + cnt P l.
Proof.
  unfold cnt. rewrite filter_cons.
  destruct (P k); case_decide; simpl; congruence.
Qed.

Lemma cnt_app P l1 l2 : cnt P (l1 ++ l2) = cnt P l1 + cnt P l2.
Proof. unfold cnt. by rewrite filter_app, length_app. Qed.

Lemma cnt_submseteq P l1 l2 : l1 ⊆+ l2 → cnt P l1 ≤ cnt P l2.
Proof.
  intros [k Hk]%submseteq_Permutation. unfold cnt.
  rewrite Hk, filter_app, length_app. lia.
Qed.

Lemma cnt_elem P l k : k ∈ l → P k = true → 1 ≤ cnt P l.
Proof.
  intros Hk HP. unfold cnt.
  assert (k ∈ filter (λ k, P k = true) l) as Hin by (by apply list_elem_of_filter).
  destruct (filter _ l); [by apply not_elem_of_nil in Hin|simpl; lia].
Qed.

Lemma cnt_zero P l k : cnt P l = 0 → k ∈ l → P k = false.
Proof.
  intros Hz Hk. destruct (P k) eqn:HP; [|done].
  pose proof (cnt_elem P l k Hk HP). lia.
Qed.

Lemma plain_spawning f k : plain k → spawning f k = false.
Proof. by destruct k as [| ? ? [] ? ?| | | |]. Qed.

Lemma plain_relaying f k : plain k → relaying f k = false.
Proof. by destruct k as [| ? ? [] ? ?| | | |]. Qed.

Lemma cnt_plain P l : (∀ k, plain k → P k = false) → Forall plain l → cnt P l = 0.
Proof.
  intros HP Hl. induction Hl as [|k l Hk _ IH]; [done|].
  by rewrite cnt_cons, HP, IH.
Qed.

(** ** Transfers in a trace *)

Lemma transfers_app t1 t2 : transfers (t1 ++ t2) = transfers t1 ++ transfers t2.
Proof. unfold transfers. by rewrite bind_app. Qed.

Lemma transfers_snoc t e : transfers (t ++ [e]) = transfers t ++ transferred e.
Proof. rewrite transfers_app. unfold transfers at 2. simpl. by rewrite app_nil_r. Qed.

Lemma transfers_nil t : Forall (λ e, transferred e = []) t → transfers t = [].
Proof.
  induction 1 as [|e t He _ IH]; [done|].
  change (transfers (e :: t)) with (transferred e ++ transfers t). by rewrite He, IH.
Qed.

Lemma elem_of_transfers p t : p ∈ transfers t ↔ ∃ e, e ∈ t ∧ p ∈ transferred e.
Proof.
  unfold transfers. rewrite list_elem_of_bind. split; intros (e & ? & ?); eauto.
Qed.

Lemma closed_stay_snoc t e :
  closed_stay t → (∀ p, p ∈ transferred e → EvPortClose p ∉ t) → closed_stay (t ++ [e]).
Proof.
  intros Ht He i j p e' Hi Hj Hp.
  apply lookup_snoc_Some in Hi as [[Hil Hi]|[-> Hi]];
    apply lookup_snoc_Some in Hj as [[Hjl Hj]|[-> Hj]].
  - by eapply Ht.
  - subst e'. exfalso. eapply He; [done|]. by eapply list_elem_of_lookup_2.
  - done.
  - subst e' e. by apply not_elem_of_nil in Hp.
Qed.

Lemma closed_stay_app t evs :
  closed_stay t → Forall (λ e, transferred e = []) evs → closed_stay (t ++ evs).
Proof.
  intros Ht. induction evs as [|e evs IH] using rev_ind; [by rewrite app_nil_r|].
  intros [Hevs He]%Forall_app. inversion He as [|? ? He' _]; subst.
  rewrite app_assoc. apply closed_stay_snoc; [by apply IH|].
  intros p Hp. rewrite He' in Hp. by apply not_elem_of_nil in Hp.
Qed.

(** ** The invariant of the channels *)

Lemma portless_event path s e :
  portless (kindOf e) = true → transferred e = [] ∧ event_chan path s e.
Proof. by destruct e as [| |? [] []| | | |]. Qed.

Lemma plain_cont_chan path s k : plain k → cont_chan path s k.
Proof. by destruct k as [| ? ? [] ? ?| | | |]. Qed.

Section Kept.
Variables s s' : State.
Hypothesis Hkept : ∀ f fr, frames s !! f = Some fr →
  ∃ fr', frames s' !! f = Some fr' ∧ same_channel fr fr'.

Lemma cont_chan_kept k : cont_chan bootstrapForkPath s k → cont_chan bootstrapForkPath s' k.
Proof.
  destruct k as [|this m [|f] port ret|f|f| |]; simpl; try done.
  - intros (fr & p & Hf & Hw & Hp & Hm).
    destruct (Hkept _ _ Hf) as (fr' & Hf' & (Hc & _) & _ & Hw').
    exists fr', p. by rewrite Hf', Hw', Hc.
  - intros [fr Hf]. destruct (Hkept _ _ Hf) as (fr' & Hf' & _). by exists fr'.
  - intros (fr & p & Hf & Hn).
    destruct (Hkept _ _ Hf) as (fr' & Hf' & _ & Hn' & _).
    exists fr', p. by rewrite Hf', Hn'.
Qed.

Lemma event_chan_kept e :
  ports s ≤ ports s' → event_chan bootstrapForkPath s e → event_chan bootstrapForkPath s' e.
Proof.
  intros Hle. destruct e as [| |w [|m] tr|p q|p|ch cfg tr|]; simpl; try done.
  - intros [?|(f & fr & p & nonce & Hf & Hw & Htr & Hm)]; [by left|right].
    destruct (Hkept _ _ Hf) as (fr' & Hf' & (Hc & _) & _ & Hw').
    exists f, fr', p, nonce. by rewrite Hf', Hw', Hc.
  - intros [? ?]. split; [done|lia].
  - intros (f & fr & Hf & Hc & Hp).
    destruct (Hkept _ _ Hf) as (fr' & Hf' & (_ & Hc' & _) & Hn' & Hw').
    exists f, fr'. rewrite Hf', Hn', Hw'. auto.
  - intros (Hch & f & fr & p & Hf & Hcfg & Hr & Hn & Htr).
    destruct (Hkept _ _ Hf) as (fr' & Hf' & (Hc' & _ & Hr') & Hn' & _).
    split; [done|]. exists f, fr', p. rewrite Hf', Hn', Hc'. auto.
Qed.
End Kept.

Lemma chan_ok_window s fr p :
  chan_ok s fr → windowPort fr = Some p →
  Nat.Even p ∧ workerPort fr = Some (S p) ∧ S p < ports s.
Proof.
  unfold chan_ok. intros Hc Hn. rewrite Hn in Hc.
  destruct (workerPort fr) as [q|]; [|done]. destruct Hc as (? & -> & ?). done.
Qed.

Lemma chan_ok_worker s fr q :
  chan_ok s fr → workerPort fr = Some q →
  ∃ p, q = S p ∧ Nat.Even p ∧ windowPort fr = Some p ∧ q < ports s.
Proof.
  unfold chan_ok. intros Hc Hw. rewrite Hw in Hc.
  destruct (windowPort fr) as [p|]; [|done]. destruct Hc as (? & -> & ?). by exists p.
Qed.

Lemma chan_ok_ports s s' fr :
  ports s ≤ ports s' → chan_ok s fr → chan_ok s' fr.
Proof.
  unfold chan_ok. intros Hle.
  destruct (windowPort fr), (workerPort fr); try done.
  intros (? & ? & ?). split; [done|]. split; [done|lia].
Qed.

Lemma ports_apart s fr fr' p :
  chan_ok s fr → chan_ok s fr' → windowPort fr = Some p → workerPort fr' = Some p → False.
Proof.
  intros Hc Hc' Hn Hw.
  destruct (chan_ok_window _ _ _ Hc Hn) as ([m Hm] & _).
  destruct (chan_ok_worker _ _ _ Hc' Hw) as (p' & -> & [m' Hm'] & _). lia.
Qed.

Lemma worker_unique s f f' fr fr' q :
  channels_ok bootstrapForkPath s →
  frames s !! f = Some fr → frames s !! f' = Some fr' →
  workerPort fr = Some q → workerPort fr' = Some q → f = f'.
Proof.
  intros Hok Hf Hf' Hw Hw'.
  destruct (chan_ok_worker _ _ _ (ch_frames _ _ Hok _ _ Hf) Hw) as (p & -> & _ & Hn & _).
  destruct (chan_ok_worker _ _ _ (ch_frames _ _ Hok _ _ Hf') Hw') as (p' & Hp & _ & Hn' & _).
  simplify_eq. by eapply (ch_unique _ _ Hok).
Qed.

(** Every port handed over is a port of a frame. *)
Lemma transfers_owned s p :
  channels_ok bootstrapForkPath s → p ∈ transfers (trace s) →
  ∃ f fr, frames s !! f = Some fr ∧ (windowPort fr = Some p ∨ workerPort fr = Some p).
Proof.
  intros Hok (e & He & Hp)%elem_of_transfers.
  pose proof (proj1 (Forall_forall _ _) (ch_events _ _ Hok) e He) as Hev.
  destruct e as [| |w [|m] tr|? ?|?|ch cfg tr|]; simpl in *;
    try (by apply not_elem_of_nil in Hp).
  - subst tr. by apply not_elem_of_nil in Hp.
  - destruct Hev as [(? & ? & _ & ->)|(f & fr & p' & nonce & Hf & Hw & -> & _)].
    + by apply not_elem_of_nil in Hp.
    + apply list_elem_of_singleton in Hp as ->. eauto.
  - destruct Hev as (_ & f & fr & p' & Hf & _ & _ & Hn & ->).
    apply list_elem_of_singleton in Hp as ->. eauto.
Qed.

Lemma transfers_bound s p :
  channels_ok bootstrapForkPath s → p ∈ transfers (trace s) → p < ports s.
Proof.
  intros Hok Hp. destruct (transfers_owned s p Hok Hp) as (f & fr & Hf & [Hn|Hw]).
  - destruct (chan_ok_window _ _ _ (ch_frames _ _ Hok _ _ Hf) Hn) as (_ & _ & ?). lia.
  - destruct (chan_ok_worker _ _ _ (ch_frames _ _ Hok _ _ Hf) Hw) as (? & _ & _ & _ & ?).
    lia.
Qed.

(** A port that was closed belongs to a cancelled activation. *)
Lemma closed_owned s p :
  channels_ok bootstrapForkPath s → EvPortClose p ∈ trace s →
  ∃ f fr, frames s !! f = Some fr ∧ cts fr = true ∧
          (windowPort fr = Some p ∨ workerPort fr = Some p).
Proof.
  intros Hok He.
  exact (proj1 (Forall_forall _ _) (ch_events _ _ Hok) _ He).
Qed.

(** What is quiet and without effect on ports keeps the invariant. *)
Lemma channels_ok_quiet K s s' :
  (∀ k, K k = true → portless k = true) →
  channels_ok bootstrapForkPath s → quiet K s s' → channels_ok bootstrapForkPath s'.
Proof.
  intros HK Hok Hq.
  pose proof (λ f fr', quiet_frames_inv K s s' f fr' Hq) as Hinv.
  destruct Hq as [(evs & Ht & Hevs) (news & Hc & Hnews) Hkept Hnew Hp].
  assert (Forall (λ e, transferred e = [] ∧ event_chan bootstrapForkPath s' e) evs) as Hevs'.
  { eapply Forall_impl; [done|]. simpl. intros e He. apply portless_event. auto. }
  assert (transfers (trace s') = transfers (trace s)) as Htr.
  { rewrite Ht, transfers_app.
    rewrite (transfers_nil evs); [by rewrite app_nil_r|].
    eapply Forall_impl; [done|]. by intros e [? _]. }
  assert (∀ k, k ∈ conts s' → plain k ∨ k ∈ conts s) as Hk.
  { intros k Hin. eapply elem_of_submseteq in Hin; [|done].
    apply elem_of_app in Hin as [Hin|Hin]; [left|by right].
    by eapply (proj1 (Forall_forall _ _) Hnews). }
  assert (∀ P, (∀ k, plain k → P k = false) → cnt P (conts s') ≤ cnt P (conts s)) as Hcnt.
  { intros P HP. etrans; [by apply cnt_submseteq|].
    by rewrite cnt_app, cnt_plain. }
  split.
  - rewrite Hp. apply Hok.
  - intros f fr' Hf'. destruct (Hinv _ _ Hf') as [(fr & Hf & _ & Hn & Hw)|(_ & Hn & Hw)].
    + pose proof (ch_frames _ _ Hok _ _ Hf) as Hch. unfold chan_ok in *.
      by rewrite Hn, Hw, Hp.
    + unfold chan_ok. by rewrite Hn, Hw.
  - intros f1 f2 fr1 fr2 p Hf1 Hf2 Hn1 Hn2.
    destruct (Hinv _ _ Hf1) as [(fr1' & Hf1' & _ & Hn1' & _)|(_ & Hn1' & _)]; [|congruence].
    destruct (Hinv _ _ Hf2) as [(fr2' & Hf2' & _ & Hn2' & _)|(_ & Hn2' & _)]; [|congruence].
    apply (ch_unique _ _ Hok f1 f2 fr1' fr2' p); [done|done|congruence..].
  - apply Forall_forall. intros k Hin. destruct (Hk k Hin) as [Hpl|Hold].
    + by apply plain_cont_chan.
    + eapply cont_chan_kept; [done|].
      by apply (proj1 (Forall_forall _ _) (ch_conts _ _ Hok)).
  - rewrite Ht. apply Forall_app. split.
    + eapply Forall_impl; [apply Hok|]. simpl. intros e.
      apply event_chan_kept; [done|lia].
    + eapply Forall_impl; [done|]. by intros e [_ ?].
  - rewrite Htr. apply Hok.
  - intros f. etrans; [apply Hcnt|apply Hok]. intros k. apply plain_spawning.
  - intros f. etrans; [apply Hcnt|apply Hok]. intros k. apply plain_relaying.
  - intros k f fr' p Hin Hs Hf' Hw'. rewrite Htr.
    destruct (Hk k Hin) as [Hpl|Hold]; [by rewrite plain_spawning in Hs|].
    destruct (Hinv _ _ Hf') as [(fr & Hf & _ & _ & Hw)|(_ & _ & Hw)]; [|congruence].
    eapply (ch_pending_worker _ _ Hok); [done..|congruence].
  - intros k f fr' p Hin Hs Hf' Hn'. rewrite Htr.
    destruct (Hk k Hin) as [Hpl|Hold]; [by rewrite plain_relaying in Hs|].
    destruct (Hinv _ _ Hf') as [(fr & Hf & _ & Hn & _)|(_ & Hn & _)]; [|congruence].
    eapply (ch_pending_window _ _ Hok); [done..|congruence].
  - rewrite Ht. apply closed_stay_app; [apply Hok|].
    eapply Forall_impl; [done|]. by intros e [? _].
Qed.

Lemma cont_chan_same s s1 k :
  frames s1 = frames s →
  cont_chan bootstrapForkPath s k → cont_chan bootstrapForkPath s1 k.
Proof. intros Hf. apply cont_chan_kept. intros f fr Hfr. exists fr. by rewrite Hf. Qed.

Lemma event_chan_same s s1 e :
  frames s1 = frames s → ports s1 = ports s →
  event_chan bootstrapForkPath s e → event_chan bootstrapForkPath s1 e.
Proof.
  intros Hf Hp. apply event_chan_kept; [|lia].
  intros f fr Hfr. exists fr. by rewrite Hf.
Qed.

(** One more effect. *)
Lemma channels_ok_emit s e :
  channels_ok bootstrapForkPath s → event_chan bootstrapForkPath s e →
  NoDup (transferred e) →
  (∀ p, p ∈ transferred e →
     (p ∉ transfers (trace s)) ∧ (EvPortClose p ∉ trace s) ∧
     ∀ k f fr, k ∈ conts s → frames s !! f = Some fr →
       (spawning f k = true → workerPort fr ≠ Some p) ∧
       (relaying f k = true → windowPort fr ≠ Some p)) →
  channels_ok bootstrapForkPath (emit e s).
Proof.
  intros Hok He Hnd Hnew. split; try apply Hok.
  - simpl. apply Forall_app. split; [apply Hok|]. by apply Forall_singleton.
  - simpl. rewrite transfers_snoc. apply NoDup_app. split; [apply Hok|].
    split; [|done]. intros p Hp Hp'. by destruct (Hnew p Hp').
  - intros k f fr p Hk Hs Hf Hw. simpl. rewrite transfers_snoc.
    apply not_elem_of_app. split; [by eapply (ch_pending_worker _ _ Hok)|].
    intros Hp. destruct (Hnew p Hp) as (_ & _ & Hc).
    destruct (Hc k f fr Hk Hf) as [Hc' _]. by apply Hc'.
  - intros k f fr p Hk Hs Hf Hw. simpl. rewrite transfers_snoc.
    apply not_elem_of_app. split; [by eapply (ch_pending_window _ _ Hok)|].
    intros Hp. destruct (Hnew p Hp) as (_ & _ & Hc).
    destruct (Hc k f fr Hk Hf) as [_ Hc']. by apply Hc'.
  - simpl. apply closed_stay_snoc; [apply Hok|].
    intros p Hp. by destruct (Hnew p Hp) as (_ & ? & _).
Qed.

(** One more continuation of an activation. *)
Lemma channels_ok_add s s1 k :
  channels_ok bootstrapForkPath s →
  trace s1 = trace s → frames s1 = frames s → ports s1 = ports s →
  conts s1 ⊆+ k :: conts s → cont_chan bootstrapForkPath s k →
  (∀ f, spawning f k = true →
     cnt (spawning f) (conts s) = 0 ∧
     ∀ fr p, frames s !! f = Some fr → workerPort fr = Some p → p ∉ transfers (trace s)) →
  (∀ f, relaying f k = true →
     cnt (relaying f) (conts s) = 0 ∧
     ∀ fr p, frames s !! f = Some fr → windowPort fr = Some p → p ∉ transfers (trace s)) →
  channels_ok bootstrapForkPath s1.
Proof.
  intros Hok Ht Hf Hp Hc Hk Hsp Hre.
  assert (∀ k', k' ∈ conts s1 → k' = k ∨ k' ∈ conts s) as Hin.
  { intros k' Hk'. eapply elem_of_submseteq in Hk'; [|done].
    by apply elem_of_cons in Hk'. }
  split; rewrite ?Ht, ?Hf, ?Hp; try apply Hok.
  - intros f fr Hfr. pose proof (ch_frames _ _ Hok _ _ Hfr) as Hch.
    unfold chan_ok in *. by rewrite Hp.
  - apply Forall_forall. intros k' Hk'. apply (cont_chan_same s); [done|].
    destruct (Hin k' Hk') as [->|Hold]; [done|].
    by apply (proj1 (Forall_forall _ _) (ch_conts _ _ Hok)).
  - eapply Forall_impl; [apply Hok|]. intros e. by apply event_chan_same.
  - intros f. etrans; [by apply cnt_submseteq|]. rewrite cnt_cons.
    destruct (spawning f k) eqn:Hs.
    + destruct (Hsp f Hs) as [-> _]. lia.
    + apply Hok.
  - intros f. etrans; [by apply cnt_submseteq|]. rewrite cnt_cons.
    destruct (relaying f k) eqn:Hs.
    + destruct (Hre f Hs) as [-> _]. lia.
    + apply Hok.
  - intros k' f fr p Hk' Hs Hfr Hw.
    destruct (Hin k' Hk') as [->|Hold].
    + destruct (Hsp f Hs) as [_ Hun]. by eapply Hun.
    + by eapply (ch_pending_worker _ _ Hok).
  - intros k' f fr p Hk' Hs Hfr Hw.
    destruct (Hin k' Hk') as [->|Hold].
    + destruct (Hre f Hs) as [_ Hun]. by eapply Hun.
    + by eapply (ch_pending_window _ _ Hok).
Qed.

(** The activation [f] opens its channel: it is not cancelled, none of its
    continuations is left and no port of its frame was handed over. *)
Lemma channels_ok_open s f fr :
  channels_ok bootstrapForkPath s →
  frames s !! f = Some fr → cts fr = false →
  cnt (spawning f) (conts s) = 0 → cnt (relaying f) (conts s) = 0 →
  (∀ p, windowPort fr = Some p ∨ workerPort fr = Some p → p ∉ transfers (trace s)) →
  channels_ok bootstrapForkPath
    (update_frame f (set_channel (ports s) (S (ports s)))
       (emit (EvNewMessageChannel (ports s) (S (ports s)))
          (set_ports (S (S (ports s))) s))).
Proof.
  intros Hok Hf Hcts Hs0 Hr0 Hun.
  set (s' := update_frame _ _ _).
  assert (∀ f' fr', frames s' !! f' = Some fr' →
            (f' = f ∧ fr' = set_channel (ports s) (S (ports s)) fr) ∨
            (f' ≠ f ∧ frames s !! f' = Some fr')) as Hlook.
  { intros f' fr'. simpl. destruct (decide (f = f')) as [<-|Hne].
    - rewrite list_lookup_alter_eq, Hf. intros [= <-]. by left.
    - rewrite list_lookup_alter_ne by done. intros. by right. }
  assert (∀ k, k ∈ conts s → cont_chan bootstrapForkPath s k →
               cont_chan bootstrapForkPath s' k) as Hcont.
  { intros k Hk. pose proof (cnt_zero _ _ _ Hs0 Hk) as Hks.
    pose proof (cnt_zero _ _ _ Hr0 Hk) as Hkr.
    destruct k as [|this m [|f'] port ret|f'|f'| |]; simpl in *; try done.
    - apply bool_decide_eq_false in Hks.
      intros (fr' & p & Hf' & ?). exists fr', p.
      by rewrite list_lookup_alter_ne.
    - apply bool_decide_eq_false in Hks. by rewrite list_lookup_alter_ne.
    - apply bool_decide_eq_false in Hkr.
      intros (fr' & p & Hf' & ?). exists fr', p.
      by rewrite list_lookup_alter_ne. }
  assert (∀ e, e ∈ trace s → event_chan bootstrapForkPath s e →
               event_chan bootstrapForkPath s' e) as Hev.
  { intros e He.
    destruct e as [| |w [|m] tr|p q|p|ch cfg tr|]; simpl; try done.
    - intros [?|(f' & fr' & p & nonce & Hf' & Hw & -> & Hm)]; [by left|right].
      exists f', fr', p, nonce. split; [|done].
      rewrite list_lookup_alter_ne; [done|]. intros <-. simplify_eq.
      eapply (Hun p); [by right|]. apply elem_of_transfers. eexists. split; [done|].
      simpl. by apply list_elem_of_singleton.
    - intros [? ?]. split; [done|lia].
    - intros (f' & fr' & Hf' & Hc' & Hp). exists f', fr'. split; [|done].
      rewrite list_lookup_alter_ne; [done|]. intros <-. simplify_eq. congruence.
    - intros (Hch & f' & fr' & p & Hf' & Hcfg & Hr & Hn & ->). split; [done|].
      exists f', fr', p. split; [|done].
      rewrite list_lookup_alter_ne; [done|]. intros <-. simplify_eq.
      eapply (Hun p); [by left|]. apply elem_of_transfers. eexists. split; [done|].
      simpl. by apply list_elem_of_singleton. }
  assert (transfers (trace s') = transfers (trace s)) as Htr.
  { simpl. by rewrite transfers_snoc, app_nil_r. }
  split.
  - simpl. destruct (ch_even _ _ Hok) as [m Hm]. exists (S m). lia.
  - intros f' fr' Hf'. destruct (Hlook _ _ Hf') as [[-> ->]|[Hne Hold]].
    + unfold chan_ok. simpl. split; [apply Hok|]. split; [done|lia].
    + eapply chan_ok_ports; [|by eapply (ch_frames _ _ Hok)]. simpl. lia.
  - intros f1 f2 fr1 fr2 p Hf1 Hf2 Hn1 Hn2.
    destruct (Hlook _ _ Hf1) as [[-> ->]|[Hne1 Hold1]];
      destruct (Hlook _ _ Hf2) as [[-> ->]|[Hne2 Hold2]]; [done| | |].
    + simpl in Hn1. simplify_eq.
      destruct (chan_ok_window _ _ _ (ch_frames _ _ Hok _ _ Hold2) Hn2) as (_ & _ & ?).
      lia.
    + simpl in Hn2. simplify_eq.
      destruct (chan_ok_window _ _ _ (ch_frames _ _ Hok _ _ Hold1) Hn1) as (_ & _ & ?).
      lia.
    + by eapply (ch_unique _ _ Hok).
  - apply Forall_forall. intros k Hk. apply Hcont; [done|].
    by apply (proj1 (Forall_forall _ _) (ch_conts _ _ Hok)).
  - simpl. apply Forall_app. split.
    + apply Forall_forall. intros e He. apply Hev; [done|].
      by apply (proj1 (Forall_forall _ _) (ch_events _ _ Hok)).
    + apply Forall_singleton. simpl. split; [done|lia].
  - rewrite Htr. apply Hok.
  - apply Hok.
  - apply Hok.
  - intros k f' fr' p Hk Hs Hf' Hw. rewrite Htr.
    destruct (Hlook _ _ Hf') as [[-> ->]|[Hne Hold]].
    + change (conts s') with (conts s) in Hk.
      rewrite (cnt_zero _ _ _ Hs0 Hk) in Hs. done.
    + by eapply (ch_pending_worker _ _ Hok).
  - intros k f' fr' p Hk Hs Hf' Hw. rewrite Htr.
    destruct (Hlook _ _ Hf') as [[-> ->]|[Hne Hold]].
    + change (conts s') with (conts s) in Hk.
      rewrite (cnt_zero _ _ _ Hr0 Hk) in Hs. done.
    + by eapply (ch_pending_window _ _ Hok).
  - simpl. apply closed_stay_snoc; [apply Hok|]. intros p Hp.
    by apply not_elem_of_nil in Hp.
Qed.

Lemma cnt_none P l : (∀ k, k ∈ l → P k = false) → cnt P l = 0.
Proof.
  intros HP. induction l as [|k l IH]; [done|].
  rewrite cnt_cons, HP, IH; [done| |by left].
  intros k' Hk'. apply HP. by right.
Qed.

(** No continuation belongs to an activation that does not exist yet. *)
Lemma cnt_fresh s f :
  channels_ok bootstrapForkPath s → length (frames s) ≤ f →
  cnt (spawning f) (conts s) = 0 ∧ cnt (relaying f) (conts s) = 0.
Proof.
  intros Hok Hle.
  assert (frames s !! f = None) as Hnone by (by apply lookup_ge_None).
  split; apply cnt_none; intros k Hk;
    pose proof (proj1 (Forall_forall _ _) (ch_conts _ _ Hok) k Hk) as Hc;
    destruct k as [|this m [|f'] port ret|f'|f'| |]; simpl in *; try done;
    apply bool_decide_eq_false; intros ->.
  - destruct Hc as (fr & p & Hf & _). congruence.
  - destruct Hc as [fr Hf]. congruence.
  - destruct Hc as [fr Hf]. congruence.
  - destruct Hc as (fr & p & Hf & _). congruence.
Qed.

Lemma cnt_quiet K P s s' :
  (∀ k, plain k → P k = false) → quiet K s s' → cnt P (conts s') ≤ cnt P (conts s).
Proof.
  intros HP [_ (news & Hc & Hn) _ _ _].
  etrans; [by apply cnt_submseteq|]. by rewrite cnt_app, cnt_plain.
Qed.

Lemma quiet_pop K s j rest :
  microtasks s = j :: rest → quiet K s (set_microtasks rest s).
Proof.
  intros Hq. pose proof (quiet_refl K s) as []. split; try done.
  exists []. split; [|done]. rewrite (conts_pop s j rest Hq). simpl.
  by apply submseteq_cons.
Qed.

Lemma channels_ok_same s s1 :
  trace s1 = trace s → conts s1 = conts s → frames s1 = frames s → ports s1 = ports s →
  channels_ok bootstrapForkPath s → channels_ok bootstrapForkPath s1.
Proof.
  intros Ht Hc Hf Hp Hok. apply (channels_ok_quiet portless s); [done..|].
  apply (quiet_same _ s s); try done. apply quiet_refl.
Qed.

Lemma channels_ok_initial : channels_ok bootstrapForkPath initial.
Proof.
  split; try done.
  - by exists 0.
  - apply NoDup_nil_2.
  - intros f. unfold cnt. simpl. lia.
  - intros f. unfold cnt. simpl. lia.
Qed.

Lemma channels_ok_dispose s f :
  channels_ok bootstrapForkPath s → channels_ok bootstrapForkPath (dispose hash f s).
Proof.
  intros Hok. unfold dispose. destruct (frames s !! f) as [fr|] eqn:Hf; [|done].
  set (U := update_frame f (set_cts true) s).
  set (T := match worker fr with
            | Some w => (terminate w (configuration fr) TokenNone U).2
            | None => U
            end).
  assert (quiet portless s U) as HU.
  { apply quiet_update_frame; [apply quiet_refl|]. apply same_channel_set_cts. }
  assert (quiet portless U T) as HT.
  { unfold T. destruct (worker fr); [|apply quiet_refl].
    apply quiet_terminate, quiet_refl. }
  assert (∃ fr', frames T !! f = Some fr' ∧ cts fr' = true ∧
                 windowPort fr' = windowPort fr ∧ workerPort fr' = workerPort fr)
    as (fr' & Hf' & Hc' & Hn' & Hw').
  { assert (frames U !! f = Some (set_cts true fr)) as HfU.
    { unfold U. simpl. by rewrite list_lookup_alter_eq, Hf. }
    destruct (quiet_frames _ _ _ HT _ _ HfU) as (fr' & Hf' & (_ & Hc & _) & Hn & Hw).
    exists fr'. split; [done|]. split; [by apply Hc|]. done. }
  assert (channels_ok bootstrapForkPath T) as HokT.
  { apply (channels_ok_quiet portless U); [done| |done].
    by apply (channels_ok_quiet portless s). }
  set (N := match windowPort fr with Some p => emit (EvPortClose p) T | None => T end).
  assert (channels_ok bootstrapForkPath N ∧ frames N = frames T) as [HokN HfN].
  { unfold N. destruct (windowPort fr) as [p|]; [|done]. split; [|done].
    apply channels_ok_emit; [done| |apply NoDup_nil_2|by intros ? ?%not_elem_of_nil].
    simpl. exists f, fr'. auto. }
  set (W := match workerPort fr with Some p => emit (EvPortClose p) N | None => N end).
  assert (channels_ok bootstrapForkPath W) as HokW.
  { unfold W. destruct (workerPort fr) as [p|]; [|done].
    apply channels_ok_emit; [done| |apply NoDup_nil_2|by intros ? ?%not_elem_of_nil].
    simpl. exists f, fr'. rewrite HfN. auto. }
  by apply (channels_ok_same W).
Qed.

Lemma channels_ok_disposeWorker s cfg :
  channels_ok bootstrapForkPath s → channels_ok bootstrapForkPath (disposeWorker hash cfg s).
Proof.
  intros Hok. unfold disposeWorker. destruct (processes s !! _); [|done].
  apply channels_ok_dispose.
  apply (channels_ok_quiet portless s); [done..|].
  apply quiet_emit; [apply quiet_refl|done].
Qed.

Lemma channels_ok_createWorker s cfg :
  channels_ok bootstrapForkPath s → channels_ok bootstrapForkPath (createWorker hash cfg s).
Proof.
  intros Hok. rewrite createWorker_unfold. cbn zeta.
  set (s1 := disposeWorker hash cfg _).
  set (f := length (frames s)).
  set (s2 := set_processes _ _).
  assert (channels_ok bootstrapForkPath s1) as Hok1.
  { apply channels_ok_disposeWorker.
    apply (channels_ok_quiet portless s); [done..|].
    apply quiet_emit; [apply quiet_refl|done]. }
  assert (length (frames s1) = f) as Hlen.
  { unfold s1. by rewrite frames_length_disposeWorker. }
  assert (quiet portless s1 s2) as H12.
  { unfold s2.
    match goal with |- quiet _ _ (set_processes _ ?X) =>
      apply (quiet_same _ s1 X); try done end.
    apply quiet_push_frame, quiet_refl. }
  destruct (getOrCreateWebWorker cfg s2) as [p s3] eqn:Hg. simpl.
  assert (quiet portless s2 s3) as H23.
  { eapply quiet_getOrCreateWebWorker; [done..|apply quiet_refl]. }
  assert (quiet portless s1 s3) as H13 by (by eapply quiet_trans).
  assert (channels_ok bootstrapForkPath s3) as Hok3.
  { by apply (channels_ok_quiet portless s1). }
  assert (∃ fr, frames s3 !! f = Some fr ∧ windowPort fr = None ∧ workerPort fr = None)
    as (fr & Hfr & Hn & Hw).
  { assert (frames s2 !! f = Some
              {| configuration := cfg; cts := false; worker := None;
                 windowPort := None; workerPort := None; returned := false |}) as Hf2.
    { unfold s2. simpl. rewrite lookup_app_r by lia.
      by rewrite Hlen, Nat.sub_diag. }
    destruct (quiet_frames _ _ _ H23 _ _ Hf2) as (fr & Hfr & _ & Hn & Hw).
    by exists fr. }
  destruct (cnt_fresh s1 f Hok1) as [Hs1 Hr1]; [lia|].
  destruct (await_same p (KCreateWorker1 f) s3) as (Ht & Hfs & Hp & _).
  apply (channels_ok_add s3 _ (KCreateWorker1 f)); try done.
  - apply conts_await.
  - simpl. by rewrite Hfr.
  - intros f' Hs. simpl in Hs. apply bool_decide_eq_true in Hs as <-. split.
    + pose proof (cnt_quiet portless (spawning f) s1 s3 (plain_spawning f) H13). lia.
    + intros fr' p' Hfr' Hw'. congruence.
  - intros f' Hs. simpl in Hs. apply bool_decide_eq_true in Hs as <-. split.
    + pose proof (cnt_quiet portless (relaying f) s1 s3 (plain_relaying f) H13). lia.
    + intros fr' p' Hfr' Hw'. congruence.
Qed.

(** What the first job of the queue can rely on once it is taken off. *)
Lemma pop_facts s k v rest :
  channels_ok bootstrapForkPath s → microtasks s = (k, v) :: rest →
  let s0 := set_microtasks rest s in
  channels_ok bootstrapForkPath s0 ∧ cont_chan bootstrapForkPath s0 k ∧
  (∀ f, spawning f k = true →
     cnt (spawning f) (conts s0) = 0 ∧
     ∀ fr p, frames s0 !! f = Some fr → workerPort fr = Some p →
             p ∉ transfers (trace s0)) ∧
  (∀ f, relaying f k = true →
     cnt (relaying f) (conts s0) = 0 ∧
     ∀ fr p, frames s0 !! f = Some fr → windowPort fr = Some p →
             p ∉ transfers (trace s0)).
Proof.
  intros Hok Hq. cbn zeta.
  pose proof (conts_pop s _ rest Hq) as Hc. simpl in Hc.
  assert (k ∈ conts s) as Hin by (rewrite Hc; left).
  split; [|split; [|split]].
  - apply (channels_ok_quiet portless s); [done..|]. by eapply quiet_pop.
  - apply (cont_chan_same s); [done|].
    by apply (proj1 (Forall_forall _ _) (ch_conts _ _ Hok)).
  - intros f Hs. split.
    + pose proof (ch_spawning _ _ Hok f) as Hle. rewrite Hc, cnt_cons, Hs in Hle. lia.
    + intros fr p Hf Hw. exact (ch_pending_worker _ _ Hok k f fr p Hin Hs Hf Hw).
  - intros f Hs. split.
    + pose proof (ch_relaying _ _ Hok f) as Hle. rewrite Hc, cnt_cons, Hs in Hle. lia.
    + intros fr p Hf Hw. exact (ch_pending_window _ _ Hok k f fr p Hin Hs Hf Hw).
Qed.

(** The rest of [send]: the spawn message goes out with the worker port of
    its activation, which is live and was not handed over before. *)
Lemma channels_ok_send_resume s0 this m token port ret v :
  channels_ok bootstrapForkPath s0 →
  cont_chan bootstrapForkPath s0 (KSend this m token port ret) →
  (∀ f, token = TokenOf f →
     cnt (spawning f) (conts s0) = 0 ∧
     ∀ fr p, frames s0 !! f = Some fr → workerPort fr = Some p →
             p ∉ transfers (trace s0)) →
  channels_ok bootstrapForkPath (send_resume this m token port ret v s0).
Proof.
  intros Hok Hk Hsp. unfold send_resume.
  destruct (isCancellationRequested token s0) eqn:Hc.
  { apply (channels_ok_quiet portless s0); [done..|].
    apply quiet_resolvePromise, quiet_refl. }
  cbn zeta. simpl.
  set (X := update_webWorker this _ _).
  assert (conts X = conts s0) as HcX.
  { unfold X, conts. simpl. rewrite bind_alter_same by done.
    by rewrite bind_app, app_nil_r. }
  assert (channels_ok bootstrapForkPath X) as HokX by (by apply (channels_ok_same s0)).
  match goal with |- channels_ok _ (enqueue _ ?E) =>
    apply (channels_ok_quiet portless E);
      [done| |apply quiet_enqueue; [apply quiet_refl|repeat constructor]] end.
  destruct v as [w|]; [|done].
  apply channels_ok_emit; [done|..].
  - simpl. destruct token as [|f]; simpl in Hk.
    + destruct Hk as (-> & cfg & ->). left. by exists cfg, (generateUuid (uuids s0)).
    + destruct Hk as (fr & p & Hf & Hw & -> & ->). right.
      by exists f, fr, p, (generateUuid (uuids s0)).
  - simpl. destruct port; [apply NoDup_singleton|apply NoDup_nil_2].
  - intros p Hp. destruct token as [|f]; simpl in Hk, Hp.
    { destruct Hk as (-> & _). by apply not_elem_of_nil in Hp. }
    destruct Hk as (fr & p' & Hf & Hw & -> & ->).
    apply list_elem_of_singleton in Hp as ->.
    destruct (Hsp f eq_refl) as [Hz Hun].
    simpl in Hc. rewrite Hf in Hc.
    split; [by eapply Hun|]. split.
    + intros Hcl.
      destruct (closed_owned X p' HokX Hcl) as (f2 & fr2 & Hf2 & Hc2 & [Hn2|Hw2]).
      * eapply (ports_apart X fr2 fr); [by eapply (ch_frames _ _ HokX)..|done|done].
      * assert (f2 = f) as -> by (by eapply (worker_unique X)).
        change (frames X) with (frames s0) in Hf2. congruence.
    + intros k f' fr' Hk' Hf'. rewrite HcX in Hk'. split.
      * intros Hs Hw'.
        assert (f' = f) as -> by (by eapply (worker_unique X)).
        by rewrite (cnt_zero _ _ _ Hz Hk') in Hs.
      * intros Hs Hn'.
        eapply (ports_apart X fr' fr); [by eapply (ch_frames _ _ HokX)..|done|done].
Qed.

(** The end of [createWorker]: the window port goes to the relay, once. *)
Lemma channels_ok_createWorker_resume2 s0 f :
  channels_ok bootstrapForkPath s0 →
  cont_chan bootstrapForkPath s0 (KCreateWorker2 f) →
  cnt (relaying f) (conts s0) = 0 →
  (∀ fr p, frames s0 !! f = Some fr → windowPort fr = Some p →
           p ∉ transfers (trace s0)) →
  channels_ok bootstrapForkPath (createWorker_resume2 f s0).
Proof.
  intros Hok (fr & p & Hf & Hn) Hz Hun. unfold createWorker_resume2. simpl.
  rewrite Hf. destruct (cts fr) eqn:Hc.
  { apply (channels_ok_quiet portless s0); [done..|].
    apply quiet_createWorker_return, quiet_refl. }
  rewrite Hn.
  set (L := logService _ _ s0).
  match goal with |- channels_ok _ (createWorker_return f (emit ?e L)) =>
    change (channels_ok bootstrapForkPath (emit e (createWorker_return f L))) end.
  set (X := createWorker_return f L).
  assert (quiet portless s0 X) as Hq.
  { unfold X, L. apply quiet_createWorker_return.
    apply quiet_emit; [apply quiet_refl|done]. }
  assert (channels_ok bootstrapForkPath X) as HokX.
  { by apply (channels_ok_quiet portless s0). }
  assert (frames X !! f = Some (set_returned fr)) as HfX.
  { unfold X, createWorker_return. simpl. by rewrite list_lookup_alter_eq, Hf. }
  assert (transfers (trace X) = transfers (trace s0)) as Htr.
  { unfold X, L. simpl. by rewrite transfers_snoc, app_nil_r. }
  apply channels_ok_emit; [done| |apply NoDup_singleton|].
  - simpl. split; [done|]. by exists f, (set_returned fr), p.
  - intros p' ->%list_elem_of_singleton. split; [|split].
    + rewrite Htr. by eapply Hun.
    + intros Hcl.
      destruct (closed_owned X p HokX Hcl) as (f2 & fr2 & Hf2 & Hc2 & [Hn2|Hw2]).
      * assert (f2 = f) as ->.
        { by eapply (ch_unique _ _ HokX f2 f fr2 (set_returned fr) p). }
        rewrite HfX in Hf2. injection Hf2 as <-. simpl in Hc2. congruence.
      * eapply (ports_apart X (set_returned fr) fr2);
          [by eapply (ch_frames _ _ HokX)..|done|done].
    + intros k f' fr' Hk Hf'. change (conts X) with (conts s0) in Hk. split.
      * intros Hs Hw'.
        eapply (ports_apart X (set_returned fr) fr');
          [by eapply (ch_frames _ _ HokX)..|done|done].
      * intros Hs Hn'.
        assert (f' = f) as ->.
        { by eapply (ch_unique _ _ HokX f' f fr' (set_returned fr) p). }
        by rewrite (cnt_zero _ _ _ Hz Hk) in Hs.
Qed.

(** The middle of [createWorker]: the activation opens its channel and
    calls [spawn] with the worker port. *)
Lemma channels_ok_createWorker_resume1 s0 f v :
  channels_ok bootstrapForkPath s0 →
  cont_chan bootstrapForkPath s0 (KCreateWorker1 f) →
  cnt (spawning f) (conts s0) = 0 → cnt (relaying f) (conts s0) = 0 →
  (∀ fr p, frames s0 !! f = Some fr → windowPort fr = Some p ∨ workerPort fr = Some p →
           p ∉ transfers (trace s0)) →
  channels_ok bootstrapForkPath (createWorker_resume1 bootstrapForkPath f v s0).
Proof.
  intros Hok [fr0 Hf0] Hzs Hzr Hun. unfold createWorker_resume1.
  set (s1 := update_frame f (set_worker v) s0).
  assert (quiet portless s0 s1) as Hq1.
  { apply quiet_update_frame; [apply quiet_refl|apply same_channel_set_worker]. }
  assert (channels_ok bootstrapForkPath s1) as Hok1.
  { by apply (channels_ok_quiet portless s0). }
  assert (frames s1 !! f = Some (set_worker v fr0)) as Hf1.
  { unfold s1. simpl. by rewrite list_lookup_alter_eq, Hf0. }
  unfold isCancellationRequested. rewrite Hf1.
  change (cts (set_worker v fr0)) with (cts fr0).
  destruct (cts fr0) eqn:Hc.
  { apply (channels_ok_quiet portless s1); [done..|].
    apply quiet_createWorker_return, quiet_refl. }
  destruct v as [w|]; [|done].
  cbn zeta.
  set (s3 := update_frame f _ _).
  unfold spawn, send. simpl.
  set (k := KSend w _ (TokenOf f) _ _).
  assert (channels_ok bootstrapForkPath s3) as Hok3.
  { apply (channels_ok_open s1 f (set_worker (Some w) fr0)); [done..|].
    intros p Hp. by eapply (Hun fr0 p). }
  change (set_promises (promises s0 ++ [Pending []]) s3) with (newPromise s3).2.
  set (s3' := (newPromise s3).2).
  assert (conts s3' = conts s0) as Hc3 by apply (conts_newPromise s3).
  assert (channels_ok bootstrapForkPath s3') as Hok3'.
  { by apply (channels_ok_same s3). }
  assert (frames s3' !! f =
          Some (set_channel (ports s0) (S (ports s0)) (set_worker (Some w) fr0))) as Hf3.
  { unfold s3', s3. simpl. rewrite list_lookup_alter_eq. simpl.
    by rewrite list_lookup_alter_eq, Hf0. }
  assert (transfers (trace s3') = transfers (trace s0)) as Htr3.
  { unfold s3', s3. simpl. by rewrite transfers_snoc, app_nil_r. }
  assert (∀ p, p ∈ transfers (trace s0) → p < ports s0) as Hb.
  { intros p Hp. by eapply transfers_bound. }
  set (s4 := awaitReady w k s3').
  destruct (awaitReady_same w k s3') as (Ht4 & Hf4 & Hp4 & _). fold s4 in Ht4, Hf4, Hp4.
  assert (channels_ok bootstrapForkPath s4) as Hok4.
  { apply (channels_ok_add s3' s4 k); try done.
    - apply conts_awaitReady.
    - simpl. eexists _, _. split; [exact Hf3|]. done.
    - intros f' Hs. simpl in Hs. apply bool_decide_eq_true in Hs as <-. split.
      + by rewrite Hc3.
      + intros fr p Hfr Hw. rewrite Hf3 in Hfr. injection Hfr as <-.
        simpl in Hw. injection Hw as <-. rewrite Htr3. intros Hin%Hb. lia. }
  destruct (await_same (length (promises s0)) (KCreateWorker2 f) s4) as (Ht5 & Hf5 & Hp5 & _).
  apply (channels_ok_add s4 _ (KCreateWorker2 f)); try done.
  - apply conts_await.
  - simpl. eexists _, _. rewrite Hf4. split; [exact Hf3|]. done.
  - intros f' Hs. simpl in Hs. apply bool_decide_eq_true in Hs as <-. split.
    + pose proof (cnt_submseteq (relaying f) _ _ (conts_awaitReady w k s3')) as Hle.
      fold s4 in Hle. rewrite cnt_cons, Hc3, Hzr in Hle. simpl in Hle. lia.
    + intros fr p Hfr Hn. rewrite Hf4, Hf3 in Hfr. injection Hfr as <-.
      simpl in Hn. injection Hn as <-. rewrite Ht4, Htr3. intros Hin%Hb. lia.
Qed.

(** The invariant of the channels holds in every reachable state. *)
Lemma channels_ok_step s i :
  channels_ok bootstrapForkPath s →
  channels_ok bootstrapForkPath (step hash bootstrapForkPath s i).
Proof.
  intros Hok. destruct i as [cfg|cfg|w data|w msg|w|]; simpl.
  - by apply channels_ok_createWorker.
  - by apply channels_ok_disposeWorker.
  - apply (channels_ok_quiet portless s); [done..|].
    apply quiet_onmessage; [done..|apply quiet_refl].
  - apply (channels_ok_quiet portless s); [done..|].
    apply quiet_onerror; [done|apply quiet_refl].
  - apply (channels_ok_quiet portless s); [done..|].
    apply quiet_onmessageerror; [done|apply quiet_refl].
  - destruct (microtasks s) as [|[k v] rest] eqn:Hq; [done|].
    destruct (pop_facts s k v rest Hok Hq) as (Hok0 & Hk & Hsp & Hre).
    set (s0 := set_microtasks rest s) in *.
    destruct k as [this ret|this m token port ret|f|f|outer inner|outer]; simpl.
    + apply (channels_ok_quiet portless s0); [done..|].
      apply quiet_init_resume, quiet_refl.
    + apply channels_ok_send_resume; [done..|].
      intros f ->. apply Hsp. simpl. by apply bool_decide_eq_true.
    + assert (spawning f (KCreateWorker1 f) = true) as Hs.
      { simpl. by apply bool_decide_eq_true. }
      destruct (Hsp f Hs) as [Hzs Huns]. destruct (Hre f Hs) as [Hzr Hunr].
      apply channels_ok_createWorker_resume1; [done..|].
      intros fr p Hf [Hn|Hw]; eauto.
    + assert (relaying f (KCreateWorker2 f) = true) as Hs.
      { simpl. by apply bool_decide_eq_true. }
      destruct (Hre f Hs) as [Hzr Hunr].
      by apply channels_ok_createWorker_resume2.
    + apply (channels_ok_quiet portless s0); [done..|].
      apply quiet_await; [done|apply quiet_refl].
    + apply (channels_ok_quiet portless s0); [done..|].
      apply quiet_resolvePromise, quiet_refl.
Qed.

Lemma channels_ok_run inputs :
  channels_ok bootstrapForkPath (run hash bootstrapForkPath initial inputs).
Proof.
  induction inputs as [|i inputs IH] using rev_ind; [apply channels_ok_initial|].
  rewrite run_snoc. by apply channels_ok_step.
Qed.

(** ** Message ports: what the service does with them *)

(** No message port is handed over twice: the transfer lists of all
    [postMessage] calls, to the workers and to the main process, have no
    port in common and no port twice. *)
Theorem port_transferred_once inputs :
  NoDup (transfers (trace (run hash bootstrapForkPath initial inputs))).
Proof. apply (ch_nodup bootstrapForkPath), channels_ok_run. Qed.

(** A port that was closed is not handed over afterwards: a transfer of a
    port comes before the closing of that port, if the port is closed at all. *)
Theorem closed_port_not_transferred inputs :
  closed_stay (trace (run hash bootstrapForkPath initial inputs)).
Proof. apply (ch_closed bootstrapForkPath), channels_ok_run. Qed.

(** The ports of a registered process are open: a port is closed only by
    the disposal of the handle of its activation. *)
Theorem live_ports_stay_open inputs h f fr p :
  let s := run hash bootstrapForkPath initial inputs in
  processes s !! h = Some f → frames s !! f = Some fr →
  windowPort fr = Some p ∨ workerPort fr = Some p →
  EvPortClose p ∉ trace s.
Proof.
  cbn zeta. set (s := run hash bootstrapForkPath initial inputs).
  intros Hreg Hf Hp Hcl.
  assert (handles_ok hash s) as Hh by apply handles_ok_run, handles_ok_initial.
  assert (channels_ok bootstrapForkPath s) as Hok by apply channels_ok_run.
  destruct (proj1 (Hh _ _) Hreg) as (fr' & Hf' & _ & Hc). simplify_eq.
  destruct (closed_owned s p Hok Hcl) as (f2 & fr2 & Hf2 & Hc2 & Hp2).
  assert (f2 = f) as ->; [|congruence].
  pose proof (ch_frames _ _ Hok _ _ Hf) as Hch.
  pose proof (ch_frames _ _ Hok _ _ Hf2) as Hch2.
  destruct Hp as [Hn|Hw], Hp2 as [Hn2|Hw2].
  - by eapply (ch_unique _ _ Hok).
  - by destruct (ports_apart s fr fr2 p).
  - by destruct (ports_apart s fr2 fr p).
  - by eapply (worker_unique s).
Qed.

(** What reaches the relay is the window port of an activation that has
    returned, with the configuration of that activation and on the channel
    of the relay; the other port of the [MessageChannel] is the worker port
    of the activation. *)
Theorem relayed_port_is_window_port inputs channel cfg transfer :
  let s := run hash bootstrapForkPath initial inputs in
  EvIpcPostMessage channel cfg transfer ∈ trace s →
  channel = "vscode:relaySharedProcessWorkerMessageChannel" ∧
  ∃ f fr p, frames s !! f = Some fr ∧ configuration fr = cfg ∧ returned fr = true ∧
            windowPort fr = Some p ∧ workerPort fr = Some (S p) ∧ transfer = [p].
Proof.
  cbn zeta. set (s := run hash bootstrapForkPath initial inputs). intros He.
  assert (channels_ok bootstrapForkPath s) as Hok by apply channels_ok_run.
  destruct (proj1 (Forall_forall _ _) (ch_events _ _ Hok) _ He)
    as (Hch & f & fr & p & Hf & Hcfg & Hr & Hn & Htr).
  split; [done|]. exists f, fr, p.
  destruct (chan_ok_window _ _ _ (ch_frames _ _ Hok _ _ Hf) Hn) as (_ & Hw & _).
  done.
Qed.

(** A message posted to a worker is a terminate message, with a nonce and
    without a port, or the spawn message of an activation: its
    configuration, the bootstrap path, a nonce, and as only transfer the
    worker port of the activation. *)
Theorem posted_message_shape inputs w m transfer :
  let s := run hash bootstrapForkPath initial inputs in
  EvPostMessage w (PostMessage m) transfer ∈ trace s →
  (∃ cfg nonce, m = terminateMessage cfg (Some nonce) ∧ transfer = []) ∨
  (∃ f fr p nonce,
     frames s !! f = Some fr ∧ windowPort fr = Some p ∧ workerPort fr = Some (S p) ∧
     transfer = [S p] ∧
     m = withNonce (spawnMessageOf bootstrapForkPath (configuration fr)) nonce).
Proof.
  cbn zeta. set (s := run hash bootstrapForkPath initial inputs). intros He.
  assert (channels_ok bootstrapForkPath s) as Hok by apply channels_ok_run.
  destruct (proj1 (Forall_forall _ _) (ch_events _ _ Hok) _ He)
    as [?|(f & fr & q & nonce & Hf & Hw & Htr & Hm)]; [by left|right].
  destruct (chan_ok_worker _ _ _ (ch_frames _ _ Hok _ _ Hf) Hw) as (p & -> & _ & Hn & _).
  by exists f, fr, p, nonce.
Qed.

(** ** The effects of each input *)

Lemma createWorker_resume1_trace f v s :
  ∃ evs, trace (createWorker_resume1 bootstrapForkPath f v s) = trace s ++ evs ∧
         Forall (λ e, kindOf e = KindChannel) evs.
Proof.
  unfold createWorker_resume1.
  destruct (isCancellationRequested _ _).
  { exists []. by rewrite app_nil_r. }
  destruct (frames _ !! f) as [fr|]; [|exists []; by rewrite app_nil_r].
  destruct v as [w|]; [|exists []; by rewrite app_nil_r].
  cbn zeta. unfold spawn, send. simpl.
  destruct (await_same (length (promises s)) (KCreateWorker2 f)
    (awaitReady w (KSend w (spawnMessageOf bootstrapForkPath (configuration fr))
                     (TokenOf f) (Some (S (ports s))) (length (promises s)))
       (set_promises (promises s ++ [Pending []])
          (update_frame f (set_channel (ports s) (S (ports s)))
             (emit (EvNewMessageChannel (ports s) (S (ports s)))
                (set_ports (S (S (ports s)))
                   (update_frame f (set_worker (Some w)) s))))))) as (Ht & _).
  unfold spawnMessageOf in Ht. rewrite Ht.
  destruct (awaitReady_same w
    (KSend w {| ToWorker.id := WorkerSpawn; ToWorker.configuration := configuration fr;
                ToWorker.environment := Some {| bootstrapPath := bootstrapForkPath |};
                ToWorker.nonce := None |}
       (TokenOf f) (Some (S (ports s))) (length (promises s)))
    (set_promises (promises s ++ [Pending []])
       (update_frame f (set_channel (ports s) (S (ports s)))
          (emit (EvNewMessageChannel (ports s) (S (ports s)))
             (set_ports (S (S (ports s)))
                (update_frame f (set_worker (Some w)) s)))))) as (Ht' & _).
  rewrite Ht'. simpl. eexists. split; [done|]. by apply Forall_singleton.
Qed.

Lemma step_kinds s i :
  ∃ evs, trace (step hash bootstrapForkPath s i) = trace s ++ evs ∧
         Forall (λ e, effectsOf s i (kindOf e) = true) evs.
Proof.
  destruct i as [cfg|cfg|w data|w msg|w|]; simpl.
  - rewrite createWorker_unfold. cbn zeta.
    set (K := effectsOf s (CallCreateWorker cfg)).
    set (s1 := disposeWorker hash cfg _).
    set (s2 := set_processes _ _).
    destruct (getOrCreateWebWorker cfg s2) as [p s3] eqn:Hg. simpl.
    destruct (await_same p (KCreateWorker1 (length (frames s))) s3) as (-> & _).
    assert (quiet K s s3) as Hq; [|apply Hq].
    eapply quiet_getOrCreateWebWorker; [done..|].
    unfold s2.
    match goal with |- quiet _ _ (set_processes _ ?X) =>
      apply (quiet_same _ s X); try done end.
    apply quiet_push_frame, quiet_disposeWorker; [done..|].
    apply quiet_emit; [apply quiet_refl|done].
  - apply (quiet_trace (effectsOf s (CallDisposeWorker cfg))).
    apply quiet_disposeWorker; [done..|apply quiet_refl].
  - apply (quiet_trace (effectsOf s (OnMessage w data))).
    apply quiet_onmessage; [done..|apply quiet_refl].
  - apply (quiet_trace (effectsOf s (OnError w msg))).
    apply quiet_onerror; [done|apply quiet_refl].
  - apply (quiet_trace (effectsOf s (OnMessageError w))).
    apply quiet_onmessageerror; [done|apply quiet_refl].
  - unfold effectsOf. destruct (microtasks s) as [|[k v] rest] eqn:Hq.
    { exists []. by rewrite app_nil_r. }
    pose proof (quiet_pop (λ _, false) s _ _ Hq) as Hpop.
    destruct k as [this ret|this m token port ret|f|f|outer inner|outer]; simpl.
    + by apply (quiet_trace (λ _, false)), quiet_init_resume.
    + apply (quiet_trace (λ k, match k with KindPost => true | _ => false end)).
      apply quiet_send_resume; [done|by eapply quiet_pop].
    + destruct (createWorker_resume1_trace f v (set_microtasks rest s))
        as (evs & Ht & Hevs).
      exists evs. split; [exact Ht|]. eapply Forall_impl; [done|].
      simpl. by intros e ->.
    + apply (quiet_trace
               (λ k, match k with KindLog | KindRelay => true | _ => false end)).
      apply quiet_createWorker_resume2; [done..|by eapply quiet_pop].
    + by apply (quiet_trace (λ _, false)), quiet_await.
    + by apply (quiet_trace (λ _, false)), quiet_resolvePromise.
Qed.

(** Each input has the effects of its kinds and no other. *)
Theorem step_effects s i :
  ∃ evs, trace (step hash bootstrapForkPath s i) = trace s ++ evs ∧
         Forall (λ e, effectsOf s i (kindOf e) = true) evs.
Proof.
  apply step_kinds.
Qed.

(** ** Messages posted to the workers *)

Lemma post_ok_later s s' e : later s s' → post_ok s e → post_ok s' e.
Proof.
  intros Hl. destruct e as [| |w [|m] tr| | | |]; simpl; try done.
  intros (Hr & i & Hi & Hn). split; [by apply (later_ready _ _ Hl)|].
  exists i. split; [|done]. pose proof (later_uuids _ _ Hl). lia.
Qed.

Lemma post_ok_other s e : kindOf e ≠ KindPost → post_ok s e ∧ postedNonce e = [].
Proof. by destruct e as [| |w [|m] [|]| | | |]. Qed.

Lemma postedNonces_snoc t e : postedNonces (t ++ [e]) = postedNonces t ++ postedNonce e.
Proof. unfold postedNonces. rewrite bind_app. simpl. by rewrite app_nil_r. Qed.

Lemma postedNonces_generated s n :
  Forall (post_ok s) (trace s) → n ∈ postedNonces (trace s) →
  ∃ i, i < uuids s ∧ n = Some (generateUuid i).
Proof.
  intros Hev (e & Hn & He)%list_elem_of_bind.
  pose proof (proj1 (Forall_forall _ _) Hev e He) as Hok.
  destruct e as [| |w [|m] tr| | | |]; simpl in *;
    try (by apply not_elem_of_nil in Hn).
  apply list_elem_of_singleton in Hn as ->.
  destruct Hok as (_ & i & Hi & ->). eauto.
Qed.

Lemma send_resume_trace this m token port ret v s :
  trace (send_resume this m token port ret v s) = trace s ++
    (if isCancellationRequested token s then []
     else match v with
          | Some w =>
              [EvPostMessage w (PostMessage (withNonce m (generateUuid (uuids s))))
                 (match port with Some p => [p] | None => [] end)]
          | None => []
          end) ∧
  (isCancellationRequested token s = false →
   uuids (send_resume this m token port ret v s) = S (uuids s)).
Proof.
  unfold send_resume. destruct (isCancellationRequested token s).
  - destruct (resolvePromise_same ret None s) as (-> & _). by rewrite app_nil_r.
  - simpl. destruct v; simpl; by rewrite ?app_nil_r.
Qed.

(** An input without a message to a worker. *)
Lemma posts_ok_quiet s i :
  effectsOf s i KindPost = false → posts_ok s → posts_ok (step hash bootstrapForkPath s i).
Proof.
  intros HK [Hev Hnd].
  destruct (step_kinds s i) as (evs & Ht & Hevs).
  assert (Forall (λ e, post_ok (step hash bootstrapForkPath s i) e ∧ postedNonce e = [])
            evs) as Hnew.
  { eapply Forall_impl; [done|]. simpl. intros e He. apply post_ok_other.
    intros Hk. by rewrite Hk, HK in He. }
  split.
  - rewrite Ht. apply Forall_app. split.
    + eapply Forall_impl; [done|]. intros e. apply post_ok_later, later_step.
    + eapply Forall_impl; [done|]. by intros e [? _].
  - rewrite Ht. unfold postedNonces in *. rewrite bind_app.
    replace (evs ≫= postedNonce) with (@nil (option string)); [by rewrite app_nil_r|].
    clear Ht Hevs. induction Hnew as [|e evs [_ He] _ IH]; [done|].
    change ([] = postedNonce e ++ (evs ≫= postedNonce)). by rewrite He.
Qed.

Lemma posts_ok_step s i :
  wf s → posts_ok s → posts_ok (step hash bootstrapForkPath s i).
Proof.
  intros Hwf Hok.
  destruct i as [cfg|cfg|w data|w msg|w|]; try (by apply posts_ok_quiet).
  destruct (microtasks s) as [|[k v] rest] eqn:Hq.
  { apply posts_ok_quiet; [|done]. unfold effectsOf. by rewrite Hq. }
  destruct k as [this ret|this m token port ret|f|f|outer inner|outer];
    try (apply posts_ok_quiet; [|done]; unfold effectsOf; by rewrite Hq).
  pose proof (later_step s Microtask) as Hl.
  simpl in Hl |- *. rewrite Hq in Hl |- *. simpl in Hl |- *.
  set (s0 := set_microtasks rest s) in *.
  destruct (send_resume_trace this m token port ret v s0) as [Ht Hu].
  destruct Hok as [Hev Hnd].
  assert (Forall (post_ok (send_resume this m token port ret v s0)) (trace s)) as Hold.
  { eapply Forall_impl; [done|]. intros e. by apply post_ok_later. }
  destruct (isCancellationRequested token s0).
  { rewrite app_nil_r in Ht. split; by rewrite Ht. }
  destruct v as [w|]; [|rewrite app_nil_r in Ht; split; by rewrite Ht].
  specialize (Hu eq_refl).
  assert (isReady s w) as Hready.
  { pose proof (wf_jobs _ Hwf) as Hjobs. rewrite Hq in Hjobs.
    apply Forall_cons in Hjobs as [(_ & Hv & _) _]. by apply Hv. }
  split; rewrite Ht.
  - apply Forall_app. split; [done|]. apply Forall_singleton. simpl. split.
    + by apply (later_ready _ _ Hl).
    + exists (uuids s). rewrite Hu. split; [simpl; lia|done].
  - change (trace s0) with (trace s). rewrite postedNonces_snoc. simpl.
    apply NoDup_app. split; [done|]. split; [|apply NoDup_singleton].
    intros n Hn ->%list_elem_of_singleton.
    destruct (postedNonces_generated s _ Hev Hn) as (i & Hi & Heq).
    assert (generateUuid (uuids s) = generateUuid i) as Hg by (by apply (inj Some)).
    apply generateUuid_inj in Hg. lia.
Qed.

Lemma posts_ok_run inputs : posts_ok (run hash bootstrapForkPath initial inputs).
Proof.
  induction inputs as [|i inputs IH] using rev_ind.
  - split; [done|apply NoDup_nil_2].
  - rewrite run_snoc. apply posts_ok_step; [|done]. apply wf_run, wf_initial.
Qed.

(** Nothing but the first message, which makes the [Worker] load, is posted
    to a [Worker] before it has reported that it is ready: a spawn or
    terminate message in the trace went to a ready [Worker]. *)
Theorem no_message_before_ready inputs w m transfer :
  let s := run hash bootstrapForkPath initial inputs in
  EvPostMessage w (PostMessage m) transfer ∈ trace s → isReady s w.
Proof.
  cbn zeta. intros He. destruct (posts_ok_run inputs) as [Hev _].
  by destruct (proj1 (Forall_forall _ _) Hev _ He).
Qed.

(** Every message posted to a worker carries a nonce of its own: a
    non-empty string, and no two messages of the trace have the same. *)
Theorem posted_nonces_distinct inputs :
  let s := run hash bootstrapForkPath initial inputs in
  NoDup (postedNonces (trace s)) ∧
  Forall (λ n, truthy n = true) (postedNonces (trace s)).
Proof.
  cbn zeta. destruct (posts_ok_run inputs) as [Hev Hnd]. split; [done|].
  apply Forall_forall. intros n Hn.
  destruct (postedNonces_generated _ _ Hev Hn) as (i & _ & ->).
  apply generateUuid_truthy.
Qed.

(** ** A message and its acknowledgment *)

(** [send] and the Ack handler undo each other: in a reachable state the rest
    of [send] posts the message with a nonce that no table holds, and records
    the resolver of a new promise under it; the Ack with that nonce calls the
    resolver, fulfils that promise and leaves every table as it was before
    the message was sent. *)
Theorem send_ack_round_trip inputs this message token port ret w text :
  let s := run hash bootstrapForkPath initial inputs in
  let nonce := generateUuid (uuids s) in
  let inner := length (promises s) in
  let s1 := send_resume this message token port ret (Some w) s in
  let s2 := onmessage this {| FromWorker.id := WorkerAck; FromWorker.message := text;
                              FromWorker.nonce := Some nonce |} s1 in
  this < length (webWorkers s) → isCancellationRequested token s = false →
  (pendingEntry s this nonce = None ∧ pendingEntry s1 this nonce = Some inner) ∧
  trace s1 = trace s ++
    [EvPostMessage w (PostMessage (withNonce message nonce))
       (match port with Some p => [p] | None => [] end)] ∧
  tables s2 = tables s ∧
  promises s2 !! inner = Some (Fulfilled None) ∧
  trace s2 = trace s1 ++ [EvMessageAwaiter inner].
Proof.
  cbn zeta. set (s := run hash bootstrapForkPath initial inputs).
  set (n := generateUuid (uuids s)). set (inner := length (promises s)).
  intros Hthis Hc.
  destruct (lookup_lt_is_Some_2 _ _ Hthis) as [ww Hww].
  pose proof (correlations_ok_run inputs) as (Hent & _). fold s in Hent.
  assert (pendingEntry s this n = None) as Hfresh.
  { destruct (pendingEntry s this n) as [r|] eqn:He; [|done].
    destruct (Hent _ _ _ He) as ((i & Hi & Hg%generateUuid_inj) & _). lia. }
  assert (mapMessageNonceToMessageResolve ww !! n = None) as Hnone.
  { unfold pendingEntry in Hfresh. by rewrite Hww in Hfresh. }
  set (s1 := send_resume this message token port ret (Some w) s).
  set (g := λ ww, set_map (<[n := inner]> (mapMessageNonceToMessageResolve ww)) ww).
  assert (webWorkers s1 = alter g this (webWorkers s) ∧
          promises s1 = promises s ++ [Pending []] ∧
          trace s1 = trace s ++
            [EvPostMessage w (PostMessage (withNonce message n))
               (match port with Some p => [p] | None => [] end)]) as (Hw1 & Hp1 & Ht1).
  { unfold s1, send_resume. by rewrite Hc. }
  assert (webWorkers s1 !! this = Some (g ww)) as Hww1.
  { by rewrite Hw1, list_lookup_alter_eq, Hww. }
  split; [split; [done|]|split; [done|]].
  { unfold pendingEntry. rewrite Hww1. simpl. apply lookup_insert_eq. }
  unfold onmessage. rewrite Hww1. cbn [FromWorker.id FromWorker.nonce]. unfold onAck.
  change (truthy (Some n)) with true. cbn iota. rewrite Hww1.
  cbn [g set_map mapMessageNonceToMessageResolve]. rewrite lookup_insert_eq.
  set (X := emit _ _).
  assert (promises X = promises s ++ [Pending []]) as HpX by exact Hp1.
  assert (webWorkers X =
          alter (λ ww0, set_map (delete n (mapMessageNonceToMessageResolve ww0)) ww0)
            this (alter g this (webWorkers s))) as HwX.
  { unfold X. simpl. by rewrite Hw1. }
  assert (trace X = trace s1 ++ [EvMessageAwaiter inner]) as HtX by done.
  clearbody X.
  unfold resolvePromise. rewrite HpX, lookup_app_r by done.
  fold inner. rewrite Nat.sub_diag. simpl.
  split; [|split; [|done]].
  - unfold tables. simpl. rewrite HwX. apply list_eq. intros i.
    rewrite !list_lookup_fmap. destruct (decide (this = i)) as [<-|Hne].
    + rewrite !list_lookup_alter_eq, Hww. simpl. by rewrite delete_insert_id.
    + by rewrite !list_lookup_alter_ne.
  - apply list_lookup_insert_eq. rewrite length_app. simpl. unfold inner. lia.
Qed.

(** ** The promise of a [send] call is settled in time *)

Lemma ackOf_conts s f r : ackOf s f r → KCreateWorker2 f ∈ conts s.
Proof.
  intros (ks & Hp & Hk). unfold conts. apply elem_of_app. right.
  apply elem_of_app. left. apply list_elem_of_bind. exists (Pending ks).
  split; [done|]. by eapply list_elem_of_lookup_2.
Qed.

Lemma disposedMessage_later s s' m nonce :
  (∀ f fr, frames s !! f = Some fr → ∃ fr', frames s' !! f = Some fr' ∧ frame_le fr fr') →
  disposedMessage s m nonce → disposedMessage s' m nonce.
Proof.
  intros Hfr (f & fr & Hf & Hc & Hm).
  destruct (Hfr _ _ Hf) as (fr' & Hf' & Hcfg & Hc' & _).
  exists f, fr'. rewrite Hcfg. auto.
Qed.

Section GrowsSent.
Variables s s' : State.
Hypothesis G : grows_sent bootstrapForkPath s s'.

Lemma cont_sent_grows k :
  k ∈ conts s → cont_sent bootstrapForkPath s k → cont_sent bootstrapForkPath s' k.
Proof.
  destruct G as (Hlen & Hack & Hex & Hfr). intros Hin.
  destruct k as [this r|this m [|f'] port r|f|f|r i|r]; simpl; try done.
  - intros [Hr Hno]. split; [lia|]. intros f Hf. by eapply Hno, Hack.
  - intros (Hr & Hno & Hd). split; [lia|]. split.
    + intros f Hf. by eapply Hno, Hack.
    + by eapply disposedMessage_later.
  - intros [Hr Hf]. split; [lia|]. intros f Ha. by apply Hf, Hack.
  - intros [Hr Hf]. split; [lia|]. intros f Ha%Hack.
    apply Hex; [by eapply ackOf_conts|by apply Hf].
  - intros [Hr Hf]. split; [lia|]. intros f Ha%Hack.
    apply Hex; [by eapply ackOf_conts|by apply Hf].
Qed.

Lemma event_sent_grows e : event_sent s e → event_sent s' e.
Proof.
  destruct G as (_ & _ & _ & Hfr).
  destruct e as [| |w [|m] tr| | | |]; simpl; try done.
  intros He Hid. destruct (He Hid) as [nonce Hd]. exists nonce.
  by eapply disposedMessage_later.
Qed.
End GrowsSent.

Lemma elem_of_conts_job s j : j ∈ microtasks s → j.1 ∈ conts s.
Proof.
  intros Hj. unfold conts. apply elem_of_app. left. by apply list_elem_of_fmap_2.
Qed.

Lemma elem_of_conts_reaction s p ks k :
  promises s !! p = Some (Pending ks) → k ∈ ks → k ∈ conts s.
Proof.
  intros Hp Hk. unfold conts. apply elem_of_app. right. apply elem_of_app. left.
  apply list_elem_of_bind. exists (Pending ks). split; [done|].
  by eapply list_elem_of_lookup_2.
Qed.

Lemma elem_of_conts_waiter s w ww ks k :
  webWorkers s !! w = Some ww → workerReady ww = ReadyPending ks → k ∈ ks → k ∈ conts s.
Proof.
  intros Hw Hr Hk. unfold conts. apply elem_of_app. right. apply elem_of_app. right.
  apply list_elem_of_bind. exists ww. split; [|by eapply list_elem_of_lookup_2].
  unfold waitersOf. by rewrite Hr.
Qed.

(** Every continuation of a state obeys [cont_sent]. *)
Lemma sent_conts s k :
  sends_ok bootstrapForkPath s → k ∈ conts s → cont_sent bootstrapForkPath s k.
Proof.
  intros [Hj Hr Hw _ _]. unfold conts.
  intros [Hk|[Hk|Hk]%elem_of_app]%elem_of_app.
  - apply list_elem_of_fmap in Hk as (j & -> & Hin).
    by destruct (proj1 (Forall_forall _ _) Hj j Hin).
  - apply list_elem_of_bind in Hk as (pr & Hk & Hin).
    apply list_elem_of_lookup in Hin as [p Hp].
    destruct pr as [ks|v]; [|by apply not_elem_of_nil in Hk].
    by destruct (proj1 (Forall_forall _ _) (Hr p ks Hp) k Hk).
  - apply list_elem_of_bind in Hk as (ww & Hk & Hin).
    apply list_elem_of_lookup in Hin as [w Hww]. unfold waitersOf in Hk.
    destruct (workerReady ww) as [ks|] eqn:Hrd; [|by apply not_elem_of_nil in Hk].
    by destruct (proj1 (Forall_forall _ _) (Hw w ww ks Hww Hrd) k Hk).
Qed.

(** If the stores are those of a state that obeys [sends_ok], up to the
    listed changes, the state obeys it. *)
Lemma sends_intro s s' :
  sends_ok bootstrapForkPath s → grows_sent bootstrapForkPath s s' →
  (∀ j, j ∈ microtasks s' → job_sent bootstrapForkPath s' j ∨ j ∈ microtasks s) →
  (∀ p ks, promises s' !! p = Some (Pending ks) →
     Forall (reaction_sent bootstrapForkPath s') ks ∨ promises s !! p = Some (Pending ks)) →
  (∀ w ww ks, webWorkers s' !! w = Some ww → workerReady ww = ReadyPending ks →
     Forall (waiter_sent bootstrapForkPath s') ks ∨
     ∃ ww0, webWorkers s !! w = Some ww0 ∧ workerReady ww0 = ReadyPending ks) →
  (∀ w n r, pendingEntry s' w n = Some r →
     (r < length (promises s') ∧ ∀ f, ¬ ackOf s' f r) ∨ pendingEntry s w n = Some r) →
  (∃ t, trace s' = trace s ++ t ∧ Forall (event_sent s') t) →
  sends_ok bootstrapForkPath s'.
Proof.
  intros Hok G Hj' Hr' Hw' He' (t & Htr & Ht').
  pose proof (sent_conts s) as Hall.
  destruct Hok as [Hj Hr Hw He Ht]. split.
  - apply Forall_forall. intros j Hin. destruct (Hj' j Hin) as [?|Hin0]; [done|].
    destruct (proj1 (Forall_forall _ _) Hj j Hin0) as [Hc Hx].
    pose proof (elem_of_conts_job s j Hin0) as Hk.
    split; [by eapply cont_sent_grows|].
    destruct j as [[| | |f| |] v]; simpl in *; try done.
    destruct G as (_ & _ & Hex & _). by apply Hex.
  - intros p ks Hp. destruct (Hr' p ks Hp) as [?|Hp0]; [done|].
    apply Forall_forall. intros k Hk.
    destruct (proj1 (Forall_forall _ _) (Hr p ks Hp0) k Hk) as [Hc Hx].
    split; [|done]. eapply cont_sent_grows; [done| |done].
    by eapply elem_of_conts_reaction.
  - intros w ww ks Hww Hks.
    destruct (Hw' w ww ks Hww Hks) as [?|(ww0 & Hww0 & Hks0)]; [done|].
    apply Forall_forall. intros k Hk.
    destruct (proj1 (Forall_forall _ _) (Hw w ww0 ks Hww0 Hks0) k Hk) as [Hc Hx].
    split; [|done]. eapply cont_sent_grows; [done| |done].
    by eapply elem_of_conts_waiter.
  - intros w n r Hent. destruct (He' w n r Hent) as [?|Hent0]; [done|].
    destruct (He w n r Hent0) as [Hlt Hno]. destruct G as (Hlen & Hack & _).
    split; [lia|]. intros f Hf. by eapply Hno, Hack.
  - rewrite Htr. apply Forall_app. split; [|done].
    eapply Forall_impl; [done|]. intros e. by apply event_sent_grows.
Qed.

Lemma excused_kept s s' f :
  (∀ fr, frames s !! f = Some fr →
         ∃ fr', frames s' !! f = Some fr' ∧ same_channel fr fr') →
  trace s `prefix_of` trace s' →
  excused bootstrapForkPath s f → excused bootstrapForkPath s' f.
Proof.
  intros Hfr [t Ht] [Hc|(fr & p & w & nonce & Hf & Hw & He)].
  - left. simpl in *. destruct (frames s !! f) as [fr|] eqn:Hf; [|done].
    destruct (Hfr fr eq_refl) as (fr' & -> & (_ & Hc' & _) & _). by apply Hc'.
  - right. destruct (Hfr fr Hf) as (fr' & Hf' & (Hcfg & _) & _ & Hw').
    exists fr', p, w, nonce. rewrite Hcfg, Hw', Ht. split; [done|]. split; [done|].
    apply elem_of_app. by left.
Qed.

(** The promises are the same, every frame keeps its ports and the trace is
    continued. *)
Lemma grows_sent_simple s s' :
  promises s' = promises s →
  (∀ f fr, frames s !! f = Some fr →
           ∃ fr', frames s' !! f = Some fr' ∧ same_channel fr fr') →
  trace s `prefix_of` trace s' →
  grows_sent bootstrapForkPath s s'.
Proof.
  intros Hp Hfr Ht. split; [by rewrite Hp|]. split; [|split].
  - intros f r. unfold ackOf. by rewrite Hp.
  - intros f _. apply excused_kept; [|done]. intros fr. apply Hfr.
  - intros f fr Hf. destruct (Hfr f fr Hf) as (fr' & Hf' & Hle & _). eauto.
Qed.

Ltac kept_same := intros ? fr ?; by exists fr.
Ltac sent_old := intros; right; by eauto.
Ltac sent_same := exists []; split; [by rewrite app_nil_r|by apply Forall_nil].
Ltac sent_grows := apply grows_sent_simple; [done|kept_same|done].

Section SentUpdates.
Variable s0 : State.
Hypothesis H : sends_ok bootstrapForkPath s0.

Lemma sends_emit e : event_sent s0 e → sends_ok bootstrapForkPath (emit e s0).
Proof.
  intros He.
  apply (sends_intro s0); [done| |sent_old|sent_old|sent_old|sent_old|].
  - apply grows_sent_simple; [done|kept_same|].
    by apply prefix_app_r.
  - exists [e]. split; [done|]. by apply Forall_singleton.
Qed.

Lemma sends_set_microtasks l :
  Forall (job_sent bootstrapForkPath s0) l →
  sends_ok bootstrapForkPath (set_microtasks l s0).
Proof.
  intros Hl.
  apply (sends_intro s0); [done|sent_grows| |sent_old|sent_old|sent_old|sent_same].
  intros j Hj. left. by eapply (proj1 (Forall_forall _ _) Hl).
Qed.

Lemma sends_enqueue js :
  Forall (job_sent bootstrapForkPath s0) js → sends_ok bootstrapForkPath (enqueue js s0).
Proof.
  intros Hl. apply sends_set_microtasks, Forall_app. split; [apply H|done].
Qed.

(** A change of another part of the state. *)
Lemma sends_same s1 :
  microtasks s1 = microtasks s0 → promises s1 = promises s0 →
  webWorkers s1 = webWorkers s0 → frames s1 = frames s0 → trace s1 = trace s0 →
  sends_ok bootstrapForkPath s1.
Proof.
  intros Hm Hp Hw Hf Ht.
  apply (sends_intro s0); [done| | | | | |].
  - apply grows_sent_simple; [done| |by rewrite Ht].
    intros f fr Hfr. exists fr. by rewrite Hf.
  - intros j. rewrite Hm. by right.
  - intros p ks. rewrite Hp. by right.
  - intros w ww ks. rewrite Hw. right. eauto.
  - intros w n r. unfold pendingEntry. rewrite Hw. by right.
  - exists []. rewrite Ht, app_nil_r. split; [done|by apply Forall_nil].
Qed.

Lemma sends_push_frame fr : sends_ok bootstrapForkPath (set_frames (frames s0 ++ [fr]) s0).
Proof.
  apply (sends_intro s0); [done| |sent_old|sent_old|sent_old|sent_old|sent_same].
  apply grows_sent_simple; [done| |done].
  intros f fr' Hf. exists fr'. split; [|done]. by apply lookup_app_l_Some.
Qed.

Lemma sends_update_frame f g :
  (∀ fr, same_channel fr (g fr)) → sends_ok bootstrapForkPath (update_frame f g s0).
Proof.
  intros Hg.
  apply (sends_intro s0); [done| |sent_old|sent_old|sent_old|sent_old|sent_same].
  apply grows_sent_simple; [done| |done].
  intros f' fr' Hf. simpl. destruct (decide (f = f')) as [->|Hne].
  - exists (g fr'). by rewrite list_lookup_alter_eq, Hf.
  - exists fr'. by rewrite list_lookup_alter_ne.
Qed.

(** An activation that opens its channel awaits no acknowledgment. *)
Lemma sends_set_channel f p1 p2 :
  KCreateWorker2 f ∉ conts s0 →
  sends_ok bootstrapForkPath (update_frame f (set_channel p1 p2) s0).
Proof.
  intros Hno.
  apply (sends_intro s0); [done| |sent_old|sent_old|sent_old|sent_old|sent_same].
  split; [done|]. split; [done|]. split.
  - intros f' Hin. assert (f ≠ f') as Hne by (by intros ->).
    apply excused_kept; [|done]. intros fr. simpl.
    rewrite list_lookup_alter_ne by done. intros Hf. by exists fr.
  - intros f' fr' Hf. simpl. destruct (decide (f = f')) as [->|Hne].
    + exists (set_channel p1 p2 fr'). by rewrite list_lookup_alter_eq, Hf.
    + exists fr'. by rewrite list_lookup_alter_ne.
Qed.

Lemma sends_push_promise :
  sends_ok bootstrapForkPath (set_promises (promises s0 ++ [Pending []]) s0).
Proof.
  apply (sends_intro s0); [done| |sent_old| |sent_old|sent_old|sent_same].
  - split; [simpl; rewrite length_app; lia|]. split; [|split].
    + intros f r (ks & Hp & Hk). simpl in Hp.
      apply lookup_snoc_Some in Hp as [[_ Hp]|[_ [= <-]]]; [by exists ks|].
      by apply not_elem_of_nil in Hk.
    + intros f _. by apply excused_kept; [intros fr ?; by exists fr|].
    + intros f fr Hf. by exists fr.
  - intros p ks. simpl. intros Hp.
    apply lookup_snoc_Some in Hp as [[_ Hp]|[_ [= <-]]]; [by right|].
    left. by apply Forall_nil.
Qed.

Lemma sends_insert_fulfilled p v :
  sends_ok bootstrapForkPath (set_promises (<[p := Fulfilled v]> (promises s0)) s0).
Proof.
  apply (sends_intro s0); [done| |sent_old| |sent_old|sent_old|sent_same].
  - split; [simpl; by rewrite length_insert|]. split; [|split].
    + intros f r (ks & Hp & Hk). simpl in Hp.
      destruct (decide (p = r)) as [->|Hne].
      * destruct (decide (r < length (promises s0))).
        -- rewrite list_lookup_insert_eq in Hp by done. done.
        -- rewrite list_insert_ge in Hp by lia. by exists ks.
      * rewrite list_lookup_insert_ne in Hp by done. by exists ks.
    + intros f _. by apply excused_kept; [intros fr ?; by exists fr|].
    + intros f fr Hf. by exists fr.
  - intros p' ks. simpl. intros Hp.
    destruct (decide (p = p')) as [->|Hne].
    + destruct (decide (p' < length (promises s0))).
      * rewrite list_lookup_insert_eq in Hp by done. done.
      * rewrite list_insert_ge in Hp by lia. by right.
    + rewrite list_lookup_insert_ne in Hp by done. by right.
Qed.
End SentUpdates.

Lemma target_bound s k r :
  cont_sent bootstrapForkPath s k → target k = Some r → r < length (promises s).
Proof.
  destruct k as [this r'|this m tok port r'|f|f|r' i|r']; simpl; try done;
    intros [Hr _] [= <-]; done.
Qed.

Section SentStores.
Variable s0 : State.
Hypothesis H : sends_ok bootstrapForkPath s0.

(** One more reaction, other than the end of [createWorker]. *)
Lemma sends_insert_pending p ks k :
  promises s0 !! p = Some (Pending ks) → reaction_sent bootstrapForkPath s0 k →
  (∀ f, k ≠ KCreateWorker2 f) →
  sends_ok bootstrapForkPath (set_promises (<[p := Pending (ks ++ [k])]> (promises s0)) s0).
Proof.
  intros Hp Hk Hne.
  set (s1 := set_promises _ s0).
  assert (grows_sent bootstrapForkPath s0 s1) as G.
  { split; [simpl; by rewrite length_insert|]. split; [|split].
    - intros f r (ks' & Hp' & Hk'). simpl in Hp'.
      destruct (decide (p = r)) as [->|Hpr].
      + rewrite list_lookup_insert_eq in Hp' by (by eapply lookup_lt_Some).
        injection Hp' as <-. exists ks. split; [done|].
        apply elem_of_app in Hk' as [?|Hk']; [done|].
        apply list_elem_of_singleton in Hk'. by destruct (Hne f).
      + rewrite list_lookup_insert_ne in Hp' by done. by exists ks'.
    - intros f _. by apply excused_kept; [intros fr ?; by exists fr|].
    - intros f fr Hf. by exists fr. }
  apply (sends_intro s0); [done|done|sent_old| |sent_old|sent_old|sent_same].
  intros p' ks'. simpl. intros Hp'.
  destruct (decide (p = p')) as [->|Hpp].
  - rewrite list_lookup_insert_eq in Hp' by (by eapply lookup_lt_Some).
    injection Hp' as <-. left. apply Forall_app. split.
    + apply Forall_forall. intros k' Hk'.
      destruct (proj1 (Forall_forall _ _) (sent_reactions _ _ H _ _ Hp) k' Hk') as [Hc Hx].
      split; [|done]. eapply cont_sent_grows; [done| |done].
      by eapply elem_of_conts_reaction.
    + apply Forall_singleton. destruct Hk as [Hc Hx]. split; [|done].
      destruct k as [this r|this m tok port r|f|f|r i|r]; simpl in *; try done.
      destruct Hc as [Hr Hex]. split; [by rewrite length_insert|].
      intros f Ha. destruct G as (_ & Hack & _).
      assert (ackOf s0 f r) as Ha0 by (by apply Hack).
      apply (excused_kept s0); [intros fr ?; by exists fr|done|by apply Hex].
  - rewrite list_lookup_insert_ne in Hp' by done. by right.
Qed.

(** The end of [createWorker] starts to await a promise that nothing but
    the rest of its [spawn] call settles. *)
Lemma sends_insert_ack p f :
  promises s0 !! p = Some (Pending []) →
  (∀ k, k ∈ conts s0 → target k = Some p →
        ∃ this m port, k = KSend this m (TokenOf f) port p) →
  (∀ w n, pendingEntry s0 w n ≠ Some p) →
  sends_ok bootstrapForkPath
    (set_promises (<[p := Pending [KCreateWorker2 f]]> (promises s0)) s0).
Proof.
  intros Hp Hres Hent.
  set (s1 := set_promises _ s0).
  assert (∀ f' r, ackOf s1 f' r → ackOf s0 f' r ∨ (f' = f ∧ r = p)) as Hack.
  { intros f' r (ks' & Hp' & Hk'). simpl in Hp'.
    destruct (decide (p = r)) as [->|Hpr].
    - rewrite list_lookup_insert_eq in Hp' by (by eapply lookup_lt_Some).
      injection Hp' as <-. apply list_elem_of_singleton in Hk'. right.
      by injection Hk' as ->.
    - rewrite list_lookup_insert_ne in Hp' by done. left. by exists ks'. }
  assert (∀ f', excused bootstrapForkPath s0 f' → excused bootstrapForkPath s1 f') as Hex.
  { intros f'. by apply excused_kept; [intros fr ?; by exists fr|]. }
  assert (∀ k, k ∈ conts s0 → cont_sent bootstrapForkPath s0 k →
               cont_sent bootstrapForkPath s1 k) as Hcont.
  { intros k Hin Hc.
    destruct k as [this r|this m [|f'] port r|f'|f'|r i|r]; simpl in *; try done.
    - destruct Hc as [Hr Hno]. split; [by rewrite length_insert|].
      intros f' [Ha|[-> ->]]%Hack; [by eapply Hno|].
      by destruct (Hres _ Hin eq_refl) as (? & ? & ? & ?).
    - destruct Hc as (Hr & Hno & Hd). split; [by rewrite length_insert|]. split; [|done].
      intros f' [Ha|[-> ->]]%Hack; [by eapply Hno|].
      by destruct (Hres _ Hin eq_refl) as (? & ? & ? & ?).
    - destruct Hc as [Hr Hf]. split; [by rewrite length_insert|].
      intros f'' [Ha|[-> ->]]%Hack; [by apply Hf|].
      destruct (Hres _ Hin eq_refl) as (? & ? & ? & Heq). by injection Heq.
    - destruct Hc as [Hr Hf]. split; [by rewrite length_insert|].
      intros f' [Ha|[-> ->]]%Hack; [by apply Hex, Hf|].
      by destruct (Hres _ Hin eq_refl) as (? & ? & ? & ?).
    - destruct Hc as [Hr Hf]. split; [by rewrite length_insert|].
      intros f' [Ha|[-> ->]]%Hack; [by apply Hex, Hf|].
      by destruct (Hres _ Hin eq_refl) as (? & ? & ? & ?). }
  destruct H as [Hj Hr Hw He Ht]. split.
  - apply Forall_forall. intros j Hin.
    destruct (proj1 (Forall_forall _ _) Hj j Hin) as [Hc Hx].
    split; [apply Hcont; [by apply elem_of_conts_job|done]|].
    destruct j as [[| | |f'| |] v]; simpl in *; done.
  - intros p' ks'. simpl. intros Hp'.
    destruct (decide (p = p')) as [->|Hpp].
    + rewrite list_lookup_insert_eq in Hp' by (by eapply lookup_lt_Some).
      injection Hp' as <-. by apply Forall_singleton.
    + rewrite list_lookup_insert_ne in Hp' by done.
      apply Forall_forall. intros k Hk.
      destruct (proj1 (Forall_forall _ _) (Hr p' ks' Hp') k Hk) as [Hc Hx].
      split; [|done]. apply Hcont; [by eapply elem_of_conts_reaction|done].
  - intros w ww ks Hww Hks. apply Forall_forall. intros k Hk.
    destruct (proj1 (Forall_forall _ _) (Hw w ww ks Hww Hks) k Hk) as [Hc Hx].
    split; [|done]. apply Hcont; [by eapply elem_of_conts_waiter|done].
  - intros w n r Hen. destruct (He w n r Hen) as [Hlt Hno].
    split; [simpl; by rewrite length_insert|].
    intros f' [Ha|[-> ->]]%Hack; [by eapply Hno|]. by eapply Hent.
  - eapply Forall_impl; [done|]. intros e.
    destruct e as [| |w [|m] tr| | | |]; simpl; done.
Qed.

Lemma sends_push_webWorker type :
  sends_ok bootstrapForkPath (set_webWorkers (webWorkers s0 ++
    [{| wtype := type; workerReady := ReadyPending [];
        mapMessageNonceToMessageResolve := ∅ |}]) s0).
Proof.
  apply (sends_intro s0); [done|sent_grows|sent_old|sent_old| | |sent_same].
  - intros w ww ks. simpl. intros Hw Hks.
    apply lookup_snoc_Some in Hw as [[_ Hw]|[_ <-]]; [right; eauto|].
    simpl in Hks. injection Hks as <-. left. by apply Forall_nil.
  - intros w n r. unfold pendingEntry. simpl. intros Hen. right.
    destruct ((webWorkers s0 ++ _) !! w) as [ww|] eqn:Hw; [|done].
    apply lookup_snoc_Some in Hw as [[_ Hw]|[_ <-]]; [by rewrite Hw|].
    simpl in Hen. by rewrite lookup_empty in Hen.
Qed.

(** An update of the table of web worker [w]. *)
Lemma sends_update_table w g :
  (∀ ww, workerReady (g ww) = workerReady ww) →
  (∀ ww n r, mapMessageNonceToMessageResolve (g ww) !! n = Some r →
     mapMessageNonceToMessageResolve ww !! n = Some r ∨
     (r < length (promises s0) ∧ ∀ f, ¬ ackOf s0 f r)) →
  sends_ok bootstrapForkPath (update_webWorker w g s0).
Proof.
  intros Hg Hm.
  apply (sends_intro s0); [done|sent_grows|sent_old|sent_old| | |sent_same].
  - intros w' ww ks. simpl. intros Hw Hks. right.
    destruct (decide (w = w')) as [->|Hne].
    + rewrite list_lookup_alter_eq in Hw.
      destruct (webWorkers s0 !! w') as [ww0|]; [|done]. injection Hw as <-.
      exists ww0. by rewrite <- Hg.
    + rewrite list_lookup_alter_ne in Hw by done. eauto.
  - intros w' n r. unfold pendingEntry. simpl. intros Hen.
    destruct (decide (w = w')) as [->|Hne].
    + rewrite list_lookup_alter_eq in Hen.
      destruct (webWorkers s0 !! w') as [ww0|]; [|done]. simpl in Hen.
      destruct (Hm _ _ _ Hen) as [?|?]; [by right|by left].
    + rewrite list_lookup_alter_ne in Hen by done. by right.
Qed.

Lemma sends_add_waiter w ww ks k :
  webWorkers s0 !! w = Some ww → workerReady ww = ReadyPending ks →
  waiter_sent bootstrapForkPath s0 k →
  sends_ok bootstrapForkPath
    (update_webWorker w (set_workerReady (ReadyPending (ks ++ [k]))) s0).
Proof.
  intros Hw Hks Hk.
  apply (sends_intro s0); [done|sent_grows|sent_old|sent_old| | |sent_same].
  - intros w' ww' ks'. simpl. intros Hw' Hks'.
    destruct (decide (w = w')) as [->|Hne].
    + rewrite list_lookup_alter_eq, Hw in Hw'. injection Hw' as <-.
      simpl in Hks'. injection Hks' as <-. left.
      apply Forall_app. split; [by eapply (sent_waiters _ _ H)|].
      by apply Forall_singleton.
    + rewrite list_lookup_alter_ne in Hw' by done. right. eauto.
  - intros w' n r. unfold pendingEntry. simpl. intros Hen. right.
    destruct (decide (w = w')) as [->|Hne].
    + rewrite list_lookup_alter_eq, Hw in Hen. by rewrite Hw.
    + by rewrite list_lookup_alter_ne in Hen.
Qed.

Lemma sends_set_ready w :
  sends_ok bootstrapForkPath (update_webWorker w (set_workerReady ReadyResolved) s0).
Proof.
  apply (sends_intro s0); [done|sent_grows|sent_old|sent_old| | |sent_same].
  - intros w' ww' ks'. simpl. intros Hw' Hks'.
    destruct (decide (w = w')) as [->|Hne].
    + rewrite list_lookup_alter_eq in Hw'.
      destruct (webWorkers s0 !! w') as [ww0|]; [|done]. injection Hw' as <-. done.
    + rewrite list_lookup_alter_ne in Hw' by done. right. eauto.
  - intros w' n r. unfold pendingEntry. simpl. intros Hen. right.
    destruct (decide (w = w')) as [->|Hne].
    + rewrite list_lookup_alter_eq in Hen.
      by destruct (webWorkers s0 !! w') as [ww0|].
    + by rewrite list_lookup_alter_ne in Hen.
Qed.
End SentStores.

Lemma ackOf_insert_fulfilled s p v f r :
  ackOf (set_promises (<[p := Fulfilled v]> (promises s)) s) f r → ackOf s f r.
Proof.
  intros (ks & Hp & Hk). simpl in Hp. exists ks. split; [|done].
  destruct (decide (p = r)) as [->|Hne].
  - destruct (decide (r < length (promises s))).
    + by rewrite list_lookup_insert_eq in Hp.
    + by rewrite list_insert_ge in Hp by lia.
  - by rewrite list_lookup_insert_ne in Hp.
Qed.

(** Settling a promise: the end of [createWorker] may only be among its
    reactions if the [spawn] call is excused. *)
Lemma sends_resolvePromise s0 p v :
  sends_ok bootstrapForkPath s0 →
  (∀ f, ackOf s0 f p → excused bootstrapForkPath s0 f) →
  sends_ok bootstrapForkPath (resolvePromise p v s0).
Proof.
  intros H Hex. unfold resolvePromise.
  destruct (promises s0 !! p) as [[ks|v']|] eqn:Hp; try done.
  apply sends_enqueue; [by apply sends_insert_fulfilled|].
  apply Forall_forall. intros j Hj.
  apply list_elem_of_fmap in Hj as (k & -> & Hk).
  destruct (proj1 (Forall_forall _ _) (sent_reactions _ _ H _ _ Hp) k Hk) as [Hc Hx].
  destruct k as [this r|this m tok port r|f|f|r i|r]; try done.
  - split; [done|]. simpl. apply Hex. by exists ks.
  - split; [|done]. destruct Hc as [Hr Hf]. split; [simpl; by rewrite length_insert|].
    intros f Ha%ackOf_insert_fulfilled. by apply Hf.
Qed.

Lemma reaction_job_sent s k v :
  reaction_sent bootstrapForkPath s k → (∀ f, k ≠ KCreateWorker2 f) →
  job_sent bootstrapForkPath s (k, v).
Proof.
  intros [Hc Hx] Hne. split; [done|].
  destruct k as [this r|this m tok port r|f|f|r i|r]; try done. by destruct (Hne f).
Qed.

Lemma sends_await s0 p k :
  sends_ok bootstrapForkPath s0 → reaction_sent bootstrapForkPath s0 k →
  (∀ f, k ≠ KCreateWorker2 f) →
  sends_ok bootstrapForkPath (await p k s0).
Proof.
  intros H Hk Hne. unfold await.
  destruct (promises s0 !! p) as [[ks|v']|] eqn:Hp; try done.
  - by apply sends_insert_pending.
  - apply sends_enqueue; [done|]. apply Forall_singleton. by apply reaction_job_sent.
Qed.

Lemma sends_awaitReady s0 w k :
  sends_ok bootstrapForkPath s0 → waiter_sent bootstrapForkPath s0 k →
  sends_ok bootstrapForkPath (awaitReady w k s0).
Proof.
  intros H Hk. unfold awaitReady.
  destruct (webWorkers s0 !! w) as [ww|] eqn:Hw; [|done].
  destruct (workerReady ww) as [ks|] eqn:Hr.
  - by eapply sends_add_waiter.
  - apply sends_enqueue; [done|]. apply Forall_singleton.
    destruct Hk as [Hc Hx]. split; [done|].
    destruct k as [this r|this m tok port r|f|f|r i|r]; try done. by eexists.
Qed.

Lemma sends_readyResolve s0 w :
  sends_ok bootstrapForkPath s0 → sends_ok bootstrapForkPath (readyResolve w s0).
Proof.
  intros H. unfold readyResolve.
  destruct (webWorkers s0 !! w) as [ww|] eqn:Hw; [|done].
  destruct (workerReady ww) as [ks|] eqn:Hr; [|done].
  apply sends_enqueue; [by apply sends_set_ready|].
  apply Forall_forall. intros j Hj.
  apply list_elem_of_fmap in Hj as (k & -> & Hk).
  destruct (proj1 (Forall_forall _ _) (sent_waiters _ _ H _ _ _ Hw Hr) k Hk) as [Hc Hx].
  split; [done|].
  destruct k as [this r|this m tok port r|f|f|r i|r]; try done. by eexists.
Qed.

Lemma ackOf_fresh s f : ¬ ackOf (newPromise s).2 f (length (promises s)).
Proof.
  intros (ks & Hp & Hk). simpl in Hp.
  rewrite lookup_app_r, Nat.sub_diag in Hp by lia. injection Hp as <-.
  by apply not_elem_of_nil in Hk.
Qed.

Lemma sends_send s0 this m token port :
  sends_ok bootstrapForkPath s0 →
  (token = TokenNone → disposedMessage s0 m None) →
  sends_ok bootstrapForkPath (send this m token port s0).2.
Proof.
  intros H Hd. unfold send. simpl.
  apply sends_awaitReady; [by apply sends_push_promise|].
  split; [|done]. simpl. rewrite length_app. simpl. split; [lia|].
  destruct token as [|f'].
  - split; [intros f; apply ackOf_fresh|by apply Hd].
  - intros f Ha. by apply ackOf_fresh in Ha.
Qed.

Lemma sends_init s0 this :
  sends_ok bootstrapForkPath s0 → sends_ok bootstrapForkPath (init this s0).2.
Proof.
  intros H. unfold init. simpl.
  apply sends_awaitReady; [by apply sends_push_promise|].
  split; [|done]. simpl. rewrite length_app. simpl. split; [lia|].
  intros f. apply ackOf_fresh.
Qed.

Lemma sends_newSharedProcessWebWorker s0 type :
  sends_ok bootstrapForkPath s0 →
  sends_ok bootstrapForkPath (newSharedProcessWebWorker type s0).2.
Proof.
  intros H. unfold newSharedProcessWebWorker, doInit. simpl.
  apply sends_emit; [|done]. apply sends_emit; [|done]. by apply sends_push_webWorker.
Qed.

Lemma sends_getOrCreateWebWorker s0 cfg :
  sends_ok bootstrapForkPath s0 →
  sends_ok bootstrapForkPath (getOrCreateWebWorker cfg s0).2.
Proof.
  intros H. unfold getOrCreateWebWorker.
  destruct (workers s0 !! _); [done|]. cbn zeta.
  destruct (newSharedProcessWebWorker _ _) as [w s1] eqn:Hn.
  destruct (init w s1) as [p s2] eqn:Hi. simpl.
  assert (sends_ok bootstrapForkPath s2) as H2.
  { change s2 with (p, s2).2. rewrite <- Hi. apply sends_init.
    change s1 with (w, s1).2. rewrite <- Hn. apply sends_newSharedProcessWebWorker.
    by apply sends_emit. }
  by apply (sends_same s2).
Qed.

Lemma sends_dispose s0 f :
  sends_ok bootstrapForkPath s0 → sends_ok bootstrapForkPath (dispose hash f s0).
Proof.
  intros H. unfold dispose. destruct (frames s0 !! f) as [fr|] eqn:Hf; [|done].
  set (U := update_frame f (set_cts true) s0).
  assert (sends_ok bootstrapForkPath U) as HU.
  { apply sends_update_frame; [done|]. intros fr'. apply same_channel_set_cts. }
  set (T := match worker fr with
            | Some w => (terminate w (configuration fr) TokenNone U).2
            | None => U
            end).
  assert (sends_ok bootstrapForkPath T) as HT.
  { unfold T. destruct (worker fr) as [w|]; [|done]. unfold terminate.
    apply sends_send; [done|]. intros _. exists f, (set_cts true fr).
    split; [|done]. unfold U. simpl. by rewrite list_lookup_alter_eq, Hf. }
  set (N := match windowPort fr with Some p => emit (EvPortClose p) T | None => T end).
  assert (sends_ok bootstrapForkPath N) as HN.
  { unfold N. destruct (windowPort fr); [|done]. by apply sends_emit. }
  set (W := match workerPort fr with Some p => emit (EvPortClose p) N | None => N end).
  assert (sends_ok bootstrapForkPath W) as HW.
  { unfold W. destruct (workerPort fr); [|done]. by apply sends_emit. }
  by apply (sends_same W).
Qed.

Lemma sends_disposeWorker s0 cfg :
  sends_ok bootstrapForkPath s0 → sends_ok bootstrapForkPath (disposeWorker hash cfg s0).
Proof.
  intros H. unfold disposeWorker. destruct (processes s0 !! _); [|done].
  apply sends_dispose. by apply sends_emit.
Qed.

Lemma sends_createWorker s0 cfg :
  sends_ok bootstrapForkPath s0 → sends_ok bootstrapForkPath (createWorker hash cfg s0).
Proof.
  intros H. unfold createWorker. cbn zeta.
  set (s1 := disposeWorker hash cfg _).
  set (s2 := set_processes _ _).
  assert (sends_ok bootstrapForkPath s2) as H2.
  { unfold s2.
    match goal with |- sends_ok _ (set_processes _ ?X) => apply (sends_same X); try done end.
    apply sends_push_frame, sends_disposeWorker. by apply sends_emit. }
  pose proof (sends_getOrCreateWebWorker s2 cfg H2) as H3.
  destruct (getOrCreateWebWorker cfg s2) as [p s3]. simpl in H3.
  by apply sends_await.
Qed.

Lemma sends_createWorker_return s0 f :
  sends_ok bootstrapForkPath s0 → sends_ok bootstrapForkPath (createWorker_return f s0).
Proof.
  intros H. apply sends_update_frame; [done|]. intros fr. apply same_channel_set_returned.
Qed.

Lemma sends_onAck s0 this nonce :
  sends_ok bootstrapForkPath s0 → sends_ok bootstrapForkPath (onAck this nonce s0).
Proof.
  intros H. unfold onAck. destruct (truthy nonce); [|done].
  destruct nonce as [n|]; [|done].
  destruct (webWorkers s0 !! this) as [ww|] eqn:Hw; [|done].
  destruct (mapMessageNonceToMessageResolve ww !! n) as [r|] eqn:Hn; [|done].
  assert (pendingEntry s0 this n = Some r) as Hen.
  { unfold pendingEntry. by rewrite Hw. }
  destruct (sent_entries _ _ H _ _ _ Hen) as [Hlt Hno].
  apply sends_resolvePromise.
  - apply sends_emit; [|done]. apply sends_update_table; [done|done|].
    intros ww' n' r'. simpl. intros Hl. left.
    destruct (decide (n = n')) as [->|Hne].
    + by rewrite lookup_delete_eq in Hl.
    + by rewrite lookup_delete_ne in Hl.
  - intros f Ha. by destruct (Hno f).
Qed.

Lemma sends_onmessage s0 this data :
  sends_ok bootstrapForkPath s0 → sends_ok bootstrapForkPath (onmessage this data s0).
Proof.
  intros H. unfold onmessage. destruct (webWorkers s0 !! this); [|done].
  destruct (FromWorker.id data); try (by apply sends_emit).
  - by apply sends_readyResolve.
  - by apply sends_onAck.
  - destruct (truthy _); [by apply sends_emit|done].
Qed.

Lemma sends_init_resume s0 this ret :
  sends_ok bootstrapForkPath s0 → cont_sent bootstrapForkPath s0 (KInit this ret) →
  sends_ok bootstrapForkPath (init_resume this ret s0).
Proof.
  intros H [_ Hno]. apply sends_resolvePromise; [done|]. intros f Ha. by destruct (Hno f).
Qed.

Lemma sends_createWorker_resume2 s0 f :
  sends_ok bootstrapForkPath s0 → sends_ok bootstrapForkPath (createWorker_resume2 f s0).
Proof.
  intros H. unfold createWorker_resume2.
  destruct (isCancellationRequested _ _); [by apply sends_createWorker_return|].
  destruct (frames s0 !! f); [|done].
  apply sends_createWorker_return, sends_emit; [|done]. by apply sends_emit.
Qed.

Lemma pendingEntry_awaitReady s w k w' n :
  pendingEntry (awaitReady w k s) w' n = pendingEntry s w' n.
Proof.
  unfold awaitReady. destruct (webWorkers s !! w) as [ww|] eqn:Hw; [|done].
  destruct (workerReady ww); [|done].
  unfold pendingEntry. simpl. destruct (decide (w = w')) as [->|Hne].
  - by rewrite list_lookup_alter_eq, Hw.
  - by rewrite list_lookup_alter_ne.
Qed.

(** The rest of [send]. *)
Lemma sends_send_resume s0 this m token port ret v :
  sends_ok bootstrapForkPath s0 →
  cont_sent bootstrapForkPath s0 (KSend this m token port ret) → is_Some v →
  cont_chan bootstrapForkPath s0 (KSend this m token port ret) →
  sends_ok bootstrapForkPath (send_resume this m token port ret v s0).
Proof.
  intros H [Hr Hk] [w ->] Hch. unfold send_resume.
  destruct (isCancellationRequested token s0) eqn:Hc.
  { apply sends_resolvePromise; [done|]. intros f Ha.
    destruct token as [|f']; [done|]. rewrite (Hk f Ha). by left. }
  cbn zeta. simpl.
  set (X := update_webWorker this _ _).
  set (n := generateUuid (uuids s0)).
  assert (sends_ok bootstrapForkPath X) as HX.
  { unfold X. apply sends_update_table.
    - match goal with |- sends_ok _ (set_uuids _ ?Y) => apply (sends_same Y); try done end.
      by apply sends_push_promise.
    - done.
    - intros ww n' r. simpl. intros Hl.
      destruct (decide (n = n')) as [<-|Hne].
      + rewrite lookup_insert_eq in Hl. injection Hl as <-. right.
        rewrite length_app. simpl. split; [lia|]. intros f. apply ackOf_fresh.
      + rewrite lookup_insert_ne in Hl by done. by left. }
  assert (∀ f, ackOf X f ret → ackOf s0 f ret) as Hack.
  { intros f (ks & Hp & Hin). exists ks. split; [|done].
    unfold X in Hp. simpl in Hp. by rewrite lookup_app_l in Hp. }
  apply sends_enqueue.
  - apply sends_emit; [done|]. simpl. intros Hid.
    destruct token as [|f'].
    + destruct Hk as (_ & f & fr & Hf & Hcts & ->). exists n, f, fr. done.
    + simpl in Hch. destruct Hch as (fr & p & _ & _ & _ & ->). done.
  - apply Forall_singleton. split; [|done]. simpl.
    split; [rewrite length_app; simpl; lia|].
    intros f Ha%Hack. destruct token as [|f'].
    + destruct Hk as [Hno _]. by destruct (Hno f).
    + rewrite (Hk f Ha). simpl in Hch. destruct Hch as (fr & p & Hf & Hw & -> & ->).
      right. exists fr, p, w, n. split; [done|]. split; [done|].
      simpl. apply elem_of_app. right. by apply list_elem_of_singleton.
Qed.

(** The middle of [createWorker]. *)
Lemma sends_createWorker_resume1 s0 f v :
  sends_ok bootstrapForkPath s0 → KCreateWorker2 f ∉ conts s0 →
  sends_ok bootstrapForkPath (createWorker_resume1 bootstrapForkPath f v s0).
Proof.
  intros H Hno. unfold createWorker_resume1.
  set (s1 := update_frame f (set_worker v) s0).
  assert (sends_ok bootstrapForkPath s1) as H1.
  { apply sends_update_frame; [done|]. intros fr. apply same_channel_set_worker. }
  destruct (isCancellationRequested (TokenOf f) s1).
  { by apply sends_createWorker_return. }
  destruct (frames s1 !! f) as [fr|]; [|done].
  destruct v as [w|]; [|done].
  cbn zeta.
  set (s3 := update_frame f _ _).
  assert (sends_ok bootstrapForkPath s3) as H3.
  { unfold s3. apply sends_set_channel; [|done]. apply sends_emit; [|done].
    by apply (sends_same s1). }
  pose proof (sends_send s3 w (spawnMessageOf bootstrapForkPath (configuration fr))
                (TokenOf f) (Some (S (ports s1))) H3) as H4.
  unfold spawn.
  change {| ToWorker.id := WorkerSpawn; ToWorker.configuration := configuration fr;
            ToWorker.environment := Some {| bootstrapPath := bootstrapForkPath |};
            ToWorker.nonce := None |}
    with (spawnMessageOf bootstrapForkPath (configuration fr)).
  destruct (send w _ (TokenOf f) _ s3) as [acked s4] eqn:Hs.
  simpl in H4. specialize (H4 ltac:(done)).
  unfold send in Hs. simpl in Hs. injection Hs as <- <-.
  set (k := KSend w _ (TokenOf f) _ _) in *.
  set (s3' := set_promises _ s3) in *.
  set (s4 := awaitReady w k s3') in *.
  destruct (awaitReady_same w k s3') as (_ & _ & _ & _ & Hp4). fold s4 in Hp4.
  assert (promises s4 !! length (promises s0) = Some (Pending [])) as Hacked.
  { rewrite Hp4. unfold s3'. simpl. by rewrite lookup_app_r, Nat.sub_diag by lia. }
  unfold await. rewrite Hacked. simpl.
  apply sends_insert_ack; [done|done| |].
  - intros k' Hin Ht.
    pose proof (conts_awaitReady w k s3') as Hsub. fold s4 in Hsub.
    apply (elem_of_submseteq _ _ _ Hin) in Hsub.
    apply elem_of_cons in Hsub as [->|Hold]; [by eexists _, _, _|].
    change (conts s3') with (conts (newPromise s3).2) in Hold.
    rewrite (conts_newPromise s3) in Hold. change (conts s3) with (conts s0) in Hold.
    pose proof (target_bound s0 k' _ (sent_conts s0 k' H Hold) Ht) as Hlt.
    simpl in Hlt. lia.
  - intros w' n' He. unfold s4 in He. rewrite pendingEntry_awaitReady in He.
    change (pendingEntry s3' w' n') with (pendingEntry s0 w' n') in He.
    destruct (sent_entries _ _ H _ _ _ He) as [Hlt _].
    simpl in Hlt. lia.
Qed.

Lemma sends_ok_initial : sends_ok bootstrapForkPath initial.
Proof. by split. Qed.

(** The invariant of the [send] calls holds in every reachable state. *)
Lemma sends_ok_step s i :
  channels_ok bootstrapForkPath s → sends_ok bootstrapForkPath s →
  sends_ok bootstrapForkPath (step hash bootstrapForkPath s i).
Proof.
  intros Hch H. destruct i as [cfg|cfg|w data|w msg|w|]; simpl.
  - by apply sends_createWorker.
  - by apply sends_disposeWorker.
  - by apply sends_onmessage.
  - unfold onerror. destruct (webWorkers s !! w); [by apply sends_emit|done].
  - unfold onmessageerror. destruct (webWorkers s !! w); [by apply sends_emit|done].
  - destruct (microtasks s) as [|[k v] rest] eqn:Hq; [done|].
    destruct (pop_facts s k v rest Hch Hq) as (Hch0 & Hk & _ & Hre).
    pose proof (sent_jobs _ _ H) as Hjobs. rewrite Hq in Hjobs.
    apply Forall_cons in Hjobs as [[Hc Hx] Hrest].
    pose proof (sends_set_microtasks s H rest Hrest) as H0.
    set (s0 := set_microtasks rest s) in *.
    change (cont_sent bootstrapForkPath s0 k) in Hc. simpl in Hx.
    destruct k as [this ret|this m token port ret|f|f|outer inner|outer]; simpl.
    + by apply sends_init_resume.
    + by apply sends_send_resume.
    + apply sends_createWorker_resume1; [done|]. intros Hin.
      assert (relaying f (KCreateWorker1 f) = true) as Hs.
      { simpl. by apply bool_decide_eq_true. }
      destruct (Hre f Hs) as [Hz _].
      pose proof (cnt_zero _ _ _ Hz Hin) as Hf. simpl in Hf.
      by apply bool_decide_eq_false in Hf.
    + by apply sends_createWorker_resume2.
    + apply sends_await; [done|by split|done].
    + apply sends_resolvePromise; [done|]. by destruct Hc.
Qed.

Lemma sends_ok_run inputs :
  sends_ok bootstrapForkPath (run hash bootstrapForkPath initial inputs).
Proof.
  induction inputs as [|i inputs IH] using rev_ind; [apply sends_ok_initial|].
  rewrite run_snoc. apply sends_ok_step; [apply channels_ok_run|done].
Qed.

(** The end of [createWorker] relays the window port of a channel whose
    other port went out with the spawn message. *)
Lemma relay_step s i :
  channels_ok bootstrapForkPath s → sends_ok bootstrapForkPath s →
  relay_follows_spawn bootstrapForkPath (trace s) →
  relay_follows_spawn bootstrapForkPath (trace (step hash bootstrapForkPath s i)).
Proof.
  intros Hch H IH.
  destruct (step_kinds s i) as (evs & Ht & Hevs).
  intros idx channel cfg p Hl. rewrite Ht in Hl |- *.
  apply lookup_app_Some in Hl as [Hl|[Hge Hl]].
  { destruct (IH _ _ _ _ Hl) as (j & w & nonce & Hlt & Hj).
    exists j, w, nonce. split; [done|]. by apply lookup_app_l_Some. }
  pose proof (proj1 (Forall_forall _ _) Hevs _ (list_elem_of_lookup_2 _ _ _ Hl)) as Hk.
  simpl in Hk. destruct i as [c|c|w d|w d|w|]; try done. simpl in Hk, Ht.
  destruct (microtasks s) as [|[k v] rest] eqn:Hq; [done|].
  destruct k as [this ret|this m token port ret|f|f|outer inner|outer]; try done.
  clear Hk. simpl in Ht.
  pose proof (sent_jobs _ _ H) as Hjobs. rewrite Hq in Hjobs.
  apply Forall_cons in Hjobs as [[_ Hx] _]. simpl in Hx.
  unfold createWorker_resume2 in Ht. simpl in Ht.
  destruct (frames s !! f) as [fr|] eqn:Hf.
  2: { change (trace s = trace s ++ evs) in Ht.
       rewrite <- (app_nil_r (trace s)) in Ht at 1. apply app_inv_head in Ht as <-. done. }
  destruct (cts fr) eqn:Hc.
  { change (trace s = trace s ++ evs) in Ht.
    rewrite <- (app_nil_r (trace s)) in Ht at 1. apply app_inv_head in Ht as <-. done. }
  simpl in Ht. rewrite <- !app_assoc in Ht. apply app_inv_head in Ht as <-.
  destruct Hx as [Hx|(fr' & q & w & nonce & Hf' & Hw & Hin)].
  { simpl in Hx. by rewrite Hf, Hc in Hx. }
  rewrite Hf in Hf'. injection Hf' as <-.
  pose proof (ch_frames _ _ Hch _ _ Hf) as Hok. unfold chan_ok in Hok. rewrite Hw in Hok.
  destruct (windowPort fr) as [p'|]; [|done]. destruct Hok as (_ & -> & _).
  assert (cfg = configuration fr ∧ p = p') as [-> ->].
  { destruct (idx - length (trace s)) as [|[|?]]; simpl in Hl; [done| |done].
    by injection Hl as _ <- <-. }
  apply list_elem_of_lookup in Hin as [j Hj].
  exists j, w, nonce. split; [|by apply lookup_app_l_Some].
  apply lookup_lt_Some in Hj. lia.
Qed.

(** ** The order of the spawn message and the relay *)

(** [createWorker] hands the window port of a channel to the main process
    only after the spawn message with the other port of the channel, for the
    same configuration, was posted to the [Worker]. *)
Theorem relay_after_spawn inputs i channel cfg p :
  trace (run hash bootstrapForkPath initial inputs) !! i
    = Some (EvIpcPostMessage channel cfg [p]) →
  ∃ j w nonce,
    j < i ∧
    trace (run hash bootstrapForkPath initial inputs) !! j
      = Some (EvPostMessage w
                (PostMessage (withNonce (spawnMessageOf bootstrapForkPath cfg) nonce))
                [S p]).
Proof.
  revert i channel cfg p.
  change (relay_follows_spawn bootstrapForkPath
            (trace (run hash bootstrapForkPath initial inputs))).
  induction inputs as [|i inputs IH] using rev_ind.
  { intros idx channel cfg p Hl. done. }
  rewrite run_snoc. apply relay_step; [apply channels_ok_run|apply sends_ok_run|done].
Qed.

(** A terminate message is only posted for an activation that was
    disposed: it names the configuration of a frame whose cancellation
    source was triggered. *)
Theorem terminate_only_disposed inputs w m transfer :
  EvPostMessage w (PostMessage m) transfer
    ∈ trace (run hash bootstrapForkPath initial inputs) →
  ToWorker.id m = WorkerTerminate →
  ∃ f fr nonce,
    frames (run hash bootstrapForkPath initial inputs) !! f = Some fr ∧
    cts fr = true ∧ m = terminateMessage (configuration fr) (Some nonce).
Proof.
  intros Hin Hid.
  pose proof (sent_trace _ _ (sends_ok_run inputs)) as Ht.
  pose proof (proj1 (Forall_forall _ _) Ht _ Hin) as He. simpl in He.
  destruct (He Hid) as (nonce & f & fr & Hf & Hc & Hm). by exists f, fr, nonce.
Qed.

(** ** The relay comes after the acknowledgment *)

Section Acks.
Variable A : ISharedProcessWorkerConfiguration → nat → Prop.

Lemma settled_kept s s' f :
  (∀ fr, frames s !! f = Some fr →
         ∃ fr', frames s' !! f = Some fr' ∧ same_channel fr fr') →
  settled A s f → settled A s' f.
Proof.
  intros Hfr [Hc|(fr & q & Hf & Hw & HA)].
  - left. simpl in *. destruct (frames s !! f) as [fr|] eqn:Hf; [|done].
    destruct (Hfr fr eq_refl) as (fr' & -> & (_ & Hc' & _) & _). by apply Hc'.
  - right. destruct (Hfr fr Hf) as (fr' & Hf' & (Hcfg & _) & _ & Hw').
    exists fr', q. by rewrite Hcfg, Hw'.
Qed.

Lemma awaitingAck_kept s s' f i :
  (∀ fr, frames s !! f = Some fr →
         ∃ fr', frames s' !! f = Some fr' ∧ same_channel fr fr') →
  trace s `prefix_of` trace s' →
  (∀ w n, pendingEntry s w n = Some i → pendingEntry s' w n = Some i) →
  awaitingAck bootstrapForkPath s f i → awaitingAck bootstrapForkPath s' f i.
Proof.
  intros Hfr [t Ht] Hen (fr & q & w & nonce & Hf & Hw & He & Hp).
  destruct (Hfr fr Hf) as (fr' & Hf' & (Hcfg & _) & _ & Hw').
  exists fr', q, w, nonce. rewrite Hcfg, Hw', Ht. split; [done|]. split; [done|].
  split; [apply elem_of_app; by left|by apply Hen].
Qed.

Lemma grows_acked_simple s s' :
  (∀ f r, ackOf s' f r → ackOf s f r) →
  (∀ f fr, frames s !! f = Some fr →
           ∃ fr', frames s' !! f = Some fr' ∧ same_channel fr fr') →
  trace s `prefix_of` trace s' →
  (∀ w n r, pendingEntry s w n = Some r → pendingEntry s' w n = Some r) →
  grows_acked bootstrapForkPath A s s'.
Proof.
  intros Hack Hfr Ht Hen. split; [done|]. split.
  - intros f _. apply settled_kept. intros fr. apply Hfr.
  - intros f i _ Ha. left. revert Ha. apply awaitingAck_kept; [|done|].
    + intros fr. apply Hfr.
    + intros w n. apply Hen.
Qed.

Lemma acks_untargeted s k :
  acks_ok bootstrapForkPath A s → k ∈ conts s → untargeted s k.
Proof. intros H Hk w n r Hen. by apply (acked_entries _ _ _ H w n r Hen). Qed.

(** If the stores are those of a state that obeys [acks_ok], up to the
    listed changes, the state obeys it. *)
Lemma acks_intro s s' :
  acks_ok bootstrapForkPath A s → grows_acked bootstrapForkPath A s s' →
  (∀ j, j ∈ microtasks s' → job_acked bootstrapForkPath A s' j ∨ j ∈ microtasks s) →
  (∀ i ks, promises s' !! i = Some (Pending ks) →
     Forall (reaction_acked bootstrapForkPath A s' i) ks ∨
     promises s !! i = Some (Pending ks)) →
  (∀ w ww ks, webWorkers s' !! w = Some ww → workerReady ww = ReadyPending ks →
     Forall (waiter_acked w) ks ∨
     ∃ ww0, webWorkers s !! w = Some ww0 ∧ workerReady ww0 = ReadyPending ks) →
  (∀ w n r, pendingEntry s' w n = Some r → entry_acked s' r) →
  acks_ok bootstrapForkPath A s'.
Proof.
  intros [Hj Hr Hw He] (Hack & Hset & Haw) Hj' Hr' Hw' He'.
  assert (∀ f r, ackOf s' f r → ackOf s f r ∧ KCreateWorker2 f ∈ conts s) as Hack'.
  { intros f r Ha%Hack. split; [done|by eapply ackOf_conts]. }
  assert (∀ r i, (∀ f, ackOf s f r → settled A s f ∨ awaitingAck bootstrapForkPath s f i) →
                 ∀ f, ackOf s' f r → settled A s' f ∨ awaitingAck bootstrapForkPath s' f i)
    as Hboth.
  { intros r i Hold f [Ha Hin]%Hack'. destruct (Hold f Ha) as [Hs|Hs].
    - left. by apply Hset.
    - destruct (Haw f i Hin Hs); auto. }
  split; [| | |done].
  - apply Forall_forall. intros j Hin. destruct (Hj' j Hin) as [?|Hin0]; [done|].
    pose proof (proj1 (Forall_forall _ _) Hj j Hin0) as Hc.
    pose proof (elem_of_conts_job s j Hin0) as Hk.
    destruct j as [[this r|this m tok port r|f|f|r i|r] v]; simpl in *; try done.
    + by apply Hset.
    + by apply Hboth.
    + intros f [Ha Hin']%Hack'. apply Hset; [done|by apply Hc].
  - intros i ks Hp. destruct (Hr' i ks Hp) as [?|Hp0]; [done|].
    apply Forall_forall. intros k Hk.
    pose proof (proj1 (Forall_forall _ _) (Hr i ks Hp0) k Hk) as Hc.
    destruct k as [this r|this m tok port r|f|f|r i'|r]; simpl in *; try done.
    by apply Hboth.
  - intros w ww ks Hww Hks.
    destruct (Hw' w ww ks Hww Hks) as [?|(ww0 & Hww0 & Hks0)]; [done|].
    by eapply Hw.
Qed.

(** The entries are the same, their promises stay pending and no new
    continuation settles one of them. *)
Lemma entries_kept s s' :
  acks_ok bootstrapForkPath A s →
  (∀ w n r, pendingEntry s' w n = Some r → pendingEntry s w n = Some r) →
  (∀ r ks, promises s !! r = Some (Pending ks) → untargeted s (KFulfill r) ∨
           ∃ ks', promises s' !! r = Some (Pending ks')) →
  (∀ k, k ∈ conts s' → k ∈ conts s ∨ untargeted s k) →
  ∀ w n r, pendingEntry s' w n = Some r → entry_acked s' r.
Proof.
  intros H Hen Hpr Hc w n r He%Hen.
  destruct (acked_entries _ _ _ H w n r He) as [[ks Hp] Hno]. split.
  - destruct (Hpr r ks Hp) as [Hu|?]; [|done]. by destruct (Hu w n r He).
  - intros k [Hk|Hk]%Hc; [by apply Hno|by eapply Hk].
Qed.

Ltac acks_old := intros; right; by eauto.
Ltac acks_grows :=
  apply grows_acked_simple; [done|intros ? fr ?; by exists fr|done|done].
Ltac acks_entries H :=
  apply (entries_kept _ _ H); [done|intros; right; by eauto|intros; by left].

Section AckUpdates.
Variable s0 : State.
Hypothesis H : acks_ok bootstrapForkPath A s0.

Lemma acks_emit e : acks_ok bootstrapForkPath A (emit e s0).
Proof.
  apply (acks_intro s0); [done| |acks_old|acks_old|acks_old|acks_entries H].
  apply grows_acked_simple; [done|intros ? fr ?; by exists fr| |done].
  by apply prefix_app_r.
Qed.

Lemma acks_set_microtasks l :
  Forall (λ j, job_acked bootstrapForkPath A s0 j ∧ untargeted s0 j.1) l →
  acks_ok bootstrapForkPath A (set_microtasks l s0).
Proof.
  intros Hl.
  apply (acks_intro s0); [done|acks_grows| |acks_old|acks_old|].
  - intros j Hj. left. by eapply (proj1 (Forall_forall _ _) Hl).
  - apply (entries_kept _ _ H); [done|intros; right; by eauto|].
    intros k. unfold conts at 1. simpl.
    intros [Hk|Hk]%elem_of_app.
    + apply list_elem_of_fmap in Hk as (j & -> & Hj). right.
      by eapply (proj1 (Forall_forall _ _) Hl).
    + left. unfold conts. apply elem_of_app. by right.
Qed.

Lemma acks_jobs_untargeted :
  Forall (λ j, job_acked bootstrapForkPath A s0 j ∧ untargeted s0 j.1) (microtasks s0).
Proof.
  apply Forall_forall. intros j Hj. split.
  - by apply (proj1 (Forall_forall _ _) (acked_jobs _ _ _ H)).
  - apply acks_untargeted; [done|]. by apply elem_of_conts_job.
Qed.

Lemma acks_enqueue js :
  Forall (λ j, job_acked bootstrapForkPath A s0 j ∧ untargeted s0 j.1) js →
  acks_ok bootstrapForkPath A (enqueue js s0).
Proof.
  intros Hl. apply acks_set_microtasks, Forall_app. split; [|done].
  apply acks_jobs_untargeted.
Qed.

(** A change of another part of the state. *)
Lemma acks_same s1 :
  microtasks s1 = microtasks s0 → promises s1 = promises s0 →
  webWorkers s1 = webWorkers s0 → frames s1 = frames s0 → trace s1 = trace s0 →
  acks_ok bootstrapForkPath A s1.
Proof.
  intros Hm Hp Hw Hf Ht.
  assert (∀ w n, pendingEntry s1 w n = pendingEntry s0 w n) as Hen.
  { intros w n. unfold pendingEntry. by rewrite Hw. }
  assert (conts s1 = conts s0) as Hc.
  { unfold conts. by rewrite Hm, Hp, Hw. }
  apply (acks_intro s0); [done| | | | |].
  - apply grows_acked_simple.
    + intros f r. unfold ackOf. by rewrite Hp.
    + intros f fr Hfr. exists fr. by rewrite Hf.
    + by rewrite Ht.
    + intros w n r. by rewrite Hen.
  - intros j. rewrite Hm. by right.
  - intros p ks. rewrite Hp. by right.
  - intros w ww ks. rewrite Hw. right. eauto.
  - apply (entries_kept _ _ H).
    + intros w n r. by rewrite Hen.
    + intros r ks Hr. right. rewrite Hp. eauto.
    + intros k. rewrite Hc. by left.
Qed.

Lemma acks_push_frame fr :
  acks_ok bootstrapForkPath A (set_frames (frames s0 ++ [fr]) s0).
Proof.
  apply (acks_intro s0); [done| |acks_old|acks_old|acks_old|acks_entries H].
  apply grows_acked_simple; [done| |done|done].
  intros f fr' Hf. exists fr'. split; [|done]. by apply lookup_app_l_Some.
Qed.

Lemma acks_update_frame f g :
  (∀ fr, same_channel fr (g fr)) → acks_ok bootstrapForkPath A (update_frame f g s0).
Proof.
  intros Hg.
  apply (acks_intro s0); [done| |acks_old|acks_old|acks_old|acks_entries H].
  apply grows_acked_simple; [done| |done|done].
  intros f' fr' Hf. simpl. destruct (decide (f = f')) as [->|Hne].
  - exists (g fr'). by rewrite list_lookup_alter_eq, Hf.
  - exists fr'. by rewrite list_lookup_alter_ne.
Qed.

(** An activation that opens its channel awaits no acknowledgment. *)
Lemma acks_set_channel f p1 p2 :
  KCreateWorker2 f ∉ conts s0 →
  acks_ok bootstrapForkPath A (update_frame f (set_channel p1 p2) s0).
Proof.
  intros Hno.
  apply (acks_intro s0); [done| |acks_old|acks_old|acks_old|acks_entries H].
  assert (∀ f', KCreateWorker2 f' ∈ conts s0 → ∀ fr, frames s0 !! f' = Some fr →
            ∃ fr', frames (update_frame f (set_channel p1 p2) s0) !! f' = Some fr' ∧
                   same_channel fr fr') as Hfr.
  { intros f' Hin fr Hf. assert (f ≠ f') as Hne by (by intros ->).
    exists fr. simpl. by rewrite list_lookup_alter_ne. }
  split; [done|]. split.
  - intros f' Hin. apply settled_kept. by apply Hfr.
  - intros f' i Hin Ha. left. revert Ha. apply awaitingAck_kept; [by apply Hfr|done|done].
Qed.

Lemma acks_push_promise :
  acks_ok bootstrapForkPath A (set_promises (promises s0 ++ [Pending []]) s0).
Proof.
  apply (acks_intro s0); [done| |acks_old| |acks_old|].
  - apply grows_acked_simple; [|intros ? fr ?; by exists fr|done|done].
    intros f r (ks & Hp & Hk). simpl in Hp.
    apply lookup_snoc_Some in Hp as [[_ Hp]|[_ [= <-]]]; [by exists ks|].
    by apply not_elem_of_nil in Hk.
  - intros p ks. simpl. intros Hp.
    apply lookup_snoc_Some in Hp as [[_ Hp]|[_ [= <-]]]; [by right|].
    left. by apply Forall_nil.
  - apply (entries_kept _ _ H); [done| |].
    + intros r ks Hr. right. exists ks. simpl. by apply lookup_app_l_Some.
    + intros k Hk. left.
      change (k ∈ conts (newPromise s0).2) in Hk. by rewrite conts_newPromise in Hk.
Qed.

Lemma acks_push_webWorker type :
  acks_ok bootstrapForkPath A (set_webWorkers (webWorkers s0 ++
    [{| wtype := type; workerReady := ReadyPending [];
        mapMessageNonceToMessageResolve := ∅ |}]) s0).
Proof.
  set (s1 := set_webWorkers _ s0).
  assert (∀ w n r, pendingEntry s1 w n = Some r → pendingEntry s0 w n = Some r) as Hen.
  { intros w n r. unfold pendingEntry. simpl. intros He.
    destruct ((webWorkers s0 ++ _) !! w) as [ww|] eqn:Hw; [|done].
    apply lookup_snoc_Some in Hw as [[_ Hw]|[_ <-]]; [by rewrite Hw|].
    simpl in He. by rewrite lookup_empty in He. }
  apply (acks_intro s0); [done| |acks_old|acks_old| |].
  - apply grows_acked_simple; [done|intros ? fr ?; by exists fr|done|].
    intros w n r. unfold pendingEntry. simpl. intros He.
    destruct (webWorkers s0 !! w) as [ww|] eqn:Hw; [|done].
    by rewrite (lookup_app_l_Some _ _ _ _ Hw).
  - intros w ww ks. simpl. intros Hw Hks.
    apply lookup_snoc_Some in Hw as [[_ Hw]|[_ <-]]; [right; eauto|].
    simpl in Hks. injection Hks as <-. left. by apply Forall_nil.
  - apply (entries_kept _ _ H); [done|intros; right; by eauto|].
    intros k Hk. left. revert Hk. unfold conts. simpl.
    by rewrite bind_app, app_nil_r.
Qed.
End AckUpdates.
End Acks.

Ltac acks_old := intros; right; by eauto.

Lemma pendingEntry_set_workerReady s w x w' n :
  pendingEntry (update_webWorker w (set_workerReady x) s) w' n = pendingEntry s w' n.
Proof.
  rewrite pendingEntry_update. unfold pendingEntry.
  destruct (webWorkers s !! w') as [ww|]; [|done]. simpl. by destruct (decide (w = w')).
Qed.

Section AckPromises.
Variable A : ISharedProcessWorkerConfiguration → nat → Prop.
Variable s0 : State.
Hypothesis H : acks_ok bootstrapForkPath A s0.

Lemma reaction_acked_grows s' i k :
  grows_acked bootstrapForkPath A s0 s' →
  reaction_acked bootstrapForkPath A s0 i k → reaction_acked bootstrapForkPath A s' i k.
Proof.
  intros (Hack & Hset & Haw).
  destruct k as [this r|this m tok port r|f|f|r i'|r]; simpl; try done.
  intros Hold f Ha%Hack. pose proof (ackOf_conts _ _ _ Ha) as Hin.
  destruct (Hold f Ha) as [Hs|Hs]; [left; by apply Hset|].
  destruct (Haw f i Hin Hs); auto.
Qed.

(** Settling a promise that is not the one of a pending entry. *)
Lemma acks_resolvePromise p v :
  sends_ok bootstrapForkPath s0 → untargeted s0 (KFulfill p) →
  (∀ f, ackOf s0 f p → settled A s0 f) →
  acks_ok bootstrapForkPath A (resolvePromise p v s0).
Proof.
  intros Hs Hun Hex.
  pose proof (conts_resolvePromise p v s0) as Hc. revert Hc. unfold resolvePromise.
  destruct (promises s0 !! p) as [[ks|v']|] eqn:Hp; try done. intros Hc.
  set (s1 := enqueue _ _) in *.
  assert (∀ f r, ackOf s1 f r → ackOf s0 f r) as Hack.
  { intros f r. apply ackOf_insert_fulfilled. }
  apply (acks_intro A s0); [done| | | |acks_old|].
  - apply grows_acked_simple; [done|intros ? fr ?; by exists fr|done|done].
  - intros j. unfold s1. simpl. intros [Hj|Hj]%elem_of_app; [by right|]. left.
    apply list_elem_of_fmap in Hj as (k & -> & Hk).
    destruct (proj1 (Forall_forall _ _) (sent_reactions _ _ Hs _ _ Hp) k Hk) as [_ Hx].
    pose proof (proj1 (Forall_forall _ _) (acked_reactions _ _ _ H _ _ Hp) k Hk) as Hr.
    destruct k as [this r|this m tok port r|f|f|r i|r]; try done.
    + apply Hex. by exists ks.
    + simpl in Hr |- *. intros f Ha%Hack.
      destruct (Hr f Ha) as [?|(fr & q & w & n & _ & _ & _ & Hen)]; [done|].
      by destruct (Hun w n p Hen).
  - intros i ks'. unfold s1. simpl. intros Hi. right.
    destruct (decide (p = i)) as [->|Hne].
    + by rewrite list_lookup_insert_eq in Hi by (by eapply lookup_lt_Some).
    + by rewrite list_lookup_insert_ne in Hi.
  - apply (entries_kept A _ _ H); [done| |].
    + intros r ks' Hr. destruct (decide (p = r)) as [->|Hne]; [by left|right].
      exists ks'. unfold s1. simpl. by rewrite list_lookup_insert_ne.
    + intros k Hk. left. by rewrite Hc in Hk.
Qed.

(** [await] of a promise by the start of [createWorker] or by the
    forwarding job. *)
Lemma acks_await p k :
  reaction_acked bootstrapForkPath A s0 p k → untargeted s0 k →
  match k with KCreateWorker1 _ | KFulfill _ => True | _ => False end →
  acks_ok bootstrapForkPath A (await p k s0).
Proof.
  intros Hk Hun Hshape.
  pose proof (conts_await p k s0) as Hc. revert Hc. unfold await.
  destruct (promises s0 !! p) as [[ks|v']|] eqn:Hp; try done; intros Hc.
  - set (s1 := set_promises _ s0) in *.
    assert (grows_acked bootstrapForkPath A s0 s1) as G.
    { apply grows_acked_simple; [|intros ? fr ?; by exists fr|done|done].
      intros f r (ks' & Hp' & Hk'). unfold s1 in Hp'. simpl in Hp'.
      destruct (decide (p = r)) as [->|Hpr].
      - rewrite list_lookup_insert_eq in Hp' by (by eapply lookup_lt_Some).
        injection Hp' as <-. exists ks. split; [done|].
        apply elem_of_app in Hk' as [?|Hk']; [done|].
        apply list_elem_of_singleton in Hk'. by rewrite <- Hk' in Hshape.
      - rewrite list_lookup_insert_ne in Hp' by done. by exists ks'. }
    apply (acks_intro A s0); [done|done|acks_old| |acks_old|].
    + intros i ks'. unfold s1. simpl. intros Hi.
      destruct (decide (p = i)) as [->|Hne].
      * rewrite list_lookup_insert_eq in Hi by (by eapply lookup_lt_Some).
        injection Hi as <-. left. apply Forall_app. split.
        -- eapply Forall_impl; [by apply (acked_reactions _ _ _ H _ _ Hp)|].
           intros k'. by apply reaction_acked_grows.
        -- apply Forall_singleton. by apply reaction_acked_grows.
      * rewrite list_lookup_insert_ne in Hi by done. by right.
    + apply (entries_kept A _ _ H); [done| |].
      * intros r ks' Hr. right. unfold s1. simpl.
        destruct (decide (p = r)) as [->|Hne].
        -- rewrite list_lookup_insert_eq by (by eapply lookup_lt_Some). eauto.
        -- rewrite list_lookup_insert_ne by done. eauto.
      * intros k' Hk'. apply (elem_of_submseteq _ _ _ Hk') in Hc.
        apply elem_of_cons in Hc as [->|?]; [by right|by left].
  - apply acks_enqueue; [done|]. apply Forall_singleton. split; [|done].
    destruct k as [this r|this m tok port r|f|f|r i|r]; try done.
    simpl in Hk |- *. intros f Ha.
    destruct (Hk f Ha) as [?|(fr & q & w & n & _ & _ & _ & Hen)]; [done|].
    destruct (acked_entries _ _ _ H _ _ _ Hen) as [[ks Hks] _]. congruence.
Qed.

(** The end of [createWorker] starts to await the promise of its [spawn]
    call. *)
Lemma acks_await_ack p f :
  promises s0 !! p = Some (Pending []) →
  (∀ k, k ∈ conts s0 → target k = Some p →
        ∃ this m port, k = KSend this m (TokenOf f) port p) →
  acks_ok bootstrapForkPath A (await p (KCreateWorker2 f) s0).
Proof.
  intros Hp Hres.
  pose proof (conts_await p (KCreateWorker2 f) s0) as Hc. revert Hc. unfold await.
  rewrite Hp. simpl. intros Hc.
  set (s1 := set_promises _ s0) in *.
  assert (∀ f' r, ackOf s1 f' r → ackOf s0 f' r ∨ r = p) as Hack.
  { intros f' r (ks' & Hp' & Hk'). unfold s1 in Hp'. simpl in Hp'.
    destruct (decide (p = r)) as [->|Hpr]; [by right|].
    rewrite list_lookup_insert_ne in Hp' by done. left. by exists ks'. }
  assert (∀ k r, k ∈ conts s0 → target k = Some r →
            match k with KSend _ _ _ _ _ => False | _ => True end →
            ∀ f', ackOf s1 f' r → ackOf s0 f' r) as Hold.
  { intros k r Hin Ht Hshape f' [?| ->]%Hack; [done|].
    destruct (Hres k Hin Ht) as (? & ? & ? & ->). done. }
  destruct H as [Hj Hr Hw He]. split.
  - apply Forall_forall. intros j Hin.
    pose proof (proj1 (Forall_forall _ _) Hj j Hin) as Hx.
    pose proof (elem_of_conts_job s0 j Hin) as Hk.
    destruct j as [[this r|this m tok port r|f'|f'|r i|r] v]; simpl in *; try done.
    + intros f' Ha. apply Hx. by eapply Hold.
    + intros f' Ha. apply Hx. by eapply Hold.
  - intros i ks. unfold s1. simpl. intros Hi.
    destruct (decide (p = i)) as [->|Hne].
    + rewrite list_lookup_insert_eq in Hi by (by eapply lookup_lt_Some).
      injection Hi as <-. by apply Forall_singleton.
    + rewrite list_lookup_insert_ne in Hi by done.
      apply Forall_forall. intros k Hk.
      pose proof (proj1 (Forall_forall _ _) (Hr i ks Hi) k Hk) as Hx.
      pose proof (elem_of_conts_reaction s0 i ks k Hi Hk) as Hin.
      destruct k as [this r|this m tok port r|f'|f'|r i'|r]; simpl in *; try done.
      intros f' Ha. apply Hx. by eapply Hold.
  - done.
  - intros w n r Hen. destruct (He w n r Hen) as [[ks Hks] Hno]. split.
    + unfold s1. simpl. destruct (decide (p = r)) as [->|Hne].
      * rewrite list_lookup_insert_eq by (by eapply lookup_lt_Some). eauto.
      * rewrite list_lookup_insert_ne by done. eauto.
    + intros k Hk. apply (elem_of_submseteq _ _ _ Hk) in Hc.
      apply elem_of_cons in Hc as [->|?]; [done|by apply Hno].
Qed.

Lemma acks_awaitReady w k :
  waiter_acked w k → untargeted s0 k →
  match k with KInit _ _ | KSend _ _ _ _ _ => True | _ => False end →
  acks_ok bootstrapForkPath A (awaitReady w k s0).
Proof.
  intros Hk Hun Hshape.
  pose proof (conts_awaitReady w k s0) as Hc. revert Hc. unfold awaitReady.
  destruct (webWorkers s0 !! w) as [ww|] eqn:Hw; [|done].
  destruct (workerReady ww) as [ks|] eqn:Hr; intros Hc.
  - set (s1 := update_webWorker _ _ s0) in *.
    assert (∀ w' n, pendingEntry s1 w' n = pendingEntry s0 w' n) as Hen.
    { intros w' n. apply pendingEntry_set_workerReady. }
    apply (acks_intro A s0); [done| |acks_old|acks_old| |].
    + apply grows_acked_simple; [done|intros ? fr ?; by exists fr|done|].
      intros w' n r. by rewrite Hen.
    + intros w' ww' ks'. unfold s1. simpl. intros Hw' Hks'.
      destruct (decide (w = w')) as [->|Hne].
      * rewrite list_lookup_alter_eq, Hw in Hw'. injection Hw' as <-.
        simpl in Hks'. injection Hks' as <-. left.
        apply Forall_app. split; [by eapply (acked_waiters _ _ _ H)|].
        by apply Forall_singleton.
      * rewrite list_lookup_alter_ne in Hw' by done. right. eauto.
    + apply (entries_kept A _ _ H).
      * intros w' n r. by rewrite Hen.
      * intros; right; by eauto.
      * intros k' Hk'. apply (elem_of_submseteq _ _ _ Hk') in Hc.
        apply elem_of_cons in Hc as [->|?]; [by right|by left].
  - apply acks_enqueue; [done|]. apply Forall_singleton. split; [|done].
    destruct k as [this r|this m tok port r|f|f|r i|r]; try done.
    simpl in Hk |- *. by rewrite Hk.
Qed.

Lemma acks_readyResolve w :
  sends_ok bootstrapForkPath s0 → acks_ok bootstrapForkPath A (readyResolve w s0).
Proof.
  intros Hs.
  pose proof (conts_readyResolve w s0) as Hc. revert Hc. unfold readyResolve.
  destruct (webWorkers s0 !! w) as [ww|] eqn:Hw; [|done].
  destruct (workerReady ww) as [ks|] eqn:Hr; [|done]. intros Hc.
  set (s1 := enqueue _ _) in *.
  assert (∀ w' n, pendingEntry s1 w' n = pendingEntry s0 w' n) as Hen.
  { intros w' n. apply pendingEntry_set_workerReady. }
  apply (acks_intro A s0); [done| | |acks_old| |].
  - apply grows_acked_simple; [done|intros ? fr ?; by exists fr|done|].
    intros w' n r. by rewrite Hen.
  - intros j. unfold s1. simpl. intros [Hj|Hj]%elem_of_app; [by right|]. left.
    apply list_elem_of_fmap in Hj as (k & -> & Hk).
    destruct (proj1 (Forall_forall _ _) (sent_waiters _ _ Hs _ _ _ Hw Hr) k Hk) as [_ Hx].
    pose proof (proj1 (Forall_forall _ _) (acked_waiters _ _ _ H _ _ _ Hw Hr) k Hk) as Hy.
    destruct k as [this r|this m tok port r|f|f|r i|r]; try done.
    simpl in Hy |- *. by rewrite Hy.
  - intros w' ww' ks'. unfold s1. simpl. intros Hw' Hks'.
    destruct (decide (w = w')) as [->|Hne].
    + rewrite list_lookup_alter_eq, Hw in Hw'. by injection Hw' as <-.
    + rewrite list_lookup_alter_ne in Hw' by done. right. eauto.
  - apply (entries_kept A _ _ H).
    + intros w' n r. by rewrite Hen.
    + intros; right; by eauto.
    + intros k Hk. left. by rewrite Hc in Hk.
Qed.

(** [send] records a fresh promise under a fresh nonce. *)
Lemma acks_insert_entry this n r :
  (∃ ks, promises s0 !! r = Some (Pending ks)) → untargeted s0 (KFulfill r) →
  (∀ k, k ∈ conts s0 → target k ≠ Some r) →
  (∀ w, pendingEntry s0 w n = None) →
  acks_ok bootstrapForkPath A
    (update_webWorker this
       (λ ww, set_map (<[n := r]> (mapMessageNonceToMessageResolve ww)) ww) s0).
Proof.
  intros Hr Hun Hno Hfresh.
  set (s1 := update_webWorker _ _ s0).
  assert (∀ w n' r', pendingEntry s1 w n' = Some r' →
            pendingEntry s0 w n' = Some r' ∨ r' = r) as Hen.
  { intros w n' r'. unfold s1. rewrite pendingEntry_update. unfold pendingEntry.
    destruct (webWorkers s0 !! w) as [ww|]; [|done]. simpl.
    destruct (decide (this = w)) as [->|Hne]; [|by left]. simpl.
    destruct (decide (n = n')) as [->|Hnn].
    - rewrite lookup_insert_eq. intros [= <-]. by right.
    - rewrite lookup_insert_ne by done. by left. }
  assert (conts s1 = conts s0) as Hc.
  { unfold s1, conts. simpl. by rewrite bind_alter_same. }
  apply (acks_intro A s0); [done| |acks_old|acks_old| |].
  - apply grows_acked_simple; [done|intros ? fr ?; by exists fr|done|].
    intros w n' r' He. unfold s1. rewrite pendingEntry_update.
    unfold pendingEntry in He |- *.
    destruct (webWorkers s0 !! w) as [ww|] eqn:Hw; [|done]. simpl in *.
    destruct (decide (this = w)) as [->|Hne]; [|done]. simpl.
    destruct (decide (n = n')) as [->|Hnn]; [|by rewrite lookup_insert_ne].
    specialize (Hfresh w). unfold pendingEntry in Hfresh. rewrite Hw in Hfresh.
    simpl in Hfresh. congruence.
  - intros w ww ks. unfold s1. simpl. intros Hw Hks. right.
    destruct (decide (this = w)) as [->|Hne].
    + rewrite list_lookup_alter_eq in Hw.
      destruct (webWorkers s0 !! w) as [ww0|]; [|done]. injection Hw as <-. eauto.
    + rewrite list_lookup_alter_ne in Hw by done. eauto.
  - intros w n' r' [He| ->]%Hen.
    + destruct (acked_entries _ _ _ H _ _ _ He) as [Hp Hk]. split; [done|].
      by rewrite Hc.
    + split; [done|]. by rewrite Hc.
Qed.
End AckPromises.

Section AckMethods.
Variable A : ISharedProcessWorkerConfiguration → nat → Prop.

Lemma untargeted_fresh s k :
  sends_ok bootstrapForkPath s → target k = Some (length (promises s)) →
  untargeted (newPromise s).2 k.
Proof.
  intros Hs Ht w n r Hen. change (pendingEntry s w n = Some r) in Hen.
  destruct (sent_entries _ _ Hs _ _ _ Hen) as [Hlt _]. rewrite Ht. intros [= <-]. lia.
Qed.

Lemma acks_send s0 this m token port :
  acks_ok bootstrapForkPath A s0 → sends_ok bootstrapForkPath s0 →
  acks_ok bootstrapForkPath A (send this m token port s0).2.
Proof.
  intros H Hs. unfold send. simpl.
  apply acks_awaitReady; [by apply acks_push_promise|done| |done].
  by apply (untargeted_fresh s0).
Qed.

Lemma acks_init s0 this :
  acks_ok bootstrapForkPath A s0 → sends_ok bootstrapForkPath s0 →
  acks_ok bootstrapForkPath A (init this s0).2.
Proof.
  intros H Hs. unfold init. simpl.
  apply acks_awaitReady; [by apply acks_push_promise|done| |done].
  by apply (untargeted_fresh s0).
Qed.

Lemma acks_newSharedProcessWebWorker s0 type :
  acks_ok bootstrapForkPath A s0 →
  acks_ok bootstrapForkPath A (newSharedProcessWebWorker type s0).2.
Proof.
  intros H. unfold newSharedProcessWebWorker, doInit. simpl.
  apply acks_emit, acks_emit. by apply acks_push_webWorker.
Qed.

Lemma acks_getOrCreateWebWorker s0 cfg :
  acks_ok bootstrapForkPath A s0 → sends_ok bootstrapForkPath s0 →
  acks_ok bootstrapForkPath A (getOrCreateWebWorker cfg s0).2.
Proof.
  intros H Hs. unfold getOrCreateWebWorker.
  destruct (workers s0 !! _); [done|]. cbn zeta.
  set (s0' := logService _ _ s0).
  assert (acks_ok bootstrapForkPath A s0') as H0 by (by apply acks_emit).
  assert (sends_ok bootstrapForkPath s0') as Hs0 by (by apply sends_emit).
  pose proof (acks_newSharedProcessWebWorker s0' (type (process cfg)) H0) as H1.
  pose proof (sends_newSharedProcessWebWorker s0' (type (process cfg)) Hs0) as Hs1.
  destruct (newSharedProcessWebWorker _ s0') as [w s1]. simpl in H1, Hs1.
  pose proof (acks_init s1 w H1 Hs1) as H2.
  destruct (init w s1) as [p s2]. simpl in H2 |- *.
  by apply (acks_same A s2).
Qed.

Lemma acks_dispose s0 f :
  acks_ok bootstrapForkPath A s0 → sends_ok bootstrapForkPath s0 →
  acks_ok bootstrapForkPath A (dispose hash f s0).
Proof.
  intros H Hs. unfold dispose. destruct (frames s0 !! f) as [fr|] eqn:Hf; [|done].
  set (U := update_frame f (set_cts true) s0).
  assert (acks_ok bootstrapForkPath A U) as HU.
  { apply acks_update_frame; [done|]. intros fr'. apply same_channel_set_cts. }
  assert (sends_ok bootstrapForkPath U) as HsU.
  { apply sends_update_frame; [done|]. intros fr'. apply same_channel_set_cts. }
  set (T := match worker fr with
            | Some w => (terminate w (configuration fr) TokenNone U).2
            | None => U
            end).
  assert (acks_ok bootstrapForkPath A T) as HT.
  { unfold T. destruct (worker fr) as [w|]; [|done]. unfold terminate.
    by apply acks_send. }
  set (N := match windowPort fr with Some p => emit (EvPortClose p) T | None => T end).
  assert (acks_ok bootstrapForkPath A N) as HN.
  { unfold N. destruct (windowPort fr); [|done]. by apply acks_emit. }
  set (W := match workerPort fr with Some p => emit (EvPortClose p) N | None => N end).
  assert (acks_ok bootstrapForkPath A W) as HW.
  { unfold W. destruct (workerPort fr); [|done]. by apply acks_emit. }
  by apply (acks_same A W).
Qed.

Lemma acks_disposeWorker s0 cfg :
  acks_ok bootstrapForkPath A s0 → sends_ok bootstrapForkPath s0 →
  acks_ok bootstrapForkPath A (disposeWorker hash cfg s0).
Proof.
  intros H Hs. unfold disposeWorker. destruct (processes s0 !! _); [|done].
  apply acks_dispose; [by apply acks_emit|by apply sends_emit].
Qed.

Lemma acks_createWorker s0 cfg :
  acks_ok bootstrapForkPath A s0 → sends_ok bootstrapForkPath s0 →
  acks_ok bootstrapForkPath A (createWorker hash cfg s0).
Proof.
  intros H Hs. unfold createWorker. cbn zeta.
  set (s1 := disposeWorker hash cfg _).
  set (s2 := set_processes _ _).
  assert (acks_ok bootstrapForkPath A s1) as H1.
  { apply acks_disposeWorker; [by apply acks_emit|by apply sends_emit]. }
  assert (sends_ok bootstrapForkPath s1) as Hs1.
  { apply sends_disposeWorker. by apply sends_emit. }
  assert (acks_ok bootstrapForkPath A s2) as H2.
  { unfold s2.
    match goal with |- acks_ok _ _ (set_processes _ ?X) =>
      apply (acks_same A X); try done end.
    by apply acks_push_frame. }
  assert (sends_ok bootstrapForkPath s2) as Hs2.
  { unfold s2.
    match goal with |- sends_ok _ (set_processes _ ?X) => apply (sends_same X); try done end.
    by apply sends_push_frame. }
  pose proof (acks_getOrCreateWebWorker s2 cfg H2 Hs2) as H3.
  destruct (getOrCreateWebWorker cfg s2) as [p s3]. simpl in H3.
  by apply acks_await.
Qed.

Lemma acks_createWorker_return s0 f :
  acks_ok bootstrapForkPath A s0 → acks_ok bootstrapForkPath A (createWorker_return f s0).
Proof.
  intros H. apply acks_update_frame; [done|]. intros fr. apply same_channel_set_returned.
Qed.

Lemma acks_createWorker_resume2 s0 f :
  acks_ok bootstrapForkPath A s0 → acks_ok bootstrapForkPath A (createWorker_resume2 f s0).
Proof.
  intros H. unfold createWorker_resume2.
  destruct (isCancellationRequested _ _); [by apply acks_createWorker_return|].
  destruct (frames s0 !! f); [|done].
  apply acks_createWorker_return, acks_emit. by apply acks_emit.
Qed.

Lemma acks_init_resume s0 this ret :
  acks_ok bootstrapForkPath A s0 → sends_ok bootstrapForkPath s0 →
  cont_sent bootstrapForkPath s0 (KInit this ret) → untargeted s0 (KInit this ret) →
  acks_ok bootstrapForkPath A (init_resume this ret s0).
Proof.
  intros H Hs [_ Hno] Hun. apply acks_resolvePromise; [done|done|done|].
  intros f Ha. by destruct (Hno f).
Qed.

(** The Ack handler: the spawn messages posted under the nonce of the Ack
    are acknowledged from now on. *)
Lemma acks_onAck s0 this nonce :
  acks_ok bootstrapForkPath A s0 → sends_ok bootstrapForkPath s0 → correlations_ok s0 →
  (∀ n cfg q, nonce = Some n → spawnPost bootstrapForkPath this cfg n q ∈ trace s0 →
              A cfg q) →
  acks_ok bootstrapForkPath A (onAck this nonce s0).
Proof.
  intros H Hs Hco HA. unfold onAck. destruct (truthy nonce); [|done].
  destruct nonce as [n|]; [|done].
  destruct (webWorkers s0 !! this) as [ww|] eqn:Hw; [|done].
  destruct (mapMessageNonceToMessageResolve ww !! n) as [r|] eqn:Hn; [|done].
  assert (pendingEntry s0 this n = Some r) as Hen.
  { unfold pendingEntry. by rewrite Hw. }
  destruct (sent_entries _ _ Hs _ _ _ Hen) as [Hlt Hno].
  destruct Hco as (Hco & _ & _). destruct (Hco _ _ _ Hen) as (_ & _ & _ & Huniq).
  set (s2 := emit _ _).
  assert (∀ w n' r', pendingEntry s2 w n' = Some r' →
            pendingEntry s0 w n' = Some r' ∧ (w, n') ≠ (this, n)) as Hsub.
  { intros w n' r'. unfold s2.
    change (pendingEntry (emit _ ?x) w n') with (pendingEntry x w n').
    rewrite pendingEntry_update. unfold pendingEntry.
    destruct (webWorkers s0 !! w) as [ww'|] eqn:Hw'; [|done]. simpl.
    destruct (decide (this = w)) as [<-|Hne].
    - simpl. destruct (decide (n = n')) as [<-|Hnn].
      + by rewrite lookup_delete_eq.
      + rewrite lookup_delete_ne by done. intros He. split; [done|congruence].
    - intros He. split; [done|congruence]. }
  assert (∀ w n' r', pendingEntry s0 w n' = Some r' → (w, n') ≠ (this, n) →
            pendingEntry s2 w n' = Some r') as Hsup.
  { intros w n' r' He Hne. unfold s2.
    change (pendingEntry (emit _ ?x) w n') with (pendingEntry x w n').
    rewrite pendingEntry_update. unfold pendingEntry in He |- *.
    destruct (webWorkers s0 !! w) as [ww'|] eqn:Hw'; [|done]. simpl in *.
    destruct (decide (this = w)) as [<-|Hnw]; [|done]. simpl.
    rewrite lookup_delete_ne; [done|]. intros <-. by destruct Hne. }
  assert (conts s2 = conts s0) as Hc.
  { unfold s2, conts. simpl. by rewrite bind_alter_same. }
  assert (acks_ok bootstrapForkPath A s2) as H2.
  { apply (acks_intro A s0); [done| |acks_old|acks_old| |].
    - split; [done|]. split.
      + intros f _. apply settled_kept. intros fr Hf. by exists fr.
      + intros f i _ (fr & q & w & n' & Hf & Hq & He & Hp).
        destruct (decide ((w, n') = (this, n))) as [[= -> ->]|Hne].
        * right. right. exists fr, q. split; [done|]. split; [done|]. by eapply HA.
        * left. exists fr, q, w, n'. split; [done|]. split; [done|].
          split; [|by apply Hsup]. unfold s2. simpl. apply elem_of_app. by left.
    - intros w ww' ks. unfold s2. simpl. intros Hw' Hks. right.
      destruct (decide (this = w)) as [<-|Hne].
      + rewrite list_lookup_alter_eq, Hw in Hw'. injection Hw' as <-. eauto.
      + rewrite list_lookup_alter_ne in Hw' by done. eauto.
    - apply (entries_kept A _ _ H).
      + intros w n' r' He. by apply Hsub in He as [? _].
      + intros; right; by eauto.
      + intros k. rewrite Hc. by left. }
  apply acks_resolvePromise; [done| | |].
  - unfold s2. apply sends_emit; [|done]. apply sends_update_table; [done|done|].
    intros ww' n' r'. simpl. intros Hl. left.
    destruct (decide (n = n')) as [->|Hne].
    + by rewrite lookup_delete_eq in Hl.
    + by rewrite lookup_delete_ne in Hl.
  - intros w n' r' He [= <-]. apply Hsub in He as [He Hne].
    destruct (Huniq _ _ He) as [-> ->]. done.
  - intros f Ha. by destruct (Hno f).
Qed.

Lemma acks_onmessage s0 this data :
  acks_ok bootstrapForkPath A s0 → sends_ok bootstrapForkPath s0 → correlations_ok s0 →
  (FromWorker.id data = WorkerAck →
   ∀ n cfg q, FromWorker.nonce data = Some n →
              spawnPost bootstrapForkPath this cfg n q ∈ trace s0 → A cfg q) →
  acks_ok bootstrapForkPath A (onmessage this data s0).
Proof.
  intros H Hs Hco HA. unfold onmessage. destruct (webWorkers s0 !! this); [|done].
  destruct (FromWorker.id data); try (by apply acks_emit).
  - by apply acks_readyResolve.
  - apply acks_onAck; try done. by apply HA.
  - destruct (truthy _); [by apply acks_emit|done].
Qed.

Lemma acks_mono A' s :
  (∀ cfg q, A cfg q → A' cfg q) →
  acks_ok bootstrapForkPath A s → acks_ok bootstrapForkPath A' s.
Proof.
  intros HA [Hj Hr Hw He].
  assert (∀ f, settled A s f → settled A' s f) as Hset.
  { intros f [?|(fr & q & ? & ? & ?)]; [by left|right]. exists fr, q. auto. }
  split; [| |done|done].
  - eapply Forall_impl; [done|].
    intros [[this r|this m tok port r|f|f|r i|r] v]; simpl; try done.
    + by apply Hset.
    + intros Hold f Ha. destruct (Hold f Ha); auto.
    + intros Hold f Ha. auto.
  - intros i ks Hp. eapply Forall_impl; [by apply Hr|].
    intros [this r|this m tok port r|f|f|r i'|r]; simpl; try done.
    intros Hold f Ha. destruct (Hold f Ha); auto.
Qed.
End AckMethods.

Section AckJobs.
Variable A : ISharedProcessWorkerConfiguration → nat → Prop.

(** The rest of [send]: the message goes out under a fresh nonce, and the
    promise recorded under it is the one the result is forwarded from. *)
Lemma acks_send_resume s0 this m token port ret v :
  acks_ok bootstrapForkPath A s0 → sends_ok bootstrapForkPath s0 → correlations_ok s0 →
  is_Some (webWorkers s0 !! this) →
  cont_sent bootstrapForkPath s0 (KSend this m token port ret) →
  cont_chan bootstrapForkPath s0 (KSend this m token port ret) →
  untargeted s0 (KSend this m token port ret) → v = Some this →
  acks_ok bootstrapForkPath A (send_resume this m token port ret v s0).
Proof.
  intros H Hs Hco [ww Hww] [Hr Hk] Hch Hun ->. unfold send_resume.
  destruct (isCancellationRequested token s0) eqn:Hc.
  { apply acks_resolvePromise; [done|done| |].
    - intros w n r He. exact (Hun w n r He).
    - intros f Ha. destruct token as [|f']; [done|]. rewrite (Hk f Ha). by left. }
  cbn zeta. simpl.
  set (X := update_webWorker this _ _).
  set (n := generateUuid (uuids s0)).
  set (inner := length (promises s0)) in *.
  assert (∀ w, pendingEntry s0 w n = None) as Hfresh.
  { intros w. destruct (pendingEntry s0 w n) as [r|] eqn:He; [|done].
    destruct Hco as (Hco & _). destruct (Hco _ _ _ He) as ((i & Hi & Heq) & _).
    apply generateUuid_inj in Heq. lia. }
  assert (∀ w n' r, pendingEntry X w n' = Some r →
            pendingEntry s0 w n' = Some r ∨ r = inner) as HenX.
  { intros w n' r. unfold X. rewrite pendingEntry_update. unfold pendingEntry. simpl.
    destruct (webWorkers s0 !! w) as [ww'|]; [|done]. simpl.
    destruct (decide (this = w)) as [->|Hne]; [|by left]. simpl.
    destruct (decide (n = n')) as [<-|Hnn].
    - rewrite lookup_insert_eq. intros [= <-]. by right.
    - rewrite lookup_insert_ne by done. by left. }
  assert (pendingEntry X this n = Some inner) as Hnew.
  { unfold X. rewrite pendingEntry_update. simpl. rewrite Hww. simpl.
    destruct (decide (this = this)); [|done]. simpl. apply lookup_insert_eq. }
  assert (acks_ok bootstrapForkPath A X) as HX.
  { unfold X. apply acks_insert_entry.
    - match goal with |- acks_ok _ _ (set_uuids _ ?Y) =>
        apply (acks_same A Y); try done end.
      by apply acks_push_promise.
    - exists []. simpl. by rewrite lookup_app_r, Nat.sub_diag by lia.
    - intros w n' r He. change (pendingEntry s0 w n' = Some r) in He.
      destruct (sent_entries _ _ Hs _ _ _ He) as [Hlt _]. simpl. intros [= <-].
      unfold inner in Hlt. lia.
    - intros k' Hin Ht.
      change (k' ∈ conts (newPromise s0).2) in Hin. rewrite conts_newPromise in Hin.
      pose proof (target_bound s0 k' _ (sent_conts s0 k' Hs Hin) Ht) as Hlt.
      unfold inner in Hlt. lia.
    - intros w. apply Hfresh. }
  assert (∀ f, ackOf X f ret → ackOf s0 f ret) as Hack.
  { intros f (ks & Hp & Hin). exists ks. split; [|done].
    unfold X in Hp. simpl in Hp. by rewrite lookup_app_l in Hp. }
  apply acks_enqueue; [by apply acks_emit|].
  apply Forall_singleton. split.
  - simpl. intros f Ha%Hack. destruct token as [|f'].
    + destruct Hk as [Hno _]. by destruct (Hno f).
    + rewrite (Hk f Ha). simpl in Hch. destruct Hch as (fr & q & Hf & Hw & -> & ->).
      right. exists fr, q, this, n. split; [done|]. split; [done|]. split; [|done].
      simpl. apply elem_of_app. right. by apply list_elem_of_singleton.
  - intros w n' r He. change (pendingEntry X w n' = Some r) in He. simpl.
    apply HenX in He as [He| ->].
    + exact (Hun w n' r He).
    + intros [= Heq]. unfold inner in Heq. lia.
Qed.

(** The middle of [createWorker]. *)
Lemma acks_createWorker_resume1 s0 f v :
  acks_ok bootstrapForkPath A s0 → sends_ok bootstrapForkPath s0 →
  KCreateWorker2 f ∉ conts s0 →
  acks_ok bootstrapForkPath A (createWorker_resume1 bootstrapForkPath f v s0).
Proof.
  intros H Hs Hno. unfold createWorker_resume1.
  set (s1 := update_frame f (set_worker v) s0).
  assert (acks_ok bootstrapForkPath A s1) as H1.
  { apply acks_update_frame; [done|]. intros fr. apply same_channel_set_worker. }
  assert (sends_ok bootstrapForkPath s1) as Hs1.
  { apply sends_update_frame; [done|]. intros fr. apply same_channel_set_worker. }
  destruct (isCancellationRequested (TokenOf f) s1).
  { by apply acks_createWorker_return. }
  destruct (frames s1 !! f) as [fr|]; [|done].
  destruct v as [w|]; [|done].
  cbn zeta.
  set (s3 := update_frame f _ _).
  assert (acks_ok bootstrapForkPath A s3) as H3.
  { unfold s3. apply acks_set_channel; [|done]. apply acks_emit.
    by apply (acks_same A s1). }
  assert (sends_ok bootstrapForkPath s3) as Hs3.
  { unfold s3. apply sends_set_channel; [|done]. apply sends_emit; [|done].
    by apply (sends_same s1). }
  pose proof (acks_send A s3 w (spawnMessageOf bootstrapForkPath (configuration fr))
                (TokenOf f) (Some (S (ports s1))) H3 Hs3) as H4.
  unfold spawn.
  change {| ToWorker.id := WorkerSpawn; ToWorker.configuration := configuration fr;
            ToWorker.environment := Some {| bootstrapPath := bootstrapForkPath |};
            ToWorker.nonce := None |}
    with (spawnMessageOf bootstrapForkPath (configuration fr)).
  destruct (send w _ (TokenOf f) _ s3) as [ackp s4] eqn:Hsd.
  simpl in H4. unfold send in Hsd. simpl in Hsd. injection Hsd as <- <-.
  set (k := KSend w _ (TokenOf f) _ _) in *.
  set (s3' := set_promises _ s3) in *.
  set (s4 := awaitReady w k s3') in *.
  destruct (awaitReady_same w k s3') as (_ & _ & _ & _ & Hp4). fold s4 in Hp4.
  assert (promises s4 !! length (promises s0) = Some (Pending [])) as Hacked.
  { rewrite Hp4. unfold s3'. simpl. by rewrite lookup_app_r, Nat.sub_diag by lia. }
  apply acks_await_ack; [done|done|].
  intros k' Hin Ht.
  pose proof (conts_awaitReady w k s3') as Hsub. fold s4 in Hsub.
  apply (elem_of_submseteq _ _ _ Hin) in Hsub.
  apply elem_of_cons in Hsub as [->|Hold]; [by eexists _, _, _|].
  change (conts s3') with (conts (newPromise s3).2) in Hold.
  rewrite (conts_newPromise s3) in Hold. change (conts s3) with (conts s0) in Hold.
  pose proof (target_bound s0 k' _ (sent_conts s0 k' Hs Hold) Ht) as Hlt.
  simpl in Hlt. lia.
Qed.

(** The invariant of the acknowledgments is kept by every input; an Ack
    message acknowledges the spawn messages posted under its nonce. *)
Lemma acks_ok_step s i :
  wf s → channels_ok bootstrapForkPath s → sends_ok bootstrapForkPath s →
  correlations_ok s → acks_ok bootstrapForkPath A s →
  (∀ w data n cfg q,
     i = OnMessage w data → FromWorker.id data = WorkerAck →
     FromWorker.nonce data = Some n →
     spawnPost bootstrapForkPath w cfg n q ∈ trace s → A cfg q) →
  acks_ok bootstrapForkPath A (step hash bootstrapForkPath s i).
Proof.
  intros Hwf Hch Hs Hco H HA. destruct i as [cfg|cfg|w data|w msg|w|]; simpl.
  - by apply acks_createWorker.
  - by apply acks_disposeWorker.
  - apply acks_onmessage; try done. intros Hid n cfg q Hn. by eapply HA.
  - unfold onerror. destruct (webWorkers s !! w); [by apply acks_emit|done].
  - unfold onmessageerror. destruct (webWorkers s !! w); [by apply acks_emit|done].
  - destruct (microtasks s) as [|[k v] rest] eqn:Hq; [done|].
    destruct (pop_facts s k v rest Hch Hq) as (Hch0 & Hk & _ & Hre).
    pose proof (sent_jobs _ _ Hs) as Hjobs. rewrite Hq in Hjobs.
    apply Forall_cons in Hjobs as [[Hc Hx] Hrest].
    pose proof (sends_set_microtasks s Hs rest Hrest) as Hs0.
    pose proof (acks_jobs_untargeted A s H) as Hall. rewrite Hq in Hall.
    apply Forall_cons in Hall as [[Hy Hun] Hrest'].
    pose proof (acks_set_microtasks A s H rest Hrest') as H0.
    pose proof (wf_jobs _ Hwf) as Hwj. rewrite Hq in Hwj.
    apply Forall_cons in Hwj as [(_ & Hv & _) _].
    set (s0 := set_microtasks rest s) in *.
    change (cont_sent bootstrapForkPath s0 k) in Hc.
    change (untargeted s0 k) in Hun. simpl in Hx, Hy, Hv.
    destruct k as [this ret|this m token port ret|f|f|outer inner|outer]; simpl.
    + by apply acks_init_resume.
    + apply acks_send_resume; try done.
      destruct (Hv this Hy) as (ww & Hww & _). by exists ww.
    + apply acks_createWorker_resume1; [done|done|]. intros Hin.
      assert (relaying f (KCreateWorker1 f) = true) as Hrl.
      { simpl. by apply bool_decide_eq_true. }
      destruct (Hre f Hrl) as [Hz _].
      pose proof (cnt_zero _ _ _ Hz Hin) as Hf. simpl in Hf.
      by apply bool_decide_eq_false in Hf.
    + by apply acks_createWorker_resume2.
    + by apply acks_await.
    + apply acks_resolvePromise; [done|done|done|done].
Qed.
End AckJobs.

Lemma acks_ok_initial A : acks_ok bootstrapForkPath A initial.
Proof. by split. Qed.

Lemma ackedPort_snoc inputs i cfg q :
  ackedPort hash bootstrapForkPath inputs cfg q →
  ackedPort hash bootstrapForkPath (inputs ++ [i]) cfg q.
Proof.
  intros (pre & w & data & post & nonce & -> & Hid & Hn & Hin).
  exists pre, w, data, (post ++ [i]), nonce. by rewrite <- app_assoc.
Qed.

Lemma acks_ok_run inputs :
  acks_ok bootstrapForkPath (ackedPort hash bootstrapForkPath inputs)
    (run hash bootstrapForkPath initial inputs).
Proof.
  induction inputs as [|i inputs IH] using rev_ind; [apply acks_ok_initial|].
  rewrite run_snoc. apply acks_ok_step.
  - apply wf_run, wf_initial.
  - apply channels_ok_run.
  - apply sends_ok_run.
  - apply correlations_ok_run.
  - revert IH. apply acks_mono. intros cfg q. apply ackedPort_snoc.
  - intros w data n cfg q -> Hid Hn Hin.
    exists inputs, w, data, [], n. done.
Qed.

(** ** The relay and the acknowledgment *)

(** [createWorker] hands the window port of a channel to the main process
    only after the [Worker] acknowledged the spawn message that carried the
    other port of the channel: before the relay, an Ack message came from
    the web worker the spawn message of the same configuration was posted
    to, with the nonce of that message. *)
Theorem relay_after_ack inputs i channel cfg p :
  trace (run hash bootstrapForkPath initial inputs) !! i
    = Some (EvIpcPostMessage channel cfg [p]) →
  ∃ pre w data post nonce,
    inputs = pre ++ OnMessage w data :: post ∧
    FromWorker.id data = WorkerAck ∧ FromWorker.nonce data = Some nonce ∧
    EvPostMessage w
      (PostMessage (withNonce (spawnMessageOf bootstrapForkPath cfg) nonce)) [S p]
      ∈ trace (run hash bootstrapForkPath initial pre) ∧
    length (trace (run hash bootstrapForkPath initial (pre ++ [OnMessage w data]))) ≤ i.
Proof.
  revert i channel cfg p.
  change (relay_follows_ack hash bootstrapForkPath inputs
            (trace (run hash bootstrapForkPath initial inputs))).
  induction inputs as [|i inputs IH] using rev_ind.
  { intros idx channel cfg p Hl. done. }
  rewrite run_snoc.
  pose proof (channels_ok_run inputs) as Hch.
  pose proof (acks_ok_run inputs) as H.
  set (s := run hash bootstrapForkPath initial inputs) in *.
  destruct (step_kinds s i) as (evs & Ht & Hevs).
  intros idx channel cfg p Hl. rewrite Ht in Hl.
  apply lookup_app_Some in Hl as [Hl|[Hge Hl]].
  { destruct (IH _ _ _ _ Hl) as (pre & w & data & post & nonce & -> & Hrest).
    exists pre, w, data, (post ++ [i]), nonce. by rewrite <- app_assoc. }
  pose proof (proj1 (Forall_forall _ _) Hevs _ (list_elem_of_lookup_2 _ _ _ Hl)) as Hk.
  simpl in Hk. destruct i as [c|c|w d|w d|w|]; try done. simpl in Hk, Ht.
  destruct (microtasks s) as [|[k v] rest] eqn:Hq; [done|].
  destruct k as [this ret|this m token port ret|f|f|outer inner|outer]; try done.
  clear Hk. simpl in Ht.
  pose proof (acked_jobs _ _ _ H) as Hjobs. rewrite Hq in Hjobs.
  apply Forall_cons in Hjobs as [Hx _]. simpl in Hx.
  unfold createWorker_resume2 in Ht. simpl in Ht.
  destruct (frames s !! f) as [fr|] eqn:Hf.
  2: { change (trace s = trace s ++ evs) in Ht.
       rewrite <- (app_nil_r (trace s)) in Ht at 1. apply app_inv_head in Ht as <-. done. }
  destruct (cts fr) eqn:Hc.
  { change (trace s = trace s ++ evs) in Ht.
    rewrite <- (app_nil_r (trace s)) in Ht at 1. apply app_inv_head in Ht as <-. done. }
  simpl in Ht. rewrite <- !app_assoc in Ht. apply app_inv_head in Ht as <-.
  destruct Hx as [Hx|(fr' & q & Hf' & Hw & HA)].
  { simpl in Hx. by rewrite Hf, Hc in Hx. }
  rewrite Hf in Hf'. injection Hf' as <-.
  pose proof (ch_frames _ _ Hch _ _ Hf) as Hok. unfold chan_ok in Hok. rewrite Hw in Hok.
  destruct (windowPort fr) as [p'|]; [|done]. destruct Hok as (_ & -> & _).
  assert (cfg = configuration fr ∧ p = p') as [-> ->].
  { destruct (idx - length (trace s)) as [|[|?]]; simpl in Hl; [done| |done].
    by injection Hl as _ <- <-. }
  destruct HA as (pre & w & data & post & nonce & Hin & Hid & Hn & Hpost).
  exists pre, w, data, (post ++ [Microtask]), nonce.
  split; [by rewrite Hin, <- app_assoc|]. split; [done|]. split; [done|]. split; [done|].
  assert (trace (run hash bootstrapForkPath initial (pre ++ [OnMessage w data]))
            `prefix_of` trace s) as Hpre.
  { unfold s. rewrite Hin. rewrite (cons_middle _ pre post), app_assoc.
    rewrite (run_app initial (pre ++ [OnMessage w data]) post).
    apply later_trace, later_run. }
  apply prefix_length in Hpre. lia.
Qed.

(** ** The registry of process handles *)

(** The [processes] map holds exactly the handles that were not disposed:
    an activation of [createWorker] is registered, under the hash of its
    configuration, as long as its cancellation source has not been
    triggered, and no other entry exists. *)
Theorem registered_iff_live inputs h f :
  let s := run hash bootstrapForkPath initial inputs in
  processes s !! h = Some f ↔
  ∃ fr, frames s !! f = Some fr ∧ hash (configuration fr) = h ∧ cts fr = false.
Proof. cbn zeta. apply handles_ok_run, handles_ok_initial. Qed.

End Properties.

(** ** Instances *)

(** A process is created and acknowledged: the window port reaches the
    relay and the call returns. *)
Example createWorker_relays_port :
  let s := exampleRun
    [CallCreateWorker exampleConfiguration; OnMessage 0 readyMessage;
     Microtask; Microtask; Microtask; Microtask;
     OnMessage 0 (ackMessage (Some (generateUuid 0))); Microtask; Microtask; Microtask] in
  last (trace s) =
    Some (EvIpcPostMessage "vscode:relaySharedProcessWorkerMessageChannel"
            exampleConfiguration [0]) ∧
  returned <$> frames s !! 0 = Some true ∧ microtasks s = [].
Proof. by vm_compute. Qed.

(** Two calls for one module while the [Worker] is loading: one [Worker],
    and both activations wait on the one stored promise. *)
Example one_worker_while_pending :
  let s := exampleRun
    [CallCreateWorker exampleConfiguration; CallCreateWorker sameModuleConfiguration] in
  newWorkerCount (trace s) = 1 ∧
  workers s !! "m1" = Some 0 ∧
  promises s !! 0 = Some (Pending [KCreateWorker1 0; KCreateWorker1 1]).
Proof. by vm_compute. Qed.

(** The key is the module id: two modules of one type get a [Worker] each. *)
Example one_worker_per_module :
  let s := exampleRun
    [CallCreateWorker exampleConfiguration; CallCreateWorker otherModuleConfiguration] in
  newWorkerCount (trace s) = 2 ∧ workers s !! "m1" = Some 0 ∧ workers s !! "m2" = Some 1.
Proof. by vm_compute. Qed.

Lemma disposeWorker_unregistered_witness :
  disposeWorker exampleHash exampleConfiguration initial = initial ∧
  step exampleHash "bootstrap-fork" initial (CallDisposeWorker exampleConfiguration) = initial.
Proof.
  apply (disposeWorker_unregistered exampleHash "bootstrap-fork" exampleConfiguration initial).
  reflexivity.
Defined.

Lemma ack_without_nonce_witness :
  mapMessageNonceToMessageResolve <$> webWorkers emptyKeyState !! 0 = Some {[ "" := 0 ]} ∧
  onmessage 0 (ackMessage (Some "")) emptyKeyState = emptyKeyState.
Proof.
  split; [reflexivity|].
  apply (ack_without_nonce 0 (ackMessage (Some "")) emptyKeyState); [reflexivity|].
  right; reflexivity.
Defined.

Lemma send_cancelled_witness :
  isCancellationRequested (TokenOf 0) disposedWhileSpawning = true ∧
  trace (send_resume 0 spawnMessage (TokenOf 0) (Some 1) 1 (Some 0) disposedWhileSpawning)
  = trace disposedWhileSpawning.
Proof.
  split; [reflexivity|].
  pose proof (send_cancelled 0 spawnMessage (TokenOf 0) (Some 1) (Some 0)
                workerAcquired disposedWhileSpawning) as H.
  destruct H as (_ & (H & _) & _); [reflexivity|by eexists|exact H].
Defined.

Lemma createWorker_cancelled_witness :
  isCancellationRequested (TokenOf 0) disposedWhileAcquiring = true ∧
  trace (createWorker_resume1 "bootstrap-fork" 0 (Some 0) disposedWhileAcquiring)
  = trace disposedWhileAcquiring ∧
  returned <$> frames (createWorker_resume1 "bootstrap-fork" 0 (Some 0)
                         disposedWhileAcquiring) !! 0 = Some true.
Proof.
  split; [reflexivity|].
  pose proof (createWorker_cancelled "bootstrap-fork" 0 (Some 0) disposedWhileAcquiring) as H.
  destruct H as ((H1 & _ & _ & _ & _ & H2) & _); [reflexivity|].
  split; [exact H1|exact H2].
Defined.

Lemma ack_resolves_once_witness :
  let s := exampleRun spawningInputs in
  let data := ackMessage (Some (generateUuid 0)) in
  let s' := onmessage 0 data s in
  pendingEntry s 0 (generateUuid 0) = Some 2 ∧
  trace s' = trace s ++ [EvMessageAwaiter 2] ∧
  (∃ v, promises s' !! 2 = Some (Fulfilled v)) ∧
  pendingEntry s' 0 (generateUuid 0) = None ∧
  onmessage 0 data s' = s'.
Proof.
  cbn zeta. split; [vm_compute; reflexivity|].
  pose proof (ack_resolves_once exampleHash "bootstrap-fork" (exampleRun spawningInputs)
                0 None (Some (generateUuid 0))) as [H _].
  cbn zeta in H.
  assert ((if truthy (Some (generateUuid 0))
           then Some (generateUuid 0) ≫= pendingEntry (exampleRun spawningInputs) 0
           else None) = Some 2) as E by (vm_compute; reflexivity).
  rewrite E in H. destruct H as (Ht & Hf & Hn & Hi).
  split; [exact Ht|]. split; [apply Hf; vm_compute; lia|].
  split; [|exact Hi]. rewrite Hn. clear. apply decide_True. split; reflexivity.
Defined.

(** After a [createWorker] that is disposed at once, the workers and the job
    queue take the service through the four phases and nowhere else, and add
    log entries only. *)
Lemma phaseState_step ph t i :
  workerTurn i = true →
  ∃ ph' t',
    step exampleHash "bootstrap-fork" (phaseState ph t) i = phaseState ph' t' ∧
    (t' = t ∨ ∃ e, t' = t ++ [e] ∧ postsTerminate e = false).
Proof.
  intros Hturn.
  assert (∀ ph', ∃ ph'' t', phaseState ph' t = phaseState ph'' t' ∧
            (t' = t ∨ ∃ e, t' = t ++ [e] ∧ postsTerminate e = false)) as Hsame.
  { intros ph'. exists ph', t. by split; [|left]. }
  assert (∀ e, postsTerminate e = false →
            ∃ ph'' t', emit e (phaseState ph t) = phaseState ph'' t' ∧
              (t' = t ∨ ∃ e, t' = t ++ [e] ∧ postsTerminate e = false)) as Hlog.
  { intros e He. exists ph, (t ++ [e]). split; [by destruct ph|right; eauto]. }
  destruct i as [cfg|cfg|w data|w message|w|]; try discriminate.
  - (* a message of a worker *)
    destruct w as [|w]; [|apply Hsame].
    destruct data as [id message nonce].
    change (step exampleHash "bootstrap-fork" (phaseState ph t)
              (OnMessage 0 {| FromWorker.id := id; FromWorker.message := message;
                              FromWorker.nonce := nonce |}))
      with (onmessage 0 {| FromWorker.id := id; FromWorker.message := message;
                           FromWorker.nonce := nonce |} (phaseState ph t)).
    unfold onmessage, logService. simpl webWorkers. simpl lookup. cbn iota. simpl FromWorker.id.
    destruct id; try (by apply Hlog).
    + (* Ready *)
      destruct ph; [by exists Loaded, t; split; [|left]|apply Hsame..].
    + (* Ack *)
      unfold onAck. destruct (truthy _); [|apply Hsame].
      destruct nonce as [n|]; simpl; [|apply Hsame].
      rewrite lookup_empty. apply Hsame.
    + (* Info *)
      simpl. destruct (truthy message); [by apply Hlog|apply Hsame].
  - destruct w as [|w]; [by apply Hlog|apply Hsame].
  - destruct w as [|w]; [by apply Hlog|apply Hsame].
  - (* a job *)
    destruct ph.
    + apply Hsame.
    + exists Acquired, t. by split; [|left].
    + exists Returned, t. by split; [|left].
    + apply Hsame.
Qed.

Lemma phaseState_run more : ∀ ph t,
  forallb workerTurn more = true →
  forallb (λ e, negb (postsTerminate e)) t = true →
  ∃ ph' t', run exampleHash "bootstrap-fork" (phaseState ph t) more = phaseState ph' t' ∧
            forallb (λ e, negb (postsTerminate e)) t' = true.
Proof.
  induction more as [|i more IH]; intros ph t Hturns Ht; [by eauto|].
  simpl in Hturns. apply andb_prop in Hturns as [Hturn Hturns].
  destruct (phaseState_step ph t i Hturn) as (ph' & t' & Hstep & Ht').
  rewrite run_cons, Hstep. apply IH; [done|].
  destruct Ht' as [->|(e & -> & He)]; [done|].
  rewrite forallb_app. simpl. by rewrite Ht, He.
Qed.

(** C4 fails as stated: a handle disposed while its activation still awaits
    the web worker sends no terminate message, whatever the workers and the
    job queue do afterwards. *)
Lemma terminate_not_always_transmitted :
  ¬ terminate_always_transmitted exampleHash "bootstrap-fork".
Proof.
  intros Hall.
  destruct (Hall [CallCreateWorker exampleConfiguration] exampleConfiguration 0
              awaitingFrame eq_refl eq_refl) as (more & Hturns & i & w & nonce & Hi).
  set (t0 := trace (disposeWorker exampleHash exampleConfiguration
                      (run exampleHash "bootstrap-fork" initial
                         [CallCreateWorker exampleConfiguration]))).
  replace (disposeWorker exampleHash exampleConfiguration
             (run exampleHash "bootstrap-fork" initial
                [CallCreateWorker exampleConfiguration]))
    with (phaseState Loading t0) in Hi by (vm_compute; reflexivity).
  destruct (phaseState_run more Loading t0 Hturns ltac:(vm_compute; reflexivity))
    as (ph' & t' & Hrun & Ht').
  rewrite Hrun in Hi. simpl in Hi.
  apply list_elem_of_lookup_2, list_elem_of_In in Hi.
  apply (proj1 (forallb_forall _ _) Ht') in Hi. discriminate.
Qed.

Lemma terminate_transmitted_when_acquired_witness :
  let s := exampleRun recreatedInputs in
  let s1 := disposeWorker exampleHash exampleConfiguration s in
  let n := length (microtasks s) in
  let ret := length (promises s) in
  (processes s !! exampleHash exampleConfiguration = Some 1 ∧
   trace s !! 9 =
     Some (EvPostMessage 0
             (PostMessage (terminateMessage exampleConfiguration (Some (generateUuid 1))))
             []) ∧
   length (trace s1) = 16 ∧
   trace (run exampleHash "bootstrap-fork" s1 (replicate (S n) Microtask)) !! 16 =
     Some (EvPostMessage 0
             (PostMessage (terminateMessage exampleConfiguration (Some (generateUuid 3))))
             [])) ∧
  microtasks s1 = microtasks s ++ [terminateJob 0 (configuration recreatedFrame) ret] ∧
  terminate_job_transmits exampleHash "bootstrap-fork" s1 n 0
    (configuration recreatedFrame) ret.
Proof.
  cbn zeta. split; [vm_compute; repeat split|].
  pose proof (terminate_transmitted_when_acquired exampleHash "bootstrap-fork"
                recreatedInputs exampleConfiguration 1 recreatedFrame
                ltac:(vm_compute; reflexivity) ltac:(vm_compute; reflexivity))
    as [_ [H _]].
  exact H.
Defined.



Lemma live_ports_stay_open_witness :
  processes (exampleRun spawningInputs) !! exampleHash exampleConfiguration = Some 0 ∧
  windowPort <$> frames (exampleRun spawningInputs) !! 0 = Some (Some 0) ∧
  EvPortClose 0 ∉ trace (exampleRun spawningInputs).
Proof.
  split; [vm_compute; reflexivity|]. split; [vm_compute; reflexivity|].
  apply (live_ports_stay_open exampleHash "bootstrap-fork" spawningInputs
           (exampleHash exampleConfiguration) 0 spawningFrame 0);
    [vm_compute; reflexivity|vm_compute; reflexivity|left; reflexivity].
Defined.

Lemma relayed_port_is_window_port_witness :
  let s := exampleRun relayInputs in
  trace s !! 8 = Some (EvIpcPostMessage "vscode:relaySharedProcessWorkerMessageChannel"
                         exampleConfiguration [0]) ∧
  ∃ f fr p, frames s !! f = Some fr ∧ configuration fr = exampleConfiguration ∧
            returned fr = true ∧ windowPort fr = Some p ∧ workerPort fr = Some (S p) ∧
            [0] = [p].
Proof.
  cbn zeta. split; [vm_compute; reflexivity|].
  apply (relayed_port_is_window_port exampleHash "bootstrap-fork" relayInputs
           "vscode:relaySharedProcessWorkerMessageChannel" exampleConfiguration [0]).
  apply (list_elem_of_lookup_2 _ 8). vm_compute. reflexivity.
Defined.

Lemma posted_message_shape_witness :
  let s := exampleRun spawningInputs in
  let m := withNonce spawnMessage (generateUuid 0) in
  trace s !! 5 = Some (EvPostMessage 0 (PostMessage m) [1]) ∧
  ((∃ cfg nonce, m = terminateMessage cfg (Some nonce) ∧ [1] = []) ∨
   (∃ f fr p nonce,
      frames s !! f = Some fr ∧ windowPort fr = Some p ∧ workerPort fr = Some (S p) ∧
      [1] = [S p] ∧
      m = withNonce (spawnMessageOf "bootstrap-fork" (configuration fr)) nonce)).
Proof.
  cbn zeta. split; [vm_compute; reflexivity|].
  apply (posted_message_shape exampleHash "bootstrap-fork" spawningInputs 0).
  apply (list_elem_of_lookup_2 _ 5). vm_compute. reflexivity.
Defined.

Lemma no_message_before_ready_witness :
  let s := exampleRun spawningInputs in
  trace s !! 5 =
    Some (EvPostMessage 0 (PostMessage (withNonce spawnMessage (generateUuid 0))) [1]) ∧
  isReady s 0.
Proof.
  cbn zeta. split; [vm_compute; reflexivity|].
  apply (no_message_before_ready exampleHash "bootstrap-fork" spawningInputs 0
           (withNonce spawnMessage (generateUuid 0)) [1]).
  apply (list_elem_of_lookup_2 _ 5). vm_compute. reflexivity.
Defined.

Lemma send_ack_round_trip_witness :
  let s := exampleRun sendingInputs in
  let s1 := send_resume 0 spawnMessage (TokenOf 0) (Some 1) 1 (Some 0) s in
  let s2 := onmessage 0 (ackMessage (Some (generateUuid (uuids s)))) s1 in
  (0 < length (webWorkers s) ∧ isCancellationRequested (TokenOf 0) s = false) ∧
  tables s2 = tables s.
Proof.
  cbn zeta. split; [split; [vm_compute; lia|vm_compute; reflexivity]|].
  pose proof (send_ack_round_trip exampleHash "bootstrap-fork" sendingInputs
                0 spawnMessage (TokenOf 0) (Some 1) 1 0 None
                ltac:(vm_compute; lia) ltac:(vm_compute; reflexivity)) as (_ & _ & H & _).
  exact H.
Defined.

Lemma relay_after_spawn_witness :
  let t := trace (exampleRun relayInputs) in
  t !! 8 = Some (EvIpcPostMessage "vscode:relaySharedProcessWorkerMessageChannel"
                   exampleConfiguration [0]) ∧
  ∃ j w nonce,
    j < 8 ∧
    t !! j = Some (EvPostMessage w
                     (PostMessage (withNonce (spawnMessageOf "bootstrap-fork"
                                                exampleConfiguration) nonce)) [1]).
Proof.
  cbn zeta. split; [vm_compute; reflexivity|].
  apply (relay_after_spawn exampleHash "bootstrap-fork" relayInputs 8
           "vscode:relaySharedProcessWorkerMessageChannel" exampleConfiguration 0).
  vm_compute. reflexivity.
Defined.

Lemma terminate_only_disposed_witness :
  let s := exampleRun disposingInputs in
  let m := terminateMessage exampleConfiguration (Some (generateUuid 1)) in
  trace s !! 9 = Some (EvPostMessage 0 (PostMessage m) []) ∧
  ∃ f fr nonce,
    frames s !! f = Some fr ∧ cts fr = true ∧
    m = terminateMessage (configuration fr) (Some nonce).
Proof.
  cbn zeta. split; [vm_compute; reflexivity|].
  apply (terminate_only_disposed exampleHash "bootstrap-fork" disposingInputs 0 _ []).
  - apply (list_elem_of_lookup_2 _ 9). vm_compute. reflexivity.
  - reflexivity.
Defined.

Lemma relay_after_ack_witness :
  trace (exampleRun relayInputs) !! 8
    = Some (EvIpcPostMessage "vscode:relaySharedProcessWorkerMessageChannel"
              exampleConfiguration [0]) ∧
  ∃ pre w data post nonce,
    relayInputs = pre ++ OnMessage w data :: post ∧
    FromWorker.id data = WorkerAck ∧ FromWorker.nonce data = Some nonce ∧
    EvPostMessage w
      (PostMessage (withNonce (spawnMessageOf "bootstrap-fork" exampleConfiguration) nonce))
      [1]
      ∈ trace (exampleRun pre) ∧
    length (trace (exampleRun (pre ++ [OnMessage w data]))) ≤ 8.
Proof.
  split; [vm_compute; reflexivity|].
  apply (relay_after_ack exampleHash "bootstrap-fork" relayInputs 8
           "vscode:relaySharedProcessWorkerMessageChannel" exampleConfiguration 0).
  vm_compute. reflexivity.
Defined.
